(* ===== verification/_CoqProject ===== *)
-Q . S2P
Prelude.v
Utf8.v
ListSpec.v
LinkedList.v
Tree.v
TreeShape.v
TreeBalance.v
TreeOps.v
Packet.v
SocketBuffer.v
Socket.v
Reader.v
Writer.v
Wire.v
World.v
Persistence.v
Send.v
Store.v
Session.v
Protocol.v
Footprint.v
Memory.v
Sending.v
Steps.v
Ids.v
Handlers.v
Receiver.v
Sender.v
Closing.v
Restore.v
Client.v
Live.v
Pending.v
Retry.v
Dispatch.v
Incoming.v
Clock.v
Cycle.v
Yield.v
Completion.v
Api.v
Recovery.v
FileSystem.v
FileStore.v
Durability.v
ExactlyOnce.v
Scenario.v
LoopScenario.v
