(* ===== verification/Prelude.v ===== *)
(** * Verification of the MQTT messaging core

    The repository is a C++ client of the IBM Watson IoT Platform.  Its C++
    classes are thin; the work is done by the MQTT client library in C under
    [src/lib], and this development is about that library: the synchronous client
    of [MQTTClient.c] and everything below it.  It models the build without TLS
    ([OPENSSL] undefined) and with persistence, on a 64-bit POSIX system, used by
    one thread.

    ** The program

    An application calls [MQTTClient_connect], [MQTTClient_publish],
    [MQTTClient_receive] and so on.  Each call changes the session of a client
    (its messages in flight and its delivery queue) and runs the network loop
    [MQTTClient_cycle] until what it waits for has happened.  One round of the
    loop completes unfinished writes, waits for a socket with [select], reads one
    packet if all of its bytes have arrived, hands it to the handler of its type,
    and then looks after keep-alive and retries.  A client whose connection
    fails is hung up; its session is kept in memory and in the persistent store,
    unless it is a clean session.  All of this is built on linked lists whose
    elements carry the address of the structure that they list.

    ** How the model is made

    An operation is a function in the monad [M] of this file: it takes the state
    and returns a result and the next state, or [None] when the C code has
    undefined behaviour (a null, freed or foreign pointer, a read or write outside
    an object) or, in a loop with fuel, when the fuel is used up.  A theorem that
    says that a call returns [Some] therefore says that the call ends and does
    not go wrong.  C integers are [Z] with the wrap-around of their width
    written out.  Structures that are shared through pointers live in stores
    ([gmap]) indexed by addresses, and [malloc] and [free] add and remove entries;
    strings and buffers with one owner are values.  The fields that [malloc]
    leaves uninitialised come from the variables [junk] and [uninit], and the
    theorems hold for all their values.

    The operating system is the class [Socket.Kernel]: system calls with their
    results, over an abstract kernel state.  [KernelLaws] says what the code
    relies on: [recv] and [writev] move a prefix of a byte stream, and [writev]
    at most as much as an [int] counts.  [ClockLaws] is about the clock that
    [gettimeofday] reads.  The clock may stand still, be set back or jump; what is
    assumed is that before it reads a given time it can be looked at only a
    bounded number of times.  POSIX promises no such thing, and without it the
    loops that wait for the clock need not end: only the theorems about these
    loops use it.  [skernel], a kernel that follows a script, is an instance of
    all three, and the witnesses run on it.

    A persistence implementation is the record [World.MQTTClient_persistence].
    Nothing is assumed of it, and the theorems about single operations say what is
    asked of it whatever it answers; the code ignores the codes that its calls
    return.  What survives a crash ([Recovery], [Durability]) depends on a store that
    works: [Recovery.StoreLaws] says that the store is a map from keys to records
    as long as it is in working order.  The default implementation of the library is
    an instance ([FileStore]), where the order of its directory includes that the
    device has room.

    ** The files

    Foundations:
    - [Prelude]: integers, bytes, buffers, the monad and its stepping tactics.
    - [ListSpec] and [LinkedList] ([LinkedList.c]): the abstract list with its
      current element, and the proof that the pointer code refines it.  The other
      components use the abstract list.
    - [Tree] ([Tree.c]): red-black trees over nodes with parent pointers.
      [TreeShape] relates them to inductive trees, [TreeBalance] is about the
      rotations, and [TreeOps] proves that a history of operations answers as on a
      sorted list.
    - [Utf8] ([utf-8.c]): validation accepts exactly the well-formed strings.

    The network:
    - [Packet] ([MQTTPacket.c], [MQTTPacketOut.c]): reading and writing packets.
    - [SocketBuffer] ([SocketBuffer.c]) and [Socket] ([Socket.c]): resumable reads,
      interrupted writes, selection, opening and closing.
    - [Reader] and [Writer]: a packet is read, and a message is written, once and
      in order however the network splits them.
    - [Wire]: what a network operation needs and keeps in any state
      ([net_safe], [owned]).

    The state and the protocol:
    - [World] ([Clients.h], [Clients.c], [MQTTProtocol.h]): the state of the
      library.
    - [Persistence] and [Restore] ([MQTTPersistence.c]): keys, records, and the
      restoration of sessions.
    - [FileSystem] and [FileStore] ([MQTTPersistenceDefault.c]): the calls of the
      file system, with a model in memory, and the default persistence, which
      keeps a map of records in a directory.
    - [Send] ([MQTTPacket_Factory] and the send functions; a publish goes out
      through a [Transport], of which [Socket_putdatas] is the instance), [Store]
      (publications and messages in flight), [Protocol] ([MQTTProtocolClient.c],
      [MQTTProtocolOut.c]: ids, handlers, keep-alive, retry, connect), [Session]
      and [Client] ([MQTTClient.c]).

    The theory of the protocol:
    - [Memory]: the ownership invariant [winv]: every message, publication and
      queue entry has exactly one owner.  [session_of] maps a client to its
      abstract session: the messages received, the messages sent and the
      delivery queue.
    - [Footprint], [Sending], [Steps]: what operations can touch at all, and the
      changes of sessions that the handlers are made of.
    - [Ids], [Handlers], [Receiver], [Sender], [Closing]: each operation does the
      transition of the abstract session that it should, on every branch.
    - [Recovery], [Durability], [ExactlyOnce]: restarting after a crash, the store
      as a mirror of the session, and the delivery of QoS 2 messages over any
      sequence of packets.

    The running library:
    - [Live]: the invariant [live] between rounds of the loop, and the preorder
      [turn]: each client is left as it is or hung up, nothing else.
    - [Pending], [Retry], [Dispatch], [Incoming]: the parts of a round.
    - [Clock]: the looks at the clock that are left do not become more while the
      loop runs.
    - [Cycle]: the abstract client [link] (off, on with the packets that are
      still to come, or failed) and one round as a step of it; [Yield] and
      [Completion] for the loops around it; [Api] for the calls of the
      application.
    - [Scenario] and [LoopScenario]: concrete states on which the theorems are
      instantiated and the operations are run by evaluation.

    ** Fuel and bounds

    Loops over lists recurse on the list.  Loops that wait for the network or for
    the clock take fuel: [MQTTClient_yield], for instance, needs as much fuel as
    there can be looks at the clock before 100 milliseconds are over, and with that
    it returns ([Yield.yield_returns]).  The search for a message id takes one unit
    for each id, which is enough unless the code itself does not end
    ([Ids.assignMsgId_spec]).  Clock values are below [clock_end], so that the
    computations of elapsed times do not overflow.

    ** Simplifications

    - [LinkedList.ListInsert] and the other list operations count elements and bytes
      without a limit: a list of 2^31 elements is not reached.
    - The buffers of a pending write are kept by value.  The code keeps pointers to
      the topic and payload of the stored publication, which
      [SocketBuffer_updateWrite] redirects when the publication is stored; that
      they stay allocated is not part of the model of a write.
    - [MQTTProtocol_assignMsgId] tries each id once and then has no result: the loop
      of the code does not end in that case.
    - A search that compares an element whose content is not allocated finds it
      different; the invariant [winv] excludes such elements.
    - With timeout 0 the loop of [MQTTClient_disconnect1] that waits for messages in
      flight ends at once when two looks at the clock in a row are in order
      ([Yield.disconnect_wait_now]); [MQTTClient_disconnect_internal] leaves it out.

    ** What is not modelled, and what comes next

    - Mutexes and semaphores, the thread [MQTTClient_run] and the calls that only
      it makes: the model is of the single-threaded use.
    - Logging ([Log.c], [Messages.c], [StackTrace.c]) and the accounting of the
      heap ([Heap.c]): they do not influence the protocol.
    - [MQTTAsync.c], a second client over the same protocol with its own command
      queue and threads; the functions below it are the same, so that a model of
      it would start from [Handlers], [Receiver] and [Live].
    - [SSLSocket.c], the C++ classes, jsoncpp and log4cpp. *)

From Stdlib Require Import ZArith Lia List.
From stdpp Require Export base list gmap strings option fin_maps pretty.
From stdpp Require Import tactics.

#[global] Open Scope Z_scope.
#[global] Set Default Goal Selector "!".

(** * C integers and bytes *)

(** A byte of a buffer, as the unsigned value 0..255. *)
Abbreviation byte := Z (only parsing).

Definition is_byte (b : Z) : Prop := 0 <= b < 256.
Abbreviation bytes_ok := (Forall is_byte).

(** [(char)z] stored in a buffer: the low eight bits. *)
Definition to_char (z : Z) : Z := z mod 256.

(** The value of a byte read through a signed [char], as on the platforms the
    library is built for. *)
Definition schar (b : Z) : Z := if b <? 128 then b else b - 256.

(** [int] is 32 bits wide, two's complement. *)
Definition int_wrap (z : Z) : Z := (z + 2 ^ 31) mod 2 ^ 32 - 2 ^ 31.
Definition in_int (z : Z) : Prop := - 2 ^ 31 <= z < 2 ^ 31.
(** [unsigned int] and [size_t]. *)
Definition uint_wrap (z : Z) : Z := z mod 2 ^ 32.
Definition size_wrap (z : Z) : Z := z mod 2 ^ 64.

Lemma int_wrap_id z : in_int z -> int_wrap z = z.
Proof. unfold in_int, int_wrap. intros. rewrite Z.mod_small; lia. Qed.

(** A sum wraps around once, whatever has wrapped around before. *)
Lemma int_wrap_quot z : exists q, int_wrap z = z + 2 ^ 32 * q.
Proof. exists (- ((z + 2 ^ 31) / 2 ^ 32)). unfold int_wrap. pose proof (Z.div_mod (z + 2 ^ 31) (2 ^ 32)). lia. Qed.
Lemma int_wrap_eq x y : (x - y) mod 2 ^ 32 = 0 -> int_wrap x = int_wrap y.
Proof.
  intros E. unfold int_wrap. f_equal. pose proof (Z.div_mod (x - y) (2 ^ 32)) as D. rewrite E in D.
  replace (x + 2 ^ 31) with (y + 2 ^ 31 + (x - y) / 2 ^ 32 * 2 ^ 32) by lia. apply Z_mod_plus_full.
Qed.

(** Equality of [int] sums in which summands have wrapped around. *)
Ltac wraps :=
  apply int_wrap_eq;
  repeat match goal with |- context [int_wrap ?z] => destruct (int_wrap_quot z) as [? ->] end;
  match goal with |- ?e mod _ = 0 =>
    pose proof (Z.div_mod e (2 ^ 32)); pose proof (Z.mod_pos_bound e (2 ^ 32)); lia
  end.

Lemma int_wrap_range z : in_int (int_wrap z).
Proof.
  unfold in_int, int_wrap.
  pose proof (Z.mod_pos_bound (z + 2 ^ 31) (2 ^ 32)). lia.
Qed.

Lemma to_char_byte z : is_byte (to_char z).
Proof. unfold is_byte, to_char. apply Z.mod_pos_bound. lia. Qed.

Lemma to_char_id b : is_byte b -> to_char b = b.
Proof. unfold is_byte, to_char. intros. by apply Z.mod_small. Qed.

#[global] Instance is_byte_dec b : Decision (is_byte b).
Proof. unfold is_byte. apply _. Defined.

(** Checking a property of bytes on all of them. *)
Lemma byte_forall (P : Z -> bool) :
  forallb P (seqZ 0 256) = true -> forall b, is_byte b -> P b = true.
Proof.
  intros H b Hb. rewrite forallb_forall in H. apply H.
  apply list_elem_of_In, elem_of_seqZ. unfold is_byte in Hb. lia.
Qed.

(** Checking a decidable property of the integers below a bound. *)
Lemma range_forall (n : Z) (P : Z -> bool) :
  forallb P (seqZ 0 n) = true -> forall b, 0 <= b < n -> P b = true.
Proof.
  intros H b Hb. rewrite forallb_forall in H. apply H.
  apply list_elem_of_In, elem_of_seqZ. lia.
Qed.

(** * Lengths as [Z] *)
Definition zlen {A} (l : list A) : Z := Z.of_nat (length l).

Lemma zlen_nonneg {A} (l : list A) : 0 <= zlen l.
Proof. unfold zlen. lia. Qed.
Lemma zlen_app {A} (l k : list A) : zlen (l ++ k) = zlen l + zlen k.
Proof. unfold zlen. rewrite length_app. lia. Qed.
Lemma zlen_cons {A} (x : A) l : zlen (x :: l) = 1 + zlen l.
Proof. unfold zlen. simpl. lia. Qed.
Lemma zlen_nil {A} : zlen (@nil A) = 0.
Proof. done. Qed.

Create HintDb cmodel.
Create Rewrite HintDb cmodel.
#[export] Hint Rewrite @zlen_app @zlen_cons @zlen_nil : cmodel.
#[export] Hint Resolve zlen_nonneg to_char_byte int_wrap_range : cmodel.

(** [l[i]] for a C index: [None] is a read outside the object. *)
Definition nthz {A} (l : list A) (i : Z) : option A :=
  if bool_decide (0 <= i) then l !! Z.to_nat i else None.

Lemma nthz_app_l {A} (l k : list A) i :
  0 <= i < zlen l -> nthz (l ++ k) i = nthz l i.
Proof.
  unfold zlen, nthz. intros. rewrite bool_decide_true by lia.
  apply lookup_app_l. lia.
Qed.

Lemma nthz_app_r {A} (l k : list A) i :
  zlen l <= i -> nthz (l ++ k) i = nthz k (i - zlen l).
Proof.
  unfold zlen, nthz. intros. rewrite !bool_decide_true by lia.
  rewrite lookup_app_r by lia. f_equal. lia.
Qed.

Lemma nthz_0 {A} (x : A) l : nthz (x :: l) 0 = Some x.
Proof. done. Qed.

Lemma nthz_succ {A} (x : A) l i : 0 < i -> nthz (x :: l) i = nthz l (i - 1).
Proof.
  intros. unfold nthz. rewrite !bool_decide_true by lia.
  replace (Z.to_nat i) with (S (Z.to_nat (i - 1))) by lia. done.
Qed.

Lemma nthz_Some {A} (l : list A) i x : nthz l i = Some x -> 0 <= i < zlen l.
Proof.
  unfold nthz, zlen. case_bool_decide; [|done].
  intros ?%lookup_lt_Some. lia.
Qed.

Lemma nthz_is_Some {A} (l : list A) i :
  0 <= i < zlen l -> is_Some (nthz l i).
Proof.
  unfold nthz, zlen. intros. rewrite bool_decide_true by lia.
  apply lookup_lt_is_Some. lia.
Qed.

(** The bytes [l[i .. i+n-1]]; [None] when the range leaves the object. *)
Definition subz {A} (l : list A) (i n : Z) : option (list A) :=
  if bool_decide (0 <= i /\ 0 <= n /\ i + n <= zlen l)
  then Some (take (Z.to_nat n) (drop (Z.to_nat i) l)) else None.

Lemma subz_app {A} (pre mid post : list A) i n :
  i = zlen pre -> n = zlen mid -> subz (pre ++ mid ++ post) i n = Some mid.
Proof.
  intros -> ->. unfold subz.
  pose proof (zlen_nonneg pre). pose proof (zlen_nonneg mid).
  rewrite bool_decide_true.
  2: { rewrite !zlen_app. pose proof (zlen_nonneg post). lia. }
  unfold zlen. rewrite !Nat2Z.id, drop_app_length, take_app_length. done.
Qed.

(** * Stateful code that may go wrong *)

(** A computation over a state [S]: [None] stands for undefined behaviour of
    the C code (a read or write outside an object, a null or dangling
    pointer). *)
Definition M (S A : Type) : Type := S -> option (A * S).

#[global] Instance M_ret S : MRet (M S) := fun A a s => Some (a, s).
#[global] Instance M_bind S : MBind (M S) := fun A B f m s =>
  match m s with Some (a, s') => f a s' | None => None end.

Definition gets {S A} (f : S -> A) : M S A := fun s => Some (f s, s).
Definition modify {S} (f : S -> S) : M S unit := fun s => Some (tt, f s).
(** A partial read of the state: undefined when the object is not there. *)
Definition load {S A} (f : S -> option A) : M S A :=
  fun s => match f s with Some a => Some (a, s) | None => None end.
Definition undefined {S A} : M S A := fun _ => None.
Definition when {S} (b : bool) (m : M S unit) : M S unit :=
  if b then m else mret tt.

(** Running a computation on a part of a larger state. *)
Definition zoom {S T A} (get : T -> S) (put : S -> T -> T) (m : M S A) : M T A :=
  fun t => match m (get t) with
           | Some (a, s) => Some (a, put s t)
           | None => None
           end.

Lemma bind_Some {S A B} (m : M S A) (f : A -> M S B) s r :
  (m ≫= f) s = Some r <-> exists a s', m s = Some (a, s') /\ f a s' = Some r.
Proof.
  unfold mbind, M_bind. split.
  - destruct (m s) as [[a s']|] eqn:E; [|done]. eauto.
  - intros (a & s' & -> & H). done.
Qed.

Lemma bind_step {S A B} (m : M S A) (f : A -> M S B) s a s' :
  m s = Some (a, s') -> (m ≫= f) s = f a s'.
Proof. unfold mbind, M_bind. by intros ->. Qed.

Lemma bind_assoc {S A B C} (m : M S A) (f : A -> M S B) (g : B -> M S C) s :
  ((m ≫= f) ≫= g) s = (m ≫= (fun a => f a ≫= g)) s.
Proof. unfold mbind, M_bind. by destruct (m s) as [[a s']|]. Qed.

Lemma bind_ext {S A B} (m : M S A) (f g : A -> M S B) s : (forall a s', f a s' = g a s') -> (m ≫= f) s = (m ≫= g) s.
Proof. intros E. unfold mbind, M_bind. by destruct (m s) as [[a s']|]. Qed.

Lemma ret_Some {S A} (a : A) (s : S) : (mret a : M S A) s = Some (a, s).
Proof. done. Qed.

Lemma ret_bind {S A B} (a : A) (f : A -> M S B) s : ((mret a : M S A) ≫= f) s = f a s.
Proof. done. Qed.

(** One step of a computation whose first action is known to succeed. *)
Ltac mstep H := rewrite (bind_step _ _ _ _ _ H).
(** Unfolding the state operations applied to a state. *)
Ltac munfold := unfold gets, modify, load, when, undefined, zoom, mret, M_ret in *.
(** Inverting a successful run, action by action. *)
Ltac minv H :=
  repeat match type of H with
  | (_ ≫= _) _ = Some _ =>
      let a := fresh "a" in let s := fresh "s" in let E := fresh "E" in
      apply bind_Some in H; destruct H as (a & s & E & H)
  end.

(** Hoare triples over [M], with total-correctness reading: the computation
    does not go wrong. *)
Definition triple {S A} (P : S -> Prop) (m : M S A) (Q : A -> S -> Prop) : Prop :=
  forall s, P s -> exists a s', m s = Some (a, s') /\ Q a s'.

Lemma triple_bind {S A B} (P : S -> Prop) (m : M S A) (f : A -> M S B) Q R :
  triple P m Q -> (forall a, triple (Q a) (f a) R) -> triple P (m ≫= f) R.
Proof.
  intros Hm Hf s (a & s' & E & HQ)%Hm. mstep E. by apply Hf.
Qed.

Lemma triple_ret {S A} (a : A) (Q : A -> S -> Prop) :
  triple (Q a) (mret a : M S A) Q.
Proof. intros s ?. by exists a, s. Qed.

Lemma triple_conseq {S A} (P P' : S -> Prop) (m : M S A) (Q Q' : A -> S -> Prop) :
  triple P m Q -> (forall s, P' s -> P s) -> (forall a s, Q a s -> Q' a s) ->
  triple P' m Q'.
Proof. intros Hm HP HQ s Hs. destruct (Hm s) as (a & s' & ? & ?); eauto 10. Qed.

(** Addresses of allocated objects. *)
Abbreviation loc := positive.

(** Case analysis on the conditions of a definition. *)
Ltac cases :=
  repeat match goal with
  | |- context [if ?b then _ else _] => destruct b eqn:?
  end.

(** Linear arithmetic with division and modulo by constants. *)
Ltac zdm := Z.div_mod_to_equations; lia.

(** * Bit fields *)

(** Reading and assigning the [width] bits from [pos] of a byte, as the
    compiler does for the bit fields of the packet headers; an assigned value
    is truncated to the field. *)
Definition get_bits (pos width b : Z) : Z := Z.land (Z.shiftr b pos) (Z.ones width).
Definition set_bits (pos width v b : Z) : Z :=
  Z.lor (Z.ldiff b (Z.shiftl (Z.ones width) pos)) (Z.shiftl (Z.land v (Z.ones width)) pos).

Ltac bitwise :=
  apply Z.bits_inj'; intros ? ?;
  repeat first
    [ rewrite Z.land_spec | rewrite Z.lor_spec | rewrite Z.ldiff_spec
    | rewrite Z.shiftr_spec by lia | rewrite Z.shiftl_spec by lia ].

Lemma ones_bit w n : 0 <= w -> Z.testbit (Z.ones w) n = (0 <=? n) && (n <? w).
Proof.
  intros Hw. destruct (Z.leb_spec 0 n) as [Hn|Hn]; simpl.
  - by apply Z.testbit_ones_nonneg.
  - by apply Z.testbit_neg_r.
Qed.

Lemma get_set_bits pos w v b :
  0 <= pos -> 0 <= w -> get_bits pos w (set_bits pos w v b) = v mod 2 ^ w.
Proof.
  intros Hp Hw. rewrite <- Z.land_ones by done. unfold get_bits, set_bits. bitwise.
  rewrite !ones_bit by done. replace (n + pos - pos) with n by lia.
  destruct (0 <=? n), (n <? w), (Z.testbit v n), (Z.testbit b (n + pos)); done.
Qed.

Lemma get_set_bits_other p1 w1 p2 w2 v b :
  0 <= p1 -> 0 <= w1 -> 0 <= p2 -> 0 <= w2 -> p1 + w1 <= p2 \/ p2 + w2 <= p1 ->
  get_bits p1 w1 (set_bits p2 w2 v b) = get_bits p1 w1 b.
Proof.
  intros. unfold get_bits, set_bits. bitwise. rewrite !ones_bit by done.
  destruct (Z.leb_spec 0 n), (Z.ltb_spec n w1), (Z.leb_spec 0 (n + p1 - p2)),
    (Z.ltb_spec (n + p1 - p2) w2), (Z.testbit v (n + p1 - p2)), (Z.testbit b (n + p1));
    simpl; try done; lia.
Qed.

Lemma is_byte_land b : is_byte b <-> Z.land b (Z.ones 8) = b.
Proof.
  unfold is_byte. rewrite Z.land_ones by lia. split.
  - intros. by apply Z.mod_small.
  - intros <-. apply Z.mod_pos_bound. lia.
Qed.

Lemma set_bits_byte pos w v b :
  0 <= pos -> 0 <= w -> pos + w <= 8 -> is_byte b -> is_byte (set_bits pos w v b).
Proof.
  rewrite !is_byte_land. intros ? ? ? Hb. unfold set_bits. rewrite <- Hb at 2. bitwise.
  rewrite !ones_bit by done.
  destruct (Z.leb_spec 0 n), (Z.ltb_spec n 8), (Z.leb_spec 0 (n - pos)),
    (Z.ltb_spec (n - pos) w), (Z.testbit v (n - pos)), (Z.testbit b n); simpl; try done; lia.
Qed.

Lemma get_bits_range pos w b : 0 <= w -> 0 <= get_bits pos w b < 2 ^ w.
Proof. intros. unfold get_bits. rewrite Z.land_ones by done. apply Z.mod_pos_bound. lia. Qed.
