(* ===== verification/Utf8.v ===== *)
(** Model of [lib/utf-8.c]: validation of UTF-8 strings.

    The data pointer of the code is the list of the bytes that are readable
    from it on; it may extend past the [len] bytes of the string, as the memory
    of the process does.  A read past the list is undefined ([None]).  The
    reference definition is the UTF-8 encoding form of the Unicode standard:
    [scalar_encode] of a Unicode scalar value. *)
From S2P Require Import Prelude.

Module Utf8.

(** * The code *)

(** One row of [valid_ranges]: the number of bytes and, for each of them, the
    lower and upper limits, stored in (signed) [char]s. *)
Record range_row := RangeRow { row_len : Z; row_bytes : list (Z * Z) }.

Definition valid_ranges : list range_row :=
  [ RangeRow 1 [(0x00, 0x7F)];
    RangeRow 2 [(0xC2, 0xDF); (0x80, 0xBF)];
    RangeRow 3 [(0xE0, 0xE0); (0xA0, 0xBF); (0x80, 0xBF)];
    RangeRow 3 [(0xE1, 0xEC); (0x80, 0xBF); (0x80, 0xBF)];
    RangeRow 3 [(0xED, 0xED); (0x80, 0x9F); (0x80, 0xBF)];
    RangeRow 3 [(0xEE, 0xEF); (0x80, 0xBF); (0x80, 0xBF)];
    RangeRow 4 [(0xF0, 0xF0); (0x90, 0xBF); (0x80, 0xBF); (0x80, 0xBF)];
    RangeRow 4 [(0xF1, 0xF3); (0x80, 0xBF); (0x80, 0xBF); (0x80, 0xBF)];
    RangeRow 4 [(0xF4, 0xF4); (0x80, 0x8F); (0x80, 0xBF); (0x80, 0xBF)] ].

(** The byte-by-byte loop over one row: it stops at the first byte that is out
    of range, so later bytes are not read. *)
Fixpoint row_matches (bs : list (Z * Z)) (data : list byte) : option bool :=
  match bs with
  | [] => Some true
  | (lower, upper) :: bs' =>
      match data with
      | [] => None
      | c :: data' =>
          if (schar c <? schar lower) || (schar upper <? schar c) then Some false
          else row_matches bs' data'
      end
  end.

(** The loop over the rows of the table. *)
Fixpoint rows_match (rows : list range_row) (charlen : Z) (data : list byte) : option bool :=
  match rows with
  | [] => Some false
  | row :: rows' =>
      if row_len row =? charlen then
        match row_matches (row_bytes row) data with
        | None => None
        | Some true => Some true
        | Some false => rows_match rows' charlen data
        end
      else rows_match rows' charlen data
  end.

(** How many bytes the first byte announces. *)
Definition char_length (c : byte) : Z :=
  if Z.land c 128 =? 0 then 1
  else if Z.land c 0xF0 =? 0xF0 then 4
  else if Z.land c 0xE0 =? 0xE0 then 3
  else 2.

(** The result is the returned pointer: [Some (Some rest)] is the pointer to
    [rest], [Some None] is [NULL]. *)
Definition UTF8_char_validate (len : Z) (data : list byte) : option (option (list byte)) :=
  c ← head data;
  let charlen := char_length c in
  if len <? charlen then Some None
  else
    good ← rows_match valid_ranges charlen data;
    if good : bool then Some (Some (drop (Z.to_nat charlen) data)) else Some None.

(** The [while] loop of [UTF8_validate]; [start] is the number of readable
    bytes at [data], so [start - zlen cur] is [curdata - data]. *)
Fixpoint UTF8_validate_loop (fuel : nat) (len start : Z) (cur : option (list byte)) :
    option (option (list byte)) :=
  match cur with
  | None => Some None
  | Some d =>
      if start - zlen d <? len then
        match fuel with
        | O => None
        | S fuel' =>
            cur' ← UTF8_char_validate len d;
            UTF8_validate_loop fuel' len start cur'
        end
      else Some (Some d)
  end.

Definition UTF8_validate (len : Z) (data : list byte) : option Z :=
  if len =? 0 then Some 1
  else
    cur ← UTF8_char_validate len data;
    cur' ← UTF8_validate_loop (length data) len (zlen data) cur;
    Some (match cur' with Some _ => 1 | None => 0 end).

(** [strlen]: the offset of the first NUL. *)
Fixpoint strlen (s : list byte) : option Z :=
  match s with
  | [] => None
  | c :: s' => if c =? 0 then Some 0 else Z.succ <$> strlen s'
  end.

Definition UTF8_validateString (string : list byte) : option Z :=
  len ← strlen string;
  UTF8_validate (int_wrap len) string.

(** * Reference definition *)

(** Unicode scalar values: the code points that are not surrogates. *)
Definition scalar (c : Z) : Prop := 0 <= c < 0xD800 \/ 0xE000 <= c < 0x110000.

Definition scalar_encode (c : Z) : list byte :=
  if c <? 0x80 then [c]
  else if c <? 0x800 then [0xC0 + c / 64; 0x80 + c mod 64]
  else if c <? 0x10000 then [0xE0 + c / 4096; 0x80 + c / 64 mod 64; 0x80 + c mod 64]
  else [0xF0 + c / 262144; 0x80 + c / 4096 mod 64; 0x80 + c / 64 mod 64; 0x80 + c mod 64].

Definition utf8_encode (cs : list Z) : list byte := concat (scalar_encode <$> cs).

(** A well-formed UTF-8 string is the encoding of scalar values. *)
Definition well_formed (s : list byte) : Prop :=
  exists cs, Forall scalar cs /\ s = utf8_encode cs.

(** * Lemmas *)

Lemma char_length_spec c :
  is_byte c ->
  char_length c = if c <? 128 then 1 else if c <? 0xE0 then 2 else if c <? 0xF0 then 3 else 4.
Proof.
  intros Hc. apply Z.eqb_eq.
  revert c Hc. apply byte_forall. vm_compute. done.
Qed.

(** Signed comparison agrees with unsigned comparison on the limits of the
    table: no row straddles 0x80. *)
Lemma schar_range lo hi c :
  is_byte c -> 0 <= lo <= hi -> hi < 256 -> hi < 128 \/ 128 <= lo ->
  (schar c <? schar lo) || (schar hi <? schar c) = negb ((lo <=? c) && (c <=? hi)).
Proof.
  unfold is_byte, schar. intros.
  destruct (c <? 128) eqn:?, (lo <? 128) eqn:?, (hi <? 128) eqn:?;
    apply eq_true_iff_eq;
    rewrite orb_true_iff, negb_true_iff, andb_false_iff; lia.
Qed.

Definition row_ok (bs : list (Z * Z)) : Prop :=
  Forall (fun r => 0 <= fst r <= snd r /\ snd r < 256 /\ (snd r < 128 \/ 128 <= fst r)) bs.

Definition in_range (r : Z * Z) (c : byte) : Prop := fst r <= c <= snd r.

(** A row matches exactly when the first bytes are pointwise in range. *)
Lemma row_matches_true bs data :
  row_ok bs -> bytes_ok data ->
  row_matches bs data = Some true <->
  exists pre rest, data = pre ++ rest /\ Forall2 in_range bs pre.
Proof.
  intros Hok. revert data.
  induction Hok as [|[lo hi] bs (? & ? & ?) Hok IH]; intros data Hd; simpl in *.
  - split; [|done]. intros _. exists [], data. by split.
  - destruct Hd as [|c data Hc Hd].
    { split; [done|]. intros (pre & rest & E & H2). inversion H2; subst. done. }
    rewrite (schar_range lo hi c) by (done || lia).
    destruct (negb ((lo <=? c) && (c <=? hi))) eqn:E.
    + split; [done|]. intros (pre & rest & E' & H2).
      inversion H2 as [|r c' bs' pre' Hr H2']; subst. simplify_eq/=.
      destruct Hr as [Hr1 Hr2]; simpl in *. exfalso.
      rewrite negb_true_iff, andb_false_iff in E. lia.
    + rewrite IH by done. rewrite negb_false_iff, andb_true_iff in E. split.
      * intros (pre & rest & -> & H2). exists (c :: pre), rest.
        split; [done|]. constructor; [|done]. unfold in_range; simpl; lia.
      * intros (pre & rest & E' & H2).
        inversion H2 as [|r c' bs' pre' Hr H2']; subst. simplify_eq/=. eauto.
Qed.

Lemma row_matches_total bs data :
  (length bs <= length data)%nat -> is_Some (row_matches bs data).
Proof.
  revert data. induction bs as [|[lo hi] bs IH]; intros data Hlen; simpl; [done|].
  destruct data as [|c data]; simpl in *; [lia|].
  case_match; [done|]. apply IH. lia.
Qed.

(** The table search succeeds exactly when some row of the right length does,
    provided the announced bytes are readable. *)
Lemma rows_match_true rows charlen data :
  rows_match rows charlen data = Some true ->
  exists row, row ∈ rows /\ row_len row = charlen /\ row_matches (row_bytes row) data = Some true.
Proof.
  induction rows as [|row rows IH]; simpl; [done|].
  destruct (row_len row =? charlen) eqn:El.
  - destruct (row_matches (row_bytes row) data) as [[]|] eqn:Em; intros H; simplify_eq.
    + exists row. split; [by constructor|]. split; [lia|done].
    + destruct (IH H) as (r & ? & ? & ?). exists r. split; [by constructor|done].
  - intros (r & ? & ? & ?)%IH. exists r. split; [by constructor|done].
Qed.

Lemma rows_match_complete rows row data :
  Forall (fun r => row_len r = zlen (row_bytes r)) rows ->
  row ∈ rows -> row_matches (row_bytes row) data = Some true ->
  row_len row <= zlen data ->
  rows_match rows (row_len row) data = Some true.
Proof.
  intros Hrows Hin Hm Hlen. induction Hin as [row rows|row row' rows Hin IH]; simpl.
  - by rewrite Z.eqb_refl, Hm.
  - inversion Hrows as [|? ? Hl Hrows']; subst.
    destruct (row_len row' =? row_len row) eqn:E; [|by apply IH].
    destruct (row_matches_total (row_bytes row') data) as [[] ->];
      [unfold zlen in *; lia|done|by apply IH].
Qed.

Lemma valid_ranges_ok :
  Forall (fun r => row_len r = zlen (row_bytes r) /\ row_ok (row_bytes r)) valid_ranges.
Proof.
  unfold row_ok. apply (bool_decide_unpack _). vm_compute. done.
Qed.

(** The scalar value a sequence of bytes encodes. *)
Definition scalar_decode (bs : list byte) : Z :=
  match bs with
  | [a] => a
  | [a; b] => (a - 0xC0) * 64 + (b - 0x80)
  | [a; b; c] => (a - 0xE0) * 4096 + (b - 0x80) * 64 + (c - 0x80)
  | [a; b; c; d] => (a - 0xF0) * 262144 + (b - 0x80) * 4096 + (c - 0x80) * 64 + (d - 0x80)
  | _ => 0
  end.

Ltac inv_rows :=
  repeat match goal with
  | H : _ ∈ _ :: _ |- _ => apply elem_of_cons in H; destruct H as [->|H]
  | H : _ ∈ [] |- _ => by apply not_elem_of_nil in H
  end.

Ltac inv_forall2 :=
  repeat match goal with
  | H : Forall2 in_range (_ :: _) ?l |- _ =>
      let H1 := fresh "Hr" in let H2 := fresh "Hf" in
      inversion H as [|? ? ? ? H1 H2]; subst; clear H;
      unfold in_range in H1; simpl in H1
  | H : Forall2 in_range [] ?l |- _ => inversion H; subst; clear H
  end.

(** Base-64 digits. *)
Lemma digits_1 a b : 0 <= b < 64 -> (a * 64 + b) / 64 = a /\ (a * 64 + b) mod 64 = b.
Proof.
  intros. split.
  - rewrite Z.div_add_l, Z.div_small; lia.
  - rewrite Z.add_comm, Z.mod_add, Z.mod_small; lia.
Qed.

Lemma digits_2 a b c :
  0 <= b < 64 -> 0 <= c < 64 ->
  let n := a * 4096 + b * 64 + c in
  n / 4096 = a /\ n / 64 mod 64 = b /\ n mod 64 = c.
Proof.
  intros Hb Hc n. assert (n = (a * 64 + b) * 64 + c) as En by (unfold n; lia).
  change 4096 with (64 * 64). rewrite <- Z.div_div, En by lia.
  destruct (digits_1 (a * 64 + b) c Hc) as [-> ->].
  destruct (digits_1 a b Hb) as [-> ->]. done.
Qed.

Lemma digits_3 a b c d :
  0 <= b < 64 -> 0 <= c < 64 -> 0 <= d < 64 ->
  let n := a * 262144 + b * 4096 + c * 64 + d in
  n / 262144 = a /\ n / 4096 mod 64 = b /\ n / 64 mod 64 = c /\ n mod 64 = d.
Proof.
  intros Hb Hc Hd n.
  assert (n = (a * 4096 + b * 64 + c) * 64 + d) as En by (unfold n; lia).
  change 262144 with (64 * 4096). change 4096 with (64 * 64) at 2.
  rewrite <- !Z.div_div, En by lia.
  destruct (digits_1 (a * 4096 + b * 64 + c) d Hd) as [-> ->].
  destruct (digits_2 a b c Hb Hc) as (-> & -> & ->). done.
Qed.

Ltac split_ltb :=
  repeat match goal with
  | |- context [if ?a <? ?b then _ else _] =>
      let E := fresh in destruct (Z.ltb_spec a b) as [E|E]; try (exfalso; lia)
  end.

(** Each row of the table holds encodings of scalar values. *)
Lemma row_encodes row pre :
  row ∈ valid_ranges -> Forall2 in_range (row_bytes row) pre ->
  scalar (scalar_decode pre) /\ scalar_encode (scalar_decode pre) = pre.
Proof.
  unfold valid_ranges. intros Hin H.
  inv_rows; simpl in H; inv_forall2; unfold scalar, scalar_encode; simpl;
    (split; [lia|]); split_ltb; try done.
  - edestruct digits_1 as [-> ->]; [lia|]. repeat f_equal; lia.
  - edestruct digits_2 as (-> & -> & ->); [lia..|]. repeat f_equal; lia.
  - edestruct digits_2 as (-> & -> & ->); [lia..|]. repeat f_equal; lia.
  - edestruct digits_2 as (-> & -> & ->); [lia..|]. repeat f_equal; lia.
  - edestruct digits_2 as (-> & -> & ->); [lia..|]. repeat f_equal; lia.
  - edestruct digits_3 as (-> & -> & -> & ->); [lia..|]. repeat f_equal; lia.
  - edestruct digits_3 as (-> & -> & -> & ->); [lia..|]. repeat f_equal; lia.
  - edestruct digits_3 as (-> & -> & -> & ->); [lia..|]. repeat f_equal; lia.
Qed.

(** Conversely every encoding is matched by a row. *)
Lemma encode_row c :
  scalar c -> exists row, row ∈ valid_ranges /\ Forall2 in_range (row_bytes row) (scalar_encode c).
Proof.
  intros Hs. unfold scalar in Hs.
  assert (exists i, exists row, valid_ranges !! i = Some row /\
    Forall2 in_range (row_bytes row) (scalar_encode c)) as (i & row & Hi & H).
  2: { exists row. split; [by eapply list_elem_of_lookup_2|done]. }
  unfold scalar_encode, in_range.
  destruct (c <? 0x80) eqn:E1; [exists 0%nat|destruct (c <? 0x800) eqn:E2;
    [exists 1%nat|destruct (c <? 0x10000) eqn:E3;
      [destruct (c <? 0x1000) eqn:E4; [exists 2%nat|destruct (c <? 0xD000) eqn:E5;
         [exists 3%nat|destruct (c <? 0xE000) eqn:E6; [exists 4%nat|exists 5%nat]]]
      |destruct (c <? 0x40000) eqn:E4; [exists 6%nat|destruct (c <? 0x100000) eqn:E5;
         [exists 7%nat|exists 8%nat]]]]];
    eexists; (split; [reflexivity|]); simpl;
    repeat (apply List.Forall2_cons; [simpl; zdm|]); apply List.Forall2_nil.
Qed.

Lemma zlen_in_range bs pre : Forall2 in_range bs pre -> zlen pre = zlen bs.
Proof. unfold zlen. intros H%Forall2_length. lia. Qed.

(** The first byte of a match announces the length of its row. *)
Lemma char_length_row row pre rest c :
  row ∈ valid_ranges -> Forall2 in_range (row_bytes row) pre ->
  head (pre ++ rest) = Some c -> is_byte c -> char_length c = row_len row.
Proof.
  unfold valid_ranges. intros Hin H Hc Hb. rewrite char_length_spec by done.
  inv_rows; simpl in H; inv_forall2; simplify_eq/=; split_ltb; done.
Qed.

Lemma valid_ranges_row row :
  row ∈ valid_ranges -> row_len row = zlen (row_bytes row) /\ row_ok (row_bytes row).
Proof. intros Hin. pose proof valid_ranges_ok as H. rewrite Forall_forall in H. by apply H. Qed.

#[local] Arguments rows_match : simpl never.

(** Success of the character check, as a relation on the data. *)
Lemma UTF8_char_validate_spec len data rest :
  bytes_ok data ->
  UTF8_char_validate len data = Some (Some rest) <->
  exists c, scalar c /\ data = scalar_encode c ++ rest /\ zlen (scalar_encode c) <= len.
Proof.
  intros Hd. unfold UTF8_char_validate. split.
  - destruct data as [|c data]; simpl; [done|].
    destruct (len <? char_length c) eqn:El; [done|].
    destruct (rows_match valid_ranges (char_length c) (c :: data)) as [[]|] eqn:Em; simpl; [|intros; simplify_eq..].
    intros [= <-]. apply rows_match_true in Em as (row & Hin & Hlen & Hm).
    destruct (valid_ranges_row _ Hin) as [Hrl Hok].
    apply row_matches_true in Hm as (pre & rest & E & H2); [|done|done].
    destruct (row_encodes _ _ Hin H2) as [Hs Henc].
    exists (scalar_decode pre). rewrite Henc. split; [done|].
    assert (zlen pre = char_length c) as Hpl by (rewrite (zlen_in_range _ _ H2); lia).
    split; [|lia]. rewrite E. f_equal. rewrite <- Hpl. unfold zlen.
    by rewrite Nat2Z.id, drop_app_length.
  - intros (c & Hs & -> & Hle).
    destruct (encode_row c Hs) as (row & Hin & H2).
    destruct (valid_ranges_row _ Hin) as [Hrl Hok].
    destruct (head (scalar_encode c ++ rest)) as [c0|] eqn:Eh.
    2: { unfold scalar_encode in Eh. by repeat case_match. }
    simpl. assert (is_byte c0) as Hb.
    { destruct (scalar_encode c ++ rest); [done|]. simplify_eq/=. by inversion Hd. }
    rewrite (char_length_row _ _ _ _ Hin H2 Eh Hb).
    pose proof (zlen_in_range _ _ H2) as Hz.
    replace (len <? row_len row) with false by lia.
    rewrite (rows_match_complete valid_ranges row); simpl.
    + rewrite Hrl, <- Hz. unfold zlen. by rewrite Nat2Z.id, drop_app_length.
    + eapply Forall_impl; [apply valid_ranges_ok|]. simpl. tauto.
    + done.
    + apply row_matches_true; eauto.
    + rewrite zlen_app. pose proof (zlen_nonneg rest). lia.
Qed.

Lemma scalar_encode_nonempty c : 0 < zlen (scalar_encode c) <= 4.
Proof. unfold scalar_encode, zlen. cases; simpl; lia. Qed.

Lemma well_formed_nil : well_formed [].
Proof. exists []. by split. Qed.

Lemma well_formed_cons c d : scalar c -> well_formed d -> well_formed (scalar_encode c ++ d).
Proof. intros Hc (cs & Hcs & ->). exists (c :: cs). split; [by constructor|done]. Qed.

(** A non-empty well-formed string starts with the encoding of a scalar. *)
Lemma well_formed_inv d :
  well_formed d -> d <> [] ->
  exists c d', scalar c /\ well_formed d' /\ d = scalar_encode c ++ d'.
Proof.
  intros ([|c cs] & Hcs & ->) Hne; [done|].
  inversion Hcs; subst. exists c, (utf8_encode cs).
  split; [done|]. split; [|done]. by exists cs.
Qed.

(** The encoding is a prefix code. *)
Lemma scalar_encode_prefix c c' d d' :
  scalar c -> scalar c' -> bytes_ok (scalar_encode c ++ d) ->
  scalar_encode c ++ d = scalar_encode c' ++ d' -> d = d'.
Proof.
  intros Hc Hc' Hd E.
  pose proof (proj2 (UTF8_char_validate_spec 4 _ d Hd)) as H1.
  pose proof (proj2 (UTF8_char_validate_spec 4 _ d' Hd)) as H2.
  rewrite H1 in H2.
  - assert (Some (Some d) = Some (Some d')) as [= ->]; [|done].
    apply H2. exists c'. pose proof (scalar_encode_nonempty c'). split; [done|split; [done|lia]].
  - exists c. pose proof (scalar_encode_nonempty c). split; [done|split; [done|lia]].
Qed.

(** Encodings of scalars other than NUL have no NUL byte. *)
Lemma scalar_encode_nonzero c :
  scalar c -> c <> 0 -> Forall (fun b => b <> 0) (scalar_encode c).
Proof.
  intros Hs Hc. unfold scalar in Hs. unfold scalar_encode.
  split_ltb; repeat (apply List.Forall_cons; [zdm|]); apply List.Forall_nil.
Qed.

Lemma nonzero_prefix (e rest d mem : list byte) :
  Forall (fun b => b <> 0) e -> e ++ rest = d ++ 0 :: mem ->
  exists d', d = e ++ d' /\ rest = d' ++ 0 :: mem.
Proof.
  intros He. revert d. induction He as [|b e Hb He IH]; intros d E; simpl in *.
  - by exists d.
  - destruct d as [|x d]; simpl in E; injection E as -> E; [done|].
    destruct (IH _ E) as (d' & -> & ->). by exists d'.
Qed.

(** The scan of a row stops at a terminating NUL. *)
Lemma row_matches_nul bs (d mem : list byte) :
  Forall (fun r => 128 <= fst r <= snd r /\ snd r < 256) bs -> bytes_ok d ->
  is_Some (row_matches bs (d ++ 0 :: mem)).
Proof.
  intros Hbs. revert d. induction Hbs as [|[lo hi] bs [Hr Hr'] Hbs IH]; intros d Hd; simpl in *.
  { done. }
  destruct d as [|c d]; simpl.
  - rewrite (schar_range lo hi 0) by (unfold is_byte; lia).
    replace (lo <=? 0) with false by lia. done.
  - inversion Hd; subst. case_match; [done|]. by apply IH.
Qed.

Lemma rows_match_total rows charlen data :
  (forall row, row ∈ rows -> is_Some (row_matches (row_bytes row) data)) ->
  is_Some (rows_match rows charlen data).
Proof.
  induction rows as [|row rows IH]; intros H; [done|].
  unfold rows_match; fold rows_match.
  assert (is_Some (rows_match rows charlen data)).
  { apply IH. intros. apply H. by constructor. }
  case_match; [|done]. destruct (H row) as [[] ->]; [by constructor|done|done].
Qed.

Lemma UTF8_char_validate_nul len c (d mem : list byte) :
  bytes_ok (c :: d) ->
  is_Some (UTF8_char_validate len ((c :: d) ++ 0 :: mem)).
Proof.
  intros Hd. inversion Hd as [|? ? Hc Hd']; subst. unfold UTF8_char_validate; simpl.
  case_match; [done|].
  assert (is_Some (rows_match valid_ranges (char_length c) (c :: d ++ 0 :: mem))) as [[] ->];
    [|done|done].
  apply rows_match_total. intros row Hin.
  assert (exists r bs, row_bytes row = r :: bs /\
    Forall (fun r => 128 <= fst r <= snd r /\ snd r < 256) bs) as ([lo hi] & bs & -> & Hbs).
  { unfold valid_ranges in Hin.
    inv_rows; eexists _, _; (split; [reflexivity|]);
      repeat (apply List.Forall_cons; [simpl; lia|]); apply List.Forall_nil. }
  simpl. case_match; [done|]. by apply row_matches_nul.
Qed.

(** One step of the validation of a NUL-terminated string: the check of the
    next character succeeds exactly when the string starts with one. *)
Lemma UTF8_char_validate_step len (d mem : list byte) :
  bytes_ok (d ++ 0 :: mem) -> Forall (fun b => b <> 0) d -> d <> [] -> zlen d <= len ->
  exists r, UTF8_char_validate len (d ++ 0 :: mem) = Some r /\
    match r with
    | Some rest => exists d', rest = d' ++ 0 :: mem /\ (length d' < length d)%nat /\
                     (exists e, d = e ++ d') /\ (well_formed d <-> well_formed d')
    | None => ~ well_formed d
    end.
Proof.
  intros Hb Hnz Hne Hlen. destruct d as [|b d]; [done|].
  assert (bytes_ok (b :: d)) as Hbd by (apply Forall_app in Hb; tauto).
  destruct (UTF8_char_validate_nul len b d mem Hbd) as [r Er].
  exists r. split; [done|]. destruct r as [rest|].
  - apply UTF8_char_validate_spec in Er as (c & Hs & E & Hl); [|done].
    assert (c <> 0) as Hc0.
    { intros ->. simpl in E. inversion Hnz. by simplify_eq/=. }
    symmetry in E. pose proof (scalar_encode_nonempty c) as Hne'.
    destruct (nonzero_prefix _ _ _ _ (scalar_encode_nonzero c Hs Hc0) E) as (d' & E' & ->).
    exists d'. rewrite E'. split_and!; [done| |by eexists|split].
    + rewrite length_app. unfold zlen in Hne'. lia.
    + intros (c' & d'' & Hs' & Hwf & E'')%well_formed_inv.
      2: { intros [En _]%app_eq_nil. rewrite En in Hne'. by destruct Hne'. }
      rewrite E' in Hbd. by rewrite (scalar_encode_prefix c c' d' d'' Hs Hs' Hbd E'').
    + by apply well_formed_cons.
  - intros (c & d' & Hs & _ & E)%well_formed_inv; [|done].
    rewrite E in Hlen, Hb, Er. rewrite <- app_assoc in Er, Hb.
    assert (UTF8_char_validate len (scalar_encode c ++ d' ++ 0 :: mem) =
      Some (Some (d' ++ 0 :: mem))) as Er'; [|by rewrite Er in Er'].
    apply UTF8_char_validate_spec; [done|]. exists c.
    rewrite zlen_app in Hlen. pose proof (zlen_nonneg d'). split; [done|split; [done|lia]].
Qed.

Lemma UTF8_validate_loop_spec fuel (d mem : list byte) pre :
  bytes_ok (d ++ 0 :: mem) -> Forall (fun b => b <> 0) d -> (length d <= fuel)%nat ->
  exists r, UTF8_validate_loop fuel (zlen (pre ++ d)) (zlen ((pre ++ d) ++ 0 :: mem))
              (Some (d ++ 0 :: mem)) = Some r /\ (is_Some r <-> well_formed d).
Proof.
  revert d pre. induction fuel as [|fuel IH]; intros d pre Hb Hnz Hfuel.
  - destruct d; [|simpl in *; lia]. simpl. eexists. split.
    + rewrite app_nil_r, zlen_app. case_match; [lia|done].
    + split; [|done]. intros. apply well_formed_nil.
  - unfold UTF8_validate_loop; fold UTF8_validate_loop. destruct d as [|b d].
    + eexists. split.
      * rewrite app_nil_r, zlen_app. simpl. case_match; [lia|done].
      * split; [|done]. intros. apply well_formed_nil.
    + replace (_ <? _) with true
        by (rewrite !zlen_app, !zlen_cons; pose proof (zlen_nonneg d); lia).
      destruct (UTF8_char_validate_step (zlen (pre ++ b :: d)) (b :: d) mem) as (r & -> & Hr);
        [done|done|done|rewrite zlen_app; pose proof (zlen_nonneg pre); lia|].
      simpl. destruct r as [rest|].
      2: { exists None. split; [by destruct fuel|]. split; [by intros [? ?]|tauto]. }
      destruct Hr as (d' & -> & Hlt & (e & He) & Hwf).
      rewrite He in Hb, Hnz. rewrite <- app_assoc in Hb.
      apply Forall_app in Hb as [_ Hb]. apply Forall_app in Hnz as [_ Hnz].
      destruct (IH d' (pre ++ e) Hb Hnz) as (r & Er & Hr); [lia|].
      exists r. rewrite Hwf. split; [|done]. by rewrite He, (app_assoc pre e d').
Qed.

Lemma strlen_app (s mem : list byte) :
  Forall (fun b => b <> 0) s -> strlen (s ++ 0 :: mem) = Some (zlen s).
Proof.
  induction 1 as [|b s Hb Hs IH]; simpl; [done|].
  rewrite IH, zlen_cons. destruct (Z.eqb_spec b 0); [done|]. simpl. f_equal. lia.
Qed.

(** * Properties *)

(** [C36] The single-character check is the Unicode definition: it returns the
    pointer past a character exactly when the data starts with the encoding
    of a Unicode scalar value that fits in the announced length. *)
Theorem UTF8_char_validate_correct len data rest :
  bytes_ok data ->
  UTF8_char_validate len data = Some (Some rest) <->
  exists c, scalar c /\ data = scalar_encode c ++ rest /\ zlen (scalar_encode c) <= len.
Proof. apply UTF8_char_validate_spec. Qed.

Example UTF8_char_validate_correct_witness :
  bytes_ok [0xE2; 0x82; 0xAC; 0x21] /\
  exists c, scalar c /\ [0xE2; 0x82; 0xAC; 0x21] = scalar_encode c ++ [0x21] /\
    zlen (scalar_encode c) <= 4.
Proof.
  assert (bytes_ok [0xE2; 0x82; 0xAC; 0x21]) as H
    by (apply (bool_decide_unpack _); vm_compute; done).
  split; [exact H|].
  apply (UTF8_char_validate_correct 4 _ [0x21] H). vm_compute. reflexivity.
Defined.

(** [C37] The validation of a NUL-terminated string decides well-formedness of
    UTF-8: it runs without reading past the terminator, returns 1 on the
    encodings of sequences of Unicode scalar values and 0 on every other
    string. *)
Theorem UTF8_validateString_correct s mem :
  bytes_ok (s ++ 0 :: mem) -> Forall (fun b => b <> 0) s -> zlen s < 2 ^ 31 ->
  (well_formed s /\ UTF8_validateString (s ++ 0 :: mem) = Some 1) \/
  (~ well_formed s /\ UTF8_validateString (s ++ 0 :: mem) = Some 0).
Proof.
  intros Hb Hnz Hlen. unfold UTF8_validateString. rewrite (strlen_app s mem Hnz).
  change (Some (zlen s) ≫= ?f) with (f (zlen s)). simpl.
  rewrite int_wrap_id by (pose proof (zlen_nonneg s); unfold in_int; lia).
  unfold UTF8_validate. destruct (Z.eqb_spec (zlen s) 0) as [E|E].
  { destruct s; [|rewrite zlen_cons in E; pose proof (zlen_nonneg s); lia].
    left. split; [apply well_formed_nil|done]. }
  destruct (UTF8_char_validate_step (zlen s) s mem) as (r & -> & Hr);
    [done|done|by intros ->|done|].
  simpl. destruct r as [rest|].
  2: { right. split; [done|]. by destruct (length (s ++ 0 :: mem)). }
  destruct Hr as (d' & -> & Hlt & (e & He) & Hwf).
  rewrite Hwf. clear Hlen E. subst s.
  rewrite <- app_assoc in Hb. apply Forall_app in Hb as [_ Hb].
  apply Forall_app in Hnz as [_ Hnz].
  destruct (UTF8_validate_loop_spec (length ((e ++ d') ++ 0 :: mem)) d' mem e Hb Hnz)
    as (r & -> & Hr); [rewrite !length_app in *; lia|].
  destruct r; simpl; [left|right]; rewrite <- Hr; (split; [|done]); [done|by intros [? ?]].
Qed.

Example UTF8_validateString_correct_witness :
  UTF8_validateString ([0x41; 0xE2; 0x89; 0xA2; 0x2E] ++ 0 :: [0x80]) = Some 1 /\
  ~ well_formed [0xC0; 0x80].
Proof.
  split.
  - assert (bytes_ok ([0x41; 0xE2; 0x89; 0xA2; 0x2E] ++ 0 :: [0x80])) as H
      by (apply (bool_decide_unpack _); vm_compute; done).
    destruct (UTF8_validateString_correct _ _ H) as [[_ E]|[_ E]];
      [apply (bool_decide_unpack _); vm_compute; done|vm_compute; done|exact E|].
    vm_compute in E. discriminate.
  - assert (bytes_ok ([0xC0; 0x80] ++ 0 :: [])) as H
      by (apply (bool_decide_unpack _); vm_compute; done).
    destruct (UTF8_validateString_correct _ _ H) as [[_ E]|[E _]];
      [apply (bool_decide_unpack _); vm_compute; done|vm_compute; done| |exact E].
    vm_compute in E. discriminate.
Defined.

(** The length-delimited entry point does not stop at its length: it
    passes the whole length for every character, so a character that is cut
    by the end of the string is completed with the bytes that follow it in
    memory, and a string that is not UTF-8 is accepted. *)
Theorem UTF8_validate_reads_past_end :
  exists len data, len < zlen data /\ UTF8_validate len data = Some 1 /\
    ~ well_formed (take (Z.to_nat len) data).
Proof.
  exists 2, [0x61; 0xC2; 0x80]. split; [done|]. split; [done|].
  simpl. intros (c & d' & Hs & Hwf & E)%well_formed_inv; [|done].
  assert (bytes_ok [0x61; 0xC2]) as Hb by (apply (bool_decide_unpack _); vm_compute; done).
  rewrite E in Hb. change [0x61; 0xC2] with (scalar_encode 0x61 ++ [0xC2]) in E.
  rewrite <- E in Hb.
  assert (scalar 0x61) as Hs' by (left; lia).
  pose proof (scalar_encode_prefix _ _ _ _ Hs' Hs Hb E) as <-.
  apply well_formed_inv in Hwf as (c' & d' & Hs2 & _ & E'); [|done].
  unfold scalar_encode in E'. unfold scalar in Hs2.
  repeat case_match; simplify_eq/=.
Qed.

End Utf8.
