(* ===== verification/ListSpec.v ===== *)
(** Abstract lists: what [lib/LinkedList.c] promises to its clients.

    A list is the sequence of its elements, each with its identity (the address
    of the [ListElement]) and its content, together with the [current] element
    that searches leave behind, the [count] and the heap storage [size].  The
    operations here are the specification of the linked lists; [LinkedList]
    shows that the pointer code implements them, and the other components are
    written and verified on top of them. *)
From S2P Require Import Prelude.

Record clist (A : Type) := CList {
  items : list (loc * A);     (* elements in order, with their addresses *)
  cur : option loc;       (* aList->current *)
  cnt : Z;                  (* aList->count *)
  csize : Z                   (* aList->size *)
}.
Arguments CList {A} _ _ _ _.
Arguments items {A} _.
Arguments cur {A} _.
Arguments cnt {A} _.
Arguments csize {A} _.

Module LSpec.
Section spec.
Context {A : Type}.
Implicit Types (l : clist A) (x : A) (a : loc) (p : A -> bool).

Definition contents l : list A := (items l).*2.
Definition addrs l : list loc := (items l).*1.

Definition empty : clist A := CList [] None 0 0.

(** The element at an address. *)
Definition find_addr (its : list (loc * A)) (a : loc) : option (nat * (loc * A)) :=
  list_find (fun e => e.1 = a) its.
(** [el->content]. *)
Definition elem_content l (a : loc) : option A := (fun r => r.2.2) <$> find_addr (items l) a.
(** [aList->current->content]; undefined when [current] is null. *)
Definition cur_content l : option A := cur l ≫= elem_content l.

(** [malloc(sizeof(ListElement))]: an address that is not in use. *)
Definition fresh_addr l : loc := fresh (addrs l).

Definition append_at (a : loc) (x : A) (sz : Z) l : clist A :=
  CList (items l ++ [(a, x)]) (cur l) (cnt l + 1) (csize l + sz).
Definition append (x : A) (sz : Z) l : clist A := append_at (fresh_addr l) x sz l.

(** Insertion before the element [index]; [None] appends. *)
Definition insert_at (a : loc) (x : A) (sz : Z) (index : option loc) l : option (clist A) :=
  match index with
  | None => Some (append_at a x sz l)
  | Some i =>
      r ← find_addr (items l) i;
      Some (CList (take r.1 (items l) ++ (a, x) :: drop r.1 (items l))
                  (cur l) (cnt l + 1) (csize l + sz))
  end.
Definition insert (x : A) (sz : Z) (index : option loc) l : option (clist A) :=
  insert_at (fresh_addr l) x sz index l.

(** The first element whose content satisfies the test. *)
Definition first_match p (its : list (loc * A)) : option loc :=
  (fun r => r.2.1) <$> list_find (fun e => p e.2 = true) its.

(** [ListFindItem]: the current element is tried first; otherwise the list is
    scanned from its head, and an element found becomes current. *)
Definition find_item p l : option loc * clist A :=
  match cur_content l with
  | Some x =>
      if p x then (cur l, l)
      else match first_match p (items l) with
           | Some a => (Some a, CList (items l) (Some a) (cnt l) (csize l))
           | None => (None, l)
           end
  | None =>
      match first_match p (items l) with
      | Some a => (Some a, CList (items l) (Some a) (cnt l) (csize l))
      | None => (None, l)
      end
  end.

(** The address of the element after position [i]. *)
Definition addr_after (its : list (loc * A)) (i : nat) : option loc := fst <$> its !! S i.
Definition addr_before (its : list (loc * A)) (i : nat) : option loc :=
  match i with O => None | S j => fst <$> its !! j end.

(** [ListUnlink]: the element found is taken out.  The current element is the
    one that was current before the search, or the successor of the removed
    element when that was the one removed.  The recorded [size] is not
    reduced. *)
Definition unlink p l : option A * clist A :=
  match find_item p l with
  | (None, l') => (None, l')
  | (Some a, l') =>
      match find_addr (items l) a with
      | None => (None, l')
      | Some (i, (_, x)) =>
          let c := if decide (cur l = Some a) then addr_after (items l) i else cur l in
          (Some x, CList (take i (items l) ++ drop (S i) (items l)) c (cnt l - 1) (csize l))
      end
  end.

Definition detach_head l : option A * clist A :=
  match items l with
  | [] => (None, l)
  | (a, x) :: its =>
      (Some x, CList its (if decide (cur l = Some a) then addr_after (items l) 0 else cur l)
                     (cnt l - 1) (csize l))
  end.

Definition pop_tail l : option A * clist A :=
  match last (items l) with
  | None => (None, l)
  | Some (a, x) =>
      let i := pred (length (items l)) in
      (Some x, CList (take i (items l))
                     (if decide (cur l = Some a) then addr_before (items l) i else cur l)
                     (cnt l - 1) (csize l))
  end.

(** [ListNextElement]: from the head when there is no position. *)
Definition next_element l (pos : option loc) : option (option loc) :=
  match pos with
  | None => Some (fst <$> head (items l))
  | Some a => r ← find_addr (items l) a; Some (addr_after (items l) r.1)
  end.

Definition prev_element l (pos : option loc) : option (option loc) :=
  match pos with
  | None => Some (fst <$> last (items l))
  | Some a => r ← find_addr (items l) a; Some (addr_before (items l) r.1)
  end.

(** Well-formed lists: distinct addresses, [current] is an element, and
    [count] is the number of elements. *)
Record wf l : Prop := {
  wf_nodup : NoDup (addrs l);
  wf_current : forall a, cur l = Some a -> a ∈ addrs l;
  wf_count : cnt l = zlen (items l)
}.

(** * Laws *)

Lemma find_addr_mid (k1 k2 : list (loc * A)) a x :
  a ∉ k1.*1 -> find_addr (k1 ++ (a, x) :: k2) a = Some (length k1, (a, x)).
Proof.
  intros Ha. unfold find_addr. apply list_find_app_Some. right. split; [lia|].
  split.
  - apply list_find_None, Forall_forall. intros [b y] Hin Hb. simpl in Hb. subst b. apply Ha.
    apply list_elem_of_fmap. by exists (a, y).
  - rewrite Nat.sub_diag. simpl. by rewrite decide_True.
Qed.

Lemma find_addr_Some its a i e :
  find_addr its a = Some (i, e) ->
  exists x, e = (a, x) /\ its = take i its ++ (a, x) :: drop (S i) its /\ i = length (take i its).
Proof.
  unfold find_addr. intros (Hi & E & _)%list_find_Some. destruct e as [b x]; simpl in E; subst b.
  exists x. split; [done|]. apply lookup_lt_Some in Hi as Hlt.
  split; [by rewrite take_drop_middle|]. rewrite length_take. lia.
Qed.

Lemma addrs_split l a :
  a ∈ addrs l -> exists k1 x k2, items l = k1 ++ (a, x) :: k2.
Proof.
  unfold addrs. intros ([b x] & -> & Hin)%list_elem_of_fmap.
  apply list_elem_of_split in Hin as (k1 & k2 & ->). by exists k1, x, k2.
Qed.

Lemma nodup_mid (k1 k2 : list (loc * A)) a x :
  NoDup (k1 ++ (a, x) :: k2).*1 -> (a ∉ k1.*1) /\ (a ∉ k2.*1) /\ NoDup (k1 ++ k2).*1.
Proof.
  rewrite !fmap_app, fmap_cons, !NoDup_app, NoDup_cons. simpl.
  intros (H1 & H2 & H3 & H4). repeat split; try done.
  - intros Ha. apply (H2 a Ha). by constructor.
  - intros b Hb Hb'. apply (H2 b Hb). by constructor.
Qed.

Lemma elem_content_mid l k1 a x k2 :
  wf l -> items l = k1 ++ (a, x) :: k2 -> elem_content l a = Some x.
Proof.
  intros [Hnd _ _] E. unfold addrs in Hnd. rewrite E in Hnd.
  apply nodup_mid in Hnd as (H1 & _ & _).
  unfold elem_content. rewrite E, find_addr_mid; done.
Qed.

Lemma cur_content_some l a :
  wf l -> cur l = Some a ->
  exists k1 x k2, items l = k1 ++ (a, x) :: k2 /\ cur_content l = Some x.
Proof.
  intros Hwf Hc. destruct (addrs_split l a) as (k1 & x & k2 & E).
  { by apply (wf_current l Hwf). }
  exists k1, x, k2. split; [done|]. unfold cur_content. rewrite Hc. simpl.
  by eapply elem_content_mid.
Qed.

Lemma first_match_Some p its a :
  first_match p its = Some a ->
  exists k1 x k2, its = k1 ++ (a, x) :: k2 /\ p x = true /\ Forall (fun e => p e.2 = false) k1.
Proof.
  unfold first_match. destruct (list_find _ its) as [[i [b x]]|] eqn:E; simpl; [|done].
  intros [= ->]. apply list_find_Some in E as (Hi & Hp & Hj).
  exists (take i its), x, (drop (S i) its). split; [by rewrite take_drop_middle|].
  split; [done|]. apply Forall_lookup. intros j e He.
  apply lookup_take_Some in He as [He Hji]. apply not_true_is_false. by apply (Hj j e).
Qed.

Lemma first_match_None p its :
  first_match p its = None <-> Forall (fun e => p e.2 = false) its.
Proof.
  unfold first_match. rewrite fmap_None, list_find_None.
  apply Forall_iff. intros e. by rewrite not_true_iff_false.
Qed.

Lemma find_item_items p l : items (find_item p l).2 = items l.
Proof. unfold find_item. repeat case_match; done. Qed.
Lemma find_item_cnt p l : cnt (find_item p l).2 = cnt l.
Proof. unfold find_item. repeat case_match; done. Qed.

(** A search succeeds exactly when some content satisfies the test, and what
    it finds satisfies it and becomes current. *)
Lemma find_item_Some p l a l' :
  wf l -> find_item p l = (Some a, l') ->
  exists k1 x k2, items l = k1 ++ (a, x) :: k2 /\ p x = true /\
    l' = CList (items l) (Some a) (cnt l) (csize l).
Proof.
  intros Hwf. unfold find_item.
  assert (Hm : forall a, first_match p (items l) = Some a ->
    exists k1 x k2, items l = k1 ++ (a, x) :: k2 /\ p x = true).
  { intros b (k1 & x & k2 & ? & ? & _)%first_match_Some. eauto 10. }
  assert (Hs : match first_match p (items l) with
           | Some a => (Some a, CList (items l) (Some a) (cnt l) (csize l))
           | None => (None, l) end = (Some a, l') ->
    exists k1 x k2, items l = k1 ++ (a, x) :: k2 /\ p x = true /\
    l' = CList (items l) (Some a) (cnt l) (csize l)).
  { destruct (first_match p (items l)) as [b|] eqn:E; intros [= -> <-].
    destruct (Hm a eq_refl) as (k1 & x & k2 & ? & ?). eauto 10. }
  destruct (cur_content l) as [x|] eqn:Ec; [|done].
  destruct (p x) eqn:Ep; [|done]. intros [= Hc <-].
  destruct (cur_content_some l a Hwf Hc) as (k1 & y & k2 & E & Ey).
  exists k1, y, k2. split; [done|]. split; [by simplify_eq|].
  destruct l; simpl in *; by subst.
Qed.

Lemma find_item_None p l l' :
  wf l -> find_item p l = (None, l') -> Forall (fun x => p x = false) (contents l) /\ l' = l.
Proof.
  intros Hwf. unfold find_item, contents. rewrite Forall_fmap.
  destruct (cur_content l) as [x|] eqn:Ec.
  - destruct (p x) eqn:Ep.
    + unfold cur_content in Ec. destruct (cur l); simpl in *; done.
    + destruct (first_match p (items l)) eqn:E; intros [= <-]. by apply first_match_None in E.
  - destruct (first_match p (items l)) eqn:E; intros [= <-]. by apply first_match_None in E.
Qed.

Lemma find_item_wf p l : wf l -> wf (find_item p l).2.
Proof.
  intros Hwf. destruct (find_item p l) as [[a|] l'] eqn:E; simpl.
  - apply find_item_Some in E as (k1 & x & k2 & Ei & _ & ->); [|done].
    destruct Hwf as [? ? ?]. split; unfold addrs in *; simpl; try done.
    intros b [= <-]. rewrite Ei, fmap_app, fmap_cons. apply elem_of_app. right. by constructor.
  - by apply find_item_None in E as [_ ->].
Qed.

End spec.

(** The addresses at the ends of a segment, with a default for an empty one. *)
Definition hd_addr {A} (its : list (loc * A)) (d : option loc) : option loc :=
  match its with [] => d | (a, _) :: _ => Some a end.
Fixpoint last_addr {A} (its : list (loc * A)) (d : option loc) : option loc :=
  match its with [] => d | (a, _) :: its' => last_addr its' (Some a) end.

Section more.
Context {A : Type}.
Implicit Types (l : clist A) (x : A) (a : loc) (p : A -> bool).

Lemma hd_addr_app (k1 k2 : list (loc * A)) d : hd_addr (k1 ++ k2) d = hd_addr k1 (hd_addr k2 d).
Proof. by destruct k1 as [|[]]. Qed.
Lemma last_addr_app (k1 k2 : list (loc * A)) d : last_addr (k1 ++ k2) d = last_addr k2 (last_addr k1 d).
Proof. revert d. induction k1 as [|[b y] k1 IH]; intros d; [done|]. apply IH. Qed.
Lemma last_addr_default (its : list (loc * A)) d :
  its <> [] -> last_addr its d = last_addr its None.
Proof. destruct its as [|[]]; done. Qed.
Lemma last_addr_in (its : list (loc * A)) d a : last_addr its d = Some a -> a ∈ its.*1 \/ d = Some a /\ its = [].
Proof.
  revert d. induction its as [|[b y] its IH]; intros d; simpl; [by right|].
  intros [H|[[= ->] _]]%IH; left; [by constructor|constructor].
Qed.

Lemma addr_after_mid (k1 k2 : list (loc * A)) e : addr_after (k1 ++ e :: k2) (length k1) = hd_addr k2 None.
Proof.
  unfold addr_after. rewrite lookup_app_r by lia.
  replace (S (length k1) - length k1)%nat with 1%nat by lia. by destruct k2 as [|[]].
Qed.

Lemma addr_before_mid (k1 k2 : list (loc * A)) e : addr_before (k1 ++ e :: k2) (length k1) = last_addr k1 None.
Proof.
  destruct k1 as [|[b y] k1] using rev_ind; [done|].
  rewrite last_addr_app, length_app, Nat.add_comm. simpl.
  by rewrite <- app_assoc, lookup_app_r, Nat.sub_diag by lia.
Qed.

(** Taking out the element that a search finds. *)
Lemma unlink_mid p l k1 a x k2 :
  wf l -> items l = k1 ++ (a, x) :: k2 -> (find_item p l).1 = Some a ->
  unlink p l = (Some x, CList (k1 ++ k2) (if decide (cur l = Some a) then hd_addr k2 None else cur l)
                              (cnt l - 1) (csize l)).
Proof.
  intros Hwf Ei Ef. unfold unlink. destruct (find_item p l) as [r l']; simpl in Ef; subst r.
  assert (a ∉ k1.*1) as Ha.
  { pose proof (wf_nodup l Hwf) as Hnd. unfold addrs in Hnd. rewrite Ei in Hnd.
    apply nodup_mid in Hnd. tauto. }
  rewrite Ei, find_addr_mid by done. rewrite addr_after_mid, take_app_length.
  by replace (S (length k1)) with (length (k1 ++ [(a, x)])) at 1
    by (rewrite length_app; simpl; lia);
    replace (k1 ++ (a, x) :: k2) with ((k1 ++ [(a, x)]) ++ k2) by (by rewrite <- app_assoc);
    rewrite drop_app_length.
Qed.

Lemma next_element_mid l k1 a x k2 :
  wf l -> items l = k1 ++ (a, x) :: k2 -> next_element l (Some a) = Some (hd_addr k2 None).
Proof.
  intros [Hnd _ _] E. unfold addrs in Hnd. rewrite E in Hnd. apply nodup_mid in Hnd as (H1 & _ & _).
  unfold next_element. rewrite E, find_addr_mid by done. cbn [mbind option_bind fst]. by rewrite addr_after_mid.
Qed.

Lemma wf_empty : wf (@empty A).
Proof. split; simpl; [constructor|done|done]. Qed.

Lemma append_at_wf a x sz l : a ∉ addrs l -> wf l -> wf (append_at a x sz l).
Proof.
  intros Ha [Hn Hc Hk]. split; unfold addrs, append_at in *; simpl.
  - rewrite fmap_app. apply NoDup_app. split; [done|]. split; [|simpl; apply NoDup_singleton].
    intros b Hb. simpl. rewrite list_elem_of_singleton. by intros ->.
  - intros b Hb. rewrite fmap_app. apply elem_of_app. left. by apply Hc.
  - rewrite Hk, zlen_app. done.
Qed.

Lemma fresh_addr_spec l : fresh_addr l ∉ addrs l.
Proof. unfold fresh_addr. apply infinite_is_fresh. Qed.

Lemma append_wf x sz l : wf l -> wf (append x sz l).
Proof. apply append_at_wf, fresh_addr_spec. Qed.

Lemma mid_wf_remove l k1 a x k2 c sz :
  wf l -> items l = k1 ++ (a, x) :: k2 -> (forall b, c = Some b -> b ∈ (k1 ++ k2).*1) ->
  wf (CList (k1 ++ k2) c (cnt l - 1) sz).
Proof.
  intros [Hn Hc Hk] E Hcur. unfold addrs in *. rewrite E in Hn.
  split; unfold addrs; simpl; [apply nodup_mid in Hn; tauto|done|].
  rewrite Hk, E, !zlen_app, zlen_cons. lia.
Qed.

Lemma hd_addr_in (its : list (loc * A)) b : hd_addr its None = Some b -> b ∈ its.*1.
Proof. destruct its as [|[c y] its]; simpl; [done|]. intros [= ->]. constructor. Qed.

(** Removal keeps the list well formed; in particular [current] is never left
    on the removed element. *)
Lemma unlink_wf p l : wf l -> wf (unlink p l).2.
Proof.
  intros Hwf. destruct (find_item p l) as [[a|] l'] eqn:E.
  - pose proof E as Ef. apply find_item_Some in E as (k1 & x & k2 & Ei & _ & _); [|done].
    rewrite (unlink_mid p l k1 a x k2) by (done || by rewrite Ef). simpl.
    eapply mid_wf_remove; [done..|]. rewrite fmap_app.
    intros b. case_decide as Hd.
    + intros ?%hd_addr_in. apply elem_of_app. by right.
    + intros Hb. pose proof (wf_current l Hwf b Hb) as Hin. unfold addrs in Hin.
      rewrite Ei, fmap_app, fmap_cons, elem_of_app, elem_of_cons in Hin.
      rewrite elem_of_app. naive_solver.
  - unfold unlink. rewrite E. by apply find_item_None in E as [_ ->].
Qed.

(** Removal either finds nothing and changes nothing, or takes out one element
    that satisfies the test. *)
Lemma unlink_cases p l :
  wf l ->
  (unlink p l = (None, l) /\ Forall (fun x => p x = false) (contents l)) \/
  exists k1 a x k2, items l = k1 ++ (a, x) :: k2 /\ p x = true /\
    unlink p l = (Some x, CList (k1 ++ k2) (if decide (cur l = Some a) then hd_addr k2 None else cur l)
                                (cnt l - 1) (csize l)).
Proof.
  intros Hwf. destruct (find_item p l) as [[a|] l'] eqn:E.
  - right. pose proof E as Ef. apply find_item_Some in E as (k1 & x & k2 & Ei & Hp & _); [|done].
    exists k1, a, x, k2. split_and!; [done..|]. apply unlink_mid; [done..|]. by rewrite Ef.
  - left. unfold unlink. rewrite E. apply find_item_None in E as [? ->]; done.
Qed.

(** A search only moves [current]. *)
Definition with_cur (c : option loc) l : clist A := CList (items l) c (cnt l) (csize l).

Lemma find_item_cases p l :
  wf l ->
  (find_item p l = (None, l) /\ Forall (fun x => p x = false) (contents l)) \/
  exists k1 a x k2, items l = k1 ++ (a, x) :: k2 /\ p x = true /\
    find_item p l = (Some a, with_cur (Some a) l) /\ elem_content l a = Some x.
Proof.
  intros Hwf. destruct (find_item p l) as [[a|] l'] eqn:E.
  - right. apply find_item_Some in E as (k1 & x & k2 & Ei & Hp & ->); [|done].
    exists k1, a, x, k2. split_and!; [done..|]. by eapply elem_content_mid.
  - left. apply find_item_None in E as [? ->]; done.
Qed.

Lemma contents_mid l k1 a x k2 :
  items l = k1 ++ (a, x) :: k2 -> contents l = k1.*2 ++ x :: k2.*2.
Proof. unfold contents. intros ->. by rewrite fmap_app, fmap_cons. Qed.

(** Insertion between two parts of a list. *)
Lemma insert_between x sz l k1 k2 :
  wf l -> items l = k1 ++ k2 ->
  insert x sz (hd_addr k2 None) l =
    Some (CList (k1 ++ (fresh_addr l, x) :: k2) (cur l) (cnt l + 1) (csize l + sz)).
Proof.
  intros Hwf Ei. pose proof (wf_nodup l Hwf) as Hnd. unfold addrs in Hnd. unfold insert.
  destruct k2 as [|[a y] k2]; simpl.
  - unfold append_at. by rewrite Ei, app_nil_r.
  - rewrite Ei in Hnd |- *. apply nodup_mid in Hnd as (H1 & _ & _). rewrite find_addr_mid by done. simpl.
    by rewrite take_app_length, drop_app_length.
Qed.

Lemma insert_between_wf x sz l k1 k2 :
  wf l -> items l = k1 ++ k2 ->
  wf (CList (k1 ++ (fresh_addr l, x) :: k2) (cur l) (cnt l + 1) (csize l + sz)).
Proof.
  intros [Hn Hc Hk] Ei. pose proof (fresh_addr_spec l) as Hf. unfold addrs in *. rewrite Ei in *.
  split; unfold addrs; simpl.
  - rewrite fmap_app, fmap_cons in *. rewrite elem_of_app in Hf. simpl.
    apply NoDup_app in Hn as (N1 & N2 & N3). apply NoDup_app. split; [done|]. split.
    + intros b Hb. rewrite elem_of_cons. intros [->|Hb']; [tauto|]. by apply (N2 b).
    + apply NoDup_cons. tauto.
  - intros b Hb. specialize (Hc b Hb). rewrite fmap_app, elem_of_app in Hc.
    rewrite fmap_app, fmap_cons, elem_of_app, elem_of_cons. tauto.
  - rewrite Hk, !zlen_app, zlen_cons. lia.
Qed.

(** Removing one content from a list of distinct ones. *)
Lemma unlink_content `{EqDecision A} q l :
  wf l -> NoDup (contents l) ->
  let l' := (unlink (fun y => bool_decide (y = q)) l).2 in
  wf l' /\ NoDup (contents l') /\ (forall x, x ∈ contents l' <-> x ∈ contents l /\ x <> q).
Proof.
  intros Hwf Hnd. split; [by apply unlink_wf|].
  destruct (unlink_cases (fun y => bool_decide (y = q)) l Hwf) as [[-> Hn]|(k1 & a & x & k2 & Ei & Hx & ->)].
  - simpl. split; [done|]. intros y. split; [|tauto]. intros Hy. split; [done|]. intros ->.
    rewrite Forall_forall in Hn. specialize (Hn q Hy). by rewrite bool_decide_eq_false in Hn.
  - apply bool_decide_eq_true in Hx as ->. rewrite (contents_mid _ _ _ _ _ Ei) in *.
    unfold contents; simpl. rewrite fmap_app.
    apply NoDup_app in Hnd as (H1 & H2 & [H3 H4]%NoDup_cons). split.
    + apply NoDup_app. split; [done|]. split; [|done]. intros y Hy Hy'. apply (H2 y Hy). by right.
    + intros y. rewrite !elem_of_app, elem_of_cons. split.
      * intros [Hy|Hy]; (split; [tauto|]); intros ->; [|done]. apply (H2 _ Hy). by left.
      * tauto.
Qed.

Lemma contents_append x sz l : contents (append x sz l) = contents l ++ [x].
Proof. unfold contents, append, append_at. simpl. by rewrite fmap_app. Qed.

End more.

End LSpec.
