(* ===== verification/LinkedList.v ===== *)
(** Model of [lib/LinkedList.c]: doubly linked lists over a store of
    [ListElement]s, and the proof that every operation implements the abstract
    list operation of [ListSpec].

    The state of an operation is the store of list elements, the [List]
    structure it works on and the content pointers handed to [free].  An access
    to an element that is not in the store (a null or freed pointer) is
    undefined. *)
From S2P Require Import Prelude ListSpec.

Module LinkedList.

(** A [void*] content pointer; [None] is [NULL]. *)
Abbreviation ptr := (option loc).

Record ListElement := Element { prev : ptr; next : ptr; content : ptr }.

Record List := MkList { first : ptr; last : ptr; current : ptr; count : Z; size : Z }.

Record store := Store { els : gmap loc ListElement; lst : List; freed : list loc }.

Abbreviation C := (M store).

(** * Accesses to the store *)

Definition set_lst (f : List -> List) : C unit :=
  modify (fun s => Store (els s) (f (lst s)) (freed s)).
Definition get_lst : C List := gets lst.
Definition set_first (p : ptr) (l : List) := MkList p (last l) (current l) (count l) (size l).
Definition set_last (p : ptr) (l : List) := MkList (first l) p (current l) (count l) (size l).
Definition set_current (p : ptr) (l : List) := MkList (first l) (last l) p (count l) (size l).
Definition add_count (n : Z) (l : List) := MkList (first l) (last l) (current l) (count l + n) (size l).
Definition add_size (n : Z) (l : List) := MkList (first l) (last l) (current l) (count l) (size l + n).

(** [*p] for a pointer to an element. *)
Definition deref (p : ptr) : C ListElement :=
  load (fun s => a ← p; els s !! a).
(** An assignment to the fields of [*p]. *)
Definition update (p : ptr) (f : ListElement -> ListElement) : C unit :=
  fun s => a ← p; _ ← els s !! a;
           Some (tt, Store (alter f a (els s)) (lst s) (freed s)).
Definition set_prev (p : ptr) (e : ListElement) := Element p (next e) (content e).
Definition set_next (p : ptr) (e : ListElement) := Element (prev e) p (content e).
Definition set_content (p : ptr) (e : ListElement) := Element (prev e) (next e) p.

(** [malloc(sizeof(ListElement))] and [free] of an element. *)
Definition malloc_element : C loc :=
  fun s => let a := fresh (dom (els s)) in
           Some (a, Store (<[a := Element None None None]> (els s)) (lst s) (freed s)).
Definition free_element (p : ptr) : C unit :=
  fun s => a ← p; _ ← els s !! a; Some (tt, Store (delete a (els s)) (lst s) (freed s)).
(** [free(content)]; freeing [NULL] does nothing. *)
Definition free_content (p : ptr) : C unit :=
  modify (fun s => Store (els s) (lst s) (freed s ++ option_list p)).

(** * The operations *)

Definition ListZero : C unit := set_lst (fun _ => MkList None None None 0 0).

Definition ListAppendNoMalloc (c : ptr) (newel : loc) (sz : Z) : C unit :=
  update (Some newel) (set_content c);;
  update (Some newel) (set_next None);;
  l ← get_lst;
  update (Some newel) (set_prev (last l));;
  (match first l with
   | None => set_lst (set_first (Some newel))
   | Some _ => update (last l) (set_next (Some newel))
   end);;
  set_lst (set_last (Some newel));;
  set_lst (add_count 1);;
  set_lst (add_size sz).

Definition ListAppend (c : ptr) (sz : Z) : C unit :=
  newel ← malloc_element;
  ListAppendNoMalloc c newel sz.

Definition ListInsert (c : ptr) (sz : Z) (index : ptr) : C unit :=
  newel ← malloc_element;
  match index with
  | None => ListAppendNoMalloc c newel sz
  | Some _ =>
      update (Some newel) (set_content c);;
      update (Some newel) (set_next index);;
      i ← deref index;
      update (Some newel) (set_prev (prev i));;
      update index (set_prev (Some newel));;
      n ← deref (Some newel);
      (match prev n with
       | Some _ => update (prev n) (set_next (Some newel))
       | None => set_lst (set_first (Some newel))
       end);;
      set_lst (add_count 1);;
      set_lst (add_size sz)
  end.

(** [*pos] is updated to the returned element. *)
Definition ListNextElement (pos : ptr) : C ptr :=
  match pos with
  | None => l ← get_lst; mret (first l)
  | Some _ => e ← deref pos; mret (next e)
  end.

Definition ListPrevElement (pos : ptr) : C ptr :=
  match pos with
  | None => l ← get_lst; mret (last l)
  | Some _ => e ← deref pos; mret (prev e)
  end.

(** The scan of [ListFindItem]; [test] is the comparison of a content with the
    searched one, by pointer or through the callback. *)
Fixpoint ListFindItem_loop (fuel : nat) (test : ptr -> bool) (cur : ptr) : C ptr :=
  match fuel with
  | O => undefined
  | S fuel' =>
      cur' ← ListNextElement cur;
      match cur' with
      | None => mret None
      | Some _ =>
          e ← deref cur';
          if test (content e) then mret cur' else ListFindItem_loop fuel' test cur'
      end
  end.

Definition ListFindItem (test : ptr -> bool) : C ptr :=
  l ← get_lst;
  hit ← (match current l with
         | None => mret false
         | Some _ => e ← deref (current l); mret (test (content e))
         end);
  if hit : bool then mret (current l)
  else
    fuel ← gets (fun s => S (base.size (els s)));
    rc ← ListFindItem_loop fuel test None;
    (match rc with
     | Some _ => set_lst (set_current rc)
     | None => mret tt
     end);;
    mret rc.

(** Comparison by content pointer, the [NULL] callback. *)
Definition same_ptr (c : ptr) (x : ptr) : bool := bool_decide (x = c).

Definition ListFind (c : ptr) : C ptr := ListFindItem (same_ptr c).

Definition ListUnlink (test : ptr -> bool) (freeContent : bool) : C bool :=
  saved ← gets (fun s => current (lst s));
  found ← ListFindItem test;
  match found with
  | None => mret false
  | Some _ =>
      l ← get_lst;
      cur ← deref (current l);
      (match prev cur with
       | None => set_lst (set_first (next cur))
       | Some _ => update (prev cur) (set_next (next cur))
       end);;
      (match next cur with
       | None => set_lst (set_last (prev cur))
       | Some _ => update (next cur) (set_prev (prev cur))
       end);;
      cur' ← deref (current l);
      when freeContent (free_content (content cur'));;
      free_element (current l);;
      set_lst (set_current (if decide (saved = current l) then next cur' else saved));;
      set_lst (add_count (-1));;
      mret true
  end.

Definition ListDetach (c : ptr) : C bool := ListUnlink (same_ptr c) false.
Definition ListRemove (c : ptr) : C bool := ListUnlink (same_ptr c) true.
Definition ListDetachItem (test : ptr -> bool) : C bool := ListUnlink test false.
Definition ListRemoveItem (test : ptr -> bool) : C bool := ListUnlink test true.

Definition ListDetachHead : C ptr :=
  l ← get_lst;
  if 0 <? count l then
    e ← deref (first l);
    when (bool_decide (current l = first l)) (set_lst (set_current (next e)));;
    when (bool_decide (last l = first l)) (set_lst (set_last None));;
    set_lst (set_first (next e));;
    (match next e with
     | Some _ => update (next e) (set_prev None)
     | None => mret tt
     end);;
    free_element (first l);;
    set_lst (add_count (-1));;
    mret (content e)
  else mret None.

Definition ListRemoveHead : C Z :=
  c ← ListDetachHead;
  free_content c;;
  mret 0.

Definition ListPopTail : C ptr :=
  l ← get_lst;
  if 0 <? count l then
    e ← deref (last l);
    when (bool_decide (current l = last l)) (set_lst (set_current (prev e)));;
    when (bool_decide (first l = last l)) (set_lst (set_first None));;
    set_lst (set_last (prev e));;
    (match prev e with
     | Some _ => update (prev e) (set_next None)
     | None => mret tt
     end);;
    free_element (last l);;
    set_lst (add_count (-1));;
    mret (content e)
  else mret None.

(** The loop of [ListEmpty]; [ListFreeNoContent] runs it without freeing the
    contents. *)
Fixpoint ListEmpty_loop (fuel : nat) (freeContent : bool) : C unit :=
  match fuel with
  | O => undefined
  | S fuel' =>
      l ← get_lst;
      match first l with
      | None => mret tt
      | Some _ =>
          e ← deref (first l);
          when freeContent (free_content (content e));;
          set_lst (set_first (next e));;
          free_element (first l);;
          ListEmpty_loop fuel' freeContent
      end
  end.

Definition ListEmpty : C unit :=
  fuel ← gets (fun s => S (base.size (els s)));
  ListEmpty_loop fuel true;;
  set_lst (fun l => MkList None None None 0 0).

(** [ListFree] also releases the [List] structure, [ListFreeNoContent] leaves
    the contents alone. *)
Definition ListFree : C unit := ListEmpty.
Definition ListFreeNoContent : C unit :=
  fuel ← gets (fun s => S (base.size (els s)));
  ListEmpty_loop fuel false.

(** * Representation of abstract lists *)

Abbreviation elems := (list (loc * ptr)).

(** A doubly linked segment: [p] is the [prev] of its first element and [n] the
    [next] of its last. *)
Fixpoint dlseg (h : gmap loc ListElement) (p : ptr) (its : elems) (n : ptr) : Prop :=
  match its with
  | [] => True
  | (a, c) :: its' => h !! a = Some (Element p (LSpec.hd_addr its' n) c) /\ dlseg h (Some a) its' n
  end.

(** The store and the [List] structure represent the abstract list. *)
Record rep (s : store) (l : clist ptr) : Prop := {
  rep_first : first (lst s) = LSpec.hd_addr (items l) None;
  rep_last : last (lst s) = LSpec.last_addr (items l) None;
  rep_current : current (lst s) = cur l;
  rep_count : count (lst s) = cnt l;
  rep_size : size (lst s) = csize l;
  rep_seg : dlseg (els s) None (items l) None;
  rep_wf : LSpec.wf l
}.

(** Elements outside a set of addresses are left alone: other lists in the
    same store are not affected. *)
Definition frame (X : list loc) (s s' : store) : Prop :=
  forall b, b ∉ X -> els s' !! b = els s !! b.

Lemma dlseg_app h p (k1 k2 : elems) n :
  dlseg h p (k1 ++ k2) n <-> dlseg h p k1 (LSpec.hd_addr k2 n) /\ dlseg h (LSpec.last_addr k1 p) k2 n.
Proof.
  revert p. induction k1 as [|[a c] k1 IH]; intros p; simpl; [tauto|].
  rewrite IH, LSpec.hd_addr_app. tauto.
Qed.

Lemma dlseg_frame h h' p (k : elems) n :
  (forall a, a ∈ k.*1 -> h' !! a = h !! a) -> dlseg h p k n -> dlseg h' p k n.
Proof.
  revert p. induction k as [|[a c] k IH]; intros p Hf; simpl; [done|].
  intros [H1 H2]. split; [rewrite Hf; [done|constructor]|].
  apply IH; [|done]. intros b Hb. apply Hf. by constructor.
Qed.

Lemma dlseg_lookup h p (k1 k2 : elems) a c n :
  dlseg h p (k1 ++ (a, c) :: k2) n ->
  h !! a = Some (Element (LSpec.last_addr k1 p) (LSpec.hd_addr k2 n) c).
Proof. rewrite dlseg_app. simpl. tauto. Qed.

(** Redirecting the element at an end of a segment. *)
Definition upd (p : ptr) (f : ListElement -> ListElement) (h : gmap loc ListElement) :=
  match p with Some a => alter f a h | None => h end.

Lemma upd_ne p f h b : p <> Some b -> upd p f h !! b = h !! b.
Proof. destruct p; simpl; [|done]. intros. rewrite lookup_alter_ne; [done|]. by intros ->. Qed.

Lemma dlseg_upd_frame f q h p (k : elems) n :
  (forall a, q = Some a -> a ∉ k.*1) -> dlseg h p k n -> dlseg (upd q f h) p k n.
Proof.
  intros Hq. apply dlseg_frame. intros a Ha. apply upd_ne. intros E. by apply (Hq a E).
Qed.

Lemma dlseg_set_prev h q p (k : elems) n :
  NoDup k.*1 -> dlseg h q k n -> dlseg (upd (LSpec.hd_addr k None) (set_prev p) h) p k n.
Proof.
  destruct k as [|[a c] k]; simpl; [done|]. intros [Ha _]%NoDup_cons [H1 H2].
  split; [by rewrite lookup_alter_eq, H1|].
  apply (dlseg_upd_frame (set_prev p) (Some a)); [|done]. by intros b [= <-].
Qed.

Lemma dlseg_set_next h p (k : elems) q n :
  NoDup k.*1 -> dlseg h p k q -> dlseg (upd (LSpec.last_addr k None) (set_next n) h) p k n.
Proof.
  destruct k as [|[a c] k _] using rev_ind; [done|].
  rewrite fmap_app, LSpec.last_addr_app. simpl. intros (H1 & H2 & _)%NoDup_app.
  rewrite !dlseg_app. simpl. intros (H3 & H4 & _). split; [|split; [|done]].
  - apply (dlseg_upd_frame (set_next n) (Some a)); [|done].
    intros b [= <-] Ha. apply (H2 _ Ha). constructor.
  - by rewrite lookup_alter_eq, H4.
Qed.

(** The store after an element has been bypassed and freed. *)
Lemma dlseg_bypass h (k1 k2 : elems) a c :
  NoDup (k1 ++ (a, c) :: k2).*1 -> dlseg h None (k1 ++ (a, c) :: k2) None ->
  dlseg (delete a (upd (LSpec.hd_addr k2 None) (set_prev (LSpec.last_addr k1 None))
           (upd (LSpec.last_addr k1 None) (set_next (LSpec.hd_addr k2 None)) h)))
        None (k1 ++ k2) None.
Proof.
  intros Hnd Hseg. destruct (LSpec.nodup_mid _ _ _ _ Hnd) as (Ha1 & Ha2 & Hnd').
  apply dlseg_app in Hseg as [H1 H2]. simpl in *. destruct H2 as [_ H2].
  rewrite fmap_app in Hnd'. apply NoDup_app in Hnd' as (Hn1 & Hn12 & Hn2).
  apply (dlseg_frame (upd (LSpec.hd_addr k2 None) (set_prev (LSpec.last_addr k1 None))
           (upd (LSpec.last_addr k1 None) (set_next (LSpec.hd_addr k2 None)) h))).
  { intros b. rewrite fmap_app, elem_of_app. intros Hb. rewrite lookup_delete_ne; [done|].
    intros ->. tauto. }
  apply dlseg_app. split.
  - apply dlseg_upd_frame.
    + intros b Hb%LSpec.hd_addr_in Hb'. by apply (Hn12 b).
    + eapply dlseg_set_next; [done|]. exact H1.
  - eapply dlseg_set_prev; [done|]. apply dlseg_upd_frame; [|exact H2].
    intros b Hb. apply LSpec.last_addr_in in Hb as [Hb|[? _]]; [|done]. by apply Hn12.
Qed.

(** The store after a fresh element has been linked between two segments. *)
Lemma dlseg_link h (k1 k2 : elems) a c :
  a ∉ (k1 ++ k2).*1 -> NoDup (k1 ++ k2).*1 -> dlseg h None (k1 ++ k2) None ->
  dlseg (<[a := Element (LSpec.last_addr k1 None) (LSpec.hd_addr k2 None) c]>
           (upd (LSpec.hd_addr k2 None) (set_prev (Some a))
             (upd (LSpec.last_addr k1 None) (set_next (Some a)) h)))
        None (k1 ++ (a, c) :: k2) None.
Proof.
  rewrite fmap_app, elem_of_app. intros Ha Hnd [H1 H2]%dlseg_app.
  apply NoDup_app in Hnd as (Hn1 & Hn12 & Hn2).
  apply dlseg_app. simpl. split; [|split].
  - eapply dlseg_frame; [|apply dlseg_upd_frame; [|by eapply dlseg_set_next]].
    + intros b Hb. rewrite lookup_insert_ne; [done|]. intros ->. tauto.
    + intros b Hb%LSpec.hd_addr_in Hb'. by apply (Hn12 b).
  - apply lookup_insert_eq.
  - eapply dlseg_frame; [|eapply dlseg_set_prev; [done|apply dlseg_upd_frame; [|exact H2]]].
    + intros b Hb. rewrite lookup_insert_ne; [done|]. intros ->. tauto.
    + intros b Hb. apply LSpec.last_addr_in in Hb as [Hb|[? _]]; [|done]. by apply Hn12.
Qed.

(** * Running the operations *)

Lemma get_lst_bind {B} (k : List -> C B) s : (get_lst ≫= k) s = k (lst s) s.
Proof. done. Qed.
Lemma gets_bind {B X} (f : store -> X) (k : X -> C B) s : (gets f ≫= k) s = k (f s) s.
Proof. done. Qed.
Lemma set_lst_bind {B} f (k : unit -> C B) s :
  (set_lst f ≫= k) s = k tt (Store (els s) (f (lst s)) (freed s)).
Proof. done. Qed.
Lemma mret_bind {B X} (x : X) (k : X -> C B) s : ((mret x : C X) ≫= k) s = k x s.
Proof. done. Qed.
Lemma update_bind {B} a e f (k : unit -> C B) s :
  els s !! a = Some e ->
  (update (Some a) f ≫= k) s = k tt (Store (alter f a (els s)) (lst s) (freed s)).
Proof. intros E. unfold update, mbind, M_bind. simpl. by rewrite E. Qed.
Lemma deref_bind {B} a e (k : ListElement -> C B) s :
  els s !! a = Some e -> (deref (Some a) ≫= k) s = k e s.
Proof. intros E. unfold deref, load, mbind, M_bind. simpl. by rewrite E. Qed.
Lemma free_element_bind {B} a e (k : unit -> C B) s :
  els s !! a = Some e ->
  (free_element (Some a) ≫= k) s = k tt (Store (delete a (els s)) (lst s) (freed s)).
Proof. intros E. unfold free_element, mbind, M_bind. simpl. by rewrite E. Qed.
Lemma malloc_bind {B} (k : loc -> C B) s :
  (malloc_element ≫= k) s =
  k (fresh (dom (els s)))
    (Store (<[fresh (dom (els s)) := Element None None None]> (els s)) (lst s) (freed s)).
Proof. done. Qed.
Lemma free_content_bind {B} b c (k : unit -> C B) s :
  (when b (free_content c) ≫= k) s =
  k tt (Store (els s) (lst s) (freed s ++ if b then option_list c else [])).
Proof. destruct b, s; [done|]. simpl. by rewrite app_nil_r. Qed.
Lemma bind_assoc' {X Y B} (m : C X) (f : X -> C Y) (g : Y -> C B) s :
  ((m ≫= f) ≫= g) s = (m ≫= (fun x => f x ≫= g)) s.
Proof. apply bind_assoc. Qed.

Ltac lookup_tac :=
  simpl; repeat first
    [ rewrite lookup_alter_eq | rewrite lookup_alter_ne by congruence
    | rewrite lookup_insert_eq | rewrite lookup_insert_ne by congruence
    | rewrite lookup_delete_ne by congruence
    | match goal with H : ?h !! ?a = _ |- context [?h !! ?a] => rewrite H end ];
  simpl; reflexivity.

Ltac run :=
  repeat first
    [ rewrite bind_assoc' | rewrite get_lst_bind | rewrite gets_bind | rewrite set_lst_bind
    | rewrite mret_bind
    | rewrite malloc_bind | rewrite free_content_bind
    | erewrite update_bind by lookup_tac
    | erewrite deref_bind by lookup_tac
    | erewrite free_element_bind by lookup_tac ];
  simpl.

Lemma rep_addr_in s l a : rep s l -> a ∈ LSpec.addrs l -> is_Some (els s !! a).
Proof.
  intros Hr Ha. destruct (LSpec.addrs_split l a Ha) as (k1 & c & k2 & E).
  pose proof (rep_seg s l Hr) as Hseg. rewrite E in Hseg. by rewrite (dlseg_lookup _ _ _ _ _ _ _ Hseg).
Qed.

Lemma last_addr_rep s l a :
  rep s l -> LSpec.last_addr (items l) None = Some a -> is_Some (els s !! a).
Proof.
  intros Hr Ha. apply (rep_addr_in s l a Hr).
  apply LSpec.last_addr_in in Ha as [?|[? _]]; done.
Qed.

(** A list with an element linked in between [k1] and [k2], whatever the order
    of the assignments that did it. *)
Lemma rep_link s l k1 k2 a c sz h' L' fr :
  rep s l -> items l = k1 ++ k2 -> (a ∉ LSpec.addrs l) ->
  h' !! a = Some (Element (LSpec.last_addr k1 None) (LSpec.hd_addr k2 None) c) ->
  (forall b, b <> a -> h' !! b = upd (LSpec.hd_addr k2 None) (set_prev (Some a))
                        (upd (LSpec.last_addr k1 None) (set_next (Some a)) (els s)) !! b) ->
  first L' = LSpec.hd_addr k1 (Some a) -> last L' = LSpec.last_addr k2 (Some a) ->
  current L' = current (lst s) -> count L' = count (lst s) + 1 -> size L' = size (lst s) + sz ->
  rep (Store h' L' fr) (CList (k1 ++ (a, c) :: k2) (cur l) (cnt l + 1) (csize l + sz)) /\
  frame (a :: LSpec.addrs l) s (Store h' L' fr).
Proof.
  intros [Hf Hl Hc Hk Hs Hseg Hwf] Ei Ha Hha Hhb H1 H2 H3 H4 H5.
  pose proof Hwf as [Hnd Hc' Hk']. unfold LSpec.addrs in *. rewrite Ei in *. split.
  - split; simpl; rewrite ?LSpec.hd_addr_app, ?LSpec.last_addr_app; simpl; try congruence.
    + eapply dlseg_frame; [|by apply (dlseg_link (els s) k1 k2 a c)].
      intros b _. destruct (decide (b = a)) as [->|Hb]; [by rewrite lookup_insert_eq|].
      rewrite lookup_insert_ne by done. by apply Hhb.
    + split; unfold LSpec.addrs; simpl.
      * rewrite fmap_app, fmap_cons in *. simpl. rewrite <- Permutation_middle.
        by apply NoDup_cons.
      * intros b Hb%Hc'. revert Hb. rewrite !fmap_app, !elem_of_app, fmap_cons, elem_of_cons. tauto.
      * rewrite Hk', !zlen_app, !zlen_cons. lia.
  - intros b Hb. simpl. apply not_elem_of_cons in Hb as [Hba Hb].
    rewrite fmap_app, not_elem_of_app in Hb. rewrite Hhb by done.
    rewrite upd_ne, upd_ne; [done|..].
    + intros E. apply LSpec.last_addr_in in E as [E|[? _]]; [tauto|done].
    + intros E%LSpec.hd_addr_in. tauto.
Qed.

Lemma last_addr_None (k : elems) : LSpec.last_addr k None = None -> k = [].
Proof.
  destruct k as [|[a x] k] using rev_ind; [done|]. by rewrite LSpec.last_addr_app.
Qed.

Lemma last_addr_mem (k : elems) a : LSpec.last_addr k None = Some a -> a ∈ k.*1.
Proof. by intros [?|[? _]]%LSpec.last_addr_in. Qed.

(** The state built by the assignments of [ListAppendNoMalloc]. *)
Lemma ListAppendNoMalloc_rep s l a e c sz :
  rep s l -> (a ∉ LSpec.addrs l) -> els s !! a = Some e ->
  exists s', ListAppendNoMalloc c a sz s = Some (tt, s') /\
    rep s' (LSpec.append_at a c sz l) /\ frame (a :: LSpec.addrs l) s s' /\ freed s' = freed s.
Proof.
  intros Hr Ha He. pose proof Hr as [Hf Hl Hc Hk Hs Hseg Hwf].
  unfold ListAppendNoMalloc. run. rewrite Hf, Hl.
  destruct (LSpec.last_addr (items l) None) as [la|] eqn:Ela.
  - pose proof (last_addr_mem _ _ Ela) as Hla. destruct (last_addr_rep s l la Hr Ela) as [ela Hela].
    assert (a <> la) by (intros ->; done).
    destruct (LSpec.hd_addr (items l) None) eqn:Eh; [|by destruct (items l) as [|[]]]. run.
    eexists. split; [reflexivity|]. apply Logic.and_assoc. split; [|done].
    apply (rep_link s l (items l) [] a c sz); simpl; rewrite ?app_nil_r, ?Hl, ?Ela; try done.
    + by lookup_tac.
    + intros b Hb. destruct (decide (b = la)) as [->|Hbl]; [by lookup_tac|].
      simpl. by rewrite !lookup_alter_ne by congruence.
    + rewrite Hf. by destruct (items l) as [|[]].
  - apply last_addr_None in Ela as Ei. rewrite Ei. run.
    eexists. split; [reflexivity|]. apply Logic.and_assoc. split; [|done].
    unfold LSpec.append_at. rewrite Ei.
    apply (rep_link s l [] [] a c sz); simpl; rewrite ?Hl, ?Ela; try done.
    + by lookup_tac.
    + intros b Hb. simpl. by rewrite !lookup_alter_ne by congruence.
Qed.

(** Allocating an element does not disturb a represented list. *)
Lemma rep_malloc s l a e :
  rep s l -> (a ∉ LSpec.addrs l) -> rep (Store (<[a := e]> (els s)) (lst s) (freed s)) l.
Proof.
  intros [Hf Hl Hc Hk Hs Hseg Hwf] Ha. split; simpl; try done.
  eapply dlseg_frame; [|exact Hseg]. intros b Hb. rewrite lookup_insert_ne; [done|]. by intros ->.
Qed.

Lemma fresh_not_in s l : rep s l -> fresh (dom (els s)) ∉ LSpec.addrs l.
Proof.
  intros Hr Ha. destruct (rep_addr_in s l _ Hr Ha) as [e He].
  apply elem_of_dom_2 in He. by apply (is_fresh (dom (els s))).
Qed.

Lemma frame_malloc X a e s s' :
  a ∈ X -> frame X (Store (<[a := e]> (els s)) (lst s) (freed s)) s' -> frame X s s'.
Proof.
  intros Ha Hf b Hb. rewrite Hf by done. simpl. rewrite lookup_insert_ne; [done|].
  by intros ->.
Qed.

Lemma ListAppend_rep s l c sz :
  rep s l ->
  exists a s', ListAppend c sz s = Some (tt, s') /\ (a ∉ LSpec.addrs l) /\
    rep s' (LSpec.append_at a c sz l) /\ frame (a :: LSpec.addrs l) s s' /\ freed s' = freed s.
Proof.
  intros Hr. pose proof (fresh_not_in s l Hr) as Ha. unfold ListAppend. rewrite malloc_bind.
  set (a := fresh (dom (els s))) in *. set (e := Element None None None).
  destruct (ListAppendNoMalloc_rep _ l a e c sz (rep_malloc s l a e Hr Ha) Ha)
    as (s' & E & Hr' & Hfr & Hfd); [apply lookup_insert_eq|].
  exists a, s'. split_and!; try done. eapply frame_malloc; [|exact Hfr]. constructor.
Qed.

(** Insertion before an element, on an allocated element [a]. *)
Lemma ListInsert_rep s l c sz index :
  rep s l -> (forall i, index = Some i -> i ∈ LSpec.addrs l) ->
  exists a s' l', ListInsert c sz index s = Some (tt, s') /\ (a ∉ LSpec.addrs l) /\
    LSpec.insert_at a c sz index l = Some l' /\ rep s' l' /\
    frame (a :: LSpec.addrs l) s s' /\ freed s' = freed s.
Proof.
  intros Hr Hi. destruct index as [i|].
  2: { destruct (ListAppend_rep s l c sz Hr) as (a & s' & E & ? & ? & ? & ?).
       exists a, s', (LSpec.append_at a c sz l). by split_and!. }
  specialize (Hi i eq_refl). destruct (LSpec.addrs_split l i Hi) as (k1 & x & k2 & Ei).
  pose proof (fresh_not_in s l Hr) as Ha. unfold ListInsert. rewrite malloc_bind.
  set (a := fresh (dom (els s))) in *. assert (a <> i) as Hai by (intros E; by rewrite E in Ha).
  pose proof Hr as [Hf Hl Hc Hk Hs Hseg Hwf]. rewrite Ei in Hseg, Hf, Hl.
  pose proof (dlseg_lookup _ _ _ _ _ _ _ Hseg) as Hli.
  assert (LSpec.insert_at a c sz (Some i) l =
    Some (CList (k1 ++ (a, c) :: (i, x) :: k2) (cur l) (cnt l + 1) (csize l + sz))) as Hins.
  { pose proof (LSpec.wf_nodup l Hwf) as Hnd. unfold LSpec.addrs in Hnd. rewrite Ei in Hnd.
    unfold LSpec.insert_at. rewrite Ei, LSpec.find_addr_mid by apply (LSpec.nodup_mid _ _ _ _ Hnd).
    simpl. by rewrite take_app_length, drop_app_length. }
  run. exists a. destruct (LSpec.last_addr k1 None) as [pa|] eqn:Epa.
  - pose proof (last_addr_mem _ _ Epa) as Hpa.
    assert (pa ∈ LSpec.addrs l) as Hpa'
      by (unfold LSpec.addrs; rewrite Ei, fmap_app, elem_of_app; by left).
    assert (a <> pa) by (intros ->; done). assert (i <> pa).
    { intros <-. pose proof (LSpec.wf_nodup l Hwf) as Hnd. unfold LSpec.addrs in Hnd.
      rewrite Ei in Hnd. by apply LSpec.nodup_mid in Hnd as [? _]. }
    destruct (rep_addr_in s l pa Hr Hpa') as [epa Hepa]. run.
    eexists _, _. split; [reflexivity|]. split; [done|]. split; [exact Hins|].
    apply Logic.and_assoc. split; [|done].
    apply (rep_link s l k1 ((i, x) :: k2) a c sz); simpl; rewrite ?Epa; try done.
    + by lookup_tac.
    + intros b Hb. destruct (decide (b = i)) as [->|Hbi]; [by lookup_tac|].
      destruct (decide (b = pa)) as [->|Hbp]; [by lookup_tac|].
      simpl. by rewrite ?lookup_alter_ne, ?lookup_insert_ne, ?lookup_alter_ne by congruence.
    + rewrite Hf, LSpec.hd_addr_app. by destruct k1 as [|[]].
    + by rewrite Hl, LSpec.last_addr_app, Epa.
  - apply last_addr_None in Epa as ->. run.
    eexists _, _. split; [reflexivity|]. split; [done|]. split; [exact Hins|].
    apply Logic.and_assoc. split; [|done].
    apply (rep_link s l [] ((i, x) :: k2) a c sz); simpl; try done.
    + by lookup_tac.
    + intros b Hb. destruct (decide (b = i)) as [->|Hbi]; [by lookup_tac|].
      simpl. by rewrite ?lookup_alter_ne, ?lookup_insert_ne by congruence.
Qed.

(** * Iteration and search *)

Lemma ListNextElement_rep s l k1 k2 :
  rep s l -> items l = k1 ++ k2 ->
  ListNextElement (LSpec.last_addr k1 None) s = Some (LSpec.hd_addr k2 None, s).
Proof.
  intros Hr Ei. pose proof (rep_seg s l Hr) as Hseg. rewrite Ei in Hseg.
  destruct k1 as [|[a c] k1 _] using rev_ind.
  - unfold ListNextElement. simpl. run. by rewrite (rep_first s l Hr), Ei.
  - rewrite <- app_assoc in Hseg. simpl in Hseg. pose proof (dlseg_lookup _ _ _ _ _ _ _ Hseg) as Ha.
    rewrite LSpec.last_addr_app. simpl. by run.
Qed.

Lemma ListPrevElement_rep s l k1 k2 :
  rep s l -> items l = k1 ++ k2 ->
  ListPrevElement (LSpec.hd_addr k2 None) s = Some (LSpec.last_addr k1 None, s).
Proof.
  intros Hr Ei. pose proof (rep_seg s l Hr) as Hseg. rewrite Ei in Hseg.
  destruct k2 as [|[a c] k2].
  - unfold ListPrevElement. simpl. run. by rewrite (rep_last s l Hr), Ei, app_nil_r.
  - pose proof (dlseg_lookup _ _ _ _ _ _ _ Hseg) as Ha. simpl. by run.
Qed.

Lemma rep_length s l : rep s l -> (length (items l) <= base.size (els s))%nat.
Proof.
  intros Hr. pose proof (LSpec.wf_nodup l (rep_wf s l Hr)) as Hnd.
  rewrite <- (length_fmap fst (items l)), <- (size_dom (els s)).
  rewrite <- (size_list_to_set (C:=gset loc)) by exact Hnd.
  apply subseteq_size. intros a Ha%elem_of_list_to_set. apply elem_of_dom.
  by apply (rep_addr_in s l a Hr).
Qed.

Lemma ListFindItem_loop_rep test s l fuel k1 k2 :
  rep s l -> items l = k1 ++ k2 -> (length k2 < fuel)%nat ->
  ListFindItem_loop fuel test (LSpec.last_addr k1 None) s = Some (LSpec.first_match test k2, s).
Proof.
  intros Hr. revert k1 k2. induction fuel as [|fuel IH]; intros k1 k2 Ei Hf; [lia|].
  pose proof (ListNextElement_rep s l k1 k2 Hr Ei) as Hn.
  pose proof (rep_seg s l Hr) as Hseg. rewrite Ei in Hseg.
  simpl. rewrite (bind_step _ _ _ _ _ Hn). destruct k2 as [|[a c] k2]; [done|].
  pose proof (dlseg_lookup _ _ _ _ _ _ _ Hseg) as Ha. simpl. run.
  unfold LSpec.first_match. simpl. destruct (test c) eqn:Et.
  - by rewrite decide_True.
  - rewrite decide_False by congruence.
    specialize (IH (k1 ++ [(a, c)]) k2). rewrite LSpec.last_addr_app in IH. simpl in IH.
    rewrite IH; [|by rewrite Ei, <- app_assoc|simpl in Hf; lia].
    unfold LSpec.first_match. by destruct (list_find _ k2) as [[? ?]|].
Qed.

(** The content of the current element, as the code reads it. *)
Lemma current_hit {B} test s l (k : bool -> C B) :
  rep s l ->
  ((match current (lst s) with
    | None => mret false
    | Some _ => e ← deref (current (lst s)); mret (test (content e)) end : C bool) ≫= k) s =
  k (match LSpec.cur_content l with Some x => test x | None => false end) s.
Proof.
  intros Hr. rewrite (rep_current s l Hr). destruct (cur l) as [a|] eqn:Ec.
  - destruct (LSpec.cur_content_some l a (rep_wf s l Hr) Ec) as (k1 & x & k2 & Ei & ->).
    pose proof (rep_seg s l Hr) as Hseg. rewrite Ei in Hseg.
    pose proof (dlseg_lookup _ _ _ _ _ _ _ Hseg) as Ha. by run.
  - unfold LSpec.cur_content. by rewrite Ec.
Qed.

Definition with_current (s : store) (p : ptr) : store := Store (els s) (set_current p (lst s)) (freed s).

Lemma rep_with_current s l a :
  rep s l -> (forall b, a = Some b -> b ∈ LSpec.addrs l) ->
  rep (with_current s a) (CList (items l) a (cnt l) (csize l)).
Proof.
  intros [Hf Hl Hc Hk Hs Hseg [Hn Hc' Hk']] Ha. split; simpl; try done.
Qed.

Lemma with_current_id s l : rep s l -> with_current s (cur l) = s.
Proof. intros Hr. destruct s as [h [] f]. pose proof (rep_current _ _ Hr) as E. simpl in E. by subst. Qed.

Lemma ListFindItem_rep test s l :
  rep s l ->
  ListFindItem test s =
    Some ((LSpec.find_item test l).1, with_current s (cur (LSpec.find_item test l).2)) /\
  rep (with_current s (cur (LSpec.find_item test l).2)) (LSpec.find_item test l).2.
Proof.
  intros Hr. split.
  2: { pose proof (LSpec.find_item_wf test l (rep_wf s l Hr)) as [_ Hc' _].
       assert ((LSpec.find_item test l).2 = CList (items l) (cur (LSpec.find_item test l).2) (cnt l) (csize l)) as E.
       { unfold LSpec.find_item. destruct l; repeat case_match; done. }
       rewrite E. simpl. apply rep_with_current; [done|]. intros b Hb. apply Hc' in Hb.
       unfold LSpec.addrs in *. by rewrite LSpec.find_item_items in Hb. }
  unfold ListFindItem. run. rewrite (current_hit test s l _ Hr).
  pose proof (ListFindItem_loop_rep test s l (S (base.size (els s))) [] (items l) Hr eq_refl) as Hloop.
  pose proof (rep_length s l Hr). simpl in Hloop.
  assert (Hscan : forall r, r = match LSpec.first_match test (items l) with
                      | Some a => (Some a, CList (items l) (Some a) (cnt l) (csize l))
                      | None => (None, l) end ->
    (rc ← ListFindItem_loop (S (base.size (els s))) test None;
     (match rc with Some _ => set_lst (set_current rc) | None => mret tt end);; mret rc) s =
    Some (r.1, with_current s (cur r.2))).
  { intros r ->. rewrite (bind_step _ _ _ _ _ (Hloop ltac:(lia))).
    destruct (LSpec.first_match test (items l)); [done|]. simpl.
    rewrite (with_current_id s l Hr). done. }
  unfold LSpec.find_item. destruct (LSpec.cur_content l) as [x|] eqn:Ex.
  - destruct (test x) eqn:Et.
    + simpl. rewrite (with_current_id s l Hr), (rep_current s l Hr). done.
    + run. by apply Hscan.
  - run. by apply Hscan.
Qed.

(** * Removal *)

(** A list from which the element between [k1] and [k2] has been bypassed. *)
Lemma rep_bypass s l k1 k2 k a c h' L' fr cu :
  rep s l -> items l = k1 ++ (a, c) :: k2 -> k = k1 ++ k2 ->
  (forall b, b <> a -> h' !! b = upd (LSpec.hd_addr k2 None) (set_prev (LSpec.last_addr k1 None))
        (upd (LSpec.last_addr k1 None) (set_next (LSpec.hd_addr k2 None)) (els s)) !! b) ->
  first L' = LSpec.hd_addr k None -> last L' = LSpec.last_addr k None ->
  current L' = cu -> count L' = count (lst s) - 1 -> size L' = size (lst s) ->
  (forall b, cu = Some b -> b ∈ k.*1) ->
  rep (Store h' L' fr) (CList k cu (cnt l - 1) (csize l)) /\
  frame (LSpec.addrs l) s (Store h' L' fr).
Proof.
  intros [Hf Hl Hc Hk Hs Hseg Hwf] Ei -> Hhb H1 H2 H3 H4 H5 Hcu.
  pose proof (LSpec.wf_nodup l Hwf) as Hnd. unfold LSpec.addrs in *. rewrite Ei in Hnd, Hseg.
  pose proof (LSpec.nodup_mid _ _ _ _ Hnd) as (Ha1 & Ha2 & _). split.
  - split; simpl; try congruence.
    + eapply dlseg_frame; [|by apply (dlseg_bypass (els s) k1 k2 a c)].
      intros b Hb. rewrite fmap_app, elem_of_app in Hb. assert (b <> a) by (intros ->; tauto).
      rewrite lookup_delete_ne by done. by apply Hhb.
    + by apply (LSpec.mid_wf_remove l k1 a c k2).
  - intros b Hb. simpl. rewrite Ei, fmap_app, fmap_cons, not_elem_of_app, not_elem_of_cons in Hb.
    destruct Hb as (Hb1 & Hba & Hb2). rewrite Hhb by done. rewrite upd_ne, upd_ne; [done|..].
    + intros E. by apply Hb1, last_addr_mem.
    + intros E%LSpec.hd_addr_in. by apply Hb2.
Qed.

(** The distinct neighbours of an element, and their presence in the store. *)
Lemma neighbours s l k1 k2 a c :
  rep s l -> items l = k1 ++ (a, c) :: k2 ->
  els s !! a = Some (Element (LSpec.last_addr k1 None) (LSpec.hd_addr k2 None) c) /\
  (forall b, LSpec.last_addr k1 None = Some b -> b <> a /\ is_Some (els s !! b)) /\
  (forall b, LSpec.hd_addr k2 None = Some b -> b <> a /\ is_Some (els s !! b)) /\
  (forall b d, LSpec.last_addr k1 None = Some b -> LSpec.hd_addr k2 None = Some d -> b <> d).
Proof.
  intros Hr Ei. pose proof (rep_seg s l Hr) as Hseg. rewrite Ei in Hseg.
  pose proof (dlseg_lookup _ _ _ _ _ _ _ Hseg) as Ha.
  pose proof (LSpec.wf_nodup l (rep_wf s l Hr)) as Hnd. unfold LSpec.addrs in Hnd. rewrite Ei in Hnd.
  destruct (LSpec.nodup_mid _ _ _ _ Hnd) as (Ha1 & Ha2 & Hnd').
  rewrite fmap_app in Hnd'. apply NoDup_app in Hnd' as (_ & Hn12 & _).
  assert (Hin : forall b, b ∈ k1.*1 \/ b ∈ k2.*1 -> is_Some (els s !! b)).
  { intros b Hb. apply (rep_addr_in s l b Hr). unfold LSpec.addrs.
    rewrite Ei, fmap_app, fmap_cons, elem_of_app, elem_of_cons. tauto. }
  split; [done|]. split; [|split].
  - intros b Hb%last_addr_mem. split; [by intros ->|]. apply Hin. tauto.
  - intros b Hb%LSpec.hd_addr_in. split; [by intros ->|]. apply Hin. tauto.
  - intros b d Hb%last_addr_mem Hd%LSpec.hd_addr_in ->. by apply (Hn12 d).
Qed.

Lemma hd_addr_None (k : elems) : LSpec.hd_addr k None = None -> k = [].
Proof. by destruct k as [|[]]. Qed.

(** The ends of a non-empty segment do not depend on the default. *)
Lemma hd_addr_default (k : elems) a d d' :
  LSpec.last_addr k None = Some a -> LSpec.hd_addr k d = LSpec.hd_addr k d'.
Proof. by destruct k as [|[]]. Qed.

Lemma last_addr_any (k : elems) a d d' :
  LSpec.hd_addr k None = Some a -> LSpec.last_addr k d = LSpec.last_addr k d'.
Proof. by destruct k as [|[]]. Qed.

Lemma ListUnlink_rep test freeContent s l :
  rep s l ->
  exists s', ListUnlink test freeContent s =
      Some (bool_decide (is_Some (LSpec.find_item test l).1), s') /\
    rep s' (LSpec.unlink test l).2 /\ frame (LSpec.addrs l) s s' /\
    freed s' = freed s ++ (if freeContent then option_list (mjoin (LSpec.unlink test l).1) else []).
Proof.
  intros Hr. destruct (ListFindItem_rep test s l Hr) as [Hfind Hr'].
  unfold ListUnlink. run. rewrite (bind_step _ _ _ _ _ Hfind).
  destruct (LSpec.find_item test l) as [[a|] l'] eqn:Ef; simpl in *.
  2: { apply LSpec.find_item_None in Ef as Ef'; [|apply Hr]. destruct Ef' as [_ ->].
       eexists. split; [reflexivity|]. unfold LSpec.unlink. rewrite Ef. simpl.
       split; [done|]. split; [|by destruct freeContent; rewrite app_nil_r].
       by rewrite (with_current_id s l Hr). }
  apply LSpec.find_item_Some in Ef as Ef'; [|apply Hr].
  destruct Ef' as (k1 & c & k2 & Ei & _ & ->). simpl in *.
  rewrite (LSpec.unlink_mid test l k1 a c k2) by (done || apply Hr || by rewrite Ef).
  destruct (neighbours s l k1 k2 a c Hr Ei) as (Ha & Hp & Hn & Hpn). rewrite (rep_current s l Hr).
  assert (Hcu : forall b, (if decide (cur l = Some a) then LSpec.hd_addr k2 None else cur l) = Some b ->
    b ∈ (k1 ++ k2).*1).
  { pose proof (LSpec.unlink_wf test l (rep_wf s l Hr)) as [_ Hc _].
    rewrite (LSpec.unlink_mid test l k1 a c k2) in Hc by (done || apply Hr || by rewrite Ef).
    exact Hc. }
  pose proof (rep_first s l Hr) as Hf. pose proof (rep_last s l Hr) as Hl.
  rewrite Ei, LSpec.hd_addr_app in Hf. rewrite Ei, LSpec.last_addr_app in Hl.
  run. simpl in Hf, Hl.
  destruct (LSpec.last_addr k1 None) as [pa|] eqn:Epa; [destruct (Hp pa eq_refl) as (? & [ep Hep])|apply last_addr_None in Epa as ->];
    run;
  (destruct (LSpec.hd_addr k2 None) as [na|] eqn:Ena; [destruct (Hn na eq_refl) as (? & [en Hen])|apply hd_addr_None in Ena as ->]);
  try (pose proof (Hpn _ _ eq_refl eq_refl)); run;
  eexists; (split; [reflexivity|]);
  apply Logic.and_assoc; (split; [|by rewrite ?app_nil_r]);
  (eapply (rep_bypass s l _ _ _ a c); [done|exact Ei|by rewrite ?app_nil_r|..]); simpl; rewrite ?LSpec.hd_addr_app, ?LSpec.last_addr_app, ?app_nil_r;
    simpl; rewrite ?Epa, ?Ena; try done;
  first [ intros b Hb; by rewrite lookup_delete_ne
        | rewrite Hf; by eapply hd_addr_default
        | rewrite Hl; by eapply last_addr_any
        | by rewrite app_nil_r in Hcu ].
Qed.

Lemma when_set_lst_bind {B} b f (k : unit -> C B) s :
  (when b (set_lst f) ≫= k) s = k tt (Store (els s) (if b then f (lst s) else lst s) (freed s)).
Proof. by destruct b, s. Qed.

Lemma rep_count_pos s l : rep s l -> (0 <? count (lst s)) = bool_decide (items l <> []).
Proof.
  intros Hr. rewrite (rep_count s l Hr), (LSpec.wf_count l (rep_wf s l Hr)).
  destruct (items l) as [|e its]; [done|]. rewrite zlen_cons, bool_decide_true by done.
  pose proof (zlen_nonneg its). lia.
Qed.

Lemma ListDetachHead_rep s l :
  rep s l ->
  exists s', ListDetachHead s = Some (mjoin (LSpec.detach_head l).1, s') /\
    rep s' (LSpec.detach_head l).2 /\ frame (LSpec.addrs l) s s' /\ freed s' = freed s.
Proof.
  intros Hr. pose proof (rep_count_pos s l Hr) as Hpos. unfold ListDetachHead, LSpec.detach_head.
  destruct (items l) as [|[a c] k2] eqn:Ei.
  { run. rewrite Hpos. by exists s. }
  destruct (neighbours s l [] k2 a c Hr Ei) as (Ha & _ & Hn & _). simpl in Ha.
  pose proof (rep_first s l Hr) as Hf. pose proof (rep_last s l Hr) as Hl.
  rewrite Ei in Hf, Hl. simpl in Hf, Hl.
  assert (Hla : bool_decide (last (lst s) = first (lst s)) = bool_decide (k2 = [])).
  { rewrite Hf, Hl. apply bool_decide_ext. destruct k2 as [|e k2]; [done|]. split; [|done].
    intros E. apply LSpec.last_addr_in in E as [E|[_ ?]]; [|done].
    pose proof (LSpec.wf_nodup l (rep_wf s l Hr)) as Hnd. unfold LSpec.addrs in Hnd.
    rewrite Ei in Hnd. by apply (LSpec.nodup_mid []) in Hnd as (_ & ? & _). }
  pose proof (LSpec.addr_after_mid [] k2 (a, c)) as E. simpl in E. rewrite E.
  assert (Hcu : forall b, (if decide (cur l = Some a) then LSpec.hd_addr k2 None else cur l) = Some b ->
    b ∈ k2.*1).
  { intros b. destruct (decide (cur l = Some a)); [apply LSpec.hd_addr_in|]. intros Hb.
    pose proof (LSpec.wf_current l (rep_wf s l Hr) b Hb) as Hin. unfold LSpec.addrs in Hin.
    rewrite Ei in Hin. apply elem_of_cons in Hin as [->|?]; done. }
  run. rewrite Hpos. simpl. rewrite Hf. run. rewrite !when_set_lst_bind. simpl.
  rewrite <- Hf, Hla, Hf, (rep_current s l Hr). run.
  destruct (LSpec.hd_addr k2 None) as [na|] eqn:Ena; [destruct (Hn na eq_refl) as (? & [en Hen])
    |apply hd_addr_None in Ena as ->]; run;
  [rewrite (bool_decide_false (k2 = [])) by by intros ->|];
  (destruct (decide (cur l = Some a)) as [Ec|Ec]; [rewrite (bool_decide_true _ Ec)|
    rewrite (bool_decide_false _ Ec)]); run;
  eexists; (split; [reflexivity|]); apply Logic.and_assoc; (split; [|done]);
  (eapply (rep_bypass s l [] _ _ a c); [done|exact Ei|done|..]); simpl; rewrite ?Ena; try done;
  first [ intros b Hb; by rewrite lookup_delete_ne
        | rewrite Hl; by eapply last_addr_any
        | apply (rep_current s l Hr) ].
Qed.

Lemma last_rev_inv (k : elems) a : LSpec.last_addr k None = Some a -> exists k1 c, k = k1 ++ [(a, c)].
Proof.
  destruct k as [|[b c] k1 _] using rev_ind; [done|].
  rewrite LSpec.last_addr_app. simpl. intros [= ->]. by exists k1, c.
Qed.

Lemma ListPopTail_rep s l :
  rep s l ->
  exists s', ListPopTail s = Some (mjoin (LSpec.pop_tail l).1, s') /\
    rep s' (LSpec.pop_tail l).2 /\ frame (LSpec.addrs l) s s' /\ freed s' = freed s.
Proof.
  intros Hr. pose proof (rep_count_pos s l Hr) as Hpos. unfold ListPopTail, LSpec.pop_tail.
  destruct (items l) as [|[a c] k1 _] eqn:Ei using rev_ind.
  { run. rewrite Hpos. by exists s. }
  destruct (neighbours s l k1 [] a c Hr Ei) as (Ha & Hp & _). simpl in Ha.
  pose proof (rep_first s l Hr) as Hf. pose proof (rep_last s l Hr) as Hl.
  rewrite Ei, LSpec.hd_addr_app in Hf. rewrite Ei, LSpec.last_addr_app in Hl. simpl in Hf, Hl.
  rewrite bool_decide_true in Hpos by (by destruct k1).
  assert (Hla : bool_decide (first (lst s) = last (lst s)) = bool_decide (k1 = [])).
  { rewrite Hf, Hl. apply bool_decide_ext. destruct k1 as [|[b d] k1]; [done|]. split; [|done].
    simpl. intros [= E]. pose proof (LSpec.wf_nodup l (rep_wf s l Hr)) as Hnd. unfold LSpec.addrs in Hnd.
    rewrite Ei in Hnd. apply LSpec.nodup_mid in Hnd as [Hn _]. exfalso. apply Hn. simpl. rewrite E. constructor. }
  rewrite last_snoc, length_app, Nat.add_1_r. simpl.
  rewrite take_app_length, LSpec.addr_before_mid.
  assert (Hcu : forall b, (if decide (cur l = Some a) then LSpec.last_addr k1 None else cur l) = Some b ->
    b ∈ k1.*1).
  { intros b. destruct (decide (cur l = Some a)); [apply last_addr_mem|]. intros Hb.
    pose proof (LSpec.wf_current l (rep_wf s l Hr) b Hb) as Hin. unfold LSpec.addrs in Hin.
    rewrite Ei, fmap_app, elem_of_app in Hin. destruct Hin as [?|Hin]; [done|].
    apply list_elem_of_singleton in Hin as ->. done. }
  run. rewrite Hpos. simpl. rewrite Hl. run. rewrite !when_set_lst_bind. simpl.
  rewrite <- Hl, Hla, Hl, (rep_current s l Hr). run.
  destruct (LSpec.last_addr k1 None) as [pa|] eqn:Epa; [destruct (Hp pa eq_refl) as (? & [ep Hep])
    |apply last_addr_None in Epa as ->]; run;
  [rewrite (bool_decide_false (k1 = [])) by by intros ->|];
  (destruct (decide (cur l = Some a)) as [Ec|Ec]; [rewrite (bool_decide_true _ Ec)|
    rewrite (bool_decide_false _ Ec)]); run;
  eexists; (split; [reflexivity|]); apply Logic.and_assoc; (split; [|done]);
  (eapply (rep_bypass s l _ [] _ a c); [done|exact Ei|by rewrite app_nil_r|..]); simpl; rewrite ?Epa; try done;
  first [ intros b Hb; by rewrite lookup_delete_ne
        | rewrite Hf; by eapply hd_addr_default
        | apply (rep_current s l Hr) ].
Qed.

(** * Emptying *)

(** The contents that [free] receives, in order. *)
Definition freed_contents (k : elems) : list loc := k.*2 ≫= option_list.

Lemma ListEmpty_loop_spec fc s p k fuel :
  first (lst s) = LSpec.hd_addr k None -> dlseg (els s) p k None -> NoDup k.*1 ->
  (length k < fuel)%nat ->
  exists s', ListEmpty_loop fuel fc s = Some (tt, s') /\
    (forall b, els s' !! b = if decide (b ∈ k.*1) then None else els s !! b) /\
    freed s' = freed s ++ (if fc then freed_contents k else []) /\
    first (lst s') = None.
Proof.
  revert s p fuel. induction k as [|[a c] k IH]; intros s p fuel Hf Hseg Hnd Hfuel;
    (destruct fuel as [|fuel]; [lia|]); unfold ListEmpty_loop; fold ListEmpty_loop; run; rewrite Hf; simpl.
  - exists s. rewrite Hf. split_and!; [done| |by destruct fc; rewrite app_nil_r|done].
    done.
  - destruct Hseg as [Ha Hseg]. apply NoDup_cons in Hnd as [Hak Hnd]. simpl in Hfuel. run.
    edestruct (IH (Store (delete a (els s)) (set_first (LSpec.hd_addr k None) (lst s))
                     (freed s ++ (if fc then option_list c else [])))) as (s' & E & Hels & Hfr & Hfi);
      [done| |done| |].
    + eapply dlseg_frame; [|exact Hseg]. intros b Hb. simpl. rewrite lookup_delete_ne; [done|].
      by intros ->.
    + instantiate (1 := fuel). lia.
    + exists s'. rewrite E. split_and!; [done| | |done].
      * intros b. rewrite Hels. simpl. destruct (decide (b ∈ k.*1)) as [Hb|Hb].
        -- by rewrite decide_True by (by constructor).
        -- destruct (decide (b = a)) as [->|Hba].
           ++ by rewrite decide_True, lookup_delete_eq by constructor.
           ++ rewrite decide_False, lookup_delete_ne; [done..|].
              intros [?|?]%elem_of_cons; done.
      * rewrite Hfr. simpl. destruct fc; [|by rewrite app_nil_r].
        unfold freed_contents. simpl. by rewrite app_assoc.
Qed.

Lemma ListEmpty_rep s l :
  rep s l ->
  exists s', ListEmpty s = Some (tt, s') /\ rep s' LSpec.empty /\
    (forall b, els s' !! b = if decide (b ∈ LSpec.addrs l) then None else els s !! b) /\
    freed s' = freed s ++ freed_contents (items l).
Proof.
  intros Hr. unfold ListEmpty. run.
  destruct (ListEmpty_loop_spec true s None (items l) (S (base.size (els s))))
    as (s' & E & Hels & Hfr & Hfi); [apply Hr|apply Hr|apply (LSpec.wf_nodup l), Hr| |].
  { pose proof (rep_length s l Hr). lia. }
  rewrite (bind_step _ _ _ _ _ E). eexists. split; [reflexivity|].
  split; [|by split]. split; simpl; try done. apply LSpec.wf_empty.
Qed.

(** * Properties *)

(** A three-element list in a store that also holds an unrelated element. *)
Definition ex_store : store :=
  Store (<[10%positive := Element None (Some 11%positive) (Some 20%positive)]>
        (<[11%positive := Element (Some 10%positive) (Some 12%positive) (Some 21%positive)]>
        (<[12%positive := Element (Some 11%positive) None (Some 22%positive)]>
        {[ 5%positive := Element None None None ]})))
        (MkList (Some 10%positive) (Some 12%positive) (Some 11%positive) 3 24) [].
Definition ex_list : clist ptr :=
  CList [(10%positive, Some 20%positive); (11%positive, Some 21%positive); (12%positive, Some 22%positive)]
        (Some 11%positive) 3 24.

Lemma ex_rep : rep ex_store ex_list.
Proof.
  split; try done. split; try done.
  - apply (bool_decide_unpack _). vm_compute. done.
  - intros a [= <-]. apply (bool_decide_unpack _). vm_compute. done.
Qed.

(** [C27] [ListInsert] implements insertion before an element of the list (at
    the end for a [NULL] index): it never goes wrong, links one new element
    with the given content, updates [count] and [size], and leaves every
    element of other lists alone. *)
Theorem ListInsert_refines s l c sz index :
  rep s l -> (forall i, index = Some i -> i ∈ LSpec.addrs l) ->
  exists a s' l', ListInsert c sz index s = Some (tt, s') /\ (a ∉ LSpec.addrs l) /\
    LSpec.insert_at a c sz index l = Some l' /\ rep s' l' /\
    frame (a :: LSpec.addrs l) s s' /\ freed s' = freed s.
Proof. apply ListInsert_rep. Qed.

Example ListInsert_refines_witness :
  exists a s' l', ListInsert (Some 30%positive) 8 (Some 11%positive) ex_store = Some (tt, s') /\
    LSpec.insert_at a (Some 30%positive) 8 (Some 11%positive) ex_list = Some l' /\ rep s' l'.
Proof.
  destruct (ListInsert_refines ex_store ex_list (Some 30%positive) 8 (Some 11%positive) ex_rep)
    as (a & s' & l' & ? & _ & ? & ? & _).
  - intros i [= <-]. apply (bool_decide_unpack _). vm_compute. done.
  - by exists a, s', l'.
Defined.

(** [ListFindItem] implements the abstract search: the cached [current]
    element first, then the first match from the head, which becomes
    current. *)
Theorem ListFindItem_refines test s l :
  rep s l ->
  exists s', ListFindItem test s = Some ((LSpec.find_item test l).1, s') /\
    rep s' (LSpec.find_item test l).2 /\ els s' = els s.
Proof.
  intros Hr. destruct (ListFindItem_rep test s l Hr) as [E Hr'].
  eexists. split; [exact E|]. by split.
Qed.

Example ListFindItem_refines_witness :
  exists s', ListFindItem (same_ptr (Some 22%positive)) ex_store = Some (Some 12%positive, s') /\
    current (lst s') = Some 12%positive.
Proof.
  destruct (ListFindItem_refines (same_ptr (Some 22%positive)) ex_store ex_list ex_rep)
    as (s' & E & Hr & _).
  exists s'. split; [exact E|]. rewrite (rep_current _ _ Hr). vm_compute. reflexivity.
Defined.

(** [C28] [ListUnlink] (and so [ListRemove], [ListDetach] and their [Item]
    variants) implements abstract removal: the element found is bypassed and
    freed, its content is freed exactly when asked, [current] never keeps
    pointing at the freed element, and nothing else changes. *)
Theorem ListUnlink_refines test freeContent s l :
  rep s l ->
  exists s', ListUnlink test freeContent s =
      Some (bool_decide (is_Some (LSpec.find_item test l).1), s') /\
    rep s' (LSpec.unlink test l).2 /\ frame (LSpec.addrs l) s s' /\
    freed s' = freed s ++ (if freeContent then option_list (mjoin (LSpec.unlink test l).1) else []).
Proof. apply ListUnlink_rep. Qed.

Example ListUnlink_refines_witness :
  exists s', ListRemove (Some 21%positive) ex_store = Some (true, s') /\
    freed s' = [21%positive] /\ current (lst s') = Some 12%positive.
Proof.
  destruct (ListUnlink_refines (same_ptr (Some 21%positive)) true ex_store ex_list ex_rep)
    as (s' & E & Hr & _ & Hf).
  exists s'. split; [exact E|]. split; [exact Hf|].
  rewrite (rep_current _ _ Hr). vm_compute. reflexivity.
Defined.

(** The two ends: [ListDetachHead] and [ListPopTail] remove the first and
    the last element, return its content, return [NULL] on an empty list, and
    keep the list consistent. *)
Theorem ListDetachHead_PopTail_refine s l :
  rep s l ->
  (exists s', ListDetachHead s = Some (mjoin (LSpec.detach_head l).1, s') /\
     rep s' (LSpec.detach_head l).2 /\ frame (LSpec.addrs l) s s' /\ freed s' = freed s) /\
  (exists s', ListPopTail s = Some (mjoin (LSpec.pop_tail l).1, s') /\
     rep s' (LSpec.pop_tail l).2 /\ frame (LSpec.addrs l) s s' /\ freed s' = freed s).
Proof. intros Hr. split; [by apply ListDetachHead_rep|by apply ListPopTail_rep]. Qed.

Example ListDetachHead_PopTail_refine_witness :
  exists s1 s2, ListDetachHead ex_store = Some (Some 20%positive, s1) /\
    ListPopTail ex_store = Some (Some 22%positive, s2).
Proof.
  destruct (ListDetachHead_PopTail_refine ex_store ex_list ex_rep)
    as [(s1 & E1 & _) (s2 & E2 & _)].
  exists s1, s2. split; [exact E1|exact E2].
Defined.

(** [C29] [ListEmpty] frees every element and every non-null content exactly
    once, in order, and leaves an empty list; other lists are untouched. *)
Theorem ListEmpty_refines s l :
  rep s l ->
  exists s', ListEmpty s = Some (tt, s') /\ rep s' LSpec.empty /\
    (forall b, els s' !! b = if decide (b ∈ LSpec.addrs l) then None else els s !! b) /\
    freed s' = freed s ++ freed_contents (items l).
Proof. apply ListEmpty_rep. Qed.

Example ListEmpty_refines_witness :
  exists s', ListEmpty ex_store = Some (tt, s') /\ freed s' = [20; 21; 22]%positive.
Proof.
  destruct (ListEmpty_refines ex_store ex_list ex_rep) as (s' & E & _ & _ & Hf).
  exists s'. split; [exact E|exact Hf].
Defined.

End LinkedList.
