(* ===== verification/Tree.v ===== *)
(** Model of [lib/Tree.c]: red-black trees over a store of nodes with parent
    pointers, with one or two indexes.

    The state of an operation is the store of nodes and the [Tree] structure; an
    access to a node that is not in the store is undefined.  The comparison
    functions given to [TreeInitialize] and [TreeAddIndex] are the variable
    [compare].  The loops go along a path of the tree; their fuel is the number of
    the nodes. *)

From S2P Require Import Prelude.

Module Tree.

(** A [void*] content pointer or a [Node*]; [None] is [NULL]. *)
Abbreviation ptr := (option loc).

(** [child[0]] and [child[1]] are [n_left] and [n_right]. *)
Record Node := MkNode {
  n_parent : ptr; n_left : ptr; n_right : ptr; n_content : ptr; n_size : Z; n_red : bool
}.

(** [index[0].root], [index[1].root] and the other fields *)
Record Tree := MkTree {
  root0 : ptr; root1 : ptr; indexes : Z; t_count : Z; t_size : Z;
  heap_tracking : bool; allow_duplicates : bool
}.

Record store := Store { nodes : gmap loc Node; tree : Tree }.
Abbreviation C := (M store).

(** The comparison function of an index *)
Section operations.
Variable compare : Z -> ptr -> ptr -> Z -> Z.

(** * Accesses to the store *)

(** [LEFT] and [RIGHT], the positions of the children *)
Definition LEFT : bool := false.
Definition RIGHT : bool := true.

Definition child (d : bool) (n : Node) : ptr := if d then n_right n else n_left n.
Definition set_child (d : bool) (p : ptr) (n : Node) : Node :=
  if d then MkNode (n_parent n) (n_left n) p (n_content n) (n_size n) (n_red n)
  else MkNode (n_parent n) p (n_right n) (n_content n) (n_size n) (n_red n).
Definition set_parent (p : ptr) (n : Node) : Node :=
  MkNode p (n_left n) (n_right n) (n_content n) (n_size n) (n_red n).
Definition set_red (b : bool) (n : Node) : Node :=
  MkNode (n_parent n) (n_left n) (n_right n) (n_content n) (n_size n) b.
Definition set_item (c : ptr) (size : Z) (n : Node) : Node :=
  MkNode (n_parent n) (n_left n) (n_right n) c size (n_red n).

Definition deref (p : ptr) : C Node := load (fun s => a ← p; nodes s !! a).
Definition update (p : ptr) (f : Node -> Node) : C unit :=
  fun s => a ← p; _ ← nodes s !! a; Some (tt, Store (alter f a (nodes s)) (tree s)).
(** [malloc(sizeof(Node))] with [memset], and [free] *)
Definition malloc_node : C loc :=
  fun s => let a := fresh (dom (nodes s)) in
           Some (a, Store (<[a := MkNode None None None None 0 false]> (nodes s)) (tree s)).
Definition free_node (p : ptr) : C unit :=
  fun s => a ← p; _ ← nodes s !! a; Some (tt, Store (delete a (nodes s)) (tree s)).

Definition root (index : Z) : C ptr :=
  load (fun s => if index =? 0 then Some (root0 (tree s))
                 else if index =? 1 then Some (root1 (tree s)) else None).
Definition upd_tree (f : Tree -> Tree) : C unit := modify (fun s => Store (nodes s) (f (tree s))).
Definition put_root (index : Z) (p : ptr) (t : Tree) : Tree :=
  if index =? 0
  then MkTree p (root1 t) (indexes t) (t_count t) (t_size t) (heap_tracking t) (allow_duplicates t)
  else MkTree (root0 t) p (indexes t) (t_count t) (t_size t) (heap_tracking t) (allow_duplicates t).
Definition set_root (index : Z) (p : ptr) : C unit := upd_tree (put_root index p).
Definition add_count (n : Z) (t : Tree) : Tree :=
  MkTree (root0 t) (root1 t) (indexes t) (int_wrap (t_count t + n)) (t_size t) (heap_tracking t) (allow_duplicates t).
Definition add_size (n : Z) (t : Tree) : Tree :=
  MkTree (root0 t) (root1 t) (indexes t) (t_count t) (size_wrap (t_size t + n)) (heap_tracking t) (allow_duplicates t).

(** A field of [*p] *)
Definition parent_of (p : ptr) : C ptr := n ← deref p; mret (n_parent n).
Definition child_of (d : bool) (p : ptr) : C ptr := n ← deref p; mret (child d n).

(** * The operations *)

Definition empty_tree : Tree := MkTree None None 1 0 0 true false.

(** [memset] and the first index *)
Definition TreeInitializeNoMalloc : C unit := upd_tree (fun _ => empty_tree).
Definition TreeAddIndex : C unit :=
  upd_tree (fun t => MkTree (root0 t) (root1 t) (int_wrap (indexes t + 1)) (t_count t) (t_size t)
                       (heap_tracking t) (allow_duplicates t)).

Definition isRed (aNode : ptr) : C bool :=
  match aNode with None => mret false | Some _ => n ← deref aNode; mret (n_red n) end.
Definition isBlack (aNode : ptr) : C bool :=
  match aNode with None => mret true | Some _ => n ← deref aNode; mret (negb (n_red n)) end.

Fixpoint TreeWalk (fuel : nat) (curnode : ptr) (depth : Z) : C Z :=
  match fuel with
  | O => undefined
  | S fuel' =>
      match curnode with
      | None => mret depth
      | Some _ =>
          n ← deref curnode;
          left ← TreeWalk fuel' (n_left n) (int_wrap (depth + 1));
          right ← TreeWalk fuel' (n_right n) (int_wrap (depth + 1));
          mret (if right <? left then left else right)
      end
  end.

Definition path_fuel : C nat := gets (fun s => S (base.size (nodes s))).

Definition TreeMaxDepth : C Z :=
  r ← root 0; fuel ← path_fuel; TreeWalk fuel r 0.

Definition TreeRotate (curnode : ptr) (direction : bool) (index : Z) : C unit :=
  other ← child_of (negb direction) curnode;
  inner ← child_of direction other;
  update curnode (set_child (negb direction) inner);;
  (match inner with Some _ => update inner (set_parent curnode) | None => mret tt end);;
  p ← parent_of curnode;
  update other (set_parent p);;
  (match p with
   | None => set_root index other
   | Some _ =>
       c ← child_of direction p;
       if bool_decide (curnode = c) then update p (set_child direction other)
       else update p (set_child (negb direction) other)
   end);;
  update other (set_child direction curnode);;
  update curnode (set_parent other).

Definition TreeBAASub (curnode : ptr) (which : bool) (index : Z) : C ptr :=
  p ← parent_of curnode;
  g ← parent_of p;
  uncle ← child_of which g;
  red ← isRed uncle;
  if red : bool then
    update uncle (set_red false);;
    update p (set_red false);;
    update g (set_red true);;
    mret g
  else
    c ← child_of which p;
    curnode ← (if bool_decide (curnode = c) then TreeRotate p (negb which) index;; mret p
               else mret curnode);
    p ← parent_of curnode;
    update p (set_red false);;
    g ← parent_of p;
    update g (set_red true);;
    TreeRotate g which index;;
    mret curnode.

(** The loop of [TreeBalanceAfterAdd] *)
Fixpoint balance_add_loop (fuel : nat) (curnode : ptr) (index : Z) : C unit :=
  match fuel with
  | O => undefined
  | S fuel' =>
      p ← parent_of curnode;
      red ← isRed p;
      if red : bool then
        g ← parent_of p;
        match g with
        | None => mret tt
        | Some _ =>
            l ← child_of LEFT g;
            curnode ← TreeBAASub curnode (if bool_decide (p = l) then RIGHT else LEFT) index;
            balance_add_loop fuel' curnode index
        end
      else mret tt
  end.

Definition TreeBalanceAfterAdd (curnode : ptr) (index : Z) : C unit :=
  fuel ← path_fuel;
  balance_add_loop fuel curnode index;;
  r ← root index;
  update r (set_red false).

(** The search of [TreeAddByIndex]: the last result, the node found or NULL, its
    parent-to-be and the side *)
Fixpoint add_search (fuel : nat) (content : ptr) (index : Z) (curparent curnode : ptr)
    (side : bool) (result : Z) : C (Z * ptr * ptr * bool) :=
  match fuel with
  | O => undefined
  | S fuel' =>
      match curnode with
      | None => mret (result, curnode, curparent, side)
      | Some _ =>
          n ← deref curnode;
          let result := compare index (n_content n) content 1 in
          let side := 0 <? result in
          if result =? 0 then mret (result, curnode, curparent, side)
          else add_search fuel' content index curnode (child side n) side result
      end
  end.

Definition TreeAddByIndex (content : ptr) (size : Z) (index : Z) : C ptr :=
  r ← root index;
  fuel ← path_fuel;
  found ← add_search fuel content index None r false 1;
  let '(result, curnode, curparent, side) := found in
  if result =? 0 then
    dup ← gets (fun s => allow_duplicates (tree s));
    if dup : bool then undefined (* exit(-99) *)
    else
      n ← deref curnode;
      when (index =? 0) (upd_tree (add_size (size - n_size n)));;
      update curnode (set_item content size);;
      TreeBalanceAfterAdd curnode index;;
      mret (n_content n)
  else
    newel ← malloc_node;
    (match curparent with
     | Some _ => update curparent (set_child side (Some newel))
     | None => set_root index (Some newel)
     end);;
    update (Some newel) (set_parent curparent);;
    update (Some newel) (set_red true);;
    when (index =? 0) (upd_tree (add_count 1);; upd_tree (add_size size));;
    update (Some newel) (set_item content size);;
    TreeBalanceAfterAdd (Some newel) index;;
    mret None.

(** A loop over the indexes from [i]; there are two at most. *)
Fixpoint for_indexes (fuel : nat) (i : Z) (rc : ptr) (body : Z -> ptr -> C ptr) : C ptr :=
  match fuel with
  | O => mret rc
  | S fuel' =>
      n ← gets (fun s => indexes (tree s));
      if i <? n then rc ← body i rc; for_indexes fuel' (i + 1) rc body else mret rc
  end.

Definition TreeAdd (content : ptr) (size : Z) : C ptr :=
  n ← gets (fun s => Z.to_nat (indexes (tree s)));
  for_indexes n 0 None (fun i _ => TreeAddByIndex content size i).

Fixpoint find_loop (fuel : nat) (key : ptr) (index value : Z) (curnode : ptr) : C ptr :=
  match fuel with
  | O => undefined
  | S fuel' =>
      match curnode with
      | None => mret None
      | Some _ =>
          n ← deref curnode;
          let result := compare index (n_content n) key value in
          if result =? 0 then mret curnode
          else find_loop fuel' key index value (child (0 <? result) n)
      end
  end.

Definition TreeFindIndex1 (key : ptr) (index value : Z) : C ptr :=
  r ← root index; fuel ← path_fuel; find_loop fuel key index value r.
Definition TreeFindIndex (key : ptr) (index : Z) : C ptr := TreeFindIndex1 key index 0.
Definition TreeFindContentIndex (key : ptr) (index : Z) : C ptr := TreeFindIndex1 key index 1.
Definition TreeFind (key : ptr) : C ptr := TreeFindIndex key 0.

Fixpoint minimum_loop (fuel : nat) (curnode : ptr) : C ptr :=
  match fuel with
  | O => undefined
  | S fuel' =>
      l ← child_of LEFT curnode;
      match l with None => mret curnode | Some _ => minimum_loop fuel' l end
  end.
Definition TreeMinimum (curnode : ptr) : C ptr :=
  match curnode with None => mret None | Some _ => fuel ← path_fuel; minimum_loop fuel curnode end.

Fixpoint climb_loop (fuel : nat) (curnode curparent : ptr) : C ptr :=
  match fuel with
  | O => undefined
  | S fuel' =>
      match curparent with
      | None => mret curparent
      | Some _ =>
          p ← deref curparent;
          if bool_decide (curnode = n_right p) then climb_loop fuel' curparent (n_parent p)
          else mret curparent
      end
  end.
Definition TreeSuccessor (curnode : ptr) : C ptr :=
  n ← deref curnode;
  match n_right n with
  | Some _ => TreeMinimum (n_right n)
  | None => fuel ← path_fuel; climb_loop fuel curnode (n_parent n)
  end.

Definition TreeNextElementIndex (curnode : ptr) (index : Z) : C ptr :=
  match curnode with
  | None => r ← root index; TreeMinimum r
  | Some _ => TreeSuccessor curnode
  end.
Definition TreeNextElement (curnode : ptr) : C ptr := TreeNextElementIndex curnode 0.

Definition TreeBARSub (curnode : ptr) (which : bool) (index : Z) : C ptr :=
  p ← parent_of curnode;
  sibling ← child_of which p;
  red ← isRed sibling;
  (if red : bool then
     update sibling (set_red false);;
     update p (set_red true);;
     TreeRotate p (negb which) index
   else mret tt);;
  p ← parent_of curnode;
  sibling ← child_of which p;
  match sibling with
  | None => mret p
  | Some _ =>
      n ← deref sibling;
      black1 ← isBlack (child (negb which) n);
      black2 ← isBlack (child which n);
      if black1 && black2 then
        update sibling (set_red true);;
        mret p
      else
        (if black2 : bool then
           update (child (negb which) n) (set_red false);;
           update sibling (set_red true);;
           TreeRotate sibling which index
         else mret tt);;
        sibling ← child_of which p;
        pn ← deref p;
        update sibling (set_red (n_red pn));;
        update p (set_red false);;
        c ← child_of which sibling;
        update c (set_red false);;
        TreeRotate p (negb which) index;;
        root index
  end.

Fixpoint balance_remove_loop (fuel : nat) (curnode : ptr) (index : Z) : C ptr :=
  match fuel with
  | O => undefined
  | S fuel' =>
      r ← root index;
      black ← isBlack curnode;
      if negb (bool_decide (curnode = r)) && black then
        n ← deref curnode;
        l ← child_of LEFT (n_parent n);
        let me := match n_content n with Some _ => curnode | None => None end in
        curnode ← TreeBARSub curnode (if bool_decide (me = l) then RIGHT else LEFT) index;
        balance_remove_loop fuel' curnode index
      else mret curnode
  end.

Definition TreeBalanceAfterRemove (curnode : ptr) (index : Z) : C unit :=
  fuel ← path_fuel;
  curnode ← balance_remove_loop fuel curnode index;
  update curnode (set_red false).

(** [TreeRemoveNodeIndex]; the node [temp] on the stack is in the store while it
    is there. *)
Definition TreeRemoveNodeIndex (curnode : ptr) (index : Z) : C ptr :=
  n ← deref curnode;
  redundant ← (match n_left n, n_right n with
               | Some _, Some _ => TreeSuccessor curnode
               | _, _ => mret curnode end);
  x ← deref redundant;
  let curchild := match n_left x with Some _ => n_left x | None => n_right x end in
  (match curchild with Some _ => update curchild (set_parent (n_parent x)) | None => mret tt end);;
  (match n_parent x with
   | None => set_root index curchild
   | Some _ =>
       l ← child_of LEFT (n_parent x);
       update (n_parent x) (set_child (if bool_decide (redundant = l) then LEFT else RIGHT) curchild)
   end);;
  (if bool_decide (redundant = curnode) then mret tt
   else update curnode (set_item (n_content x) (n_size x)));;
  black ← isBlack redundant;
  when black
    (match curchild with
     | None =>
         match n_parent x with
         | None => mret tt
         | Some _ =>
             temp ← malloc_node;
             update (Some temp) (set_parent (n_parent x));;
             TreeBalanceAfterRemove (Some temp) index;;
             free_node (Some temp)
         end
     | Some _ => TreeBalanceAfterRemove curchild index
     end);;
  free_node redundant;;
  when (index =? 0) (upd_tree (add_size (- n_size n));; upd_tree (add_count (-1)));;
  mret (n_content n).

Definition TreeRemoveIndex (content : ptr) (index : Z) : C ptr :=
  curnode ← TreeFindContentIndex content index;
  match curnode with None => mret None | Some _ => TreeRemoveNodeIndex curnode index end.

Definition TreeRemove (content : ptr) : C ptr :=
  n ← gets (fun s => Z.to_nat (indexes (tree s)));
  for_indexes n 0 None (fun i _ => TreeRemoveIndex content i).

Definition TreeRemoveKeyIndex (key : ptr) (index : Z) : C ptr :=
  curnode ← TreeFindIndex key index;
  match curnode with
  | None => mret None
  | Some _ =>
      content ← TreeRemoveNodeIndex curnode index;
      n ← gets (fun s => Z.to_nat (indexes (tree s)));
      for_indexes n 0 content
        (fun i content => if i =? index then mret content else TreeRemoveIndex content i)
  end.
Definition TreeRemoveKey (key : ptr) : C ptr := TreeRemoveKeyIndex key 0.

End operations.

(** * Comparison functions *)

(** [TreeIntCompare], of the integers that are pointed to *)
Definition TreeIntCompare (i j : Z) (content : Z) : Z :=
  if j <? i then -1 else if i =? j then 0 else 1.

(** [TreePtrCompare] *)
Definition TreePtrCompare (a b : ptr) (content : Z) : Z :=
  match a, b with
  | Some x, Some y => if (y <? x)%positive then -1 else if (x =? y)%positive then 0 else 1
  | Some _, None => -1
  | None, None => 0
  | None, Some _ => 1
  end.
End Tree.
