(* ===== verification/TreeShape.v ===== *)
(** The red-black trees that the nodes of [lib/Tree.c] represent: trees of addresses
    and items, the path from a node to the root, what it is for a store to hold a
    tree, and the rotations and colourings on it. *)

From S2P Require Import Prelude Tree.

Module TreeShape.
Import Tree.

(** * Trees and paths *)

(** A node's content and its size *)
Abbreviation item := (ptr * Z)%type.

Inductive tr := Lf | Nd (a : loc) (red : bool) (l : tr) (x : item) (r : tr).

Definition rootp (t : tr) : ptr := match t with Lf => None | Nd a _ _ _ _ => Some a end.
Definition is_red (t : tr) : bool := match t with Lf => false | Nd _ c _ _ _ => c end.
Definition blacken (t : tr) : tr := match t with Lf => Lf | Nd a _ l x r => Nd a false l x r end.

(** The addresses and the items, in order *)
Fixpoint addrs (t : tr) : list loc :=
  match t with Lf => [] | Nd a _ l _ r => addrs l ++ a :: addrs r end.
Fixpoint items (t : tr) : list item :=
  match t with Lf => [] | Nd _ _ l x r => items l ++ x :: items r end.

(** The node with the child [t] on side [d] and the child [u] on the other *)
Definition nd (d : bool) (a : loc) (red : bool) (x : item) (t u : tr) : tr :=
  if d then Nd a red u x t else Nd a red t x u.

(** One step up: the node whose child on side [f_dir] is left out *)
Record frame := Fr { f_dir : bool; f_loc : loc; f_red : bool; f_item : item; f_sib : tr }.

Definition plug1 (f : frame) (t : tr) : tr := nd (f_dir f) (f_loc f) (f_red f) (f_item f) t (f_sib f).
Fixpoint plug (p : list frame) (t : tr) : tr :=
  match p with [] => t | f :: p => plug p (plug1 f t) end.

(** The parent of the node at the end of a path *)
Definition up (p : list frame) : ptr := match p with [] => None | f :: _ => Some (f_loc f) end.

(** What stands before and after the end of a path, in order *)
Fixpoint before {A} (seq : tr -> list A) (own : frame -> A) (p : list frame) : list A :=
  match p with
  | [] => []
  | f :: p => before seq own p ++ (if f_dir f then seq (f_sib f) ++ [own f] else [])
  end.
Fixpoint after {A} (seq : tr -> list A) (own : frame -> A) (p : list frame) : list A :=
  match p with
  | [] => []
  | f :: p => (if f_dir f then [] else own f :: seq (f_sib f)) ++ after seq own p
  end.
Abbreviation items_before := (before items f_item).
Abbreviation items_after := (after items f_item).
Abbreviation addrs_before := (before addrs f_loc).
Abbreviation addrs_after := (after addrs f_loc).

Lemma plug_app p q t : plug (p ++ q) t = plug q (plug p t).
Proof. revert t. induction p as [|f p IH]; intros; simpl; [done|]. apply IH. Qed.

Lemma items_plug p t : items (plug p t) = items_before p ++ items t ++ items_after p.
Proof.
  revert t. induction p as [|[[] a c x u] p IH]; intros t; simpl.
  - by rewrite app_nil_r.
  - rewrite IH. cbn. by rewrite <- !(assoc_L (++)).
  - rewrite IH. cbn. by rewrite app_nil_r, <- !(assoc_L (++)).
Qed.

Lemma addrs_plug p t : addrs (plug p t) = addrs_before p ++ addrs t ++ addrs_after p.
Proof.
  revert t. induction p as [|[[] a c x u] p IH]; intros t; simpl.
  - by rewrite app_nil_r.
  - rewrite IH. cbn. by rewrite <- !(assoc_L (++)).
  - rewrite IH. cbn. by rewrite app_nil_r, <- !(assoc_L (++)).
Qed.

Lemma addrs_plug_perm p t : addrs (plug p t) ≡ₚ addrs t ++ addrs_before p ++ addrs_after p.
Proof. rewrite addrs_plug. solve_Permutation. Qed.

Lemma addrs_nd d a c x t u : addrs (nd d a c x t u) ≡ₚ a :: addrs t ++ addrs u.
Proof. destruct d; cbn; solve_Permutation. Qed.

(** * The store *)

(** The node with the children [q1] on side [d] and [q2] on the other *)
Definition mkn (d : bool) (p q1 q2 : ptr) (x : item) (c : bool) : Node :=
  if d then MkNode p q2 q1 x.1 x.2 c else MkNode p q1 q2 x.1 x.2 c.

(** [m] holds the nodes of [t], whose parent is [p]. *)
Fixpoint rep (m : gmap loc Node) (p : ptr) (t : tr) : Prop :=
  match t with
  | Lf => True
  | Nd a c l x r =>
      m !! a = Some (mkn false p (rootp l) (rootp r) x c) /\ rep m (Some a) l /\ rep m (Some a) r
  end.

Lemma rep_nd m p d a c x t u :
  rep m p (nd d a c x t u) <->
  m !! a = Some (mkn d p (rootp t) (rootp u) x c) /\ rep m (Some a) t /\ rep m (Some a) u.
Proof. destruct d; cbn; tauto. Qed.

Lemma rep_frame m m' p t :
  rep m p t -> (forall a, a ∈ addrs t -> m' !! a = m !! a) -> rep m' p t.
Proof.
  revert p. induction t as [|a c l IHl x r IHr]; intros p; cbn; [done|].
  intros (H1 & H2 & H3) F.
  rewrite F by set_solver. split_and!; [done|apply IHl|apply IHr]; try done;
    intros; apply F; set_solver.
Qed.

(** Index [i] of the state is the tree [T]; the nodes that are not of [T] are [R]
    and the structure is [t0] but for the root. *)
Record holds (i : Z) (R : gmap loc Node) (t0 : Tree) (T : tr) (s : store) : Prop := {
  h_index : i = 0 \/ i = 1;
  h_rep : rep (nodes s) None T;
  h_nodup : NoDup (addrs T);
  h_rest : forall b, b ∉ addrs T -> nodes s !! b = R !! b;
  h_free : forall b, b ∈ addrs T -> R !! b = None;
  h_tree : tree s = put_root i (rootp T) t0
}.

Lemma get_put_root i p t : i = 0 \/ i = 1 ->
  (if i =? 0 then Some (root0 (put_root i p t))
   else if i =? 1 then Some (root1 (put_root i p t)) else None) = Some p.
Proof. by intros [-> | ->]. Qed.

Lemma put_root_twice i p q t : put_root i p (put_root i q t) = put_root i p t.
Proof. unfold put_root. by case_match. Qed.

(** * Parts of a tree in a store *)

(** [m] holds the nodes along [p], whose last child is [q]. *)
Fixpoint repp (m : gmap loc Node) (q : ptr) (p : list frame) : Prop :=
  match p with
  | [] => True
  | f :: p =>
      m !! f_loc f = Some (mkn (f_dir f) (up p) q (rootp (f_sib f)) (f_item f) (f_red f)) /\
      rep m (Some (f_loc f)) (f_sib f) /\ repp m (Some (f_loc f)) p
  end.
Fixpoint paddrs (p : list frame) : list loc :=
  match p with [] => [] | f :: p => f_loc f :: addrs (f_sib f) ++ paddrs p end.

Lemma rootp_nd d a c x t u : rootp (nd d a c x t u) = Some a.
Proof. by destruct d. Qed.

Lemma rootp_plug p t t' : rootp t = rootp t' -> rootp (plug p t) = rootp (plug p t').
Proof.
  revert t t'. induction p as [|f p IH]; intros t t' E; cbn; [done|].
  apply IH. unfold plug1. by rewrite !rootp_nd.
Qed.
Lemma rootp_plug_cons f p t t' : rootp (plug (f :: p) t) = rootp (plug (f :: p) t').
Proof. cbn. apply rootp_plug. unfold plug1. by rewrite !rootp_nd. Qed.

Lemma rep_plug m p t : rep m None (plug p t) <-> rep m (up p) t /\ repp m (rootp t) p.
Proof.
  revert t. induction p as [|f p IH]; intros t; simpl; [tauto|].
  rewrite IH. unfold plug1. rewrite rep_nd, rootp_nd. tauto.
Qed.

Lemma addrs_paddrs p t : addrs (plug p t) ≡ₚ addrs t ++ paddrs p.
Proof.
  revert t. induction p as [|f p IH]; intros t; simpl; [by rewrite app_nil_r|].
  rewrite IH. unfold plug1. rewrite addrs_nd. solve_Permutation.
Qed.

Lemma repp_frame m m' q p :
  repp m q p -> (forall a, a ∈ paddrs p -> m' !! a = m !! a) -> repp m' q p.
Proof.
  revert q. induction p as [|f p IH]; intros q; cbn; [done|].
  intros (H1 & H2 & H3) F. split_and!.
  - rewrite F by set_solver. done.
  - apply (rep_frame m); [done|]. intros; apply F; set_solver.
  - apply IH; [done|]. intros; apply F; set_solver.
Qed.

(** Another subtree with the same addresses at the end of a path, the nodes along
    the path being as they were but for the pointer to the subtree *)
Lemma repp_hole m m' q q' p :
  repp m q p -> NoDup (paddrs p) ->
  (forall a, a ∈ paddrs p -> Some a <> up p -> m' !! a = m !! a) ->
  (forall f r, p = f :: r ->
     m' !! f_loc f = Some (mkn (f_dir f) (up r) q' (rootp (f_sib f)) (f_item f) (f_red f))) ->
  repp m' q' p.
Proof.
  destruct p as [|f p]; [done|]. cbn. intros (H1 & H2 & H3) [N1 N2]%NoDup_cons F E.
  split_and!.
  - by apply E.
  - apply (rep_frame m); [done|]. intros. apply F; [set_solver|]. intros [= ->]. set_solver.
  - apply (repp_frame m); [done|]. intros. apply F; [set_solver|]. intros [= ->]. set_solver.
Qed.

Lemma holds_same i R t0 p t t' s s' :
  holds i R t0 (plug p t) s ->
  addrs t' ≡ₚ addrs t -> rep (nodes s') (up p) t' -> repp (nodes s') (rootp t') p ->
  (forall b, b ∉ addrs (plug p t) -> nodes s' !! b = nodes s !! b) ->
  tree s' = put_root i (rootp (plug p t')) t0 -> holds i R t0 (plug p t') s'.
Proof.
  intros [] P H1 H2 H3 H4. assert (Q : addrs (plug p t') ≡ₚ addrs (plug p t)).
  { by rewrite !addrs_paddrs, P. }
  split; [done|by apply rep_plug|by rewrite Q| | |done].
  - intros b. rewrite Q. intros Hb. rewrite H3 by done. by apply h_rest0.
  - intros b. rewrite Q. apply h_free0.
Qed.

(** * Single accesses *)

(** The computation returns [a] in a state of which [Q] holds. *)
Definition runs {A} (m : C A) (s : store) (a : A) (Q : store -> Prop) : Prop :=
  exists s', m s = Some (a, s') /\ Q s'.

Lemma runs_ret {A} (a : A) s (Q : store -> Prop) : Q s -> runs (mret a) s a Q.
Proof. intros. by exists s. Qed.
Lemma runs_bind {A B} (m : C A) (f : A -> C B) s a b (Q Q' : store -> Prop) :
  runs m s a Q -> (forall s', Q s' -> runs (f a) s' b Q') -> runs (m ≫= f) s b Q'.
Proof.
  intros (s' & E & H) F. destruct (F s' H) as (s'' & E' & H'). exists s''. by mstep E.
Qed.
Lemma runs_step {A B} (m : C A) (f : A -> C B) s s' a b (Q : store -> Prop) :
  m s = Some (a, s') -> runs (f a) s' b Q -> runs (m ≫= f) s b Q.
Proof. intros E H. unfold runs. by setoid_rewrite (bind_step _ _ _ _ _ E). Qed.
Lemma runs_weaken {A} (m : C A) s a (Q Q' : store -> Prop) :
  runs m s a Q -> (forall s', Q s' -> Q' s') -> runs m s a Q'.
Proof. intros (s' & E & H) F. exists s'. auto. Qed.

Lemma deref_run s a n : nodes s !! a = Some n -> deref (Some a) s = Some (n, s).
Proof. intros H. unfold deref, load. cbn. by rewrite H. Qed.
Lemma child_of_run d s a n : nodes s !! a = Some n -> child_of d (Some a) s = Some (child d n, s).
Proof. intros H. unfold child_of. by mstep (deref_run _ _ _ H). Qed.
Lemma parent_of_run s a n : nodes s !! a = Some n -> parent_of (Some a) s = Some (n_parent n, s).
Proof. intros H. unfold parent_of. by mstep (deref_run _ _ _ H). Qed.
Lemma update_run s a f n :
  nodes s !! a = Some n -> update (Some a) f s = Some (tt, Store (<[a := f n]> (nodes s)) (tree s)).
Proof.
  intros H. assert (E : alter f a (nodes s) = <[a := f n]> (nodes s)).
  { apply map_eq. intros b. destruct (decide (a = b)) as [->|].
    - by rewrite lookup_alter_eq, lookup_insert_eq, H.
    - by rewrite lookup_alter_ne, lookup_insert_ne. }
  unfold update. cbn. rewrite H. cbn. by rewrite E.
Qed.

Lemma mkn_parent d p q1 q2 x c : n_parent (mkn d p q1 q2 x c) = p. Proof. by destruct d. Qed.
Lemma mkn_red d p q1 q2 x c : n_red (mkn d p q1 q2 x c) = c. Proof. by destruct d. Qed.
Lemma mkn_content d p q1 q2 x c : n_content (mkn d p q1 q2 x c) = x.1. Proof. by destruct d. Qed.
Lemma mkn_size d p q1 q2 x c : n_size (mkn d p q1 q2 x c) = x.2. Proof. by destruct d. Qed.
Lemma mkn_child d p q1 q2 x c : child d (mkn d p q1 q2 x c) = q1. Proof. by destruct d. Qed.
Lemma mkn_other d p q1 q2 x c : child (negb d) (mkn d p q1 q2 x c) = q2. Proof. by destruct d. Qed.
Lemma mkn_set_parent d p q q1 q2 x c : set_parent q (mkn d p q1 q2 x c) = mkn d q q1 q2 x c.
Proof. by destruct d. Qed.
Lemma mkn_set_red d p q1 q2 x c c' : set_red c' (mkn d p q1 q2 x c) = mkn d p q1 q2 x c'.
Proof. by destruct d. Qed.
Lemma mkn_set_item d p q1 q2 x c y : set_item y.1 y.2 (mkn d p q1 q2 x c) = mkn d p q1 q2 y c.
Proof. by destruct d. Qed.
Lemma mkn_set_child d p q1 q2 x c q : set_child d q (mkn d p q1 q2 x c) = mkn d p q q2 x c.
Proof. by destruct d. Qed.
Lemma mkn_set_other d p q1 q2 x c q : set_child (negb d) q (mkn d p q1 q2 x c) = mkn d p q1 q x c.
Proof. by destruct d. Qed.
Lemma mkn_swap d p q1 q2 x c : mkn (negb d) p q1 q2 x c = mkn d p q2 q1 x c.
Proof. by destruct d. Qed.

(** The node at the end of a path *)
Lemma holds_node i R t0 p d a c x t u s :
  holds i R t0 (plug p (nd d a c x t u)) s ->
  nodes s !! a = Some (mkn d (up p) (rootp t) (rootp u) x c).
Proof. intros [H1 H2 _ _ _ _]. apply rep_plug in H2 as [H2 _]. by apply rep_nd in H2 as [? _]. Qed.

Lemma holds_nodup i R t0 p t s : holds i R t0 (plug p t) s -> NoDup (addrs t ++ paddrs p).
Proof. intros []. by rewrite <- addrs_paddrs. Qed.

Lemma holds_update i R t0 p d a c x t u c' x' f s :
  holds i R t0 (plug p (nd d a c x t u)) s ->
  f (mkn d (up p) (rootp t) (rootp u) x c) = mkn d (up p) (rootp t) (rootp u) x' c' ->
  runs (update (Some a) f) s tt (holds i R t0 (plug p (nd d a c' x' t u))).
Proof.
  intros H E. pose proof (holds_node _ _ _ _ _ _ _ _ _ _ _ H) as Ha.
  pose proof (holds_nodup _ _ _ _ _ _ H) as N. rewrite addrs_nd in N. cbn in N.
  apply NoDup_cons in N as [N _].
  eexists. split; [by apply update_run|]. rewrite E.
  eapply holds_same; [exact H|by rewrite !addrs_nd| | | |]; cbn [nodes tree].
  - destruct H. apply rep_plug in h_rep0 as [(_ & H2 & H3)%rep_nd _].
    apply rep_nd. rewrite lookup_insert_eq. split_and!; [done| |];
      (eapply rep_frame; [done|]); intros; apply lookup_insert_ne; set_solver.
  - destruct H. apply rep_plug in h_rep0 as [_ H2]. rewrite rootp_nd in *.
    eapply repp_frame; [done|]. intros; apply lookup_insert_ne; set_solver.
  - intros b Hb. apply lookup_insert_ne. intros ->. apply Hb. rewrite addrs_paddrs, addrs_nd. set_solver.
  - destruct H. rewrite h_tree0. f_equal. apply rootp_plug. by rewrite !rootp_nd.
Qed.

(** * Rotation *)

(** The pointer to the subtree, in the parent or in the root of the index *)
Definition hung (p : list frame) (q : ptr) (m : gmap loc Node) : gmap loc Node :=
  match p with
  | [] => m
  | f :: r => <[f_loc f := mkn (f_dir f) (up r) q (rootp (f_sib f)) (f_item f) (f_red f)]> m
  end.

Lemma hung_ne p q m c : Some c <> up p -> hung p q m !! c = m !! c.
Proof.
  intros Hc. destruct p as [|f r]; [done|]. cbn. apply lookup_insert_ne. intros <-. by apply Hc.
Qed.
Lemma hung_head p q m f r : p = f :: r -> hung p q m !! f_loc f =
  Some (mkn (f_dir f) (up r) q (rootp (f_sib f)) (f_item f) (f_red f)).
Proof. intros ->. cbn. by rewrite lookup_insert_eq. Qed.
Lemma up_not_in p c : c ∉ paddrs p -> Some c <> up p.
Proof. intros Hc E. destruct p as [|f r]; [done|]. injection E as ->. apply Hc. by left. Qed.

(** The relinking of the parent of [a] in a rotation *)
Lemma relink_run i R t0 p t a b d s m :
  holds i R t0 (plug p t) s -> rootp t = Some a ->
  (forall f r, p = f :: r -> m !! f_loc f = nodes s !! f_loc f) ->
  (match up p with
   | None => set_root i (Some b)
   | Some _ =>
       c ← child_of d (up p);
       if bool_decide (Some a = c) then update (up p) (set_child d (Some b))
       else update (up p) (set_child (negb d) (Some b))
   end) (Store m (tree s)) =
  Some (tt, Store (hung p (Some b) m) (put_root i (match p with [] => Some b | _ => rootp (plug p t) end) t0)).
Proof.
  intros H E F. pose proof (holds_nodup _ _ _ _ _ _ H) as N.
  destruct p as [|f r]; cbn [up hung].
  - unfold set_root, upd_tree, modify. cbn. destruct H. by rewrite h_tree0, put_root_twice.
  - pose proof (holds_node _ _ _ _ _ _ _ _ _ _ _ H) as Hf. rewrite E in Hf.
    specialize (F _ _ eq_refl). rewrite Hf in F.
    mstep (child_of_run d (Store m (tree s)) _ _ F).
    assert (D : rootp (f_sib f) <> Some a).
    { destruct t as [|a' c l x q]; [done|]. cbn in E. injection E as ->. intros E.
      destruct (f_sib f) as [|a' c' l' x' r'] eqn:S; [done|]. injection E as ->.
      cbn in N. rewrite S in N. cbn in N. clear -N. apply NoDup_app in N as (_ & N & _).
      apply (N a); set_solver. }
    assert (T : tree s = put_root i (rootp (plug (f :: r) t)) t0) by by destruct H.
    destruct (decide (f_dir f = d)) as [<-|Hd].
    + rewrite mkn_child, bool_decide_true by done. rewrite (update_run (Store m (tree s)) _ _ _ F).
      by rewrite mkn_set_child, T.
    + assert (E2 : f_dir f = negb d) by (by destruct (f_dir f), d).
      rewrite bool_decide_false; [|rewrite E2, mkn_swap, mkn_child; congruence].
      rewrite (update_run (Store m (tree s)) _ _ _ F). by rewrite E2, mkn_set_child, T.
Qed.

Lemma NoDup_four {A} (l1 l2 l3 l4 : list A) : NoDup (l1 ++ l2 ++ l3 ++ l4) ->
  (forall c, c ∈ l1 -> c ∉ l2 /\ c ∉ l3 /\ c ∉ l4) /\
  (forall c, c ∈ l2 -> c ∉ l1 /\ c ∉ l3 /\ c ∉ l4) /\
  (forall c, c ∈ l3 -> c ∉ l1 /\ c ∉ l2 /\ c ∉ l4) /\ NoDup l2 /\ NoDup l4.
Proof. rewrite !NoDup_app. intros (_ & N1 & N2 & N3 & _ & N4 & N5). split_and!; set_solver. Qed.

(** The subtree [t] gets the parent [q']. *)
Lemma reparent_run m tt0 q q' t :
  rep m q t -> NoDup (addrs t) ->
  runs (match rootp t with Some _ => update (rootp t) (set_parent q') | None => mret tt end)
    (Store m tt0) tt
    (fun s' => tree s' = tt0 /\ rep (nodes s') q' t /\
               forall b, b ∉ addrs t -> nodes s' !! b = m !! b).
Proof.
  destruct t as [|a c l x r]; cbn [rootp]; intros H N; [by apply runs_ret|].
  destruct H as (Ha & Hl & Hr). eexists. split; [by apply update_run|].
  cbn in N. cbn. rewrite lookup_insert_eq. split_and!; [done|done| | |].
  - eapply rep_frame; [done|]. intros b Hb. apply lookup_insert_ne. intros <-.
    apply NoDup_app in N as (_ & N & _). apply (N a); set_solver.
  - eapply rep_frame; [done|]. intros b Hb. apply lookup_insert_ne. intros <-.
    by apply NoDup_app in N as (_ & _ & [N _]%NoDup_cons).
  - intros. apply lookup_insert_ne. set_solver.
Qed.

(** The addresses of two nodes and of their other subtrees *)
Lemma rotate_distinct i R t0 p d a ca x A b cb y B C s :
  holds i R t0 (plug p (nd d a ca x A (nd d b cb y B C))) s ->
  a <> b /\ a ∉ addrs A ++ addrs B ++ addrs C ++ paddrs p /\
  b ∉ addrs A ++ addrs B ++ addrs C ++ paddrs p /\ NoDup (addrs A ++ addrs B ++ addrs C ++ paddrs p).
Proof.
  intros N%holds_nodup. rewrite addrs_nd, addrs_nd in N. cbn in N.
  assert (P : a :: (addrs A ++ b :: addrs B ++ addrs C) ++ paddrs p ≡ₚ
              a :: b :: addrs A ++ addrs B ++ addrs C ++ paddrs p) by solve_Permutation.
  rewrite P, !NoDup_cons in N. set_solver.
Qed.

(** A store whose nodes are linked as after a rotation *)
Lemma holds_rotated i R t0 p d a ca x A b cb y B C s s' :
  holds i R t0 (plug p (nd d a ca x A (nd d b cb y B C))) s ->
  nodes s' !! a = Some (mkn d (Some b) (rootp A) (rootp B) x ca) ->
  nodes s' !! b = Some (mkn d (up p) (Some a) (rootp C) y cb) ->
  rep (nodes s') (Some a) B ->
  (forall f r, p = f :: r -> nodes s' !! f_loc f =
     Some (mkn (f_dir f) (up r) (Some b) (rootp (f_sib f)) (f_item f) (f_red f))) ->
  (forall c, c <> a -> c <> b -> c ∉ addrs B -> Some c <> up p -> nodes s' !! c = nodes s !! c) ->
  tree s' = put_root i (match p with [] => Some b | _ => rootp (plug p (nd d a ca x A (nd d b cb y B C))) end) t0 ->
  holds i R t0 (plug p (nd d b cb y (nd d a ca x A B) C)) s'.
Proof.
  intros H Ha Hb HB Hf Ho Ht. pose proof H as [_ Hr _ _ _ _]. apply rep_plug in Hr as [Hr Hp].
  apply rep_nd in Hr as (_ & HA & (_ & _ & HC)%rep_nd). rewrite rootp_nd in Hp.
  destruct (rotate_distinct _ _ _ _ _ _ _ _ _ _ _ _ _ _ _ H) as (Nab & Na & Nb & N).
  apply NoDup_four in N as (NA & NB & NC & _ & Np). rewrite !not_elem_of_app in Na, Nb.
  destruct Na as (NaA & _ & NaC & Nap), Nb as (NbA & _ & NbC & Nbp).
  eapply holds_same; [exact H| | | | |].
  - rewrite !addrs_nd. solve_Permutation.
  - apply rep_nd. rewrite rootp_nd. split_and!; [done|apply rep_nd; split_and!; [done| |done]|].
    + eapply rep_frame; [done|]. intros c Hc. destruct (NA c Hc) as (? & ? & ?).
      apply Ho; try congruence. by apply up_not_in.
    + eapply rep_frame; [done|]. intros c Hc. destruct (NC c Hc) as (? & ? & ?).
      apply Ho; try congruence. by apply up_not_in.
  - rewrite rootp_nd. eapply repp_hole; [exact Hp|done| |done].
    intros c Hc Hu. apply Ho; [congruence|congruence| |done].
    intros HH. by apply NB in HH as (_ & _ & []).
  - intros c Hc. rewrite addrs_paddrs, addrs_nd, addrs_nd in Hc. cbn in Hc.
    rewrite !not_elem_of_cons, !not_elem_of_app, !not_elem_of_cons, !not_elem_of_app in Hc.
    destruct Hc as (? & (? & ? & ? & ?) & ?). apply Ho; try done. by apply up_not_in.
  - rewrite Ht. f_equal. destruct p as [|f r]; [by rewrite <- (rootp_nd d b cb y (nd d a ca x A B) C)|].
    apply rootp_plug_cons.
Qed.

Lemma holds_rotate i R t0 p d a ca x A b cb y B C s :
  holds i R t0 (plug p (nd d a ca x A (nd d b cb y B C))) s ->
  runs (TreeRotate (Some a) d i) s tt
    (holds i R t0 (plug p (nd d b cb y (nd d a ca x A B) C))).
Proof.
  intros H. pose proof (holds_node _ _ _ _ _ _ _ _ _ _ _ H) as Ha.
  pose proof H as [_ Hr _ _ _ _]. apply rep_plug in Hr as [(_ & _ & (Hb & HB & _)%rep_nd)%rep_nd _].
  rewrite rootp_nd in *. destruct (rotate_distinct _ _ _ _ _ _ _ _ _ _ _ _ _ _ _ H) as (Nab & Na & Nb & N).
  apply NoDup_four in N as (_ & NB & _ & N & _). rewrite !not_elem_of_app in Na, Nb.
  destruct Na as (_ & NaB & _ & Nap), Nb as (_ & NbB & _ & Nbp).
  unfold TreeRotate. eapply runs_step; [by apply child_of_run|]. rewrite mkn_other.
  eapply runs_step; [by apply child_of_run|]. rewrite mkn_child.
  eapply runs_step; [by apply update_run|]. rewrite mkn_set_other.
  eapply runs_bind; [apply (reparent_run _ _ (Some b)); [|done]|].
  { eapply rep_frame; [done|]. intros; apply lookup_insert_ne. congruence. }
  intros [m1 t1]; cbn [nodes tree]. intros (-> & HB1 & F1).
  assert (Ha1 : m1 !! a = Some (mkn d (up p) (rootp A) (rootp B) x ca)).
  { by rewrite F1, lookup_insert_eq by done. }
  assert (Hb1 : m1 !! b = Some (mkn d (Some a) (rootp B) (rootp C) y cb)).
  { by rewrite F1, lookup_insert_ne by done. }
  assert (Hp : forall f r, p = f :: r -> f_loc f ∈ paddrs p) by (intros f r ->; by left).
  eapply runs_step; [by apply parent_of_run|]. rewrite mkn_parent.
  eapply runs_step; [by apply update_run|]. rewrite mkn_set_parent. cbn [nodes tree].
  eapply runs_step.
  { eapply relink_run; [exact H|apply rootp_nd|]. intros f r E. specialize (Hp f r E).
    rewrite lookup_insert_ne by congruence. rewrite F1; [apply lookup_insert_ne; congruence|].
    intros HH. by apply NB in HH as (_ & _ & []). }
  eapply runs_step; [apply update_run; cbn [nodes]; rewrite hung_ne by (by apply up_not_in); by rewrite lookup_insert_eq|].
  rewrite mkn_set_child. cbn [nodes tree]. eexists.
  split; [apply update_run; cbn [nodes]; rewrite lookup_insert_ne by done;
    rewrite hung_ne by (by apply up_not_in); by rewrite lookup_insert_ne|].
  rewrite mkn_set_parent. cbn [nodes tree]. eapply holds_rotated; [exact H|..|done]; cbn [nodes].
  - by rewrite lookup_insert_eq.
  - by rewrite lookup_insert_ne, lookup_insert_eq by done.
  - eapply rep_frame; [exact HB1|]. intros c Hc. destruct (NB c Hc) as (_ & _ & Hcp).
    rewrite !lookup_insert_ne by congruence. rewrite hung_ne by (by apply up_not_in).
    apply lookup_insert_ne. congruence.
  - intros f r E. specialize (Hp f r E). rewrite !lookup_insert_ne by congruence. by apply hung_head.
  - intros c Hca Hcb HcB Hu. rewrite !lookup_insert_ne by done. rewrite hung_ne by done.
    rewrite lookup_insert_ne by done. rewrite F1 by done. by apply lookup_insert_ne.
Qed.
End TreeShape.
