(* ===== verification/TreeBalance.v ===== *)
(** The rebalancing of [lib/Tree.c]: what [TreeBalanceAfterAdd] and
    [TreeBalanceAfterRemove] do to the tree in the store, and the red-black
    invariant they restore. *)

From S2P Require Import Prelude Tree TreeShape.

Module TreeBalance.
Import Tree TreeShape.

Lemma nd_swap d a c x t u : nd (negb d) a c x t u = nd d a c x u t.
Proof. by destruct d. Qed.

(** The step down to the other child *)
Lemma plug_sib p d a c x t u : plug p (nd d a c x t u) = plug (Fr (negb d) a c x t :: p) u.
Proof. cbn. unfold plug1. cbn. by rewrite nd_swap. Qed.
Lemma plug_fst p d a c x t u : plug p (nd d a c x t u) = plug (Fr d a c x u :: p) t.
Proof. done. Qed.

Lemma isRed_run s q t : rep (nodes s) q t -> isRed (rootp t) s = Some (is_red t, s).
Proof.
  destruct t as [|a c l x r]; [done|]. intros (H & _). cbn [rootp isRed].
  mstep (deref_run _ _ _ H). by rewrite mkn_red.
Qed.
Lemma isBlack_run s q t : rep (nodes s) q t -> isBlack (rootp t) s = Some (negb (is_red t), s).
Proof.
  destruct t as [|a c l x r]; [done|]. intros (H & _). cbn [rootp isBlack].
  mstep (deref_run _ _ _ H). by rewrite mkn_red.
Qed.

Lemma holds_rep i R t0 p t s : holds i R t0 (plug p t) s -> rep (nodes s) (up p) t.
Proof. intros []. by apply rep_plug in h_rep0 as [? _]. Qed.

Lemma holds_parent i R t0 p t a s : holds i R t0 (plug p t) s -> rootp t = Some a ->
  parent_of (Some a) s = Some (up p, s).
Proof.
  intros H E. apply holds_rep in H. destruct t as [|a' c l x r]; [done|]. injection E as ->.
  destruct H as (H & _). rewrite (parent_of_run _ _ _ H). by rewrite mkn_parent.
Qed.
Lemma holds_child i R t0 p d a c x t u s : holds i R t0 (plug p (nd d a c x t u)) s ->
  child_of d (Some a) s = Some (rootp t, s).
Proof.
  intros H. rewrite (child_of_run d _ _ _ (holds_node _ _ _ _ _ _ _ _ _ _ _ H)). by rewrite mkn_child.
Qed.
Lemma holds_other i R t0 p d a c x t u s : holds i R t0 (plug p (nd d a c x t u)) s ->
  child_of (negb d) (Some a) s = Some (rootp u, s).
Proof.
  intros H. rewrite (child_of_run _ _ _ _ (holds_node _ _ _ _ _ _ _ _ _ _ _ H)). by rewrite mkn_other.
Qed.

(** The colour of a node, and of the root of a subtree *)
Lemma holds_recolour i R t0 p d a c x t u c' s :
  holds i R t0 (plug p (nd d a c x t u)) s ->
  runs (update (Some a) (set_red c')) s tt (holds i R t0 (plug p (nd d a c' x t u))).
Proof. intros H. eapply holds_update; [done|]. by rewrite mkn_set_red. Qed.
Lemma holds_blacken i R t0 p t s :
  holds i R t0 (plug p t) s -> t <> Lf ->
  runs (update (rootp t) (set_red false)) s tt (holds i R t0 (plug p (blacken t))).
Proof. intros H N. destruct t as [|a c l x r]; [done|]. by apply (holds_recolour _ _ _ p false _ _ _ _ _ false) in H. Qed.

(** The two children of a node are not the same node. *)
Lemma holds_sides i R t0 p d a c x t u s : holds i R t0 (plug p (nd d a c x t u)) s ->
  t <> Lf -> rootp t <> rootp u.
Proof.
  intros H%holds_nodup. rewrite addrs_nd in H. cbn in H.
  apply NoDup_cons in H as [_ (H & _)%NoDup_app].
  destruct t as [|b c' l y r]; [done|]. intros _ E. destruct u as [|b' c'' l' y' r']; [done|].
  injection E as ->. cbn in H. apply NoDup_app in H as (_ & H & _). apply (H b'); set_solver.
Qed.

(** * After an addition *)

Definition fst_of (d : bool) (l r : tr) : tr := if d then r else l.

(** The tree [TreeBalanceAfterAdd] makes of the one that has [t] at the end of [p];
    the root is blackened afterwards. *)
Fixpoint fix_add (p : list frame) (t : tr) : tr :=
  match p with
  | Fr fd f true fx fs :: Fr gd g gc gx gs :: r =>
      if is_red gs
      then fix_add r (nd gd g true gx (nd fd f false fx t fs) (blacken gs))
      else if Bool.eqb fd gd
      then plug r (nd gd f false fx t (nd gd g true gx fs gs))
      else match t with
           | Lf => plug p t
           | Nd b _ tl y tr' =>
               plug r (nd gd b false y (nd gd f true fx fs (fst_of gd tl tr'))
                                       (nd gd g true gx (fst_of (negb gd) tl tr') gs))
           end
  | _ => plug p t
  end.

Lemma is_red_nd d a c x t u : is_red (nd d a c x t u) = c.
Proof. by destruct d. Qed.
Lemma holds_isRed i R t0 p t q s : holds i R t0 (plug p t) s -> q = rootp t ->
  isRed q s = Some (is_red t, s).
Proof. intros H ->. by eapply isRed_run, holds_rep. Qed.
Lemma holds_isBlack i R t0 p t q s : holds i R t0 (plug p t) s -> q = rootp t ->
  isBlack q s = Some (negb (is_red t), s).
Proof. intros H ->. by eapply isBlack_run, holds_rep. Qed.

Lemma balance_stop i R t0 p t a s fuel :
  holds i R t0 (plug p t) s -> rootp t = Some a ->
  match p with f :: _ :: _ => f_red f = false | _ => True end ->
  balance_add_loop (S fuel) (Some a) i s = Some (tt, s).
Proof.
  intros H E Hp. cbn [balance_add_loop]. mstep (holds_parent _ _ _ _ _ _ _ H E).
  destruct p as [|[fd f fc fx fs] r]; [done|]. cbn [up f_loc].
  assert (Q : Some f = rootp (nd fd f fc fx t fs)) by by rewrite rootp_nd.
  mstep (holds_isRed _ _ _ r (nd fd f fc fx t fs) _ _ H Q). rewrite is_red_nd.
  destruct fc; [|done]. destruct r as [|g r]; [|done].
  by mstep (holds_parent _ _ _ [] (nd fd f true fx t fs) _ _ H (eq_sym Q)).
Qed.

(** The test for the side of a child *)
Lemma holds_left i R t0 p d a c x t u s : holds i R t0 (plug p (nd d a c x t u)) s -> t <> Lf ->
  exists l, child_of LEFT (Some a) s = Some (l, s) /\ bool_decide (rootp t = l) = negb d.
Proof.
  intros H N. pose proof (holds_sides _ _ _ _ _ _ _ _ _ _ _ H N) as D. destruct d.
  - eexists. split; [exact (holds_other _ _ _ _ true _ _ _ _ _ _ H)|]. by rewrite bool_decide_false.
  - eexists. split; [exact (holds_child _ _ _ _ false _ _ _ _ _ _ H)|]. by rewrite bool_decide_true.
Qed.
Lemma which_side d : (if negb d then RIGHT else LEFT) = negb d.
Proof. by destruct d. Qed.

Section baa.
Context (i : Z) (R : gmap loc Node) (t0 : Tree) (r : list frame).
Context (gd : bool) (g : loc) (gc : bool) (gx : item) (gs : tr).
Context (fd : bool) (f : loc) (fc : bool) (fx : item) (fs : tr).

(** The tree at the grandparent of [t] *)
Abbreviation grand t := (nd gd g gc gx (nd fd f fc fx t fs) gs).

Lemma baa_red a t s :
  holds i R t0 (plug r (grand t)) s -> rootp t = Some a -> is_red gs = true ->
  runs (TreeBAASub (Some a) (negb gd) i) s (Some g)
    (holds i R t0 (plug r (nd gd g true gx (nd fd f false fx t fs) (blacken gs)))).
Proof.
  intros H E Ru. unfold TreeBAASub.
  eapply runs_step; [by eapply (holds_parent _ _ _ (Fr fd f fc fx fs :: Fr gd g gc gx gs :: r))|].
  cbn [up f_loc]. eapply runs_step;
    [by eapply (holds_parent _ _ _ (Fr gd g gc gx gs :: r) (nd fd f fc fx t fs)), rootp_nd|].
  cbn [up f_loc]. eapply runs_step; [by eapply holds_other|].
  eapply runs_step; [by eapply (holds_isRed _ _ _ (Fr (negb gd) g gc gx (nd fd f fc fx t fs) :: r) gs);
    [rewrite <- plug_sib|]|]. rewrite Ru.
  rewrite plug_sib in H. eapply runs_bind; [eapply (holds_blacken _ _ _ (_ :: r)); [exact H|by destruct gs]|].
  clear s H. intros s H. rewrite <- plug_sib in H.
  eapply runs_bind; [by eapply (holds_recolour _ _ _ (Fr gd g gc gx (blacken gs) :: r) fd f)|].
  clear s H. intros s H. eapply runs_bind; [by eapply (holds_recolour _ _ _ r gd g)|].
  clear s H. intros s H. by apply runs_ret.
Qed.

(** The start of [TreeBAASub], when the uncle is black *)
Lemma baa_black a t s b (Q : store -> Prop) :
  holds i R t0 (plug r (grand t)) s -> rootp t = Some a -> is_red gs = false ->
  runs (c ← child_of (negb gd) (Some f);
        curnode ← (if bool_decide (Some a = c) then TreeRotate (Some f) (negb (negb gd)) i;; mret (Some f)
                   else mret (Some a));
        p ← parent_of curnode;
        update p (set_red false);;
        g ← parent_of p;
        update g (set_red true);;
        TreeRotate g (negb gd) i;;
        mret curnode) s b Q ->
  runs (TreeBAASub (Some a) (negb gd) i) s b Q.
Proof.
  intros H E Ru HQ. unfold TreeBAASub.
  eapply runs_step; [by eapply (holds_parent _ _ _ (Fr fd f fc fx fs :: Fr gd g gc gx gs :: r))|].
  cbn [up f_loc]. eapply runs_step;
    [by eapply (holds_parent _ _ _ (Fr gd g gc gx gs :: r) (nd fd f fc fx t fs)), rootp_nd|].
  cbn [up f_loc]. eapply runs_step; [by eapply holds_other|].
  eapply runs_step; [by eapply (holds_isRed _ _ _ (Fr (negb gd) g gc gx (nd fd f fc fx t fs) :: r) gs);
    [rewrite <- plug_sib|]|]. by rewrite Ru.
Qed.

(** The end of [TreeBAASub]: the parent of [a] rises. *)
Lemma baa_rise a t s :
  fd = gd -> holds i R t0 (plug r (grand t)) s -> rootp t = Some a ->
  runs (p ← parent_of (Some a);
        update p (set_red false);;
        g ← parent_of p;
        update g (set_red true);;
        TreeRotate g (negb gd) i;;
        mret (Some a)) s (Some a)
    (holds i R t0 (plug r (nd gd f false fx t (nd gd g true gx fs gs)))).
Proof.
  intros Hd H E.
  eapply runs_step; [by eapply (holds_parent _ _ _ (Fr fd f fc fx fs :: Fr gd g gc gx gs :: r))|].
  cbn [up f_loc].
  eapply runs_bind; [by eapply (holds_recolour _ _ _ (Fr gd g gc gx gs :: r) fd f)|].
  clear s H. intros s H. eapply runs_step;
    [by eapply (holds_parent _ _ _ (Fr gd g gc gx gs :: r) (nd fd f false fx t fs)), rootp_nd|].
  cbn [up f_loc]. eapply runs_bind; [by eapply (holds_recolour _ _ _ r gd g)|].
  clear s H. intros s H. eapply runs_bind.
  - apply (holds_rotate i R t0 r (negb gd) g true gx gs f false fx fs t).
    rewrite !nd_swap. cbn in H. by rewrite Hd in H.
  - clear s H. intros s H. apply runs_ret. by rewrite !nd_swap in H.
Qed.
End baa.

Lemma baa_outer i R t0 r gd g gc gx gs f fc fx fs a t s :
  holds i R t0 (plug r (nd gd g gc gx (nd gd f fc fx t fs) gs)) s -> rootp t = Some a ->
  is_red gs = false ->
  runs (TreeBAASub (Some a) (negb gd) i) s (Some a)
    (holds i R t0 (plug r (nd gd f false fx t (nd gd g true gx fs gs)))).
Proof.
  intros H E Ru. eapply baa_black; [done..|].
  pose proof (holds_other i R t0 (Fr gd g gc gx gs :: r) gd f fc fx t fs s H) as C.
  pose proof (holds_sides i R t0 (Fr gd g gc gx gs :: r) gd f fc fx t fs s H) as D.
  eapply runs_step; [exact C|]. rewrite bool_decide_false by (rewrite <- E; apply D; by destruct t).
  by eapply baa_rise.
Qed.

Lemma baa_inner i R t0 r gd g gc gx gs f fc fx fs a ca y t1 t2 s :
  holds i R t0 (plug r (nd gd g gc gx (nd (negb gd) f fc fx (nd gd a ca y t1 t2) fs) gs)) s ->
  is_red gs = false ->
  runs (TreeBAASub (Some a) (negb gd) i) s (Some f)
    (holds i R t0 (plug r (nd gd a false y (nd gd f fc fx fs t1) (nd gd g true gx t2 gs)))).
Proof.
  intros H Ru. eapply baa_black; [done|by rewrite rootp_nd|done|].
  pose proof (holds_child i R t0 (Fr gd g gc gx gs :: r) (negb gd) f fc fx _ fs s H) as C.
  eapply runs_step; [exact C|]. rewrite rootp_nd, bool_decide_true by done.
  rewrite negb_involutive. eapply runs_bind.
  - eapply runs_bind; [|intros s' H'; apply runs_ret; exact H'].
    apply (holds_rotate i R t0 (Fr gd g gc gx gs :: r)). by rewrite nd_swap in H.
  - intros s' H'. eapply baa_rise; [done|exact H'|by rewrite rootp_nd].
Qed.

Lemma balance_add_run fuel i R t0 p t a s :
  holds i R t0 (plug p t) s -> rootp t = Some a -> (length p < fuel)%nat ->
  runs (balance_add_loop fuel (Some a) i) s tt (holds i R t0 (fix_add p t)).
Proof.
  revert p t a s. induction fuel as [|fuel IH]; intros p t a s H E L; [lia|].
  destruct p as [|[fd f [|] fx fs] [|[gd g gc gx gs] r]];
    try (eexists; split; [by eapply balance_stop; eauto|exact H]).
  cbn [balance_add_loop]. eapply runs_step; [by eapply holds_parent|]. cbn [up f_loc].
  assert (Qf : Some f = rootp (nd fd f true fx t fs)) by by rewrite rootp_nd.
  assert (Hg : holds i R t0 (plug r (nd gd g gc gx (nd fd f true fx t fs) gs)) s) by done.
  eapply runs_step; [by eapply (holds_isRed _ _ _ (Fr gd g gc gx gs :: r) (nd fd f true fx t fs)), Qf|].
  rewrite is_red_nd. eapply runs_step;
    [by eapply (holds_parent _ _ _ (Fr gd g gc gx gs :: r) (nd fd f true fx t fs)), eq_sym, Qf|].
  cbn [up f_loc]. destruct (holds_left _ _ _ _ _ _ _ _ _ _ _ Hg) as (l & E1 & E2); [by destruct fd|].
  eapply runs_step; [exact E1|]. rewrite <- Qf in E2. rewrite E2, which_side.
  cbn [fix_add]. destruct (is_red gs) eqn:Ru.
  { eapply runs_bind; [by eapply baa_red|]. intros s' H'. apply IH; [done|by rewrite rootp_nd|].
    cbn in L. lia. }
  destruct fuel as [|fuel]; [cbn in L; lia|]. destruct (Bool.eqb_spec fd gd) as [->|Hd].
  { eapply runs_bind; [by eapply baa_outer|]. intros s' H'. eexists. split; [|exact H'].
    eapply (balance_stop _ _ _ (Fr gd f false fx (nd gd g true gx fs gs) :: r));
      [exact H'|done|by destruct r]. }
  assert (fd = negb gd) as -> by (by destruct fd, gd).
  destruct t as [|b cb tl y tr']; [done|]. injection E as ->.
  assert (Et : Nd a cb tl y tr' = nd gd a cb y (fst_of gd tl tr') (fst_of (negb gd) tl tr')) by by destruct gd.
  rewrite Et in Hg. eapply runs_bind; [by eapply baa_inner|]. intros s' H'.
  eexists. split; [|exact H'].
  eapply (balance_stop _ _ _ (Fr gd a false y (nd gd g true gx (fst_of (negb gd) tl tr') gs) :: r));
    [exact H'|by rewrite rootp_nd|by destruct r].
Qed.

(** * The red-black invariant *)

(** [t] has no red node with a red child and [n] black nodes on every path. *)
Fixpoint rb (n : nat) (t : tr) : Prop :=
  match t with
  | Lf => n = 0%nat
  | Nd _ true l _ r => is_red l = false /\ is_red r = false /\ rb n l /\ rb n r
  | Nd _ false l _ r => match n with O => False | S m => rb m l /\ rb m r end
  end.
Definition red_black (t : tr) : Prop := is_red t = false /\ exists n, rb n t.

(** A tree of black height [n] whose root is red or not fits at the end of [p]. *)
Fixpoint fits (n : nat) (red : bool) (p : list frame) : Prop :=
  match p with
  | [] => True
  | f :: p =>
      rb n (f_sib f) /\ (f_red f = true -> red = false /\ is_red (f_sib f) = false) /\
      fits (if f_red f then n else S n) (f_red f) p
  end.

Lemma rb_red n d a x t u :
  rb n (nd d a true x t u) <-> is_red t = false /\ is_red u = false /\ rb n t /\ rb n u.
Proof. destruct d; cbn; tauto. Qed.
Lemma rb_black n d a x t u : rb (S n) (nd d a false x t u) <-> rb n t /\ rb n u.
Proof. destruct d; cbn; tauto. Qed.
Lemma rb_black_0 d a x t u : ~ rb 0 (nd d a false x t u).
Proof. destruct d; cbn; tauto. Qed.

Lemma rb_plug n t p : rb n t -> fits n (is_red t) p -> exists N, rb N (plug p t).
Proof.
  revert n t. induction p as [|[d f c x u] p IH]; intros n t H F; [by exists n|].
  cbn in F |- *. destruct F as (Hu & Hc & F).
  apply (IH (if c then n else S n)); unfold plug1; cbn; [|by rewrite is_red_nd].
  destruct c; [destruct Hc as (? & ?); [done|]; by apply rb_red|by apply rb_black].
Qed.
Lemma rb_unplug N t p : rb N (plug p t) -> exists n, rb n t /\ fits n (is_red t) p.
Proof.
  revert t. induction p as [|[d f c x u] p IH]; intros t H; cbn in *; [by exists N|].
  apply IH in H as (n & H & F). unfold plug1 in *; cbn in *. rewrite is_red_nd in F. destruct c.
  - apply rb_red in H as (H1 & H2 & H3 & H4). by exists n.
  - destruct n as [|n]; [by apply rb_black_0 in H|]. apply rb_black in H as (H1 & H2). by exists n.
Qed.
Lemma fits_black n c p : fits n c p -> fits n false p.
Proof. destruct p as [|f p]; [done|]. cbn. intros (? & H & ?). split_and!; naive_solver. Qed.

Lemma rb_blacken n t : rb n t -> exists m, rb m (blacken t).
Proof. destruct t as [|a [] l x r]; cbn; intros H; [by exists 0%nat| |by exists n]. exists (S n). tauto. Qed.
Lemma rb_blacken_red n t : rb n t -> is_red t = true -> rb (S n) (blacken t).
Proof. destruct t as [|a [] l x r]; cbn; try done. tauto. Qed.
Lemma is_red_blacken t : is_red (blacken t) = false.
Proof. by destruct t. Qed.
Lemma blacken_nd d a c x t u : blacken (nd d a c x t u) = nd d a false x t u.
Proof. by destruct d. Qed.

(** The item sequence of a node, whichever side its children are on *)
Lemma items_nd d a c x t u :
  items (nd d a c x t u) = if d then items u ++ x :: items t else items t ++ x :: items u.
Proof. by destruct d. Qed.
Lemma items_plug_eq p t u : items t = items u -> items (plug p t) = items (plug p u).
Proof. intros E. by rewrite !items_plug, E. Qed.
Lemma items_blacken t : items (blacken t) = items t.
Proof. by destruct t. Qed.
Lemma addrs_blacken t : addrs (blacken t) = addrs t.
Proof. by destruct t. Qed.

Ltac items_tac := rewrite ?items_plug, ?items_nd, ?items_blacken; cbn;
  repeat (case_match; try discriminate); cbn; rewrite <- ?(assoc_L (++)); cbn;
  rewrite <- ?(assoc_L (++)); try done.

Lemma fix_add_items p t : t <> Lf -> items (fix_add p t) = items (plug p t).
Proof.
  remember (length p) as n eqn:E. revert p t E.
  induction (lt_wf n) as [n _ IH]; intros p t -> N.
  destruct p as [|[fd f [|] fx fs] [|[gd g gc gx gs] r]]; try done.
  cbn [fix_add]. destruct (is_red gs) eqn:Ru.
  { rewrite (IH (length r)); [|cbn; lia|done|by destruct gd].
    apply (items_plug_eq r). unfold plug1; cbn. destruct fd, gd; items_tac. }
  destruct (Bool.eqb_spec fd gd) as [->|Hd].
  { apply (items_plug_eq r). unfold plug1; cbn. destruct gd; items_tac. }
  destruct t as [|b cb tl y tr']; [done|].
  apply (items_plug_eq r). unfold plug1; cbn. destruct fd, gd; try done; items_tac.
Qed.

(** Adding a red node where a black tree of its height fits *)
Lemma fix_add_rb n t p :
  rb n t -> is_red t = true -> fits n false p -> exists N, rb N (blacken (fix_add p t)).
Proof.
  remember (length p) as k eqn:E. revert p t n E.
  induction (lt_wf k) as [k _ IH]; intros p t n -> H C F.
  assert (Hplug : fits n true p -> exists N, rb N (blacken (plug p t))).
  { intros F'. rewrite <- C in F'. destruct (rb_plug _ _ _ H F') as [N HN]. by eapply rb_blacken. }
  destruct p as [|[fd f [|] fx fs] [|[gd g gc gx gs] r]]; try (apply Hplug; done).
  - destruct F as (Fs & Fr & _). destruct Fr as (_ & Fr); [done|]. cbn in *. unfold plug1; cbn.
    rewrite blacken_nd. exists (S n). by apply rb_black.
  - cbn in F. destruct F as (Fs & Fr & Gs & Gr & F). destruct Fr as (_ & Fr); [done|].
    destruct gc; [by destruct Gr|]. cbn [fix_add]. destruct (is_red gs) eqn:Ru.
    { eapply (IH (length r)); [cbn; lia|done| |by rewrite is_red_nd|exact F].
      apply rb_red. rewrite is_red_nd, is_red_blacken. split_and!; [done..| |].
      - by apply rb_black.
      - by apply rb_blacken_red. }
    assert (Hfin : forall T, rb (S n) T -> is_red T = false -> exists N, rb N (blacken (plug r T))).
    { intros T HT CT. destruct (rb_plug (S n) T r) as [N HN]; [done|by rewrite CT|]. by eapply rb_blacken. }
    destruct (Bool.eqb_spec fd gd) as [->|Hd].
    { apply Hfin; [|by rewrite is_red_nd]. apply rb_black. split; [done|]. by apply rb_red. }
    destruct t as [|b [] tl y tr']; try done. cbn in H. destruct H as (C1 & C2 & H1 & H2).
    apply Hfin; [|by rewrite is_red_nd]. apply rb_black.
    split; apply rb_red; destruct gd; cbn; done.
  - apply Hplug. cbn in F |- *. by destruct F as (? & _ & ?).
  - apply Hplug. cbn in F |- *. by destruct F as (? & _ & ?).
Qed.

(** * After a removal *)

Inductive rem_step := Again (p : list frame) (t : tr) | Finished (t : tr).
Definition ret_of (x : rem_step) : ptr := match x with Again _ t => rootp t | Finished t => rootp t end.
Definition tree_of (x : rem_step) : tr := match x with Again p t => plug p t | Finished t => t end.

(** [TreeBARSub] on [t] below [f], once the sibling is not red *)
Definition bar_sub (f : frame) (r : list frame) (t : tr) : rem_step :=
  let d := f_dir f in
  match f_sib f with
  | Lf => Again r (plug1 f t)
  | Nd b bc lo y hi =>
      let inner := fst_of d lo hi in
      let outer := fst_of (negb d) lo hi in
      if negb (is_red inner) && negb (is_red outer)
      then Again r (nd d (f_loc f) (f_red f) (f_item f) t (nd d b true y inner outer))
      else if negb (is_red outer)
      then match inner with
           | Lf => Finished (plug (f :: r) t)
           | Nd e ec elo z ehi =>
               Finished (plug r (nd d e (f_red f) z
                               (nd d (f_loc f) false (f_item f) t (fst_of d elo ehi))
                               (nd d b false y (fst_of (negb d) elo ehi) outer)))
           end
      else Finished (plug r (nd d b (f_red f) y (nd d (f_loc f) false (f_item f) t inner) (blacken outer)))
  end.

(** The same, a red sibling being rotated up before *)
Definition bar (f : frame) (r : list frame) (t : tr) : rem_step :=
  match f_sib f with
  | Nd b true lo y hi =>
      bar_sub (Fr (f_dir f) (f_loc f) true (f_item f) (fst_of (f_dir f) lo hi))
        (Fr (f_dir f) b false y (fst_of (negb (f_dir f)) lo hi) :: r) t
  | _ => bar_sub f r t
  end.

(** The tree [TreeBalanceAfterRemove] makes of the one in which the paths through
    [t], at the end of [p], are one black node short *)
Fixpoint fix_rem (p : list frame) (t : tr) : tr :=
  match p with
  | [] => blacken t
  | f :: r =>
      if is_red t then plug p (blacken t)
      else match bar f r t with
           | Finished T => blacken T
           | Again r' t' => if is_red t' then plug r' (blacken t') else fix_rem r t'
           end
  end.

(** The node the loop is at: the root of [t], or the node on the stack that
    stands for the missing one *)
Definition handle (R : gmap loc Node) (p : list frame) (t : tr) (cur : ptr) : Prop :=
  match t with
  | Lf => exists a n, cur = Some a /\ R !! a = Some n /\ n_parent n = up p /\
                      n_content n = None /\ n_red n = false
  | Nd a _ _ _ _ => cur = Some a
  end.

Lemma Nd_nd d a c l x r : Nd a c l x r = nd d a c x (fst_of d l r) (fst_of (negb d) l r).
Proof. by destruct d. Qed.

Lemma holds_outside i R t0 T s a n : holds i R t0 T s -> R !! a = Some n -> nodes s !! a = Some n.
Proof.
  intros [] E. rewrite h_rest0; [done|]. intros Ha. apply h_free0 in Ha. congruence.
Qed.
Lemma handle_parent i R t0 p t cur s : holds i R t0 (plug p t) s -> handle R p t cur ->
  parent_of cur s = Some (up p, s).
Proof.
  intros H K. destruct t as [|a c l x r]; cbn in K.
  - destruct K as (a & n & -> & Ha & <- & _). apply parent_of_run. by eapply holds_outside.
  - subst cur. by eapply holds_parent.
Qed.
Lemma handle_black i R t0 p t cur s : holds i R t0 (plug p t) s -> handle R p t cur ->
  isBlack cur s = Some (negb (is_red t), s).
Proof.
  intros H K. destruct t as [|a c l x r]; cbn in K.
  - destruct K as (a & n & -> & Ha & _ & _ & E). cbn [isBlack].
    mstep (deref_run _ _ _ (holds_outside _ _ _ _ _ _ _ H Ha)). by rewrite E.
  - subst cur. by eapply holds_isBlack.
Qed.
Lemma holds_root i R t0 T s : holds i R t0 T s -> root i s = Some (rootp T, s).
Proof. intros []. unfold root, load. by rewrite h_tree0, get_put_root. Qed.

(** [TreeBARSub] from the second reading of the sibling on *)
Definition bar_tail (cur : ptr) (which : bool) (i : Z) : C ptr :=
  p ← parent_of cur;
  sibling ← child_of which p;
  match sibling with
  | None => mret p
  | Some _ =>
      n ← deref sibling;
      black1 ← isBlack (child (negb which) n);
      black2 ← isBlack (child which n);
      if black1 && black2 then
        update sibling (set_red true);;
        mret p
      else
        (if black2 : bool then
           update (child (negb which) n) (set_red false);;
           update sibling (set_red true);;
           TreeRotate sibling which i
         else mret tt);;
        sibling ← child_of which p;
        pn ← deref p;
        update sibling (set_red (n_red pn));;
        update p (set_red false);;
        c ← child_of which sibling;
        update c (set_red false);;
        TreeRotate p (negb which) i;;
        root i
  end.

(** Its last part: the sibling's outer child is red. *)
Lemma bar_last i R t0 r d f fc fx t b bc y inner outer s :
  holds i R t0 (plug r (nd d f fc fx t (nd d b bc y inner outer))) s -> outer <> Lf ->
  let T := plug r (nd d b fc y (nd d f false fx t inner) (blacken outer)) in
  runs (sibling ← child_of (negb d) (Some f);
        pn ← deref (Some f);
        update sibling (set_red (n_red pn));;
        update (Some f) (set_red false);;
        c ← child_of (negb d) sibling;
        update c (set_red false);;
        TreeRotate (Some f) d i;;
        root i) s (rootp T) (holds i R t0 T).
Proof.
  intros H N T. eapply runs_step; [by eapply holds_other|]. rewrite rootp_nd.
  eapply runs_step; [by eapply deref_run, holds_node|]. rewrite mkn_red.
  rewrite plug_sib in H. eapply runs_bind; [by eapply holds_recolour|].
  clear s H. intros s H. rewrite <- plug_sib in H. eapply runs_bind; [by eapply holds_recolour|].
  clear s H. intros s H. eapply runs_step.
  { rewrite plug_sib in H. by eapply holds_other. }
  assert (E : plug r (nd d f false fx t (nd d b fc y inner outer)) =
              plug (Fr (negb d) b fc y inner :: Fr (negb d) f false fx t :: r) outer).
  { rewrite plug_sib. cbn [plug]. unfold plug1; cbn. by rewrite !nd_swap. }
  rewrite E in H. eapply runs_bind; [by eapply holds_blacken|].
  clear s H. intros s H. eapply runs_bind.
  { eapply holds_rotate.
    cbn [plug] in H. unfold plug1 in H; cbn in H. rewrite !nd_swap in H. exact H. }
  clear s H. intros s H. eexists. split; [by eapply holds_root|done].
Qed.

Lemma bar_tail_run i R t0 f r t cur s :
  holds i R t0 (plug (f :: r) t) s -> handle R (f :: r) t cur ->
  runs (bar_tail cur (negb (f_dir f)) i) s (ret_of (bar_sub f r t))
    (holds i R t0 (tree_of (bar_sub f r t))).
Proof.
  destruct f as [d f fc fx fs]. intros H K. unfold bar_tail, bar_sub.
  eapply runs_step; [by eapply handle_parent|]. cbn [up f_loc f_dir f_sib f_red f_item].
  eapply runs_step; [by apply (holds_other i R t0 r d f fc fx t fs s)|].
  destruct fs as [|b bc lo y hi]; cbn [rootp].
  { replace (ret_of _) with (Some f) by (cbn; unfold plug1; by rewrite rootp_nd). by apply runs_ret. }
  set (inner := fst_of d lo hi). set (outer := fst_of (negb d) lo hi).
  assert (Hs : holds i R t0 (plug r (nd d f fc fx t (nd d b bc y inner outer))) s).
  { rewrite (Nd_nd d) in H. exact H. }
  clear H. rename Hs into H.
  assert (Hsib : holds i R t0 (plug (Fr (negb d) f fc fx t :: r) (nd d b bc y inner outer)) s).
  { by rewrite <- plug_sib. }
  eapply runs_step; [by eapply deref_run, holds_node|]. rewrite negb_involutive, mkn_child, mkn_other.
  eapply runs_step; [by eapply (holds_isBlack _ _ _ (Fr d b bc y outer :: _) inner)|].
  eapply runs_step.
  { rewrite plug_sib in Hsib. by eapply (holds_isBlack _ _ _ (_ :: _) outer). }
  destruct (negb (is_red inner) && negb (is_red outer)) eqn:B.
  { eapply runs_bind; [by eapply (holds_recolour _ _ _ (_ :: _) d b)|].
    clear s H Hsib. intros s H. replace (ret_of _) with (Some f) by (cbn; by rewrite rootp_nd).
    apply runs_ret. by rewrite <- plug_sib in H. }
  destruct (negb (is_red outer)) eqn:B2; cbn in B.
  - destruct inner as [|e ec elo z ehi]; [done|]. rewrite andb_true_r in B. cbn in B.
    apply negb_false_iff in B as ->. cbn [rootp tree_of ret_of].
    eapply runs_bind.
    { eapply runs_bind.
      { apply (holds_recolour i R t0 (Fr d b bc y outer :: Fr (negb d) f fc fx t :: r) false e true z elo ehi false).
        exact Hsib. }
      clear s H Hsib. intros s H. eapply runs_bind.
      { by apply (holds_recolour i R t0 (Fr (negb d) f fc fx t :: r) d b bc y (Nd e false elo z ehi) outer true). }
      clear s H. intros s H. apply (holds_rotate i R t0 (Fr (negb d) f fc fx t :: r) (negb d) b true y outer e
        false z (fst_of (negb d) elo ehi) (fst_of d elo ehi)).
      rewrite !nd_swap. by rewrite <- Nd_nd. }
    clear s H Hsib. intros s H. rewrite !nd_swap, <- plug_sib in H.
    apply (bar_last i R t0 r d f fc fx t e false z (fst_of d elo ehi)
             (nd d b true y (fst_of (negb d) elo ehi) outer)) in H; [|by destruct d].
    by rewrite blacken_nd in H.
  - cbn [rootp tree_of ret_of].
    eapply runs_step; [done|]. apply (bar_last i R t0 r d f fc fx t b bc y inner outer) in H; [done|].
    by intros E; rewrite E in B2.
Qed.

Lemma bar_run i R t0 f r t cur s :
  holds i R t0 (plug (f :: r) t) s -> handle R (f :: r) t cur ->
  runs (TreeBARSub cur (negb (f_dir f)) i) s (ret_of (bar f r t)) (holds i R t0 (tree_of (bar f r t))).
Proof.
  intros H K. unfold TreeBARSub. eapply runs_step; [by eapply handle_parent|].
  destruct f as [d f fc fx fs]. cbn [up f_loc f_dir].
  eapply runs_step; [by apply (holds_other i R t0 r d f fc fx t fs s)|].
  eapply runs_step.
  { eapply (holds_isRed i R t0 (Fr (negb d) f fc fx t :: r) fs); [|done]. by rewrite <- plug_sib. }
  unfold bar. cbn [f_sib f_dir f_loc f_item].
  destruct fs as [|b [] lo y hi]; cbn [is_red].
  - eapply runs_step; [done|]. exact (bar_tail_run i R t0 (Fr d f fc fx Lf) r t cur s H K).
  - eapply runs_bind.
    { cbn [plug] in H. unfold plug1 in H; cbn in H. rewrite (Nd_nd d b), plug_sib in H.
      eapply runs_bind.
      { exact (holds_recolour i R t0 (Fr (negb d) f fc fx t :: r) d b true y _ _ false s H). }
      clear s H. intros s H. rewrite <- plug_sib in H. eapply runs_bind.
      { exact (holds_recolour i R t0 r d f fc fx t _ true s H). }
      clear s H. intros s H. rewrite negb_involutive.
      exact (holds_rotate i R t0 r d f true fx t b false y _ _ s H). }
    clear s H. intros s H.
    apply (bar_tail_run i R t0 (Fr d f true fx (fst_of d lo hi))
             (Fr d b false y (fst_of (negb d) lo hi) :: r) t cur s); [exact H|by destruct t].
  - eapply runs_step; [done|].
    exact (bar_tail_run i R t0 (Fr d f fc fx (Nd b false lo y hi)) r t cur s H K).
Qed.

Lemma root_not_end i R t0 f r t cur s :
  holds i R t0 (plug (f :: r) t) s -> handle R (f :: r) t cur -> cur <> rootp (plug (f :: r) t).
Proof.
  intros H K. assert (E : exists a, rootp (plug (f :: r) t) = Some a /\ a ∈ paddrs (f :: r)).
  { clear. revert f t. induction r as [|g r IH]; intros f t.
    - cbn. unfold plug1. rewrite rootp_nd. eexists. split; [done|by left].
    - destruct (IH g (plug1 f t)) as (a & E & Ha). exists a. split; [exact E|].
      cbn in *. set_solver. }
  destruct E as (a & E & Ha). rewrite E. destruct t as [|b c lo x hi]; cbn in K.
  - destruct K as (b & n & -> & Hb & _). intros [= ->]. destruct H. rewrite h_free0 in Hb; [done|].
    rewrite addrs_paddrs. apply elem_of_app. by right.
  - subst cur. intros [= ->]. apply holds_nodup in H. apply NoDup_app in H as (_ & H & _).
    apply (H a); [cbn; set_solver|done].
Qed.

(** The side test of [TreeBalanceAfterRemove] *)
Lemma side_run i R t0 d f fc fx fs r t cur s n :
  holds i R t0 (plug (Fr d f fc fx fs :: r) t) s -> handle R (Fr d f fc fx fs :: r) t cur ->
  Forall (fun x => x.1 <> None) (items t) -> (t = Lf -> fs <> Lf) ->
  deref cur s = Some (n, s) ->
  exists l, child_of LEFT (Some f) s = Some (l, s) /\
    bool_decide (match n_content n with Some _ => cur | None => None end = l) = negb d.
Proof.
  intros H K F N D. destruct t as [|a c lo x hi]; cbn in K.
  - destruct K as (a & m & -> & Ha & _ & C & _).
    rewrite (deref_run _ _ _ (holds_outside _ _ _ _ _ _ _ H Ha)) in D. injection D as ->.
    rewrite C. destruct d.
    + eexists. split; [by apply (holds_other i R t0 r true f fc fx Lf fs s)|].
      apply bool_decide_false. destruct fs; [by specialize (N eq_refl)|done].
    + eexists. split; [by apply (holds_child i R t0 r false f fc fx Lf fs s)|]. done.
  - subst cur. rewrite (deref_run s a _ (holds_node i R t0 (_ :: r) false a c x lo hi s H)) in D.
    injection D as <-. cbn. cbn in F. apply Forall_app in F as (_ & [F _]%Forall_cons).
    destruct (x.1) eqn:E; [|done].
    by apply (holds_left i R t0 r d f fc fx (Nd a c lo x hi) fs s H).
Qed.

Lemma plug_not_Lf p t : t <> Lf -> plug p t <> Lf.
Proof.
  revert t. induction p as [|f p IH]; intros t N; [done|]. apply IH. unfold plug1. by destruct (f_dir f).
Qed.
Lemma nd_not_Lf d a c x t u : nd d a c x t u <> Lf.
Proof. by destruct d. Qed.

Lemma bar_sub_Again f r t r' t' :
  bar_sub f r t = Again r' t' -> t' <> Lf /\ r' = r /\ is_red t' = f_red f.
Proof.
  unfold bar_sub. repeat (case_match; try discriminate); intros [= <- <-];
    (split_and!; [unfold plug1; apply nd_not_Lf|done|unfold plug1; by rewrite is_red_nd]).
Qed.
Lemma bar_Again f r t r' t' : bar f r t = Again r' t' -> t' <> Lf /\ (r' = r \/ is_red t' = true).
Proof.
  unfold bar. repeat case_match; intros (? & ? & E)%bar_sub_Again; auto.
Qed.
Lemma bar_sub_Finished f r t T : bar_sub f r t = Finished T -> T <> Lf.
Proof.
  unfold bar_sub. repeat (case_match; try discriminate); intros [= <-];
    apply plug_not_Lf, nd_not_Lf.
Qed.
Lemma bar_Finished f r t T : bar f r t = Finished T -> T <> Lf.
Proof. unfold bar. repeat case_match; apply bar_sub_Finished. Qed.

Lemma bar_sub_items f r t : items (tree_of (bar_sub f r t)) = items (plug (f :: r) t).
Proof.
  destruct f as [d f c x u]. unfold bar_sub. cbn [f_sib f_dir f_loc f_red f_item].
  destruct u as [|b bc lo y hi]; [done|]. set (old := items (plug _ t)).
  assert (Q : forall T, items T = items (plug1 (Fr d f c x (Nd b bc lo y hi)) t) -> items (plug r T) = old).
  { intros T E. unfold old. cbn. by apply items_plug_eq. }
  unfold plug1 in Q; cbn in Q. destruct d; cbn [fst_of negb] in *; repeat case_match; cbn [tree_of];
    try done; apply Q; subst; items_tac.
Qed.
Lemma bar_items f r t : items (tree_of (bar f r t)) = items (plug (f :: r) t).
Proof.
  unfold bar. destruct f as [d f c x [|b [] lo y hi]]; cbn [f_sib f_dir f_loc f_item]; rewrite bar_sub_items; try done.
  cbn [plug]. apply items_plug_eq. unfold plug1. destruct d; items_tac.
Qed.

Lemma remove_stop fuel i R t0 p t s :
  holds i R t0 (plug p t) s -> t <> Lf -> p = [] \/ is_red t = true ->
  balance_remove_loop (S fuel) (rootp t) i s = Some (rootp t, s).
Proof.
  intros H N D. cbn [balance_remove_loop]. mstep (holds_root _ _ _ _ _ H).
  mstep (holds_isBlack _ _ _ _ _ _ _ H eq_refl). destruct D as [-> | ->].
  - by rewrite bool_decide_true.
  - by rewrite andb_false_r.
Qed.

(** What [TreeBalanceAfterRemove] needs of the place it starts at: the node on the
    stack has a parent with another child. *)
Definition rem_ok (p : list frame) (t : tr) : Prop :=
  t = Lf -> match p with f :: _ => f_sib f <> Lf | [] => False end.

Lemma balance_remove_run fuel i R t0 p t cur s :
  holds i R t0 (plug p t) s -> handle R p t cur ->
  Forall (fun x => x.1 <> None) (items (plug p t)) -> rem_ok p t -> (length p < fuel)%nat ->
  exists s' p' t', balance_remove_loop (S fuel) cur i s = Some (rootp t', s') /\
    holds i R t0 (plug p' t') s' /\ t' <> Lf /\ fix_rem p t = plug p' (blacken t').
Proof.
  revert p t cur s. induction fuel as [|fuel IH]; intros p t cur s H K F O L; [lia|].
  assert (D : (t <> Lf /\ (p = [] \/ is_red t = true)) \/
              exists f r, p = f :: r /\ is_red t = false).
  { destruct p as [|f r]; [|destruct (is_red t) eqn:C; [|right; eauto]].
    - left. split; [|by left]. intros E. by apply O in E.
    - left. split; [by destruct t|by right]. }
  destruct D as [(N & D)|(f & r & -> & C)].
  { exists s, p, t. assert (cur = rootp t) as -> by (by destruct t).
    rewrite (remove_stop _ _ _ _ _ _ _ H N D). split_and!; try done.
    destruct p as [|f r]; [done|]. destruct D as [|D]; [done|]. cbn. by rewrite D. }
  remember (S fuel) as k eqn:Ek. cbn [balance_remove_loop]. subst k.
  mstep (holds_root _ _ _ _ _ H). mstep (handle_black _ _ _ _ _ _ _ H K). rewrite C.
  rewrite bool_decide_false by (by eapply root_not_end). cbn [negb andb].
  destruct (parent_of cur s) as [[q s0]|] eqn:P; [|by rewrite (handle_parent _ _ _ _ _ _ _ H K) in P].
  assert (exists n, deref cur s = Some (n, s) /\ n_parent n = Some (f_loc f)) as (n & Dn & Pn).
  { rewrite (handle_parent _ _ _ _ _ _ _ H K) in P. clear P.
    pose proof (handle_parent _ _ _ _ _ _ _ H K) as P. unfold parent_of in P.
    apply bind_Some in P as (n & s1 & E & P). cbn in P. injection P as P ->. eauto. }
  mstep Dn. rewrite Pn. destruct f as [d f fc fx fs].
  destruct (side_run i R t0 d f fc fx fs r t cur s n) as (l & E1 & E2); try done.
  { rewrite items_plug in F. by apply Forall_app in F as (_ & [F _]%Forall_app). }
  mstep E1. rewrite E2, which_side.
  destruct (bar_run i R t0 (Fr d f fc fx fs) r t cur s H K) as (s1 & E & H1). mstep E.
  pose proof (bar_items (Fr d f fc fx fs) r t) as I. cbn [fix_rem]. rewrite C.
  destruct (bar (Fr d f fc fx fs) r t) as [r' t'|T] eqn:B; cbn [ret_of tree_of] in *.
  - apply bar_Again in B as (N' & D). destruct (is_red t') eqn:C'.
    + exists s1, r', t'. by rewrite (remove_stop _ _ _ _ _ _ _ H1 N' (or_intror C')).
    + destruct D as [-> |]; [|done]. cbn in L. apply (IH r t' (rootp t') s1); [done|by destruct t'|by rewrite I|by intros ?|lia].
  - apply bar_Finished in B. exists s1, [], T. by rewrite (remove_stop _ _ _ _ [] _ _ H1 B (or_introl eq_refl)).
Qed.

(** * The red-black invariant after a removal *)

(** A node whose children are black, of either colour *)
Lemma rb_either n d a (c : bool) x t u :
  rb n t -> rb n u -> is_red t = false -> is_red u = false ->
  rb (if c then n else S n) (nd d a c x t u).
Proof. intros. destruct c; [by apply rb_red|by apply rb_black]. Qed.

Lemma fst_of_black n b lo y hi d :
  rb (S n) (Nd b false lo y hi) -> rb n (fst_of d lo hi) /\ rb n (fst_of (negb d) lo hi).
Proof. destruct d; cbn; tauto. Qed.
Lemma fst_of_red n b lo y hi d :
  rb n (Nd b true lo y hi) ->
  (rb n (fst_of d lo hi) /\ is_red (fst_of d lo hi) = false) /\
  (rb n (fst_of (negb d) lo hi) /\ is_red (fst_of (negb d) lo hi) = false).
Proof. destruct d; cbn; tauto. Qed.

Lemma plug_either n d a (c : bool) x t u r :
  rb n t -> rb n u -> is_red t = false -> is_red u = false ->
  fits (if c then n else S n) c r -> exists N, rb N (plug r (nd d a c x t u)).
Proof.
  intros. eapply (rb_plug (if c then n else S n)); [by apply rb_either|by rewrite is_red_nd].
Qed.

Lemma bar_sub_rb f r t n :
  rb n t -> is_red t = false -> is_red (f_sib f) = false -> fits (S n) false (f :: r) ->
  match bar_sub f r t with
  | Again r' t' => rb (S n) (blacken t') /\ fits (if f_red f then S n else S (S n)) (f_red f) r'
  | Finished T => exists N, rb N T
  end.
Proof.
  destruct f as [d f fc fx fs]. cbn [fits f_sib f_red]. intros Ht Ct Cs (Hs & _ & F).
  unfold bar_sub. cbn [f_sib f_dir f_loc f_red f_item].
  destruct fs as [|b bc lo y hi]; [done|]. cbn in Cs. subst bc.
  apply (fst_of_black n b lo y hi d) in Hs as [Hi Ho].
  destruct (is_red (fst_of d lo hi)) eqn:Ci, (is_red (fst_of (negb d) lo hi)) eqn:Co; cbn [negb andb].
  - apply (plug_either (S n)); try done; [by apply rb_black|by apply rb_blacken_red|by rewrite is_red_nd|by rewrite is_red_blacken].
  - destruct (fst_of d lo hi) as [|e ec elo z ehi]; [done|]. cbn in Ci. subst ec.
    apply (fst_of_red _ _ _ _ _ d) in Hi as [[] []].
    apply (plug_either (S n)); try done; [by apply rb_black|by apply rb_black|by rewrite is_red_nd..].
  - apply (plug_either (S n)); try done; [by apply rb_black|by apply rb_blacken_red|by rewrite is_red_nd|by rewrite is_red_blacken].
  - rewrite blacken_nd. split; [|done]. apply rb_black. split; [done|]. by apply rb_red.
Qed.

Lemma fix_rem_rb n p t : rb n t -> fits (S n) false p -> exists N, rb N (fix_rem p t).
Proof.
  revert n t. induction p as [|f r IH]; intros n t Ht F; cbn [fix_rem]; [by eapply rb_blacken|].
  destruct (is_red t) eqn:Ct.
  { apply (rb_plug (S n)); [by apply rb_blacken_red|by rewrite is_red_blacken]. }
  assert (Hagain : forall g r' q, fits (S n) false (g :: q) -> is_red (f_sib g) = false ->
    bar_sub g q t = bar f r t -> q = r' -> (f_red g = false -> r' = r) ->
    exists N, rb N match bar f r t with
                   | Again r' t' => if is_red t' then plug r' (blacken t') else fix_rem r t'
                   | Finished T => blacken T end).
  { intros g r' q F' Cg E <- Hr. rewrite <- E. pose proof (bar_sub_rb g q t n Ht Ct Cg F') as B.
    destruct (bar_sub g q t) as [q' t'|T] eqn:Eb; [|destruct B as [N B]; by eapply rb_blacken].
    apply bar_sub_Again in Eb as (_ & -> & Cr). destruct B as [B1 B2]. rewrite Cr.
    destruct (f_red g) eqn:Cf.
    - apply (rb_plug (S n)); [done|]. rewrite is_red_blacken. by eapply fits_black.
    - rewrite (Hr eq_refl) in B2. apply (IH (S n)); [|done]. by destruct t' as [|? [] ???]. }
  destruct f as [d f fc fx fs]. destruct (is_red fs) eqn:Cs.
  - destruct fs as [|b bc lo y hi]; [done|]. cbn in Cs. subst bc.
    cbn [fits f_red f_sib] in F. destruct F as (Hs & Hf & F). destruct fc; [by destruct Hf|].
    apply (fst_of_red _ _ _ _ _ d) in Hs as [[Hi Ci] [Ho Co]].
    eapply (Hagain (Fr d f true fx (fst_of d lo hi)) _ (Fr d b false y (fst_of (negb d) lo hi) :: r)); try done.
  - eapply (Hagain (Fr d f fc fx fs) r r); try done. unfold bar. cbn. by destruct fs as [|? [] ???].
Qed.

Lemma is_red_plug p t u : is_red t = is_red u -> is_red (plug p t) = is_red (plug p u).
Proof.
  revert t u. induction p as [|f p IH]; intros t u E; cbn; [done|].
  apply IH. unfold plug1. by rewrite !is_red_nd.
Qed.
Lemma is_red_plug_cons f p t u : is_red (plug (f :: p) t) = is_red (plug (f :: p) u).
Proof. cbn. apply is_red_plug. unfold plug1. by rewrite !is_red_nd. Qed.

(** The root above the end of the path is black. *)
Definition top_black (p : list frame) : Prop := p = [] \/ is_red (plug p Lf) = false.

Lemma top_black_tail f r : top_black (f :: r) -> top_black r.
Proof.
  intros [?|H]; [done|]. destruct r as [|g r]; [by left|]. right. rewrite <- H.
  cbn [plug]. unfold plug1 at 2. apply (is_red_plug_cons g r).
Qed.
Lemma top_black_plug p t : top_black p -> is_red t = false -> is_red (plug p t) = false.
Proof.
  intros [-> | H] C; [done|]. destruct p as [|f p]; [done|]. by rewrite (is_red_plug_cons f p t Lf).
Qed.

Lemma bar_top f r t r' t' : bar f r t = Again r' t' -> top_black (f :: r) -> top_black r'.
Proof.
  intros E T. apply top_black_tail in T. unfold bar in E.
  repeat case_match; apply bar_sub_Again in E as (_ & -> & _); try done.
  destruct T as [-> | T]; right; [cbn; unfold plug1; cbn; by rewrite is_red_nd|].
  cbn. apply top_black_plug; [by right|]. unfold plug1. by rewrite is_red_nd.
Qed.

Lemma fix_rem_black p t : top_black p -> is_red (fix_rem p t) = false.
Proof.
  revert t. induction p as [|f r IH]; intros t T; cbn [fix_rem]; [apply is_red_blacken|].
  destruct (is_red t); [apply top_black_plug; [done|apply is_red_blacken]|].
  destruct (bar f r t) as [r' t'|X] eqn:B; [|apply is_red_blacken]. destruct (is_red t').
  - apply top_black_plug; [by eapply bar_top|apply is_red_blacken].
  - by eapply IH, top_black_tail.
Qed.

Lemma fix_rem_items p t : items (fix_rem p t) = items (plug p t).
Proof.
  revert t. induction p as [|f r IH]; intros t; cbn [fix_rem]; [apply items_blacken|].
  destruct (is_red t); [by rewrite (items_plug_eq (f :: r) _ _ (items_blacken t))|].
  rewrite <- bar_items. destruct (bar f r t) as [r' t'|X] eqn:B; [|apply items_blacken].
  cbn [tree_of]. destruct (is_red t') eqn:C; [by apply items_plug_eq, items_blacken|].
  apply bar_Again in B as (_ & [-> |]); [|congruence]. apply IH.
Qed.

(** * The functions *)

Lemma holds_length i R t0 T s : holds i R t0 T s -> (length (addrs T) <= base.size (nodes s))%nat.
Proof.
  intros []. rewrite <- size_dom, <- (size_list_to_set (C := gset loc) (addrs T)) by done.
  apply subseteq_size. intros a Ha. apply elem_of_list_to_set in Ha. apply elem_of_dom.
  clear - h_rep0 Ha. revert h_rep0. generalize (@None loc). induction T as [|b c l IHl x r IHr]; cbn in *.
  - by apply elem_of_nil in Ha.
  - intros p (E & Hl & Hr). apply elem_of_app in Ha as [Ha|[-> |Ha]%elem_of_cons]; eauto.
Qed.

Lemma length_path p : (length p <= length (paddrs p))%nat.
Proof. induction p as [|f p IH]; cbn; [done|]. rewrite length_app. lia. Qed.

Lemma holds_path i R t0 p t s : holds i R t0 (plug p t) s ->
  (length p + length (addrs t) <= base.size (nodes s))%nat.
Proof.
  intros H%holds_length. rewrite addrs_paddrs, length_app in H. pose proof (length_path p). lia.
Qed.

Theorem TreeBalanceAfterAdd_run i R t0 p t s :
  holds i R t0 (plug p t) s -> t <> Lf ->
  runs (TreeBalanceAfterAdd (rootp t) i) s tt (holds i R t0 (blacken (fix_add p t))).
Proof.
  intros H N. unfold TreeBalanceAfterAdd. eapply runs_step; [done|].
  destruct t as [|a c l x r]; [done|]. cbn [rootp]. pose proof (holds_path _ _ _ _ _ _ H) as L.
  cbn in L. rewrite length_app in L. cbn in L.
  eapply runs_bind; [eapply balance_add_run; [exact H|done|lia]|].
  clear s H L. intros s H. eapply runs_step; [by eapply holds_root|].
  eapply (holds_blacken _ _ _ []); [done|]. intros E.
  pose proof (fix_add_items p (Nd a c l x r)) as I. rewrite E, items_plug in I. cbn in I.
  specialize (I N). apply (f_equal length) in I. rewrite !length_app in I. cbn in I. lia.
Qed.

Theorem TreeBalanceAfterRemove_run i R t0 p t cur s :
  holds i R t0 (plug p t) s -> handle R p t cur ->
  Forall (fun x => x.1 <> None) (items (plug p t)) -> rem_ok p t ->
  runs (TreeBalanceAfterRemove cur i) s tt (holds i R t0 (fix_rem p t)).
Proof.
  intros H K F O. unfold TreeBalanceAfterRemove. eapply runs_step; [done|].
  assert (L : (length p < base.size (nodes s))%nat).
  { pose proof (holds_path _ _ _ _ _ _ H) as L. destruct t as [|a c l x r]; cbn in L.
    - destruct K as (a & n & _ & Ha & _). pose proof (holds_outside _ _ _ _ _ _ _ H Ha) as Hs.
      assert (H' : holds i (delete a R) t0 (plug p Lf) (Store (delete a (nodes s)) (tree s))).
      { assert (Q : a ∉ addrs (plug p Lf)).
        { intros Q. destruct H. apply h_free0 in Q. congruence. }
        destruct H. split; cbn; try done.
        - eapply rep_frame; [done|]. intros b Hb. apply lookup_delete_ne. by intros ->.
        - intros b Hb. destruct (decide (a = b)) as [->|]; [by rewrite !lookup_delete_eq|].
          rewrite !lookup_delete_ne by done. by apply h_rest0.
        - intros b Hb. rewrite lookup_delete_ne; [by apply h_free0|]. by intros ->. }
      apply holds_path in H'. cbn in H'. rewrite map_size_delete_Some in H' by eauto.
      assert (base.size (nodes s) <> 0%nat); [|lia]. intros E. apply map_size_empty_inv in E.
      by rewrite E, lookup_empty in Hs.
    - rewrite length_app in L. cbn in L. lia. }
  destruct (balance_remove_run _ _ _ _ _ _ _ _ H K F O L) as (s' & p' & t' & E & H' & N & ->).
  eapply runs_step; [exact E|]. by apply holds_blacken.
Qed.
End TreeBalance.
