(* ===== verification/TreeOps.v ===== *)
(** The operations of [lib/Tree.c] on the tree in the store: an index is a sorted
    list of items, searched, extended and shortened in a red-black tree. *)

From stdpp Require Import sorting.
From S2P Require Import Prelude Tree TreeShape TreeBalance.

Module TreeOps.
Import Tree TreeShape TreeBalance.

(** * Comparison functions *)

(** What the tree needs of the comparison function of index [i]: a content that is
    before another, and the other not after the key, is before the key. *)
Class Comparison (compare : Z -> ptr -> ptr -> Z -> Z) (i : Z) : Prop := {
  cmp_mono a b k v : 0 < compare i a b 1 -> 0 <= compare i b k v -> 0 < compare i a k v;
  cmp_sym a b : compare i a b 1 < 0 <-> 0 < compare i b a 1
}.

Ltac pos_cases :=
  repeat match goal with
  | |- context [(?x <? ?y)%positive] => destruct (Pos.ltb_spec x y)
  | |- context [(?x =? ?y)%positive] => destruct (Pos.eqb_spec x y)
  end; lia.

#[export] Instance ptr_comparison i : Comparison (fun _ => TreePtrCompare) i.
Proof.
  split.
  - intros [a|] [b|] [k|] v; unfold TreePtrCompare; pos_cases.
  - intros [a|] [b|]; unfold TreePtrCompare; pos_cases.
Qed.

Section ops.
Context (compare : Z -> ptr -> ptr -> Z -> Z) (i : Z) `{!Comparison compare i}.
Implicit Types (R : gmap loc Node) (L : list item).

(** * The abstract index: a sorted list *)

Definition sorted L : Prop := StronglySorted (fun x y : item => 0 < compare i x.1 y.1 1) L.

(** The item that compares equal to a key *)
Fixpoint find_item (k : ptr) (v : Z) L : option item :=
  match L with
  | [] => None
  | x :: L => if compare i x.1 k v =? 0 then Some x else find_item k v L
  end.
(** A new item in its place, or instead of the one equal to it *)
Fixpoint put_item (z : item) L : list item :=
  match L with
  | [] => [z]
  | x :: L =>
      let result := compare i x.1 z.1 1 in
      if 0 <? result then x :: put_item z L else if result =? 0 then z :: L else z :: x :: L
  end.
(** Without the item that compares equal to a key *)
Fixpoint drop_item (k : ptr) (v : Z) L : list item :=
  match L with
  | [] => []
  | x :: L => if compare i x.1 k v =? 0 then L else x :: drop_item k v L
  end.

Definition all_before (k : ptr) (v : Z) L : Prop := Forall (fun x : item => 0 < compare i x.1 k v) L.
Definition all_after (k : ptr) (v : Z) L : Prop := Forall (fun x : item => compare i x.1 k v < 0) L.

Lemma find_app k v L1 x L2 :
  all_before k v L1 -> compare i x.1 k v = 0 -> find_item k v (L1 ++ x :: L2) = Some x.
Proof.
  induction 1 as [|y L1 Hy _ IH]; intros E; cbn; [by rewrite E|].
  rewrite (proj2 (Z.eqb_neq _ _)) by lia. by apply IH.
Qed.
Lemma find_none k v L1 L2 : all_before k v L1 -> all_after k v L2 -> find_item k v (L1 ++ L2) = None.
Proof.
  intros H1 H2. induction H1 as [|y L1 Hy _ IH]; cbn.
  - induction H2 as [|y L2 Hy _ IH]; cbn; [done|]. rewrite (proj2 (Z.eqb_neq _ _)) by lia. done.
  - rewrite (proj2 (Z.eqb_neq _ _)) by lia. done.
Qed.
Lemma put_new z L1 L2 : all_before z.1 1 L1 -> all_after z.1 1 L2 -> put_item z (L1 ++ L2) = L1 ++ z :: L2.
Proof.
  intros H1 H2. induction H1 as [|y L1 Hy _ IH]; cbn.
  - destruct H2 as [|y L2 Hy _]; cbn; [done|]. rewrite (proj2 (Z.ltb_ge _ _)) by lia.
    by rewrite (proj2 (Z.eqb_neq _ _)) by lia.
  - rewrite (proj2 (Z.ltb_lt _ _)) by lia. by rewrite IH.
Qed.
Lemma put_old z L1 x L2 :
  all_before z.1 1 L1 -> compare i x.1 z.1 1 = 0 -> put_item z (L1 ++ x :: L2) = L1 ++ z :: L2.
Proof.
  induction 1 as [|y L1 Hy _ IH]; intros E; cbn; [by rewrite E|].
  rewrite (proj2 (Z.ltb_lt _ _)) by lia. by rewrite IH.
Qed.
Lemma drop_app k v L1 x L2 :
  all_before k v L1 -> compare i x.1 k v = 0 -> drop_item k v (L1 ++ x :: L2) = L1 ++ L2.
Proof.
  induction 1 as [|y L1 Hy _ IH]; intros E; cbn; [by rewrite E|].
  rewrite (proj2 (Z.eqb_neq _ _)) by lia. by rewrite IH.
Qed.

(** * Sorted lists *)

Lemma sorted_app L1 L2 :
  sorted (L1 ++ L2) <->
  sorted L1 /\ sorted L2 /\ (forall x y, x ∈ L1 -> y ∈ L2 -> 0 < compare i x.1 y.1 1).
Proof. unfold sorted. rewrite StronglySorted_app. tauto. Qed.
Lemma sorted_cons x L :
  sorted (x :: L) <-> sorted L /\ (forall y, y ∈ L -> 0 < compare i x.1 y.1 1).
Proof.
  unfold sorted. split.
  - intros H. inversion H as [|? ? H1 H2]; subst. rewrite Forall_forall in H2. by split.
  - intros [H1 H2]. constructor; [done|]. by apply Forall_forall.
Qed.

Lemma before_trans k v x y : 0 < compare i x y 1 -> 0 <= compare i y k v -> 0 < compare i x k v.
Proof. apply cmp_mono. Qed.
Lemma after_trans k v x y : 0 < compare i x y 1 -> compare i x k v <= 0 -> compare i y k v < 0.
Proof.
  intros H1 H2. destruct (Z.lt_ge_cases (compare i y k v) 0) as [|H3]; [done|].
  pose proof (cmp_mono (i := i) x y k v H1 H3). lia.
Qed.

(** A list remains sorted when an item takes its place in it. *)
Lemma sorted_insert L1 L2 z :
  sorted (L1 ++ L2) -> all_before z.1 1 L1 -> all_after z.1 1 L2 -> sorted (L1 ++ z :: L2).
Proof.
  unfold all_before, all_after. rewrite !Forall_forall. intros (H1 & H2 & H3)%sorted_app B A.
  apply sorted_app. split_and!; [done| |].
  - apply sorted_cons. split; [done|]. intros y Hy. by apply cmp_sym, A.
  - intros x y Hx [-> |Hy]%elem_of_cons; [by apply B|by apply H3].
Qed.
Lemma sorted_remove L1 x L2 : sorted (L1 ++ x :: L2) -> sorted (L1 ++ L2).
Proof.
  intros (H1 & [H2 _]%sorted_cons & H3)%sorted_app. apply sorted_app. split_and!; [done..|].
  intros y z Hy Hz. apply H3; [done|]. by right.
Qed.

(** * The descent *)

(** Where the search for a key ends *)
Fixpoint descend (k : ptr) (v : Z) (p : list frame) (t : tr) : list frame * tr :=
  match t with
  | Lf => (p, Lf)
  | Nd a c l x r =>
      let result := compare i x.1 k v in
      if result =? 0 then (p, t)
      else if 0 <? result then descend k v (Fr true a c x l :: p) r
      else descend k v (Fr false a c x r :: p) l
  end.

Lemma descend_plug k v p t : plug (descend k v p t).1 (descend k v p t).2 = plug p t.
Proof.
  revert p. induction t as [|a c l IHl x r IHr]; intros p; cbn; [done|].
  destruct (compare i x.1 k v =? 0); [done|].
  destruct (0 <? compare i x.1 k v); [by rewrite IHr|by rewrite IHl].
Qed.

Lemma descend_split k v p t :
  sorted (items t) -> all_before k v (items_before p) -> all_after k v (items_after p) ->
  let '(p', t') := descend k v p t in
  all_before k v (items_before p') /\ all_after k v (items_after p') /\
  match t' with Lf => True | Nd _ _ l x r =>
    compare i x.1 k v = 0 /\ all_before k v (items l) /\ all_after k v (items r) end.
Proof.
  revert p. induction t as [|a c l IHl x r IHr]; intros p S B A; cbn; [done|].
  cbn in S. apply sorted_app in S as (Sl & [Sr Sx]%sorted_cons & Slx).
  assert (Hl : 0 <= compare i x.1 k v -> all_before k v (items l)).
  { intros H. apply Forall_forall. intros y Hy. eapply before_trans; [|exact H]. apply Slx; [done|by left]. }
  assert (Hr : compare i x.1 k v <= 0 -> all_after k v (items r)).
  { intros H. apply Forall_forall. intros y Hy. eapply after_trans; [|exact H]. by apply Sx. }
  destruct (Z.eqb_spec (compare i x.1 k v) 0) as [E|E].
  { split_and!; try done; [apply Hl; lia|apply Hr; lia]. }
  destruct (Z.ltb_spec 0 (compare i x.1 k v)).
  - apply IHr; [done| |done]. cbn. apply Forall_app. split; [done|]. apply Forall_app.
    split; [apply Hl; lia|]. by apply Forall_singleton.
  - apply IHl; [done|cbn; by rewrite app_nil_r|]. cbn. constructor; [lia|]. apply Forall_app. split; [apply Hr; lia|done].
Qed.

(** * Searching *)

Lemma holds_deref R t0 p a c l x r s :
  holds i R t0 (plug p (Nd a c l x r)) s ->
  deref (Some a) s = Some (mkn false (up p) (rootp l) (rootp r) x c, s).
Proof. intros H. apply deref_run. exact (holds_node i R t0 p false a c x l r s H). Qed.

Lemma find_loop_run R t0 k v p t s fuel :
  holds i R t0 (plug p t) s -> (length (addrs t) < fuel)%nat ->
  find_loop compare fuel k i v (rootp t) s = Some (rootp (descend k v p t).2, s).
Proof.
  revert p t. induction fuel as [|fuel IH]; intros p t H L; [lia|].
  destruct t as [|a c l x r]; [done|]. cbn [find_loop rootp].
  mstep (holds_deref _ _ _ _ _ _ _ _ _ H). cbn [mkn n_content n_left n_right descend].
  cbn in L. rewrite length_app in L. cbn in L.
  destruct (compare i x.1 k v =? 0); [done|]. destruct (0 <? compare i x.1 k v); cbn [child n_left n_right].
  - apply IH; [done|lia].
  - apply IH; [done|lia].
Qed.

Lemma TreeFindIndex1_run R t0 T k v s :
  holds i R t0 T s -> TreeFindIndex1 compare k i v s = Some (rootp (descend k v [] T).2, s).
Proof.
  intros H. unfold TreeFindIndex1. mstep (holds_root _ _ _ _ _ H).
  rewrite (bind_step path_fuel _ s (S (base.size (nodes s))) s eq_refl).
  eapply (find_loop_run _ _ _ _ []); [done|]. pose proof (holds_length _ _ _ _ _ H). lia.
Qed.

(** The end of the descent and the abstract search *)
Lemma descend_find k v T :
  sorted (items T) ->
  match (descend k v [] T).2 with
  | Lf => find_item k v (items T) = None
  | Nd _ _ _ x _ => find_item k v (items T) = Some x
  end.
Proof.
  intros S. pose proof (descend_split k v [] T S) as D. pose proof (descend_plug k v [] T) as P.
  destruct (descend k v [] T) as [p t]. cbn [fst snd] in *. cbn [plug] in P. subst T.
  destruct D as (B & A & D); [by constructor..|]. rewrite items_plug. destruct t as [|a c l x r].
  - by apply find_none.
  - destruct D as (E & Bl & _). cbn. rewrite <- (assoc_L (++)), (assoc_L (++)). cbn.
    apply find_app; [by apply Forall_app|done].
Qed.

Theorem TreeFindIndex1_spec R t0 T k v s :
  holds i R t0 T s -> sorted (items T) ->
  exists q, TreeFindIndex1 compare k i v s = Some (q, s) /\
    match q with
    | None => find_item k v (items T) = None
    | Some a => exists n, nodes s !! a = Some n /\ find_item k v (items T) = Some (n_content n, n_size n)
    end.
Proof.
  intros H S. exists (rootp (descend k v [] T).2). split; [by eapply TreeFindIndex1_run|].
  pose proof (descend_find k v T S) as F. pose proof (descend_plug k v [] T) as P.
  destruct (descend k v [] T) as [p t]. cbn [fst snd plug] in *. subst T.
  destruct t as [|a c l x r]; [done|]. cbn [rootp]. eexists.
  split; [exact (holds_node i R t0 p false a c x l r s H)|]. rewrite F. by destruct x.
Qed.

(** * Adding *)

Lemma add_search_run R t0 z p t s fuel side result :
  holds i R t0 (plug p t) s -> (length (addrs t) < fuel)%nat ->
  result <> 0 -> match p with f :: _ => side = f_dir f | [] => True end ->
  let '(p', t') := descend z 1 p t in
  exists side' result', add_search compare fuel z i (up p) (rootp t) side result s =
      Some ((result', rootp t', up p', side'), s) /\
    match t' with
    | Lf => result' <> 0 /\ match p' with f :: _ => side' = f_dir f | [] => True end
    | _ => result' = 0
    end.
Proof.
  revert p t side result. induction fuel as [|fuel IH]; intros p t side result H L N D; [lia|].
  destruct t as [|a c l x r]; [cbn; eauto|].
  cbn in L. rewrite length_app in L. cbn in L.
  assert (Q : add_search compare (S fuel) z i (up p) (rootp (Nd a c l x r)) side result s =
    (let result := compare i x.1 z 1 in
     let side := 0 <? result in
     if result =? 0 then mret (result, Some a, up p, side)
     else add_search compare fuel z i (Some a) (if side then rootp r else rootp l) side result) s).
  { cbn [add_search rootp]. by mstep (holds_deref _ _ _ _ _ _ _ _ _ H). }
  rewrite Q. cbn [descend]. cbv zeta. clear Q.
  destruct (Z.eqb_spec (compare i x.1 z 1) 0) as [E0|E0].
  { rewrite E0. eauto. }
  destruct (0 <? compare i x.1 z 1) eqn:G.
  - exact (IH (Fr true a c x l :: p) r true (compare i x.1 z 1) H ltac:(lia) E0 eq_refl).
  - exact (IH (Fr false a c x r :: p) l false (compare i x.1 z 1) H ltac:(lia) E0 eq_refl).
Qed.

(** Another subtree at the end of a path *)
Lemma holds_hole R R' t0 p t t' s s' :
  holds i R t0 (plug p t) s -> rep (nodes s') (up p) t' -> NoDup (addrs t' ++ paddrs p) ->
  (forall f r, p = f :: r -> nodes s' !! f_loc f =
     Some (mkn (f_dir f) (up r) (rootp t') (rootp (f_sib f)) (f_item f) (f_red f))) ->
  (forall a, a ∈ paddrs p -> Some a <> up p -> nodes s' !! a = nodes s !! a) ->
  (forall b, b ∉ addrs t' ++ paddrs p -> nodes s' !! b = R' !! b) ->
  (forall b, b ∈ addrs t' ++ paddrs p -> R' !! b = None) ->
  tree s' = put_root i (rootp (plug p t')) t0 ->
  holds i R' t0 (plug p t') s'.
Proof.
  intros H Hr N Hf Ho Hn Hi Ht. pose proof H as [Hx Hrep _ _ _ _].
  apply rep_plug in Hrep as [_ Hp]. split; [done| | | | |done].
  - apply rep_plug. split; [done|]. eapply repp_hole; [exact Hp| |done|done].
    by apply NoDup_app in N as (_ & _ & N).
  - by rewrite addrs_paddrs.
  - intros b. rewrite addrs_paddrs. apply Hn.
  - intros b. rewrite addrs_paddrs. apply Hi.
Qed.

(** The pointer to the subtree is set. *)
Lemma hang_run R t0 p t q s m side :
  holds i R t0 (plug p t) s ->
  match p with f :: _ => side = f_dir f /\ m !! f_loc f = nodes s !! f_loc f | [] => True end ->
  (match up p with Some _ => update (up p) (set_child side q) | None => set_root i q end)
    (Store m (tree s)) =
  Some (tt, Store (hung p q m)
              (put_root i (match p with [] => q | _ => rootp (plug p t) end) t0)).
Proof.
  intros H D. assert (E : tree s = put_root i (rootp (plug p t)) t0) by by destruct H.
  destruct p as [|f r]; cbn [up hung].
  - unfold set_root, upd_tree, modify. cbn. by rewrite E, put_root_twice.
  - destruct D as [-> D]. pose proof (holds_node i R t0 r _ _ _ _ _ _ s H) as Hf. rewrite Hf in D.
    rewrite (update_run (Store m (tree s)) _ _ _ D). by rewrite mkn_set_child, E.
Qed.

Lemma holds_fresh R t0 T s : holds i R t0 T s -> let a := fresh (dom (nodes s)) in
  a ∉ addrs T /\ R !! a = None /\ nodes s !! a = None.
Proof.
  intros H a. assert (Q : nodes s !! a = None) by apply not_elem_of_dom, is_fresh.
  assert (N : a ∉ addrs T).
  { destruct H. clear - h_rep0 Q. revert h_rep0. generalize (@None loc).
    induction T as [|b c l IHl x r IHr]; cbn; intros p Hr Ha; [by apply elem_of_nil in Ha|].
    destruct Hr as (E & Hl & Hr).
    apply elem_of_app in Ha as [Ha|[<- |Ha]%elem_of_cons]; [by eapply IHl|congruence|by eapply IHr]. }
  split_and!; [done| |done]. destruct H. by rewrite <- h_rest0.
Qed.

(** A red leaf in the place where the search ended *)
Lemma graft_run R t0 p s side B (k : loc -> C B) b (Q : store -> Prop) :
  holds i R t0 (plug p Lf) s -> match p with f :: _ => side = f_dir f | [] => True end ->
  (forall a s', holds i R t0 (plug p (Nd a true Lf (None, 0) Lf)) s' -> runs (k a) s' b Q) ->
  runs (newel ← malloc_node;
        (match up p with
         | Some _ => update (up p) (set_child side (Some newel))
         | None => set_root i (Some newel)
         end);;
        update (Some newel) (set_parent (up p));;
        update (Some newel) (set_red true);;
        k newel) s b Q.
Proof.
  intros H D K. destruct (holds_fresh _ _ _ _ H) as (Na & Ra & Sa).
  eapply runs_step; [done|]. set (a := fresh _) in *. set (n0 := MkNode None None None None 0 false).
  rewrite addrs_paddrs in Na. cbn in Na.
  assert (Hd : forall f r, p = f :: r -> a <> f_loc f).
  { intros f r -> ->. apply Na. by left. }
  eapply runs_step.
  { eapply (hang_run _ _ p Lf (Some a) s (<[a := n0]> (nodes s)) side); [done|].
    destruct p as [|f r]; [done|]. split; [done|]. by rewrite lookup_insert_ne by (by eapply Hd). }
  assert (E : hung p (Some a) (<[a := n0]> (nodes s)) !! a = Some n0).
  { destruct p as [|f r]; cbn; [by rewrite lookup_insert_eq|].
    rewrite lookup_insert_ne; [by rewrite lookup_insert_eq|]. by eapply not_eq_sym, Hd. }
  eapply runs_step; [by apply update_run|]. cbn [nodes tree].
  eapply runs_step; [apply update_run; cbn [nodes]; by rewrite lookup_insert_eq|]. cbn [nodes tree].
  apply K. clear K. rewrite insert_insert_eq.
  pose proof (holds_nodup _ _ _ _ _ _ H) as N. cbn in N.
  eapply holds_hole; [exact H|..]; cbn [nodes tree].
  - cbn. by rewrite lookup_insert_eq.
  - cbn. by constructor.
  - intros f r ->. rewrite lookup_insert_ne by (by eapply Hd). cbn. by rewrite lookup_insert_eq.
  - intros b' Hb Hu. rewrite lookup_insert_ne by (intros <-; done). destruct p as [|f r]; cbn.
    + by apply elem_of_nil in Hb.
    + rewrite !lookup_insert_ne; [done|intros <-; done|]. intros E'. apply Hu. cbn. by rewrite E'.
  - intros b' Hb. cbn in Hb. apply not_elem_of_cons in Hb as [Hb1 Hb2].
    rewrite lookup_insert_ne by done. transitivity (nodes s !! b').
    + destruct p as [|f r]; cbn; [by rewrite lookup_insert_ne|].
      rewrite !lookup_insert_ne; [done|done|]. intros <-. apply Hb2. by left.
    + destruct H. apply h_rest0. by rewrite addrs_paddrs.
  - intros b' [-> |Hb]%elem_of_cons; [done|]. destruct H. apply h_free0. by rewrite addrs_paddrs.
  - destruct p as [|f r]; [done|]. f_equal. apply rootp_plug_cons.
Qed.

(** The fields of the [Tree] structure other than the roots *)
Lemma holds_upd R t0 T s f :
  holds i R t0 T s -> (forall q t, f (put_root i q t) = put_root i q (f t)) ->
  runs (upd_tree f) s tt (holds i R (f t0) T).
Proof.
  intros H E. eexists. split; [done|]. destruct H. split; cbn; try done. by rewrite h_tree0, E.
Qed.
Lemma add_size_root n q t : add_size n (put_root i q t) = put_root i q (add_size n t).
Proof. unfold put_root. by case_match. Qed.
Lemma add_count_root n q t : add_count n (put_root i q t) = put_root i q (add_count n t).
Proof. unfold put_root. by case_match. Qed.

(** The counts after an item is put instead of [old] or as a new one *)
Definition counted (z : item) (old : option item) (t0 : Tree) : Tree :=
  if i =? 0
  then match old with
       | Some x => add_size (z.2 - x.2) t0
       | None => add_size z.2 (add_count 1 t0)
       end
  else t0.

Lemma red_black_fits p t : red_black (plug p t) -> exists n, rb n t /\ fits n (is_red t) p.
Proof. intros (_ & N & H). by eapply rb_unplug. Qed.

Lemma rb_graft p a x : red_black (plug p Lf) -> red_black (blacken (fix_add p (Nd a true Lf x Lf))).
Proof.
  intros (n & H & F)%red_black_fits. cbn in H. subst n. split; [apply is_red_blacken|].
  by apply (fix_add_rb 0).
Qed.

(** The search that [TreeAddByIndex] starts with *)
Abbreviation searched c T s p q side result :=
  (add_search compare (S (base.size (nodes s))) c i None (rootp T) false 1 s = Some ((result, q, up p, side), s)).

Lemma add_new_run R t0 p c z s side result :
  holds i R t0 (plug p Lf) s -> searched c (plug p Lf) s p None side result -> result <> 0 ->
  match p with f :: _ => side = f_dir f | [] => True end ->
  runs (TreeAddByIndex compare c z i) s None
    (fun s' => exists a, holds i R (counted (c, z) None t0) (blacken (fix_add p (Nd a true Lf (c, z) Lf))) s').
Proof.
  intros H A Nz Hs. unfold TreeAddByIndex. eapply runs_step; [by eapply holds_root|]. eapply runs_step; [done|].
  eapply runs_step; [exact A|]. cbn beta iota. rewrite (proj2 (Z.eqb_neq _ _) Nz).
  eapply graft_run; [exact H|done|]. intros a s1 H1.
  eapply (runs_bind _ _ _ _ _ (holds i R (counted (c, z) None t0) (plug p (Nd a true Lf (None, 0) Lf)))).
  { unfold counted, when. destruct (i =? 0); [|by apply runs_ret].
    eapply runs_bind; [by eapply holds_upd, add_count_root|]. intros s2 H2.
    by eapply holds_upd, add_size_root. }
  clear s1 H1. intros s1 H1. eapply runs_bind.
  { eapply (holds_update i R _ p false a true (None, 0) Lf Lf true (c, z)); [exact H1|].
    exact (mkn_set_item false (up p) None None (None, 0) true (c, z)). }
  clear s1 H1. intros s1 H1. eapply runs_bind.
  { eapply (TreeBalanceAfterAdd_run i R _ p (Nd a true Lf (c, z) Lf)); [exact H1|done]. }
  clear s1 H1. intros s1 H1. apply runs_ret. eauto.
Qed.

Lemma add_old_run R t0 p a ca l x r c z s side :
  let T := plug p (Nd a ca l x r) in
  holds i R t0 T s -> searched c T s p (Some a) side 0 -> allow_duplicates t0 = false ->
  runs (TreeAddByIndex compare c z i) s x.1
    (holds i R (counted (c, z) (Some x) t0) (blacken (fix_add p (Nd a ca l (c, z) r)))).
Proof.
  intros T H A Du. unfold TreeAddByIndex. eapply runs_step; [by eapply holds_root|]. eapply runs_step; [done|].
  eapply runs_step; [exact A|]. cbn beta iota. rewrite Z.eqb_refl.
  eapply (runs_step _ _ _ s false).
  { unfold gets. do 2 f_equal. destruct H as [? ? ? ? ? ->]. unfold put_root. by case_match. }
  eapply runs_step; [by eapply holds_deref|]. cbn [mkn n_size n_content].
  eapply (runs_bind _ _ _ _ _ (holds i R (counted (c, z) (Some x) t0) (plug p (Nd a ca l x r)))).
  { unfold counted, when. destruct (i =? 0); [|by apply runs_ret]. by eapply holds_upd, add_size_root. }
  clear A H. intros s1 H1. eapply runs_bind.
  { eapply (holds_update i R _ p false a ca x l r ca (c, z)); [exact H1|].
    exact (mkn_set_item false (up p) (rootp l) (rootp r) x ca (c, z)). }
  clear s1 H1. intros s1 H1. eapply runs_bind.
  { eapply (TreeBalanceAfterAdd_run i R _ p (Nd a ca l (c, z) r)); [exact H1|done]. }
  clear s1 H1. intros s1 H1. by apply runs_ret.
Qed.

(** The items after the addition *)
Lemma items_added p a ca l x r :
  items (blacken (fix_add p (Nd a ca l x r))) = (items_before p ++ items l) ++ x :: items r ++ items_after p.
Proof. rewrite items_blacken, fix_add_items, items_plug by done. cbn. by rewrite <- !(assoc_L (++)). Qed.

Theorem TreeAddByIndex_spec R t0 T c z s :
  holds i R t0 T s -> sorted (items T) -> allow_duplicates t0 = false ->
  exists s' T', TreeAddByIndex compare c z i s = Some (from_option fst None (find_item c 1 (items T)), s') /\
    holds i R (counted (c, z) (find_item c 1 (items T)) t0) T' s' /\
    items T' = put_item (c, z) (items T) /\ sorted (items T') /\
    (find_item c 1 (items T) = None -> red_black T -> red_black T').
Proof.
  intros H S Du. pose proof (descend_find c 1 T S) as F. pose proof (descend_plug c 1 [] T) as P.
  pose proof (descend_split c 1 [] T S) as D.
  assert (L : (length (addrs T) < Datatypes.S (base.size (nodes s)))%nat).
  { pose proof (holds_length _ _ _ _ _ H). lia. }
  pose proof (add_search_run R t0 c [] T s _ false 1 H L ltac:(lia) I) as A. cbn [up] in A.
  destruct (descend c 1 [] T) as [p t]. cbn [fst snd plug] in *. subst T.
  destruct D as (B & Af & D); [by constructor..|]. destruct A as (side & result & A & A').
  destruct t as [|a ca l x r]; rewrite F; cbn [from_option].
  - destruct A' as (Nz & Hs).
    destruct (add_new_run R t0 p c z s side result H A Nz Hs) as (s' & E & a & H').
    rewrite items_plug in S |- *. cbn [items app] in S |- *. eexists _, _.
    split_and!; [exact E|exact H'|..|intros _; apply rb_graft]; rewrite items_added; cbn; rewrite app_nil_r.
    + by rewrite put_new.
    + by apply sorted_insert.
  - subst result. destruct D as (E0 & Bl & Ar).
    destruct (add_old_run R t0 p a ca l x r c z s side H A Du) as (s' & E & H').
    assert (I : items (plug p (Nd a ca l x r)) = (items_before p ++ items l) ++ x :: items r ++ items_after p).
    { rewrite items_plug. cbn. by rewrite <- !(assoc_L (++)). }
    rewrite I in S |- *. eexists _, _.
    split_and!; [exact E|exact H'|..|done]; rewrite items_added.
    + symmetry. apply put_old; [by apply Forall_app|done].
    + apply sorted_insert; [by eapply sorted_remove|by apply Forall_app|by apply Forall_app].
Qed.

(** * Successors *)

(** The first node of a subtree *)
Fixpoint first (p : list frame) (t : tr) : list frame * tr :=
  match t with
  | Nd a c l x r => match l with Lf => (p, t) | _ => first (Fr false a c x r :: p) l end
  | Lf => (p, t)
  end.

Lemma first_plug p t : plug (first p t).1 (first p t).2 = plug p t.
Proof.
  revert p. induction t as [|a c l IHl x r _]; intros p; [done|]. cbn [first].
  destruct l as [|b cb ll y lr]; [done|]. by rewrite IHl.
Qed.
Lemma first_no_left p t : t <> Lf -> exists b c y r, (first p t).2 = Nd b c Lf y r.
Proof.
  revert p. induction t as [|a c l IHl x r _]; intros p N; [done|]. cbn [first].
  destruct l as [|b cb ll y lr]; [by exists a, c, x, r|]. by apply IHl.
Qed.
(** The path to the first node goes left below [p]. *)
Lemma first_below p t :
  exists q, (first p t).1 = q ++ p /\ t = plug q (first p t).2 /\ items_before q = [].
Proof.
  revert p. induction t as [|a c l IHl x r _]; intros p; [by exists []|]. cbn [first].
  destruct l as [|b cb ll y lr]; [by exists []|].
  destruct (IHl (Fr false a c x r :: p)) as (q & -> & E1 & E2).
  exists (q ++ [Fr false a c x r]). rewrite <- (assoc_L (++)). split_and!; [done|by rewrite plug_app, <- E1|].
  clear - E2. induction q as [|f q IH]; [done|]. cbn in *.
  apply app_eq_nil in E2 as [E2 ->]. by rewrite (IH E2).
Qed.

Lemma minimum_run R t0 p t s fuel :
  holds i R t0 (plug p t) s -> t <> Lf -> (length (addrs t) < fuel)%nat ->
  minimum_loop fuel (rootp t) s = Some (rootp (first p t).2, s).
Proof.
  revert p t. induction fuel as [|fuel IH]; intros p t H N L; [lia|].
  destruct t as [|a c l x r]; [done|]. cbn [minimum_loop rootp].
  mstep (holds_child i R t0 p false a c x l r s H). cbn in L. rewrite length_app in L. cbn in L.
  destruct l as [|b cb ll y lr]; [done|]. cbn [rootp].
  apply (IH (Fr false a c x r :: p) (Nd b cb ll y lr)); [exact H|done|lia].
Qed.

Lemma TreeMinimum_run R t0 p t s :
  holds i R t0 (plug p t) s -> TreeMinimum (rootp t) s = Some (rootp (first p t).2, s).
Proof.
  intros H. destruct t as [|a c l x r] eqn:E; [done|]. rewrite <- E in *. unfold TreeMinimum.
  replace (rootp t) with (Some a) by by subst. rewrite (bind_step path_fuel _ s _ s eq_refl).
  replace (Some a) with (rootp t) by by subst.
  eapply minimum_run; [done|by subst|]. pose proof (holds_path _ _ _ _ _ _ H). lia.
Qed.

Lemma first_head p t : addrs t <> [] -> head (addrs t) = rootp (first p t).2.
Proof.
  revert p. induction t as [|a c l IHl x r _]; intros p N; [done|]. cbn [first].
  destruct l as [|b cb ll y lr]; [done|]. rewrite <- (IHl (Fr false a c x r :: p)); [|cbn; by destruct (addrs ll)].
  cbn. by destruct (addrs ll).
Qed.

Lemma climb_run R t0 p t s fuel :
  holds i R t0 (plug p t) s -> t <> Lf -> (length p < fuel)%nat ->
  climb_loop fuel (rootp t) (up p) s = Some (head (addrs_after p), s).
Proof.
  revert p t. induction fuel as [|fuel IH]; intros p t H N L; [lia|].
  destruct p as [|[d f c x u] p]; [done|]. cbn [climb_loop up f_loc].
  pose proof (holds_node i R t0 p d f c x t u s H) as Hf. mstep (deref_run _ _ _ Hf).
  pose proof (holds_sides i R t0 p d f c x t u s H N) as D. cbn [after f_dir f_loc f_sib].
  destruct d; cbn [mkn n_right n_parent].
  - rewrite bool_decide_true by done. cbn in L. cbn [app].
    replace (Some f) with (rootp (nd true f c x t u)) by apply rootp_nd.
    apply (IH p (nd true f c x t u)); [exact H|apply nd_not_Lf|lia].
  - by rewrite bool_decide_false.
Qed.

(** The node that holds an address *)
Lemma split_addr T a : a ∈ addrs T -> exists p c l x r, T = plug p (Nd a c l x r).
Proof.
  enough (G : forall t p, a ∈ addrs t -> exists q c l x r, plug p t = plug q (Nd a c l x r)) by apply (G T []).
  intros t. induction t as [|b cb l IHl x r IHr]; intros p Ha; cbn in Ha; [by apply elem_of_nil in Ha|].
  apply elem_of_app in Ha as [Ha|[-> |Ha]%elem_of_cons].
  - destruct (IHl (Fr false b cb x r :: p) Ha) as (q & c & l' & y & r' & E). by exists q, c, l', y, r'.
  - by exists p, cb, l, x, r.
  - destruct (IHr (Fr true b cb x l :: p) Ha) as (q & c & l' & y & r' & E). by exists q, c, l', y, r'.
Qed.

Lemma TreeSuccessor_run R t0 p a c l x r s :
  holds i R t0 (plug p (Nd a c l x r)) s ->
  TreeSuccessor (Some a) s = Some (head (addrs r ++ addrs_after p), s).
Proof.
  intros H. unfold TreeSuccessor. mstep (holds_deref _ _ _ _ _ _ _ _ _ H). cbn [mkn n_right n_parent].
  destruct r as [|b cb rl y rr] eqn:E; cbn [rootp].
  - rewrite (bind_step path_fuel _ s _ s eq_refl). cbn [addrs app].
    apply (climb_run R t0 p (Nd a c l x Lf)); [exact H|done|].
    pose proof (holds_path _ _ _ _ _ _ H). lia.
  - rewrite <- E in *. replace (Some b) with (rootp r) by by subst.
    rewrite (TreeMinimum_run R t0 (Fr true a c x l :: p) r s H), <- first_head.
    + subst r. cbn. by destruct (addrs rl).
    + subst r. cbn. by destruct (addrs rl).
Qed.

Lemma NoDup_middle (l1 l2 k1 k2 : list loc) a :
  NoDup (l1 ++ a :: l2) -> l1 ++ a :: l2 = k1 ++ a :: k2 -> l2 = k2.
Proof.
  revert k1. induction l1 as [|b l1 IH]; intros [|c k1]; cbn; intros N E;
    apply NoDup_cons in N as [N1 N2]; simplify_eq; try done.
  - exfalso. apply N1. set_solver.
  - exfalso. apply N1. set_solver.
  - by eapply IH.
Qed.

(** [TreeNextElement] goes through the nodes in order. *)
Theorem TreeNextElementIndex_spec R t0 T s l1 l2 :
  holds i R t0 T s -> addrs T = l1 ++ l2 ->
  TreeNextElementIndex (last l1) i s = Some (head l2, s).
Proof.
  intros H E. destruct (last l1) as [a|] eqn:La.
  - apply last_Some in La as [l1' ->]. cbn [TreeNextElementIndex].
    assert (Ha : a ∈ addrs T) by (rewrite E; set_solver).
    apply split_addr in Ha as (p & c & l & x & r & ->).
    rewrite (TreeSuccessor_run _ _ _ _ _ _ _ _ _ H). do 3 f_equal.
    assert (N : NoDup (addrs (plug p (Nd a c l x r)))) by by destruct H.
    rewrite addrs_plug in E, N. cbn in E, N. rewrite <- !(assoc_L (++)) in E, N. cbn in E, N.
    rewrite (assoc_L (++)) in E, N. f_equal. eapply (NoDup_middle _ _ l1'); [exact N|].
    rewrite E. by rewrite <- (assoc_L (++)).
  - apply last_None in La as ->. cbn [TreeNextElementIndex app] in *. subst l2.
    mstep (holds_root _ _ _ _ _ H). rewrite (TreeMinimum_run R t0 [] T s H).
    destruct T as [|a c l x r] eqn:ET; [done|]. rewrite <- first_head; [done|]. cbn. by destruct (addrs l).
Qed.

(** * Nodes outside the tree *)

Lemma holds_out R t0 T s a (n : option Node) R' s' :
  holds i R t0 T s -> a ∉ addrs T -> tree s' = tree s ->
  nodes s' = partial_alter (fun _ => n) a (nodes s) -> R' = partial_alter (fun _ => n) a R ->
  holds i R' t0 T s'.
Proof.
  intros [] Ha Et En ->. assert (F : forall b, b ∈ addrs T -> nodes s' !! b = nodes s !! b).
  { intros b Hb. rewrite En. apply lookup_partial_alter_ne. by intros ->. }
  split; [done|by eapply rep_frame|done| | |congruence].
  - intros b Hb. rewrite En. destruct (decide (a = b)) as [->|].
    + by rewrite !lookup_partial_alter_eq.
    + rewrite !lookup_partial_alter_ne by done. by apply h_rest0.
  - intros b Hb. rewrite lookup_partial_alter_ne; [by apply h_free0|]. by intros ->.
Qed.

Lemma holds_not_in R t0 T s a n : holds i R t0 T s -> R !! a = Some n -> a ∉ addrs T.
Proof. intros [] E Ha. apply h_free0 in Ha. congruence. Qed.

Lemma holds_free R t0 T s a n : holds i R t0 T s -> R !! a = Some n ->
  runs (free_node (Some a)) s tt (holds i (delete a R) t0 T).
Proof.
  intros H E. pose proof (holds_outside _ _ _ _ _ _ _ H E) as Es. eexists. split.
  - unfold free_node. cbn. rewrite Es. reflexivity.
  - eapply holds_out; [exact H|by eapply holds_not_in|..]; done.
Qed.

(** The node [temp] on the stack *)
Lemma temp_run {A} R t0 T s q (k : loc -> C A) b (Q : store -> Prop) :
  holds i R t0 T s ->
  (forall a s', R !! a = None -> holds i (<[a := MkNode q None None None 0 false]> R) t0 T s' ->
     runs (k a) s' b Q) ->
  runs (temp ← malloc_node; update (Some temp) (set_parent q);; k temp) s b Q.
Proof.
  intros H K. destruct (holds_fresh _ _ _ _ H) as (Na & Ra & Sa). eapply runs_step; [done|].
  eapply runs_step; [apply update_run; cbn [nodes]; by rewrite lookup_insert_eq|].
  apply K; [done|]. eapply holds_out; [exact H|exact Na|done| |done].
  cbn [nodes]. by rewrite insert_insert_eq.
Qed.

(** * Removing *)

(** A store in which a node with one child at most is left out of the links *)
Lemma holds_unlinked R t0 q d b cb y ch s s' :
  holds i R t0 (plug q (nd d b cb y ch Lf)) s -> rep (nodes s') (up q) ch ->
  (forall f r, q = f :: r -> nodes s' !! f_loc f =
     Some (mkn (f_dir f) (up r) (rootp ch) (rootp (f_sib f)) (f_item f) (f_red f))) ->
  (forall c, c ∉ addrs ch -> Some c <> up q -> nodes s' !! c = nodes s !! c) ->
  tree s' = put_root i (match q with [] => rootp ch | _ => rootp (plug q (nd d b cb y ch Lf)) end) t0 ->
  holds i (<[b := mkn d (up q) (rootp ch) None y cb]> R) t0 (plug q ch) s'.
Proof.
  intros H Hc Hf Ho Ht. pose proof (holds_nodup _ _ _ _ _ _ H) as N. rewrite addrs_nd in N. cbn in N.
  rewrite app_nil_r in N. apply NoDup_cons in N as [Nb N].
  pose proof (holds_node _ _ _ _ _ _ _ _ _ _ _ H) as Hb. pose proof H as [_ _ _ Hrest Hfree _].
  assert (In : forall c, c ∈ addrs (plug q (nd d b cb y ch Lf)) <-> c = b \/ c ∈ addrs ch ++ paddrs q).
  { intros c. rewrite addrs_paddrs, addrs_nd. cbn. rewrite app_nil_r. set_solver. }
  eapply holds_hole; [exact H|done|done|done| | | |].
  - intros c Hc' Hu. apply Ho; [|done]. intros Hc2. apply NoDup_app in N as (_ & N & _). by apply (N c).
  - intros c Hc'. rewrite not_elem_of_app in Hc'. destruct Hc' as [Hc1 Hc2].
    rewrite Ho by (done || by apply up_not_in).
    destruct (decide (c = b)) as [->|]; [by rewrite lookup_insert_eq|].
    rewrite lookup_insert_ne by done. apply Hrest. rewrite In, elem_of_app. tauto.
  - intros c Hc'. rewrite lookup_insert_ne by (intros <-; done). apply Hfree, In. by right.
  - rewrite Ht. f_equal. destruct q as [|f r]; [done|]. apply rootp_plug_cons.
Qed.

(** Taking out a node with one child at most *)
Lemma unlink_run R t0 q d b cb y ch s :
  holds i R t0 (plug q (nd d b cb y ch Lf)) s ->
  runs ((match rootp ch with Some _ => update (rootp ch) (set_parent (up q)) | None => mret tt end);;
        (match up q with
         | None => set_root i (rootp ch)
         | Some _ =>
             l ← child_of LEFT (up q);
             update (up q) (set_child (if bool_decide (Some b = l) then LEFT else RIGHT) (rootp ch))
         end)) s tt
    (holds i (<[b := mkn d (up q) (rootp ch) None y cb]> R) t0 (plug q ch)).
Proof.
  intros H. pose proof (holds_nodup _ _ _ _ _ _ H) as N. rewrite addrs_nd in N. cbn in N.
  rewrite app_nil_r in N. apply NoDup_cons in N as [_ N].
  pose proof (holds_rep _ _ _ _ _ _ H) as Hr. apply rep_nd in Hr as (_ & Hc & _).
  apply NoDup_app in N as (Nc & Nd' & _). destruct s as [m tt0]. cbn [nodes tree] in *.
  eapply runs_bind; [by eapply (reparent_run m tt0)|]. intros [m1 t1]; cbn [nodes tree].
  intros (-> & Hc1 & F).
  assert (Hd : forall f r, q = f :: r -> m1 !! f_loc f = m !! f_loc f /\
     m !! f_loc f = Some (mkn (f_dir f) (up r) (Some b) (rootp (f_sib f)) (f_item f) (f_red f)) /\
     Some b <> rootp (f_sib f)).
  { intros f r ->. split; [apply F; intros Hf; apply (Nd' _ Hf); by left|].
    pose proof (holds_node i R t0 r _ _ _ _ _ _ _ H) as Hf. rewrite rootp_nd in Hf. split; [exact Hf|].
    pose proof (holds_sides i R t0 r _ _ _ _ _ _ _ H) as D. rewrite rootp_nd in D. by apply D, nd_not_Lf. }
  eexists. split.
  - destruct q as [|f r]; [exact (hang_run R t0 [] _ (rootp ch) _ m1 LEFT H I)|].
    destruct (Hd f r eq_refl) as (Em & E & D). cbn [up].
    rewrite (bind_step _ _ _ _ _ (child_of_run LEFT (Store m1 tt0) _ _ (eq_trans Em E))).
    replace (if bool_decide _ then LEFT else RIGHT) with (f_dir f).
    + by eapply (hang_run R t0 (f :: r) _ (rootp ch) _ m1 (f_dir f) H).
    + destruct (f_dir f); cbn; [by rewrite bool_decide_false|by rewrite bool_decide_true].
  - eapply holds_unlinked; [exact H|..|done]; cbn [nodes].
    + eapply rep_frame; [exact Hc1|]. intros c Hc'. apply hung_ne, up_not_in. by apply Nd'.
    + intros f r E. by apply hung_head.
    + intros c Hc' Hu. rewrite hung_ne by done. by apply F.
Qed.

Abbreviation contents_set := (Forall (fun x : item => x.1 <> None)).

(** The tree after the node of colour [cb] with the only child [ch] is taken out *)
Definition unlinked (cb : bool) (q : list frame) (ch : tr) : tr :=
  if cb then plug q ch else fix_rem q ch.

Lemma rebalance_run R t0 q b nb ch s :
  holds i R t0 (plug q ch) s -> R !! b = Some nb -> contents_set (items (plug q ch)) ->
  (n_red nb = false -> q <> [] -> rem_ok q ch) ->
  runs (black ← isBlack (Some b);
        when black
          (match rootp ch with
           | None =>
               match up q with
               | None => mret tt
               | Some _ =>
                   temp ← malloc_node;
                   update (Some temp) (set_parent (up q));;
                   TreeBalanceAfterRemove (Some temp) i;;
                   free_node (Some temp)
               end
           | Some _ => TreeBalanceAfterRemove (rootp ch) i
           end)) s tt (holds i R t0 (unlinked (n_red nb) q ch)).
Proof.
  intros H Hb F O. pose proof (holds_outside _ _ _ _ _ _ _ H Hb) as Eb.
  eapply (runs_step _ _ _ s (negb (n_red nb))).
  { cbn [isBlack]. by mstep (deref_run _ _ _ Eb). }
  unfold unlinked. destruct (n_red nb); cbn [negb when]; [by apply runs_ret|].
  destruct ch as [|a c l x r] eqn:Ech; cbn [rootp].
  - destruct q as [|f r]; cbn [up]; [by apply runs_ret|].
    eapply temp_run; [exact H|]. intros a s1 Ha H1. eapply runs_bind.
    { eapply TreeBalanceAfterRemove_run; [exact H1| |done|by apply O].
      exists a. eexists. by rewrite lookup_insert_eq. }
    clear s1 H1. intros s1 H1. eapply runs_weaken; [eapply holds_free; [exact H1|by rewrite lookup_insert_eq]|].
    intros s2. by rewrite delete_insert_id.
  - rewrite <- Ech in *. replace (Some a) with (rootp ch) by by subst.
    eapply TreeBalanceAfterRemove_run; [exact H|by subst|done|]. intros E. by subst.
Qed.

(** The counts after a removal *)
Definition discounted (x : item) (t0 : Tree) : Tree :=
  if i =? 0 then add_count (-1) (add_size (- x.2) t0) else t0.

Lemma finish_run R t0 T b nb x (c : ptr) s :
  holds i (<[b := nb]> R) t0 T s -> R !! b = None ->
  runs (free_node (Some b);;
        when (i =? 0) (upd_tree (add_size (- x.2));; upd_tree (add_count (-1)));;
        mret c) s c (holds i R (discounted x t0) T).
Proof.
  intros H E. eapply runs_bind; [eapply holds_free; [exact H|by rewrite lookup_insert_eq]|].
  clear s H. intros s H. rewrite delete_insert_id in H by done.
  eapply (runs_bind _ _ _ _ _ (holds i R (discounted x t0) T)).
  - unfold discounted, when. destruct (i =? 0); [|by apply runs_ret].
    eapply runs_bind; [by eapply holds_upd, add_size_root|]. intros s1 H1.
    by eapply holds_upd, add_count_root.
  - intros s1 H1. by apply runs_ret.
Qed.

(** The invariant when a node with one child at most is taken out *)
Lemma unlinked_rb q d b cb y ch :
  red_black (plug q (nd d b cb y ch Lf)) ->
  red_black (unlinked cb q ch) /\ (cb = false -> q <> [] -> rem_ok q ch).
Proof.
  intros H. pose proof (red_black_fits _ _ H) as (n & Hn & F). rewrite is_red_nd in F.
  assert (Tb : top_black q).
  { destruct q as [|f r]; [by left|]. right. destruct H as [H _]. rewrite <- H. apply is_red_plug_cons. }
  unfold unlinked. destruct cb.
  - apply rb_red in Hn as (C1 & _ & Hc & Hl). cbn in Hl. subst n. split; [|done].
    split; [by apply top_black_plug|]. eapply rb_plug; [exact Hc|]. rewrite C1. by eapply fits_black.
  - destruct n as [|n]; [by apply rb_black_0 in Hn|]. apply rb_black in Hn as (Hc & Hl). cbn in Hl. subst n.
    split; [split; [by apply fix_rem_black|by eapply fix_rem_rb]|].
    intros _ Hq Hl. destruct q as [|f r]; [done|]. cbn in F. destruct F as (Hs & _).
    intros E. by rewrite E in Hs.
Qed.

Lemma unlinked_items cb q ch : items (unlinked cb q ch) = items (plug q ch).
Proof. unfold unlinked. destruct cb; [done|]. apply fix_rem_items. Qed.

Lemma runs_assoc {A B D} (m : C A) (f : A -> C B) (g : B -> C D) s b (Q : store -> Prop) :
  runs ((m ≫= f) ≫= g) s b Q -> runs (m ≫= (fun a => f a ≫= g)) s b Q.
Proof. unfold runs. by rewrite bind_assoc. Qed.

(** [TreeRemoveNodeIndex] once the node to take out is known; [mid] moves its item. *)
Lemma remove_tail R t0 q q' d b cb y ch s (mid : C unit) (x : item) :
  holds i R t0 (plug q (nd d b cb y ch Lf)) s ->
  (forall R' s', holds i R' t0 (plug q ch) s' -> runs mid s' tt (holds i R' t0 (plug q' ch))) ->
  up q' = up q -> contents_set (items (plug q' ch)) ->
  (cb = false -> q' <> [] -> rem_ok q' ch) ->
  runs ((match rootp ch with Some _ => update (rootp ch) (set_parent (up q)) | None => mret tt end);;
        (match up q with
         | None => set_root i (rootp ch)
         | Some _ =>
             l ← child_of LEFT (up q);
             update (up q) (set_child (if bool_decide (Some b = l) then LEFT else RIGHT) (rootp ch))
         end);;
        mid;;
        black ← isBlack (Some b);
        when black
          (match rootp ch with
           | None =>
               match up q with
               | None => mret tt
               | Some _ =>
                   temp ← malloc_node;
                   update (Some temp) (set_parent (up q));;
                   TreeBalanceAfterRemove (Some temp) i;;
                   free_node (Some temp)
               end
           | Some _ => TreeBalanceAfterRemove (rootp ch) i
           end);;
        free_node (Some b);;
        when (i =? 0) (upd_tree (add_size (- x.2));; upd_tree (add_count (-1)));;
        mret x.1) s x.1 (holds i R (discounted x t0) (unlinked cb q' ch)).
Proof.
  intros H Hm Up F O. assert (Rb : R !! b = None).
  { destruct H. apply h_free0. rewrite addrs_paddrs, addrs_nd. by left. }
  apply runs_assoc. eapply runs_bind; [by eapply unlink_run|]. clear s H. intros s H.
  eapply runs_bind; [by apply Hm|]. clear s H. intros s H. rewrite <- Up in *.
  apply runs_assoc. eapply runs_bind.
  { eapply rebalance_run; [exact H|by rewrite lookup_insert_eq|done|]. by rewrite mkn_red. }
  clear s H. intros s H. rewrite mkn_red in H. by eapply finish_run.
Qed.

Ltac forall_parts :=
  repeat match goal with
  | H : Forall _ (_ ++ _) |- _ => apply Forall_app in H as [? ?]
  | H : Forall _ (_ :: _) |- _ => apply Forall_cons in H as [? ?]
  | |- Forall _ (_ ++ _) => apply Forall_app; split
  | |- Forall _ (_ :: _) => apply Forall_cons; split
  end; try done.

Lemma remove_one R t0 p a c l x r s :
  holds i R t0 (plug p (Nd a c l x r)) s -> l = Lf \/ r = Lf ->
  red_black (plug p (Nd a c l x r)) -> contents_set (items (plug p (Nd a c l x r))) ->
  runs (TreeRemoveNodeIndex (Some a) i) s x.1
    (holds i R (discounted x t0) (unlinked c p (match l with Lf => r | _ => l end))).
Proof.
  intros H E RB F. set (ch := match l with Lf => r | _ => l end).
  assert (exists d, Nd a c l x r = nd d a c x ch Lf) as [d Ed].
  { subst ch. destruct l as [|b cb ll y lr]; [by exists true|]. destruct E as [| ->]; [done|]. by exists false. }
  unfold TreeRemoveNodeIndex. eapply runs_step; [by eapply holds_deref|].
  eapply (runs_step _ _ _ s (Some a)).
  { cbn [mkn n_left n_right]. destruct E as [-> | ->]; [done|]. by destruct (rootp l). }
  eapply runs_step; [by eapply holds_deref|]. cbn [mkn n_left n_right n_parent n_content n_size].
  replace (match rootp l with Some _ => rootp l | None => rootp r end) with (rootp ch) by by destruct l.
  rewrite bool_decide_true by done. rewrite Ed in H, RB, F.
  pose proof (unlinked_rb _ _ _ _ _ _ RB) as [_ O].
  apply (remove_tail R t0 p p d a c x ch s (mret tt) x H); [|done| |done].
  - intros R' s' H'. by apply runs_ret.
  - rewrite items_plug in F |- *. rewrite items_nd in F. destruct d; cbn in F; forall_parts.
Qed.

(** The item of a node on the path does not matter. *)
Lemma fits_item n c q d a ca x y u p :
  fits n c (q ++ Fr d a ca x u :: p) -> fits n c (q ++ Fr d a ca y u :: p).
Proof. revert n c. induction q as [|f q IH]; intros n c; cbn; [done|]. intros (? & ? & ?). auto. Qed.

Lemma red_black_item q d a ca x y u p t :
  red_black (plug (q ++ Fr d a ca x u :: p) t) -> red_black (plug (q ++ Fr d a ca y u :: p) t).
Proof.
  intros H. pose proof (red_black_fits _ _ H) as (n & Hn & F). destruct H as [Hc _]. split.
  - rewrite plug_app in Hc |- *. rewrite <- Hc. cbn. apply is_red_plug. unfold plug1. by rewrite !is_red_nd.
  - eapply rb_plug; [exact Hn|by eapply fits_item].
Qed.

Lemma up_item q d a ca x y u p : up (q ++ Fr d a ca x u :: p) = up (q ++ Fr d a ca y u :: p).
Proof. by destruct q. Qed.

Lemma remove_two R t0 p a c l x q b cb y rr s :
  let p1 := q ++ Fr true a c x l :: p in
  let p2 := q ++ Fr true a c y l :: p in
  holds i R t0 (plug p1 (Nd b cb Lf y rr)) s -> l <> Lf ->
  (forall r, plug q (Nd b cb Lf y rr) = r -> rootp (first (Fr true a c x l :: p) r).2 = Some b) ->
  red_black (plug p1 (Nd b cb Lf y rr)) -> contents_set (items (plug p1 (Nd b cb Lf y rr))) ->
  runs (TreeRemoveNodeIndex (Some a) i) s x.1
    (holds i R (discounted x t0) (unlinked cb p2 rr)).
Proof.
  intros p1 p2 H Nl Hf RB F. set (r := plug q (Nd b cb Lf y rr)) in *.
  assert (Ep : forall t z, plug (q ++ Fr true a c z l :: p) t = plug p (Nd a c l z (plug q t))).
  { intros t z. by rewrite plug_app. }
  assert (Ha : holds i R t0 (plug p (Nd a c l x r)) s) by (unfold r; by rewrite <- Ep).
  assert (Nr : r <> Lf) by by apply plug_not_Lf.
  unfold TreeRemoveNodeIndex. eapply runs_step; [by eapply holds_deref|].
  eapply (runs_step _ _ _ s (Some b)).
  { cbn [mkn n_left n_right]. destruct l as [|a1 c1 l1 x1 r1] eqn:El; [done|]. cbn [rootp].
    destruct (rootp r) as [a2|] eqn:Er; [|by destruct r]. unfold TreeSuccessor.
    mstep (holds_deref _ _ _ _ _ _ _ _ _ Ha). cbn [mkn n_right]. rewrite Er, <- Er.
    rewrite (TreeMinimum_run R t0 (Fr true a c x (Nd a1 c1 l1 x1 r1) :: p) r s Ha). by rewrite Hf. }
  eapply runs_step; [by apply (holds_deref R t0 p1)|]. cbn [mkn n_left n_right n_parent n_content n_size].
  change (Nd b cb Lf y rr) with (nd false b cb y Lf rr) in H, RB, F.
  assert (Es : nd false b cb y Lf rr = nd true b cb y rr Lf) by done. rewrite Es in H, RB, F.
  cbn [rootp]. rewrite bool_decide_false.
  2: { intros [= ->]. pose proof (holds_nodup _ _ _ _ _ _ H) as N. cbn in N.
       apply NoDup_cons in N as [N _]. apply N. apply elem_of_app. right. unfold p1. clear.
       induction q as [|f q IH]; [by left|]. cbn. right. apply elem_of_app. by right. }
  apply (red_black_item q true a c x y) in RB as RB2. fold p2 in RB2.
  pose proof (unlinked_rb _ _ _ _ _ _ RB2) as [_ O].
  apply (remove_tail R t0 p1 p2 true b cb y rr s (update (Some a) (set_item y.1 y.2)) x H);
    [|by apply up_item| |done].
  - intros R' s' H'. unfold p1 in H'. rewrite Ep in H'. unfold p2. rewrite Ep.
    eapply (holds_update i R' t0 p false a c x l (plug q rr) c y); [exact H'|].
    exact (mkn_set_item false _ _ _ x c y).
  - unfold p1, p2 in *. rewrite Ep, items_plug in F. rewrite Ep, items_plug. cbn [items] in F |- *.
    rewrite items_plug in F |- *. cbn in F |- *. forall_parts.
Qed.

Theorem TreeRemoveNodeIndex_spec R t0 p a c l x r s :
  holds i R t0 (plug p (Nd a c l x r)) s -> red_black (plug p (Nd a c l x r)) ->
  contents_set (items (plug p (Nd a c l x r))) ->
  exists T', runs (TreeRemoveNodeIndex (Some a) i) s x.1 (holds i R (discounted x t0) T') /\
    items T' = items_before p ++ items l ++ items r ++ items_after p /\ red_black T'.
Proof.
  intros H RB F. assert ((l = Lf \/ r = Lf) \/ (l <> Lf /\ r <> Lf)) as [E|[Nl Nr]] by (destruct l, r; naive_solver).
  - eexists. split; [by eapply remove_one|]. rewrite unlinked_items, items_plug.
    assert (exists d, Nd a c l x r = nd d a c x (match l with Lf => r | _ => l end) Lf) as [d Ed].
    { destruct l; [by exists true|]. destruct E as [|E]; [done|]. subst r. by exists false. }
    split; [|rewrite Ed in RB; by apply unlinked_rb in RB as [? _]].
    destruct l; [done|]. destruct E as [|E]; [done|]. by subst r.
  - destruct (first_below (Fr true a c x l :: p) r) as (q & Eq & Er & Iq).
    destruct (first_no_left (Fr true a c x l :: p) r Nr) as (b & cb & y & rr & Eb).
    rewrite Eb in Er.
    assert (Ep : plug p (Nd a c l x r) = plug (q ++ Fr true a c x l :: p) (Nd b cb Lf y rr)).
    { rewrite plug_app. by rewrite <- Er. }
    assert (Ir : items r = y :: items rr ++ items_after q) by by rewrite Er, items_plug, Iq.
    rewrite Ep in H, RB, F. eexists. split; [|split].
    + eapply (remove_two R t0 p a c l x q b cb y rr); try done. intros r' Hr.
      rewrite <- Er in Hr. subst r'. by rewrite Eb.
    + rewrite unlinked_items, plug_app. cbn [plug]. rewrite items_plug, Ir. cbn.
      rewrite items_plug, Iq. cbn. rewrite <- !(assoc_L (++)). cbn. by rewrite <- (assoc_L (++)).
    + eapply (red_black_item q true a c x y) in RB.
      by apply (unlinked_rb (q ++ Fr true a c y l :: p) true b cb y rr) in RB as [? _].
Qed.

(** The search and the removal of what it finds *)
Lemma remove_found_run R t0 T k v s :
  holds i R t0 T s -> sorted (items T) -> red_black T -> contents_set (items T) ->
  exists T', runs (curnode ← TreeFindIndex1 compare k i v;
                   match curnode with None => mret None | Some _ => TreeRemoveNodeIndex curnode i end)
      s (from_option fst None (find_item k v (items T)))
      (holds i R (from_option (fun x => discounted x t0) t0 (find_item k v (items T))) T') /\
    items T' = (match find_item k v (items T) with Some _ => drop_item k v (items T) | None => items T end) /\
    red_black T'.
Proof.
  intros H S RB F. pose proof (descend_find k v T S) as Fi. pose proof (descend_plug k v [] T) as P.
  pose proof (descend_split k v [] T S) as D. pose proof (TreeFindIndex1_run R t0 T k v s H) as E.
  destruct (descend k v [] T) as [p t]. cbn [fst snd plug] in *. subst T.
  destruct D as (B & A & D); [by constructor..|]. destruct t as [|a c l x r]; rewrite Fi; cbn [from_option].
  - eexists. split; [eapply runs_step; [exact E|by apply runs_ret]|done].
  - destruct (TreeRemoveNodeIndex_spec R t0 p a c l x r s H RB F) as (T' & Hr & I & RB').
    exists T'. split; [eapply runs_step; [exact E|exact Hr]|]. split; [|done].
    rewrite I, items_plug. cbn. destruct D as (E0 & Bl & _).
    replace (items_before p ++ (items l ++ x :: items r) ++ items_after p)
      with ((items_before p ++ items l) ++ x :: items r ++ items_after p) by by rewrite <- !(assoc_L (++)).
    rewrite drop_app; [by rewrite <- (assoc_L (++))|by apply Forall_app|done].
Qed.

Lemma sorted_drop k v L : sorted L -> sorted (drop_item k v L).
Proof.
  induction L as [|x L IH]; cbn; [done|]. intros (H1 & H2)%sorted_cons. case_match; [done|].
  apply sorted_cons. split; [by apply IH|]. intros y Hy. apply H2. clear - Hy.
  revert Hy. induction L as [|z L IH]; cbn; [done|]. case_match; [by right|].
  intros [-> |Hy]%elem_of_cons; [by left|]. right. by apply IH.
Qed.
Lemma drop_contents k v L : contents_set L -> contents_set (drop_item k v L).
Proof. induction 1 as [|x L Hx HL IH]; cbn; [done|]. case_match; [done|]. by constructor. Qed.
Lemma put_contents z L : z.1 <> None -> contents_set L -> contents_set (put_item z L).
Proof.
  intros Hz. induction 1 as [|x L Hx HL IH]; cbn; [by constructor|]. repeat case_match; by repeat constructor.
Qed.
Lemma drop_not_found k v L : find_item k v L = None -> drop_item k v L = L.
Proof. induction L as [|x L IH]; cbn; [done|]. case_match; [done|]. intros. by rewrite IH. Qed.

(** * What an index promises to its clients *)

(** Index [i] of the state holds the sorted items [L] in a red-black tree. *)
Definition is_index R t0 L (s : store) : Prop :=
  exists T, holds i R t0 T s /\ items T = L /\ sorted L /\ red_black T /\ contents_set L.

Theorem index_find R t0 L k v s :
  is_index R t0 L s ->
  exists q, TreeFindIndex1 compare k i v s = Some (q, s) /\
    match q with
    | None => find_item k v L = None
    | Some a => exists n, nodes s !! a = Some n /\ find_item k v L = Some (n_content n, n_size n)
    end.
Proof. intros (T & H & <- & S & _). by eapply TreeFindIndex1_spec. Qed.

Theorem index_add R t0 L c z s :
  is_index R t0 L s -> allow_duplicates t0 = false -> find_item c 1 L = None -> c <> None ->
  runs (TreeAddByIndex compare c z i) s None
    (is_index R (counted (c, z) None t0) (put_item (c, z) L)).
Proof.
  intros (T & H & <- & S & RB & F) Du N Nc.
  destruct (TreeAddByIndex_spec R t0 T c z s H S Du) as (s' & T' & E & H' & I & S' & RB').
  rewrite N in *. exists s'. split; [exact E|]. exists T'. rewrite <- I. split_and!; auto.
  rewrite I. by apply put_contents.
Qed.

Theorem index_remove R t0 L k v s :
  is_index R t0 L s ->
  runs (curnode ← TreeFindIndex1 compare k i v;
        match curnode with None => mret None | Some _ => TreeRemoveNodeIndex curnode i end)
    s (from_option fst None (find_item k v L))
    (is_index R (from_option (fun x => discounted x t0) t0 (find_item k v L)) (drop_item k v L)).
Proof.
  intros (T & H & <- & S & RB & F).
  destruct (remove_found_run R t0 T k v s H S RB F) as (T' & (s' & E & H') & I & RB').
  exists s'. split; [exact E|]. exists T'. split; [done|].
  split_and!; [|by apply sorted_drop|done|by apply drop_contents].
  rewrite I. case_match; [done|]. by rewrite drop_not_found.
Qed.
End ops.

(** * Trees with one index *)

Section one_index.
Context (compare : Z -> ptr -> ptr -> Z -> Z) `{!Comparison compare 0}.
Context (R : gmap loc Node) (t0 : Tree) (L : list item).

Lemma indexes_run s : is_index compare 0 R t0 L s -> indexes t0 = 1 -> indexes (tree s) = 1.
Proof. intros (T & [_ _ _ _ _ E] & _) <-. by rewrite E. Qed.

Theorem TreeAdd_spec c z s :
  is_index compare 0 R t0 L s -> indexes t0 = 1 -> allow_duplicates t0 = false ->
  find_item compare 0 c 1 L = None -> c <> None ->
  runs (TreeAdd compare c z) s None
    (is_index compare 0 R (counted 0 (c, z) None t0) (put_item compare 0 (c, z) L)).
Proof.
  intros H I Du N Nc. pose proof (indexes_run s H I) as Is. unfold TreeAdd.
  eapply (runs_step _ _ _ s 1%nat); [unfold gets; by rewrite Is|]. cbn [for_indexes].
  eapply (runs_step _ _ _ s 1); [unfold gets; by rewrite Is|]. cbn [Z.ltb Z.compare].
  eapply runs_bind; [by apply index_add|]. intros s' H'. by apply runs_ret.
Qed.

Theorem TreeRemoveKey_spec k s :
  is_index compare 0 R t0 L s -> indexes t0 = 1 ->
  runs (TreeRemoveKey compare k) s (from_option fst None (find_item compare 0 k 0 L))
    (is_index compare 0 R (from_option (fun x => discounted 0 x t0) t0 (find_item compare 0 k 0 L))
       (drop_item compare 0 k 0 L)).
Proof.
  intros H I. destruct (index_remove compare 0 R t0 L k 0 s H) as (s' & E & H').
  unfold TreeRemoveKey, TreeRemoveKeyIndex. unfold TreeFindIndex.
  destruct (index_find compare 0 R t0 L k 0 s H) as (q & Eq & Hq).
  rewrite (bind_step _ _ _ _ _ Eq) in E. eapply runs_step; [exact Eq|].
  destruct q as [a|]; [|by exists s']. eapply runs_step; [exact E|].
  assert (Is : indexes (tree s') = 1).
  { destruct H' as (T & [_ _ _ _ _ ->] & _). rewrite <- I. by destruct (find_item compare 0 k 0 L). }
  eapply (runs_step _ _ _ s' 1%nat); [unfold gets; by rewrite Is|]. cbn [for_indexes].
  eapply (runs_step _ _ _ s' 1); [unfold gets; by rewrite Is|]. cbn [Z.ltb Z.compare Z.eqb].
  by exists s'.
Qed.

(** Removing from a tree with one index is dropping the item that compares
    equal from the sorted list; its content is returned and the tree remains
    sorted and red-black. *)
Theorem TreeRemove_spec c s :
  is_index compare 0 R t0 L s -> indexes t0 = 1 ->
  runs (TreeRemove compare c) s (from_option fst None (find_item compare 0 c 1 L))
    (is_index compare 0 R (from_option (fun x => discounted 0 x t0) t0 (find_item compare 0 c 1 L))
       (drop_item compare 0 c 1 L)).
Proof.
  intros H I. pose proof (indexes_run s H I) as Is. unfold TreeRemove.
  eapply (runs_step _ _ _ s 1%nat); [unfold gets; by rewrite Is|]. cbn [for_indexes].
  eapply (runs_step _ _ _ s 1); [unfold gets; by rewrite Is|]. cbn [Z.ltb Z.compare].
  eapply runs_bind; [by apply index_remove|]. intros s' H'. by apply runs_ret.
Qed.

(** Adding to a tree with one index is putting into the sorted list, and the old
    content of an item that is replaced is returned. *)
Theorem TreeAdd_refines T c z s :
  holds 0 R t0 T s -> sorted compare 0 (items T) -> indexes t0 = 1 -> allow_duplicates t0 = false ->
  let old := find_item compare 0 c 1 (items T) in
  exists s' T', TreeAdd compare c z s = Some (from_option fst None old, s') /\
    holds 0 R (counted 0 (c, z) old t0) T' s' /\
    items T' = put_item compare 0 (c, z) (items T) /\ sorted compare 0 (items T') /\
    (old = None -> red_black T -> red_black T').
Proof.
  intros H S I1 Du old. assert (Is : indexes (tree s) = 1) by (destruct H as [_ _ _ _ _ ->]; exact I1).
  destruct (TreeAddByIndex_spec compare 0 R t0 T c z s H S Du) as (s' & T' & E & H').
  exists s', T'. split; [|exact H']. unfold TreeAdd.
  rewrite (bind_step _ _ s 1%nat s) by (unfold gets; by rewrite Is). cbn [for_indexes].
  rewrite (bind_step _ _ s 1 s) by (unfold gets; by rewrite Is). cbn [Z.ltb Z.compare]. by mstep E.
Qed.
End one_index.

(** * The depth *)

Fixpoint height (t : tr) : Z :=
  match t with Lf => 0 | Nd _ _ l _ r => Z.max (height l) (height r) + 1 end.

Lemma height_bounds t : 0 <= height t <= Z.of_nat (length (addrs t)).
Proof. induction t as [|a c l IHl x r IHr]; cbn; [lia|]. rewrite length_app. cbn. lia. Qed.

Lemma length_items t : length (items t) = length (addrs t).
Proof. induction t as [|a c l IHl x r IHr]; cbn; [done|]. rewrite !length_app. cbn. by rewrite IHl, IHr. Qed.

Lemma rb_height n t : rb n t -> height t <= 2 * Z.of_nat n + (if is_red t then 1 else 0).
Proof.
  revert n. induction t as [|a c l IHl x r IHr]; intros n; cbn; [intros ->; lia|]. destruct c.
  - intros (Cl & Cr & Hl & Hr). apply IHl in Hl. apply IHr in Hr. rewrite Cl in Hl. rewrite Cr in Hr. lia.
  - destruct n as [|n]; [done|]. intros (Hl & Hr). apply IHl in Hl. apply IHr in Hr.
    destruct (is_red l), (is_red r); lia.
Qed.

Lemma rb_size n t : rb n t -> 2 ^ Z.of_nat n <= Z.of_nat (length (items t)) + 1.
Proof.
  revert n. induction t as [|a c l IHl x r IHr]; intros n; cbn; [by intros ->|].
  rewrite length_app. cbn. destruct c.
  - intros (_ & _ & Hl & Hr). apply IHl in Hl. lia.
  - destruct n as [|n]; [done|]. intros (Hl & Hr). apply IHl in Hl. apply IHr in Hr.
    rewrite Nat2Z.inj_succ, Z.pow_succ_r by lia. lia.
Qed.

Lemma walk_run (m : gmap loc Node) tt0 p t fuel d :
  rep m p t -> (length (addrs t) < fuel)%nat -> 0 <= d -> d + height t < 2 ^ 31 ->
  TreeWalk fuel (rootp t) d (Store m tt0) = Some (d + height t, Store m tt0).
Proof.
  revert p t d. induction fuel as [|fuel IH]; intros p t d H L D1 D2; [lia|].
  destruct t as [|a c l x r]; cbn [TreeWalk rootp]; [by rewrite Z.add_0_r|].
  cbn in H, L, D2. destruct H as (Ha & Hl & Hr). rewrite length_app in L. cbn in L.
  pose proof (height_bounds l). pose proof (height_bounds r).
  rewrite (bind_step _ _ _ _ _ (deref_run (Store m tt0) a _ Ha)). cbn [mkn n_left n_right].
  rewrite int_wrap_id by (unfold in_int; lia).
  rewrite (bind_step _ _ _ _ _ (IH (Some a) l (d + 1) Hl ltac:(lia) ltac:(lia) ltac:(lia))).
  rewrite (bind_step _ _ _ _ _ (IH (Some a) r (d + 1) Hr ltac:(lia) ltac:(lia) ltac:(lia))).
  cbn. unfold mret, M_ret. do 3 f_equal. case_match eqn:E; [apply Z.ltb_lt in E|apply Z.ltb_ge in E]; lia.
Qed.

(** The depth of a tree of [n] items is at most twice the logarithm of [n + 1]. *)
Theorem TreeMaxDepth_bound compare `{!Comparison compare 0} R t0 L s :
  is_index compare 0 R t0 L s -> zlen L < 2 ^ 31 ->
  exists h, TreeMaxDepth s = Some (h, s) /\ 0 <= h <= 2 * Z.log2 (zlen L + 1).
Proof.
  intros (T & H & <- & S & RB & F) Hl. unfold zlen in *. rewrite length_items in Hl.
  pose proof (height_bounds T) as B. exists (height T). split.
  - unfold TreeMaxDepth. mstep (holds_root _ _ _ _ _ H).
    rewrite (bind_step path_fuel _ s _ s eq_refl). pose proof (holds_length _ _ _ _ _ H).
    destruct s as [m tt0]. rewrite (walk_run m tt0 None T); [done| |cbn in *; lia|lia|lia]. by destruct H.
  - split; [lia|]. destruct RB as (C & n & Hn). pose proof (rb_height _ _ Hn) as Hh. rewrite C in Hh.
    pose proof (rb_size _ _ Hn) as Hs. apply Z.log2_le_mono in Hs. rewrite Z.log2_pow2 in Hs by lia. lia.
Qed.

(** * The empty tree *)

Theorem TreeInitialize_spec compare s :
  runs TreeInitializeNoMalloc s tt (is_index compare 0 (nodes s) empty_tree []).
Proof.
  eexists. split; [done|]. exists Lf. split.
  - split; cbn; try done; [by left|by constructor|]. intros b Hb. by apply elem_of_nil in Hb.
  - split_and!; [done|constructor|split; [done|by exists 0%nat]|constructor].
Qed.

(** * A history of operations *)

(** Looking an item up, adding one, and removing one by a key or by its content;
    each answers with a content. *)
Inductive tree_op := OpFind (key : ptr) | OpAdd (content : ptr) (size : Z) | OpRemoveKey (key : ptr) | OpRemove (content : ptr).

Section history.
Context (compare : Z -> ptr -> ptr -> Z -> Z) `{!Comparison compare 0} (R : gmap loc Node).
Implicit Types (L : list item).

Definition run_op (o : tree_op) : C ptr :=
  match o with
  | OpFind k => q ← TreeFind compare k; match q with None => mret None | Some _ => n ← deref q; mret (n_content n) end
  | OpAdd c z => TreeAdd compare c z
  | OpRemoveKey k => TreeRemoveKey compare k
  | OpRemove c => TreeRemove compare c
  end.
Fixpoint run_ops (os : list tree_op) : C (list ptr) :=
  match os with [] => mret [] | o :: os => c ← run_op o; cs ← run_ops os; mret (c :: cs) end.

(** The same on sorted lists.  What is added is new. *)
Definition op_answer (o : tree_op) L : ptr :=
  match o with
  | OpFind k | OpRemoveKey k => from_option fst None (find_item compare 0 k 0 L)
  | OpRemove c => from_option fst None (find_item compare 0 c 1 L)
  | OpAdd _ _ => None
  end.
Definition op_list (o : tree_op) L : list item :=
  match o with
  | OpFind _ => L
  | OpAdd c z => put_item compare 0 (c, z) L
  | OpRemoveKey k => drop_item compare 0 k 0 L
  | OpRemove c => drop_item compare 0 c 1 L
  end.
Definition op_legal (o : tree_op) L : Prop :=
  match o with OpAdd c _ => c <> None /\ find_item compare 0 c 1 L = None | _ => True end.
Fixpoint answers (os : list tree_op) L : list ptr :=
  match os with [] => [] | o :: os => op_answer o L :: answers os (op_list o L) end.
Fixpoint final_list (os : list tree_op) L : list item :=
  match os with [] => L | o :: os => final_list os (op_list o L) end.
Fixpoint all_legal (os : list tree_op) L : Prop :=
  match os with [] => True | o :: os => op_legal o L /\ all_legal os (op_list o L) end.

(** A tree with one index and without duplicates that holds [L] *)
Definition one_index L (s : store) : Prop :=
  exists t0, is_index compare 0 R t0 L s /\ indexes t0 = 1 /\ allow_duplicates t0 = false.

Lemma find_step k L s : one_index L s -> runs (run_op (OpFind k)) s (op_answer (OpFind k) L) (one_index L).
Proof.
  intros (t0 & H & I & Du). destruct (index_find compare 0 R t0 L k 0 s H) as (q & E & Hq).
  assert (Hs : one_index L s) by by exists t0. cbn [run_op]. eapply runs_step; [exact E|].
  unfold op_answer. destruct q as [a|]; [|rewrite Hq; by apply runs_ret]. destruct Hq as (n & Hn & ->).
  eapply (runs_step _ _ _ s n); [unfold deref, load; simpl; by rewrite Hn|]. by apply runs_ret.
Qed.

Lemma op_step o L s : one_index L s -> op_legal o L -> runs (run_op o) s (op_answer o L) (one_index (op_list o L)).
Proof.
  intros Hs Hl. destruct o as [k|c z|k|c]; [by apply find_step|..]; destruct Hs as (t0 & H & I & Du).
  - destruct Hl as [Hc Hn]. destruct (TreeAdd_spec compare R t0 L c z s H I Du Hn Hc) as (s' & E & H').
    exists s'. split; [exact E|]. by exists (counted 0 (c, z) None t0).
  - destruct (TreeRemoveKey_spec compare R t0 L k s H I) as (s' & E & H'). exists s'. split; [exact E|].
    eexists. split; [exact H'|]. by destruct (find_item compare 0 k 0 L).
  - destruct (TreeRemove_spec compare R t0 L c s H I) as (s' & E & H'). exists s'. split; [exact E|].
    eexists. split; [exact H'|]. by destruct (find_item compare 0 c 1 L).
Qed.

(** [C40] A red-black tree behaves as a sorted list.  From a tree with one index
    that holds the list [L], any history of searches, additions of new items and
    removals never reaches a node that is not there, gives the answers that the
    same history gives on the list, and leaves a sorted red-black tree that holds
    the resulting list, with the nodes outside the tree untouched; its depth is
    at most twice the logarithm of its size. *)
Theorem tree_history os L s :
  one_index L s -> all_legal os L ->
  runs (run_ops os) s (answers os L) (fun s' =>
    one_index (final_list os L) s' /\
    (zlen (final_list os L) < 2 ^ 31 ->
     exists h, TreeMaxDepth s' = Some (h, s') /\ 0 <= h <= 2 * Z.log2 (zlen (final_list os L) + 1))).
Proof.
  revert L s. induction os as [|o os IH]; intros L s H Hl.
  - apply runs_ret. split; [done|]. intros Hn. destruct H as (t0 & H & _). by eapply TreeMaxDepth_bound.
  - destruct Hl as [Ho Hl]. cbn [run_ops answers final_list]. eapply runs_bind; [by apply op_step|].
    intros s' H'. eapply runs_bind; [by apply (IH (op_list o L))|]. intros s'' H''. by apply runs_ret.
Qed.
End history.

(** * Reading a tree back *)

Fixpoint read (fuel : nat) (m : gmap loc Node) (p : ptr) : tr :=
  match fuel, p with
  | S fuel, Some a =>
      match m !! a with
      | Some n => Nd a (n_red n) (read fuel m (n_left n)) (n_content n, n_size n) (read fuel m (n_right n))
      | None => Lf
      end
  | _, _ => Lf
  end.

Lemma read_rep m p t fuel : rep m p t -> (length (addrs t) <= fuel)%nat -> read fuel m (rootp t) = t.
Proof.
  revert p t. induction fuel as [|fuel IH]; intros p t H L.
  - destruct t as [|a c l x r]; [done|]. cbn in L. rewrite length_app in L. cbn in L. lia.
  - destruct t as [|a c l x r]; [done|]. cbn in L. rewrite length_app in L. cbn in L.
    destruct H as (Ha & Hl & Hr). cbn [read rootp]. rewrite Ha. cbn [mkn n_left n_right n_red n_content n_size].
    rewrite (IH (Some a) l), (IH (Some a) r) by (done || lia). by destruct x.
Qed.

(** The tree of an index in a state *)
Definition get_root (i : Z) (t : Tree) : ptr := if i =? 0 then root0 t else root1 t.
Definition tree_in (i : Z) (s : store) : tr := read (base.size (nodes s)) (nodes s) (get_root i (tree s)).

Lemma tree_in_holds i R t0 T s : holds i R t0 T s -> tree_in i s = T.
Proof.
  intros H. unfold tree_in. replace (get_root i (tree s)) with (rootp T).
  - eapply read_rep; [by destruct H|]. by eapply holds_length.
  - destruct H. rewrite h_tree0. unfold get_root, put_root. by destruct h_index0 as [-> | ->].
Qed.

(** The black height, when there is one and no red node has a red child *)
Fixpoint black_height (t : tr) : option nat :=
  match t with
  | Lf => Some 0%nat
  | Nd _ c l _ r =>
      m ← black_height l; n ← black_height r;
      if Nat.eqb m n && negb (c && (is_red l || is_red r)) then Some (if c then m else S m) else None
  end.
Definition red_black_b (t : tr) : bool :=
  negb (is_red t) && match black_height t with Some _ => true | None => false end.

Lemma black_height_rb t n : rb n t <-> black_height t = Some n.
Proof.
  revert n. induction t as [|a c l IHl x r IHr]; intros n; cbn; [split; congruence|].
  split.
  - destruct c.
    + intros (Cl & Cr & ->%IHl & ->%IHr). cbn. by rewrite Nat.eqb_refl, Cl, Cr.
    + destruct n as [|n]; [done|]. intros (->%IHl & ->%IHr). cbn. by rewrite Nat.eqb_refl.
  - destruct (black_height l) as [m|]; [|done]. destruct (black_height r) as [k|]; [|done]. cbn.
    intros E. case_match eqn:Q; [|done].
    apply andb_true_iff in Q as [->%Nat.eqb_eq Q]. destruct c; injection E as <-.
    + apply negb_true_iff, orb_false_iff in Q as []. by rewrite IHl, IHr.
    + by rewrite IHl, IHr.
Qed.
Lemma red_black_b_spec t : red_black_b t = true <-> red_black t.
Proof.
  unfold red_black_b, red_black. rewrite andb_true_iff, negb_true_iff. split; intros [H1 H2]; (split; [done|]).
  - destruct (black_height t) as [n|] eqn:E; [|done]. exists n. by apply black_height_rb.
  - destruct H2 as [n H2]. apply black_height_rb in H2. by rewrite H2.
Qed.

(** * Adding an item that is there already *)

(** The contents [1 .. n], of size 8, added to an empty tree *)
Definition add_all (l : list loc) : store -> option store :=
  fun s => foldl (fun s a => s ← s; snd <$> TreeAdd (fun _ => TreePtrCompare) (Some a) 8 s) (Some s) l.
Definition six : option store := add_all [1; 2; 3; 4; 5; 6]%positive (Store ∅ empty_tree).

(** [TreeAddByIndex] rebalances from the node of an item that it replaces as if
    the node was a new, red one. *)
Theorem adding_again_unbalances :
  (tree_in 0 <$> six) ≫= (fun t => Some (red_black_b t, fst <$> items t)) =
    Some (true, Some <$> [1; 2; 3; 4; 5; 6]%positive) /\
  (six ≫= add_all [3]%positive) ≫= (fun s => Some (red_black_b (tree_in 0 s), fst <$> items (tree_in 0 s))) =
    Some (false, Some <$> [1; 2; 3; 4; 5; 6]%positive).
Proof. split; vm_compute; reflexivity. Qed.
End TreeOps.

(** A tree with one node: the theorems are applied to it. *)
Module TreeScenario.
Import Tree TreeShape TreeBalance TreeOps.

Abbreviation by_address := (fun _ : Z => TreePtrCompare).
Definition one_tree : Tree := MkTree (Some 1%positive) None 1 1 8 true false.
Definition one_store : store := Store {[ 1%positive := MkNode None None None (Some 5%positive) 8 false ]} one_tree.
Definition one : tr := Nd 1 false Lf (Some 5%positive, 8) Lf.

Lemma one_holds : holds 0 ∅ one_tree one one_store.
Proof.
  split; [by left|by vm_compute|by apply NoDup_singleton| |done|done].
  intros b Hb. cbn in *. rewrite lookup_singleton_ne; [done|]. set_solver.
Qed.
Lemma one_index_ok : is_index by_address 0 ∅ one_tree [(Some 5%positive, 8)] one_store.
Proof.
  exists one. split; [apply one_holds|]. split_and!; [done|repeat constructor| |repeat constructor; done].
  split; [done|]. by exists 1%nat.
Qed.

(** Added in an order that needs rotations, looked up and removed again *)
Definition some_ops : list tree_op :=
  [OpAdd (Some 7%positive) 4; OpAdd (Some 9%positive) 4; OpAdd (Some 8%positive) 4; OpAdd (Some 2%positive) 4;
   OpFind (Some 8%positive); OpFind (Some 3%positive); OpRemove (Some 7%positive); OpRemoveKey (Some 5%positive)].

Lemma tree_history_witness :
  exists s', run_ops by_address some_ops one_store =
      Some ([None; None; None; None; Some 8%positive; None; Some 7%positive; Some 5%positive], s') /\
    one_index by_address ∅ [(Some 2%positive, 4); (Some 8%positive, 4); (Some 9%positive, 4)] s' /\
    red_black_b (tree_in 0 s') = true.
Proof.
  destruct (tree_history by_address ∅ some_ops [(Some 5%positive, 8)] one_store) as (s' & E & H & _).
  - exists one_tree. split; [apply one_index_ok|done].
  - by vm_compute.
  - exists s'. split; [exact E|]. split; [exact H|]. destruct H as (t0 & (T & H & _ & _ & RB & _) & _).
    rewrite (tree_in_holds _ _ _ _ _ H). by apply red_black_b_spec.
Defined.
End TreeScenario.
