(* ===== verification/Packet.v ===== *)
(** Model of the packet formats of [lib/MQTTPacket.c] and [lib/MQTTPacketOut.c]:
    header bits, the remaining-length code, the integer and string readers and
    writers, the packet constructors of the [new_packets] table and the
    buffers that the send functions build.

    A [char**] input pointer is an offset into the bytes that are readable from
    the start of the packet data ([data] may be longer than the packet: the
    rest is whatever follows in memory); a read outside is undefined.  An
    output pointer is an offset into an allocated buffer. *)
From S2P Require Import Prelude ListSpec.

Module Packet.

(** * Constants *)

Definition SOCKET_ERROR : Z := -1.
Definition TCPSOCKET_COMPLETE : Z := 0.
Definition TCPSOCKET_INTERRUPTED : Z := -22.
Definition BAD_MQTT_PACKET : Z := -4.

Definition CONNECT := 1.
Definition CONNACK := 2.
Definition PUBLISH := 3.
Definition PUBACK := 4.
Definition PUBREC := 5.
Definition PUBREL := 6.
Definition PUBCOMP := 7.
Definition SUBSCRIBE := 8.
Definition SUBACK := 9.
Definition UNSUBSCRIBE := 10.
Definition UNSUBACK := 11.
Definition PINGREQ := 12.
Definition PINGRESP := 13.
Definition DISCONNECT := 14.

Definition packet_names : list string :=
  ["RESERVED"; "CONNECT"; "CONNACK"; "PUBLISH"; "PUBACK"; "PUBREC"; "PUBREL";
   "PUBCOMP"; "SUBSCRIBE"; "SUBACK"; "UNSUBSCRIBE"; "UNSUBACK";
   "PINGREQ"; "PINGRESP"; "DISCONNECT"]%string.

Definition MQTTPacket_name (ptype : Z) : option string :=
  if (0 <=? ptype) && (ptype <=? DISCONNECT) then nthz packet_names ptype
  else Some "UNKNOWN"%string.

(** * The header byte *)

Definition hdr_retain (h : byte) : Z := get_bits 0 1 h.
Definition hdr_qos (h : byte) : Z := get_bits 1 2 h.
Definition hdr_dup (h : byte) : Z := get_bits 3 1 h.
Definition hdr_type (h : byte) : Z := get_bits 4 4 h.
Definition set_retain (v : Z) (h : byte) : byte := set_bits 0 1 v h.
Definition set_qos (v : Z) (h : byte) : byte := set_bits 1 2 v h.
Definition set_dup (v : Z) (h : byte) : byte := set_bits 3 1 v h.
Definition set_type (v : Z) (h : byte) : byte := set_bits 4 4 v h.

(** * The remaining length *)

(** The bytes that the [do ... while] loop writes; [fuel] bounds the digits of
    a [size_t] in base 128. *)
Fixpoint encode_loop (fuel : nat) (length : Z) : list byte :=
  match fuel with
  | O => []
  | S fuel' =>
      let d := length mod 128 in
      let length' := length / 128 in
      if 0 <? length' then Z.lor d 0x80 :: encode_loop fuel' length' else [d]
  end.
Definition MQTTPacket_encode (length : Z) : list byte := encode_loop 10 length.

Definition MAX_NO_OF_REMAINING_LENGTH_BYTES : Z := 4.

Section decode.
Context {S : Type} (getch : M S (Z * byte)).

(** [getch] returns the completion code and the byte read. *)
Fixpoint decode_loop (fuel : nat) (len multiplier value : Z) : M S (Z * Z) :=
  match fuel with
  | O => undefined
  | Datatypes.S fuel' =>
      let len' := len + 1 in
      if MAX_NO_OF_REMAINING_LENGTH_BYTES <? len' then mret (SOCKET_ERROR, value)
      else
        r ← getch;
        let '(rc, c) := r in
        if negb (rc =? TCPSOCKET_COMPLETE) then mret (rc, value)
        else
          let value' := value + Z.land c 127 * multiplier in
          if negb (Z.land c 128 =? 0) then decode_loop fuel' len' (multiplier * 128) value'
          else mret (rc, value')
  end.
Definition MQTTPacket_decode : M S (Z * Z) := decode_loop 5 0 1 0.
End decode.

(** * Reading *)

Definition readInt (data : list byte) (pos : Z) : option (Z * Z) :=
  a ← nthz data pos; b ← nthz data (pos + 1);
  Some (256 * a + b, pos + 2).

Definition readChar (data : list byte) (pos : Z) : option (Z * Z) :=
  c ← nthz data pos; Some (c, pos + 1).

(** [len0] is the value of [*len] on entry: it is not assigned when there are
    not even two bytes left.  The result is the string or [NULL], [*len] and
    the pointer. *)
Definition readUTFlen (data : list byte) (pos enddata len0 : Z) :
    option (option (list byte) * Z * Z) :=
  if 1 <? enddata - pos then
    r ← readInt data pos;
    let '(len, pos') := r in
    if pos' + len <=? enddata then
      s ← subz data pos' len;
      Some (Some s, len, pos' + len)
    else Some (None, len, pos')
  else Some (None, len0, pos).

Definition readUTF (data : list byte) (pos enddata : Z) : option (option (list byte) * Z) :=
  r ← readUTFlen data pos enddata 0;
  let '(s, _, pos') := r in Some (s, pos').

(** * Writing *)

(** An allocated buffer and the output pointer into it. *)
Record wbuf := WBuf { wmem : list byte; wpos : Z }.

(** [malloc(len)], with arbitrary initial contents of that length. *)
Definition wstart (junk : list byte) : wbuf := WBuf junk 0.

Definition writeChar (c : Z) : M wbuf unit := fun w =>
  if bool_decide (0 <= wpos w < zlen (wmem w))
  then Some (tt, WBuf (<[Z.to_nat (wpos w) := to_char c]> (wmem w)) (wpos w + 1))
  else None.

Definition writeInt (anInt : Z) : M wbuf unit :=
  writeChar (Z.quot anInt 256);; writeChar (Z.rem anInt 256).

(** [memcpy(ptr, s, len); ptr += len]. *)
Fixpoint write_bytes (s : list byte) : M wbuf unit :=
  match s with
  | [] => mret tt
  | c :: s' => writeChar c;; write_bytes s'
  end.

(** A C string is its bytes up to the terminating NUL. *)
Definition writeUTF (string : list byte) : M wbuf unit :=
  writeInt (int_wrap (zlen string));; write_bytes string.

(** * Packet structures *)

Record Publish := MkPublish {
  pb_header : byte;
  pb_topic : option (list byte);   (* None is NULL *)
  pb_topiclen : Z;
  pb_msgId : Z;
  pb_payload : list byte;          (* what is readable at the payload pointer *)
  pb_payloadlen : Z
}.
Record Ack := MkAck { ack_header : byte; ack_msgId : Z }.
Record Connack := MkConnack { ca_header : byte; ca_flags : Z; ca_rc : Z }.
Record Suback := MkSuback { sa_header : byte; sa_msgId : Z; sa_qoss : clist Z }.

Inductive packet :=
  | PConnack (p : Connack)
  | PPublish (p : Publish)
  | PAck (p : Ack)
  | PSuback (p : Suback)
  | PHeaderOnly (header : byte).

(** [((MQTTPacket* )pack)->header.byte]. *)
Definition packet_header (p : packet) : byte :=
  match p with
  | PConnack p => ca_header p | PPublish p => pb_header p | PAck p => ack_header p
  | PSuback p => sa_header p | PHeaderOnly h => h
  end.

(** * Constructors of the [new_packets] table

    [Some None] is a [NULL] packet. *)

Definition MQTTPacket_header_only (aHeader : byte) (data : list byte) (datalen : Z) :
    option (option packet) := Some (Some (PHeaderOnly aHeader)).

Definition MQTTPacket_publish (aHeader : byte) (data : list byte) (datalen : Z) :
    option (option packet) :=
  r ← readUTFlen data 0 datalen 0;
  let '(topic, topiclen, pos) := r in
  match topic with
  | None => Some None
  | Some _ =>
      m ← (if 0 <? hdr_qos aHeader then readInt data pos else Some (0, pos));
      let '(msgId, pos') := m in
      Some (Some (PPublish (MkPublish aHeader topic topiclen msgId
                    (drop (Z.to_nat pos') data) (int_wrap (size_wrap (datalen - pos'))))))
  end.

Definition MQTTPacket_ack (aHeader : byte) (data : list byte) (datalen : Z) :
    option (option packet) :=
  r ← readInt data 0;
  Some (Some (PAck (MkAck aHeader r.1))).

Definition MQTTPacket_connack (aHeader : byte) (data : list byte) (datalen : Z) :
    option (option packet) :=
  f ← readChar data 0;
  r ← readChar data f.2;
  Some (Some (PConnack (MkConnack aHeader f.1 (schar r.1)))).

(** The loop over the granted QoS bytes. *)
Fixpoint suback_loop (fuel : nat) (data : list byte) (pos datalen : Z) (qoss : clist Z) :
    option (clist Z) :=
  if pos <? datalen then
    match fuel with
    | O => None
    | S fuel' =>
        c ← readChar data pos;
        suback_loop fuel' data c.2 datalen (LSpec.append c.1 4 qoss)
    end
  else Some qoss.

Definition MQTTPacket_suback (aHeader : byte) (data : list byte) (datalen : Z) :
    option (option packet) :=
  r ← readInt data 0;
  qoss ← suback_loop (Z.to_nat datalen) data r.2 datalen LSpec.empty;
  Some (Some (PSuback (MkSuback aHeader r.1 qoss))).

Definition new_packets (ptype : Z) : option (byte -> list byte -> Z -> option (option packet)) :=
  if (ptype =? CONNACK) then Some MQTTPacket_connack
  else if (ptype =? PUBLISH) then Some MQTTPacket_publish
  else if (ptype =? PUBACK) || (ptype =? PUBREC) || (ptype =? PUBREL) || (ptype =? PUBCOMP)
          || (ptype =? UNSUBACK) then Some MQTTPacket_ack
  else if (ptype =? SUBACK) then Some MQTTPacket_suback
  else if (ptype =? PINGREQ) || (ptype =? PINGRESP) || (ptype =? DISCONNECT)
       then Some MQTTPacket_header_only
  else None.

(** * Buffers built by the send functions *)

(** A will message and the connection data that CONNECT carries. *)
Record willMessages := Will {
  will_topic : list byte; will_msg : list byte; will_retained : Z; will_qos : Z }.
Record connect_data := ConnectData {
  cd_clientID : list byte;
  cd_username : option (list byte);
  cd_password : option (list byte);
  cd_cleansession : Z;
  cd_keepAliveInterval : Z;
  cd_will : option willMessages
}.

(** [(int)strlen(s)], and [len += (int)strlen(s)+2] for a string that may be missing. *)
Definition int_strlen (s : list byte) : Z := int_wrap (zlen s).
Definition add_utf_len (s : option (list byte)) (len : Z) : Z :=
  match s with Some s => int_wrap (len + int_wrap (int_strlen s + 2)) | None => len end.

(** The [int] [len] that [MQTTPacket_send_connect] allocates. *)
Definition connect_len (client : connect_data) (MQTTVersion : Z) : Z :=
  let len := int_wrap ((if MQTTVersion =? 3 then 12 else 10) + int_strlen (cd_clientID client) + 2) in
  let len := match cd_will client with
    | Some w => int_wrap (len + int_wrap (int_strlen (will_topic w) + 2 + int_strlen (will_msg w) + 2))
    | None => len end in
  add_utf_len (cd_password client) (add_utf_len (cd_username client) len).

Definition opt_write (s : option (list byte)) : M wbuf unit :=
  match s with Some s => writeUTF s | None => mret tt end.

(** The connect flags byte. *)
Definition connect_flags (client : connect_data) : byte :=
  let f := set_bits 1 1 (cd_cleansession client) 0 in
  let f := set_bits 2 1 (if cd_will client is Some _ then 1 else 0) f in
  let f := match cd_will client with
           | Some w => set_bits 5 1 (will_retained w) (set_bits 3 2 (will_qos w) f)
           | None => f end in
  let f := match cd_username client with Some _ => set_bits 7 1 1 f | None => f end in
  match cd_password client with Some _ => set_bits 6 1 1 f | None => f end.

Definition bytes_of_string (s : string) : list byte :=
  (fun a => Z.of_N (Ascii.N_of_ascii a)) <$> String.list_ascii_of_string s.

(** The protocol name and version; any other version is refused. *)
Definition write_protocol (MQTTVersion : Z) : option (M wbuf unit) :=
  if MQTTVersion =? 3 then Some (writeUTF (bytes_of_string "MQIsdp");; writeChar 3)
  else if MQTTVersion =? 4 then Some (writeUTF (bytes_of_string "MQTT");; writeChar 4)
  else None.

(** The writes of [MQTTPacket_send_connect] after the protocol level. *)
Definition write_connect (client : connect_data) : M wbuf unit :=
  writeChar (connect_flags client);;
  writeInt (cd_keepAliveInterval client);;
  writeUTF (cd_clientID client);;
  (match cd_will client with
   | Some w => writeUTF (will_topic w);; writeUTF (will_msg w)
   | None => mret tt end);;
  opt_write (cd_username client);;
  opt_write (cd_password client).

(** SUBSCRIBE: message id, then each topic with its QoS.  Two iterators walk
    the lists; a null QoS element is dereferenced when the second list is
    shorter. *)
Fixpoint write_topics (topics : list (list byte)) (qoss : list Z) : M wbuf unit :=
  match topics with
  | [] => mret tt
  | t :: topics' =>
      match qoss with
      | [] => undefined
      | q :: qoss' => writeUTF t;; writeChar q;; write_topics topics' qoss'
      end
  end.

(** The lengths of the topics together. *)
Definition sum_len (ss : list (list byte)) : Z := foldr (fun s n => zlen s + n) 0 ss.

(** The loop over the topics, which adds [(int)strlen] of each to [datalen]. *)
Definition add_lens (topics : list (list byte)) (datalen : Z) : Z :=
  foldl (fun datalen t => int_wrap (datalen + int_strlen t)) datalen topics.

Definition subscribe_len (topics : list (list byte)) : Z :=
  add_lens topics (int_wrap (2 + zlen topics * 3)).
Definition write_subscribe (topics : list (list byte)) (qoss : list Z) (msgid : Z) : M wbuf unit :=
  writeInt msgid;; write_topics topics qoss.

Fixpoint write_utfs (topics : list (list byte)) : M wbuf unit :=
  match topics with
  | [] => mret tt
  | t :: topics' => writeUTF t;; write_utfs topics'
  end.
Definition unsubscribe_len (topics : list (list byte)) : Z :=
  add_lens topics (int_wrap (2 + zlen topics * 2)).
Definition write_unsubscribe (topics : list (list byte)) (msgid : Z) : M wbuf unit :=
  writeInt msgid;; write_utfs topics.

(** Header bytes of the send functions. *)
Definition subscribe_header (ptype dup : Z) : byte :=
  set_retain 0 (set_qos 1 (set_dup dup (set_type ptype 0))).
Definition ack_header_byte (type dup : Z) : byte :=
  let h := set_dup dup (set_type type 0) in
  if type =? PUBREL then set_qos 1 h else h.
Definition publish_header (dup qos retained : Z) : byte :=
  set_retain retained (set_qos qos (set_dup dup (set_type PUBLISH 0))).

(** The buffers that [MQTTPacket_send_publish] hands to [MQTTPacket_sends],
    with the flags that say which are freed after the write. *)
Definition run_write (len : Z) (m : M wbuf unit) : option (list byte) :=
  r ← m (wstart (replicate (Z.to_nat len) 0)); Some (wmem r.2).

Definition publish_buffers (topic : list byte) (msgId qos : Z) (payload : list byte) :
    option (list (list byte) * list Z) :=
  topiclen ← run_write 2 (writeInt (int_wrap (zlen topic)));
  if 0 <? qos then
    buf ← run_write 2 (writeInt msgId);
    Some ([topiclen; topic; buf; payload], [1; 0; 1; 0])
  else Some ([topiclen; topic; payload], [1; 0; 0]).

(** * Writers fill their buffers *)

(** [m] writes exactly [bs] at the output pointer, whatever was there, and goes out
    of bounds when there is less room. *)
Definition writes (m : M wbuf unit) (bs : list byte) : Prop :=
  (forall pre junk post, length junk = length bs ->
     m (WBuf (pre ++ junk ++ post) (zlen pre)) = Some (tt, WBuf (pre ++ bs ++ post) (zlen pre + zlen bs))) /\
  (forall pre junk, (length junk < length bs)%nat -> m (WBuf (pre ++ junk) (zlen pre)) = None).

Lemma writes_nil : writes (mret tt) [].
Proof. split; [|by intros; simpl in *; lia]. intros pre junk post H. destruct junk; [|done]. unfold mret, M_ret. by rewrite Z.add_0_r. Qed.

Lemma writes_bind m1 m2 b1 b2 :
  writes m1 b1 -> writes m2 b2 -> writes (m1;; m2) (b1 ++ b2).
Proof.
  intros [H1 F1] [H2 F2]. split.
  - intros pre junk post Hl. rewrite length_app in Hl.
    rewrite <- (take_drop (length b1) junk), <- !app_assoc.
    rewrite (bind_step _ _ _ _ _ (H1 pre (take (length b1) junk) (drop (length b1) junk ++ post)
      ltac:(rewrite length_take; lia))).
    rewrite (app_assoc pre b1). rewrite <- zlen_app.
    rewrite (H2 (pre ++ b1) (drop (length b1) junk) post) by (rewrite length_drop; lia).
    rewrite !zlen_app, <- app_assoc. by rewrite Z.add_assoc.
  - intros pre junk Hl. rewrite length_app in Hl. destruct (decide (length junk < length b1)%nat) as [Hs|Hs].
    { unfold mbind, M_bind. by rewrite F1. }
    rewrite <- (take_drop (length b1) junk).
    rewrite (bind_step _ _ _ _ _ (H1 pre (take (length b1) junk) (drop (length b1) junk) ltac:(rewrite length_take; lia))).
    rewrite (app_assoc pre b1), <- zlen_app. apply F2. rewrite length_drop. lia.
Qed.

Lemma writes_char c : writes (writeChar c) [to_char c].
Proof.
  split.
  - intros pre junk post Hl. destruct junk as [|j [|]]; simplify_eq/=.
    unfold writeChar. simpl. rewrite bool_decide_true.
    2: { rewrite zlen_app, zlen_cons. pose proof (zlen_nonneg pre). pose proof (zlen_nonneg post). lia. }
    unfold zlen at 1. rewrite Nat2Z.id, insert_app_r_alt, Nat.sub_diag by lia. done.
  - intros pre [|] Hl; [|simpl in Hl; lia]. unfold writeChar. simpl. rewrite bool_decide_false; [done|].
    rewrite app_nil_r. lia.
Qed.

(** The two bytes of an integer, big-endian. *)
Definition int_bytes (n : Z) : list byte := [to_char (Z.quot n 256); to_char (Z.rem n 256)].

#[local] Arguments int_bytes : simpl never.

Lemma writes_int n : writes (writeInt n) (int_bytes n).
Proof. apply (writes_bind _ _ [_] [_]); apply writes_char. Qed.

Lemma int_bytes_u16 n : 0 <= n < 65536 -> int_bytes n = [n / 256; n mod 256].
Proof.
  intros. unfold int_bytes, to_char. rewrite Z.quot_div_nonneg, Z.rem_mod_nonneg by lia.
  rewrite Z.mod_mod, (Z.mod_small (n / 256)); [done|zdm|lia].
Qed.

Lemma writes_bytes s : bytes_ok s -> writes (write_bytes s) s.
Proof.
  induction 1 as [|c s Hc Hs IH]; simpl; [apply writes_nil|].
  apply (writes_bind _ _ [c]); [|done]. rewrite <- (to_char_id c Hc) at 2. apply writes_char.
Qed.

Definition utf_bytes (s : list byte) : list byte := int_bytes (int_wrap (zlen s)) ++ s.

Lemma writes_utf s : bytes_ok s -> writes (writeUTF s) (utf_bytes s).
Proof. intros. apply writes_bind; [apply writes_int|by apply writes_bytes]. Qed.

Create HintDb wire.
#[export] Hint Resolve writes_nil writes_bind writes_char writes_int writes_bytes writes_utf : wire.

Lemma writes_run m bs len :
  writes m bs -> len = zlen bs -> run_write len m = Some bs.
Proof.
  intros [H _] ->. unfold run_write, wstart.
  pose proof (H [] (replicate (Z.to_nat (zlen bs)) 0) []) as E. simpl in E.
  rewrite !app_nil_r in E. change (zlen []) with 0 in E. rewrite E; [done|].
  rewrite length_replicate. unfold zlen. lia.
Qed.

Lemma writes_overrun m bs len : writes m bs -> 0 < zlen bs -> len < zlen bs -> run_write len m = None.
Proof.
  intros [_ F] Hb Hl. unfold run_write, wstart.
  pose proof (F [] (replicate (Z.to_nat len) 0)) as E. simpl in E. change (zlen []) with 0 in E.
  by rewrite E by (rewrite length_replicate; unfold zlen in *; lia).
Qed.

(** A buffer whose length is computed as an [int]: it is filled exactly, or the
    sum is out of the range of [int] and the writer leaves the buffer. *)
Lemma run_write_wrapped m bs :
  writes m bs -> 0 < zlen bs -> run_write (int_wrap (zlen bs)) m = if bool_decide (zlen bs < 2 ^ 31) then Some bs else None.
Proof.
  intros H Hb. case_bool_decide as Hl.
  - rewrite int_wrap_id by (unfold in_int; lia). by apply writes_run.
  - apply (writes_overrun _ bs); [done|done|]. pose proof (int_wrap_range (zlen bs)). unfold in_int in *. lia.
Qed.

Lemma zlen_int_bytes n : zlen (int_bytes n) = 2.
Proof. done. Qed.

Lemma zlen_utf_bytes s : zlen (utf_bytes s) = zlen s + 2.
Proof. unfold utf_bytes, int_bytes. rewrite zlen_app. unfold zlen at 1. simpl. lia. Qed.

(** * Wire codecs *)

(** What the readers and writers of a kind of field promise to the packets
    made of them: a well-formed value is written as its bytes and read back
    from them, wherever they are in the packet. *)
Class WireCodec (A : Type) := {
  wire_ok : A -> Prop;
  wire_bytes : A -> list byte;
  wire_write : A -> M wbuf unit;
  wire_read : list byte -> Z -> Z -> option (option A * Z);
  wire_write_ok a : wire_ok a -> writes (wire_write a) (wire_bytes a);
  wire_read_ok a pre post enddata :
    wire_ok a -> zlen pre + zlen (wire_bytes a) <= enddata ->
    wire_read (pre ++ wire_bytes a ++ post) (zlen pre) enddata =
      Some (Some a, zlen pre + zlen (wire_bytes a))
}.

Lemma readInt_at pre n post :
  0 <= n < 65536 -> readInt (pre ++ int_bytes n ++ post) (zlen pre) = Some (n, zlen pre + 2).
Proof.
  intros Hn. rewrite int_bytes_u16 by done. unfold readInt.
  pose proof (zlen_nonneg pre).
  rewrite (nthz_app_r pre _ (zlen pre)), (nthz_app_r pre _ (zlen pre + 1)), Z.sub_diag by lia. replace (zlen pre + 1 - zlen pre) with 1 by lia.
  change (nthz ([n / 256; n mod 256] ++ post) 0) with (Some (n / 256)).
  change (nthz ([n / 256; n mod 256] ++ post) 1) with (Some (n mod 256)). simpl.
  f_equal. f_equal. zdm.
Qed.

#[export, refine] Instance int_codec : WireCodec Z := {|
  wire_ok n := 0 <= n < 65536;
  wire_bytes := int_bytes;
  wire_write := writeInt;
  wire_read data pos _ := r ← readInt data pos; Some (Some r.1, r.2)
|}.
Proof.
  - intros. apply writes_int.
  - intros n pre post enddata Hn _. by rewrite readInt_at.
Defined.

Lemma readUTFlen_at pre s post enddata len0 :
  zlen s < 65536 -> zlen pre + zlen (utf_bytes s) <= enddata ->
  readUTFlen (pre ++ utf_bytes s ++ post) (zlen pre) enddata len0 =
    Some (Some s, zlen s, zlen pre + zlen (utf_bytes s)).
Proof.
  intros Hs He. rewrite zlen_utf_bytes in *. pose proof (zlen_nonneg s). pose proof (zlen_nonneg pre).
  unfold readUTFlen, utf_bytes. rewrite int_wrap_id by (unfold in_int; lia).
  rewrite <- app_assoc. rewrite readInt_at by lia.
  destruct (Z.ltb_spec 1 (enddata - zlen pre)); [|lia]. simpl.
  destruct (Z.leb_spec (zlen pre + 2 + zlen s) enddata); [|lia].
  change (pre ++ _ :: _ :: s ++ post) with (pre ++ int_bytes (zlen s) ++ s ++ post).
  rewrite (app_assoc pre), subz_app; [|by rewrite zlen_app|done]. simpl.
  by rewrite <- Z.add_assoc, (Z.add_comm 2).
Qed.

#[export, refine] Instance utf_codec : WireCodec (list byte) := {|
  wire_ok s := bytes_ok s /\ zlen s < 65536;
  wire_bytes := utf_bytes;
  wire_write := writeUTF;
  wire_read := readUTF
|}.
Proof.
  - intros s [Hs _]. by apply writes_utf.
  - intros s pre post enddata [_ Hs] He. unfold readUTF. by rewrite readUTFlen_at.
Defined.

(** * The remaining length *)

(** The next bytes that [getch] delivers. *)
Inductive yields {S} (getch : M S (Z * byte)) : S -> list byte -> S -> Prop :=
  | yields_nil s : yields getch s [] s
  | yields_cons s c s1 bs s2 :
      getch s = Some ((TCPSOCKET_COMPLETE, c), s1) -> yields getch s1 bs s2 ->
      yields getch s (c :: bs) s2.

(** The length bytes: seven bits of the value and the continuation bit. *)
Lemma digit_bits d :
  0 <= d < 128 ->
  Z.land (Z.lor d 128) 127 = d /\ Z.land (Z.lor d 128) 128 = 128 /\
  Z.land d 127 = d /\ Z.land d 128 = 0 /\ Z.lor d 128 = d + 128.
Proof.
  intros Hd.
  assert ((Z.land (Z.lor d 128) 127 =? d) && (Z.land (Z.lor d 128) 128 =? 128) &&
          (Z.land d 127 =? d) && (Z.land d 128 =? 0) && (Z.lor d 128 =? d + 128) = true) as H.
  { revert d Hd. apply range_forall. vm_compute. done. }
  rewrite !andb_true_iff, !Z.eqb_eq in H. tauto.
Qed.

Lemma decode_loop_encode {S} (getch : M S (Z * byte)) k : forall n s s' fuel len mult value,
  0 <= n < 128 ^ Z.of_nat k -> (0 < k)%nat -> (k <= fuel)%nat -> len + Z.of_nat k <= 4 ->
  yields getch s (encode_loop k n) s' ->
  decode_loop getch fuel len mult value s = Some ((TCPSOCKET_COMPLETE, value + n * mult), s').
Proof.
  induction k as [|k IH]; intros n s s' fuel len mult value Hn Hk Hf Hl Hy; [lia|].
  destruct fuel as [|fuel]; [lia|]. simpl in Hy. unfold decode_loop; fold (decode_loop getch).
  unfold MAX_NO_OF_REMAINING_LENGTH_BYTES. destruct (Z.ltb_spec 4 (len + 1)); [lia|].
  pose proof (Z.mod_pos_bound n 128 ltac:(lia)) as Hm.
  destruct (digit_bits (n mod 128) Hm) as (H1 & H2 & H3 & H4 & _).
  destruct (Z.ltb_spec 0 (n / 128)) as [Hd|Hd];
    inversion Hy as [|? c s1 bs s2 Hg Hy']; subst; rewrite (bind_step _ _ _ _ _ Hg); simpl;
    rewrite ?H1, ?H2, ?H3, ?H4; simpl.
  - assert (0 < k)%nat by (destruct k; [simpl in Hn; zdm|lia]).
    rewrite (IH (n / 128) _ s'); [|split; [zdm|]|lia..|done].
    + do 3 f_equal. pose proof (Z.div_mod n 128 ltac:(lia)). nia.
    + apply Z.div_lt_upper_bound; [lia|]. rewrite <- Z.pow_succ_r by lia.
      rewrite <- Nat2Z.inj_succ. lia.
  - inversion Hy'; subst. by rewrite Z.mod_small by zdm.
Qed.

(** Seven bits per byte suffice. *)
Lemma encode_loop_more k n : 0 <= n < 128 ^ Z.of_nat k -> (0 < k)%nat ->
  forall j, (k <= j)%nat -> encode_loop j n = encode_loop k n.
Proof.
  revert n. induction k as [|k IH]; intros n Hn Hk j Hj; [lia|].
  destruct j as [|j]; [lia|]. simpl. destruct (Z.ltb_spec 0 (n / 128)) as [Hd|Hd]; [|done].
  f_equal. apply IH; [split; [zdm|]| |lia].
  - apply Z.div_lt_upper_bound; [lia|]. rewrite <- Z.pow_succ_r by lia. rewrite <- Nat2Z.inj_succ. lia.
  - destruct k; [simpl in Hn; zdm|lia].
Qed.

Lemma decode_loop_too_long {S} (getch : M S (Z * byte)) j : forall n s s' fuel len mult value,
  128 ^ 4 <= n * 128 ^ len -> 0 <= len <= 4 -> 4 - len < Z.of_nat j -> 4 - len < Z.of_nat fuel ->
  yields getch s (encode_loop j n) s' ->
  exists v s1, decode_loop getch fuel len mult value s = Some ((SOCKET_ERROR, v), s1).
Proof.
  induction j as [|j IH]; intros n s s' fuel len mult value Hn Hl Hj Hf Hy; [lia|].
  destruct fuel as [|fuel]; [lia|]. simpl in Hy. unfold decode_loop; fold (decode_loop getch).
  unfold MAX_NO_OF_REMAINING_LENGTH_BYTES. destruct (Z.ltb_spec 4 (len + 1)) as [|Hlt]; [by eauto|].
  pose proof (Z.mod_pos_bound n 128 ltac:(lia)) as Hm.
  destruct (digit_bits (n mod 128) Hm) as (H1 & H2 & _).
  assert (128 ^ 4 <= n / 128 * 128 ^ (len + 1)) as Hn'.
  { rewrite Z.pow_add_r by lia. assert (128 ^ 4 = 128 ^ (3 - len) * 128 ^ len * 128) as E.
    { rewrite <- Z.pow_add_r by lia. by replace (3 - len + len) with 3 by lia. }
    pose proof (Z.pow_pos_nonneg 128 len ltac:(lia) ltac:(lia)) as Hp.
    assert (128 ^ (3 - len) <= n / 128) as Hq; [|rewrite E; nia].
    apply Z.div_le_lower_bound; [lia|]. nia. }
  destruct (Z.ltb_spec 0 (n / 128)) as [Hd|Hd]; [|nia].
  inversion Hy as [|? c s1 bs s2 Hg Hy']; subst. rewrite (bind_step _ _ _ _ _ Hg). simpl.
  rewrite H1, H2. simpl. by eapply IH; [done|lia|lia|lia|].
Qed.

Lemma encode_loop_len k n : 0 <= n -> (0 < k)%nat -> 1 <= zlen (encode_loop k n) <= Z.of_nat k.
Proof.
  revert n. induction k as [|k IH]; intros n Hn Hk; [lia|]. simpl.
  destruct (Z.ltb_spec 0 (n / 128)); rewrite zlen_cons; [|unfold zlen; simpl; lia].
  destruct k; [unfold zlen; simpl; lia|].
  specialize (IH (n / 128) ltac:(zdm) ltac:(lia)). lia.
Qed.

Lemma encode_loop_bytes k n : bytes_ok (encode_loop k n).
Proof.
  revert n. induction k as [|k IH]; intros n; simpl; [constructor|].
  pose proof (Z.mod_pos_bound n 128 ltac:(lia)) as Hm.
  destruct (digit_bits (n mod 128) Hm) as (_ & _ & _ & _ & E).
  destruct (0 <? n / 128); constructor; try done; rewrite ?E; unfold is_byte; lia.
Qed.

(** * Packet constructors *)

#[local] Arguments run_write : simpl never.
#[local] Arguments zlen : simpl never.

Lemma bytes_ok_int n : bytes_ok (int_bytes n).
Proof. unfold int_bytes. repeat (apply List.Forall_cons; [apply to_char_byte|]). constructor. Qed.

(** The bytes a PUBLISH carries after its fixed header. *)
Definition publish_body (topic : list byte) (msgId qos : Z) (payload : list byte) : list byte :=
  utf_bytes topic ++ (if 0 <? qos then int_bytes msgId else []) ++ payload.

Lemma publish_buffers_spec topic msgId qos payload :
  exists bufs frees, publish_buffers topic msgId qos payload = Some (bufs, frees) /\
    concat bufs = publish_body topic msgId qos payload /\ length bufs = length frees.
Proof.
  unfold publish_buffers, publish_body, utf_bytes.
  rewrite (writes_run _ _ 2 (writes_int (int_wrap (zlen topic)))),
    (writes_run _ _ 2 (writes_int msgId)) by done. simpl.
  destruct (0 <? qos).
  - eexists _, _. split; [reflexivity|]. simpl. by rewrite !app_nil_r, <- ?app_assoc.
  - eexists _, _. split; [reflexivity|]. simpl. by rewrite !app_nil_r.
Qed.

Lemma hdr_qos_publish dup qos retained : hdr_qos (publish_header dup qos retained) = qos mod 4.
Proof.
  unfold hdr_qos, publish_header, set_retain, set_qos.
  rewrite get_set_bits_other by lia. by rewrite get_set_bits by lia.
Qed.

#[local] Opaque utf_bytes int_bytes.

Lemma MQTTPacket_publish_body h topic msgId qos payload rest :
  zlen topic < 65536 -> 0 <= msgId < 65536 -> hdr_qos h = qos ->
  zlen (publish_body topic msgId qos payload) < 2 ^ 31 ->
  MQTTPacket_publish h (publish_body topic msgId qos payload ++ rest)
      (zlen (publish_body topic msgId qos payload)) =
    Some (Some (PPublish (MkPublish h (Some topic) (zlen topic) (if 0 <? qos then msgId else 0)
                  (payload ++ rest) (zlen payload)))).
Proof.
  intros Ht Hm Hq Hlen. unfold MQTTPacket_publish.
  pose proof (zlen_nonneg payload) as Hp. pose proof (zlen_nonneg topic) as Htp.
  set (tail := (if 0 <? qos then int_bytes msgId else []) ++ payload).
  assert (publish_body topic msgId qos payload = utf_bytes topic ++ tail) as Eb by done.
  rewrite Eb in *. rewrite zlen_app, zlen_utf_bytes in Hlen |- *.
  assert (Htl : 0 <= zlen tail) by apply zlen_nonneg.
  pose proof (readUTFlen_at [] topic (tail ++ rest) (zlen topic + 2 + zlen tail) 0 Ht) as Hr.
  rewrite zlen_utf_bytes in Hr. change (zlen []) with 0 in Hr. rewrite Z.add_0_l in Hr. rewrite app_nil_l in Hr.
  rewrite <- app_assoc, Hr by lia. simpl. rewrite Hq. unfold tail in *.
  destruct (Z.ltb_spec 0 qos) as [Hq0|Hq0].
  - pose proof (readInt_at (utf_bytes topic) msgId (payload ++ rest) Hm) as Hi.
    rewrite zlen_utf_bytes in Hi. rewrite <- app_assoc.
    rewrite Hi. simpl. rewrite zlen_app in Hlen |- *.
    rewrite zlen_int_bytes in *.
    do 2 f_equal. f_equal. f_equal.
    + rewrite (app_assoc (utf_bytes topic)).
      replace (Z.to_nat _) with (length (utf_bytes topic ++ int_bytes msgId)); [apply drop_app_length|].
      pose proof (zlen_utf_bytes topic) as E. pose proof (zlen_int_bytes msgId) as E'.
      unfold zlen in E, E'. rewrite length_app. unfold zlen. lia.
    + unfold size_wrap. rewrite Z.mod_small, int_wrap_id; unfold in_int; lia.
  - simpl. do 2 f_equal. f_equal. f_equal.
    + replace (Z.to_nat _) with (length (utf_bytes topic)); [apply drop_app_length|].
      pose proof (zlen_utf_bytes topic) as E. unfold zlen in *. lia.
    + simpl in *. unfold size_wrap. rewrite Z.mod_small, int_wrap_id; unfold in_int; lia.
Qed.

Lemma suback_loop_spec fuel data pos qs rest l :
  (length qs <= fuel)%nat -> drop (Z.to_nat pos) data = qs ++ rest -> 0 <= pos ->
  exists l', suback_loop fuel data pos (pos + zlen qs) l = Some l' /\
    LSpec.contents l' = LSpec.contents l ++ qs /\ cnt l' = cnt l + zlen qs.
Proof.
  revert fuel pos l. induction qs as [|q qs IH]; intros fuel pos l Hf Hd Hp.
  - exists l. change (zlen []) with 0. rewrite app_nil_r, !Z.add_0_r.
    destruct fuel; simpl; destruct (Z.ltb_spec pos pos); (done || lia).
  - destruct fuel as [|fuel]; simpl in Hf; [lia|]. pose proof (zlen_nonneg qs).
    rewrite zlen_cons. simpl. destruct (Z.ltb_spec pos (pos + (1 + zlen qs))); [|lia].
    unfold readChar. assert (nthz data pos = Some q) as ->.
    { unfold nthz. rewrite bool_decide_true by done.
      rewrite <- (Nat.add_0_r (Z.to_nat pos)), <- lookup_drop. by rewrite Hd. }
    simpl. destruct (IH fuel (pos + 1) (LSpec.append q 4 l)) as (l' & E & Hc & Hn); [lia| |lia|].
    { replace (Z.to_nat (pos + 1)) with (Z.to_nat pos + 1)%nat by lia.
      by rewrite <- drop_drop, Hd. }
    exists l'. replace (pos + (1 + zlen qs)) with (pos + 1 + zlen qs) by lia.
    split; [done|]. rewrite Hc, Hn. unfold LSpec.contents, LSpec.append, LSpec.append_at. simpl.
    rewrite fmap_app, <- app_assoc. split; [done|lia].
Qed.

(** * CONNECT, SUBSCRIBE and UNSUBSCRIBE buffers *)

Definition will_ok (w : willMessages) : Prop := bytes_ok (will_topic w) /\ bytes_ok (will_msg w).
Definition opt_ok (s : option (list byte)) : Prop := from_option bytes_ok True s.
Definition connect_ok (c : connect_data) : Prop :=
  bytes_ok (cd_clientID c) /\ opt_ok (cd_username c) /\ opt_ok (cd_password c) /\
  from_option will_ok True (cd_will c).

Definition opt_bytes (s : option (list byte)) : list byte := from_option utf_bytes [] s.
Definition connect_body (c : connect_data) : list byte :=
  [connect_flags c] ++ int_bytes (cd_keepAliveInterval c) ++ utf_bytes (cd_clientID c) ++
  from_option (fun w => utf_bytes (will_topic w) ++ utf_bytes (will_msg w)) [] (cd_will c) ++
  opt_bytes (cd_username c) ++ opt_bytes (cd_password c).

Lemma connect_flags_byte c : is_byte (connect_flags c).
Proof.
  unfold connect_flags.
  repeat first [apply set_bits_byte; [lia..|] | case_match]; unfold is_byte; lia.
Qed.

Lemma writes_opt s : opt_ok s -> writes (opt_write s) (opt_bytes s).
Proof. destruct s; simpl; intros; [by apply writes_utf|apply writes_nil]. Qed.

Lemma writes_connect c : connect_ok c -> writes (write_connect c) (connect_body c).
Proof.
  intros (H1 & H2 & H3 & H4). unfold write_connect, connect_body.
  apply writes_bind; [rewrite <- (to_char_id _ (connect_flags_byte c)) at 2; apply writes_char|].
  apply writes_bind; [apply writes_int|]. apply writes_bind; [by apply writes_utf|].
  apply writes_bind; [|apply writes_bind; by apply writes_opt].
  destruct (cd_will c) as [w|]; simpl; [|apply writes_nil].
  destruct H4. apply writes_bind; by apply writes_utf.
Qed.

Lemma bytes_ok_string s : bytes_ok (bytes_of_string s).
Proof.
  unfold bytes_of_string. apply Forall_fmap, Forall_true. intros a. unfold is_byte; simpl.
  pose proof (Ascii.N_ascii_bounded a). lia.
Qed.

Definition protocol_bytes (version : Z) : list byte :=
  if version =? 3 then utf_bytes (bytes_of_string "MQIsdp") ++ [3]
  else utf_bytes (bytes_of_string "MQTT") ++ [4].

Lemma writes_protocol version m :
  write_protocol version = Some m ->
  writes m (protocol_bytes version) /\ (version = 3 \/ version = 4).
Proof.
  unfold write_protocol, protocol_bytes.
  destruct (Z.eqb_spec version 3); [|destruct (Z.eqb_spec version 4); [|done]]; intros [= <-];
    (split; [|lia]); (apply writes_bind; [apply writes_utf, bytes_ok_string|]).
  - apply (writes_char 3).
  - apply (writes_char 4).
Qed.

Lemma add_utf_len_wrap s len : add_utf_len s (int_wrap len) = int_wrap (len + zlen (opt_bytes s)).
Proof.
  unfold add_utf_len, int_strlen. destruct s as [s|]; [|change (zlen _) with 0; by rewrite Z.add_0_r].
  change (opt_bytes (Some s)) with (utf_bytes s); rewrite zlen_utf_bytes. by wraps.
Qed.

Lemma connect_len_exact c version :
  version = 3 \/ version = 4 ->
  connect_len c version = int_wrap (zlen (protocol_bytes version ++ connect_body c)).
Proof.
  intros Hv. unfold connect_len, connect_body, protocol_bytes. cbv zeta.
  set (h := if version =? 3 then 12 else 10).
  assert (E : match cd_will c with
      | Some w => int_wrap (int_wrap (h + int_strlen (cd_clientID c) + 2) +
          int_wrap (int_strlen (will_topic w) + 2 + int_strlen (will_msg w) + 2))
      | None => int_wrap (h + int_strlen (cd_clientID c) + 2) end =
    int_wrap (h + zlen (cd_clientID c) + 2 + match cd_will c with Some w => zlen (utf_bytes (will_topic w) ++ utf_bytes (will_msg w)) | None => 0 end)).
  { unfold int_strlen. destruct (cd_will c) as [w|]; rewrite ?zlen_app, ?zlen_utf_bytes; by wraps. }
  rewrite E, !add_utf_len_wrap. f_equal. clear E. rewrite !zlen_app, zlen_utf_bytes. change (zlen [connect_flags c]) with 1.
  rewrite zlen_int_bytes. unfold h.
  destruct Hv as [-> | ->]; simpl; rewrite zlen_app, zlen_utf_bytes;
    (destruct (cd_will c); simpl; rewrite ?zlen_app, ?zlen_utf_bytes, ?zlen_nil); unfold zlen; simpl; lia.
Qed.

Lemma add_lens_wrap topics : forall n, add_lens topics (int_wrap n) = int_wrap (n + sum_len topics).
Proof.
  induction topics as [|t topics IH]; intros n; simpl; [by rewrite Z.add_0_r|].
  unfold int_strlen at 1. replace (int_wrap (int_wrap n + int_wrap (zlen t))) with (int_wrap (n + zlen t)) by (symmetry; wraps).
  fold (add_lens topics (int_wrap (n + zlen t))). rewrite IH. f_equal. lia.
Qed.

(** The body of a SUBSCRIBE after its message id. *)
Fixpoint topics_bytes (topics : list (list byte)) (qoss : list Z) : list byte :=
  match topics, qoss with
  | t :: ts, q :: qs => utf_bytes t ++ [to_char q] ++ topics_bytes ts qs
  | _, _ => []
  end.

Lemma writes_topics topics qoss :
  Forall bytes_ok topics -> length topics = length qoss ->
  writes (write_topics topics qoss) (topics_bytes topics qoss) /\
  zlen (topics_bytes topics qoss) = zlen topics * 3 + sum_len topics.
Proof.
  intros Ht. revert qoss. induction Ht as [|t ts Hb Ht IH]; intros [|q qs] Hl; simplify_eq/=.
  { split; [apply writes_nil|done]. }
  destruct (IH qs Hl) as [H1 H2]. split.
  - apply writes_bind; [by apply writes_utf|]. apply (writes_bind _ _ [_]); [apply writes_char|done].
  - rewrite zlen_app, zlen_utf_bytes, !zlen_cons, H2. lia.
Qed.

Lemma writes_utfs topics :
  Forall bytes_ok topics ->
  writes (write_utfs topics) (topics ≫= utf_bytes) /\
  zlen (topics ≫= utf_bytes) = zlen topics * 2 + sum_len topics.
Proof.
  induction 1 as [|t ts Hb Ht [H1 H2]]; csimpl; [split; [apply writes_nil|done]|]. split.
  - apply writes_bind; [by apply writes_utf|done].
  - rewrite zlen_app, zlen_utf_bytes, zlen_cons, H2. lia.
Qed.

Lemma readInt_take data pos datalen :
  pos + 2 <= datalen -> datalen <= zlen data -> 0 <= pos ->
  exists n, readInt data pos = Some (n, pos + 2).
Proof.
  intros. unfold readInt.
  destruct (nthz_is_Some data pos ltac:(lia)) as [a ->].
  destruct (nthz_is_Some data (pos + 1) ltac:(lia)) as [b ->]. simpl. eauto.
Qed.

Lemma readInt_byte data pos n pos' :
  bytes_ok data -> readInt data pos = Some (n, pos') -> 0 <= n < 65536 /\ pos' = pos + 2.
Proof.
  intros Hb. unfold readInt.
  destruct (nthz data pos) as [a|] eqn:Ea; simpl; [|done].
  destruct (nthz data (pos + 1)) as [b|] eqn:Eb; simpl; [|done]. intros [= <- <-].
  assert (forall i x, nthz data i = Some x -> is_byte x) as Hnb.
  { intros i x. unfold nthz. case_bool_decide; [|done]. rewrite Forall_lookup in Hb. apply Hb. }
  pose proof (Hnb _ _ Ea). pose proof (Hnb _ _ Eb). unfold is_byte in *. lia.
Qed.

(** A string read stays inside the packet. *)
Lemma readUTFlen_bounds data pos enddata len0 :
  bytes_ok data -> 0 <= pos -> pos <= enddata -> enddata <= zlen data ->
  exists s len pos', readUTFlen data pos enddata len0 = Some (s, len, pos') /\
    match s with
    | Some str => zlen str = len /\ pos' = pos + 2 + len /\ pos' <= enddata /\ 0 <= len
    | None => True
    end.
Proof.
  intros Hb Hp Hpe He. unfold readUTFlen.
  destruct (Z.ltb_spec 1 (enddata - pos)); [|by eexists _, _, _].
  destruct (readInt_take data pos enddata) as [n E]; [lia..|]. rewrite E. simpl.
  destruct (readInt_byte _ _ _ _ Hb E) as [Hn _].
  destruct (Z.leb_spec (pos + 2 + n) enddata); [|by eexists _, _, _].
  unfold subz. rewrite bool_decide_true by lia. simpl. eexists _, _, _. split; [done|]. simpl.
  unfold zlen in *. rewrite length_take, length_drop. lia.
Qed.

(** * Properties *)

(** The header bytes the client sends decode to the fields they were built
    from: PUBLISH carries its flags, and of the acknowledgements only PUBREL
    has the QoS bits 01 that the protocol requires. *)
Theorem header_fields type dup qos retained :
  let p := publish_header dup qos retained in
  let a := ack_header_byte type dup in
  is_byte p /\ hdr_type p = PUBLISH /\ hdr_dup p = dup mod 2 /\ hdr_qos p = qos mod 4 /\
  hdr_retain p = retained mod 2 /\
  is_byte a /\ hdr_type a = type mod 16 /\ hdr_dup a = dup mod 2 /\
  hdr_qos a = (if type =? PUBREL then 1 else 0) /\ hdr_retain a = 0.
Proof.
  assert (H0 : is_byte 0) by (unfold is_byte; lia).
  unfold publish_header, ack_header_byte, set_retain, set_qos, set_dup, set_type,
    hdr_type, hdr_dup, hdr_qos, hdr_retain. simpl.
  destruct (type =? PUBREL); split_and!;
    repeat (apply set_bits_byte; [lia..|]); try done;
    repeat (rewrite get_set_bits_other by lia); by rewrite ?get_set_bits by lia.
Qed.

(** [C31] The remaining-length code round-trips: decoding the bytes of an
    encoded length, delivered one by one by the socket, reads exactly these
    bytes and returns the length, for every length the protocol allows. *)
Theorem MQTTPacket_decode_encode {S} (getch : M S (Z * byte)) n s s' :
  0 <= n < 128 ^ 4 -> yields getch s (MQTTPacket_encode n) s' ->
  MQTTPacket_decode getch s = Some ((TCPSOCKET_COMPLETE, n), s').
Proof.
  intros Hn Hy. unfold MQTTPacket_encode in Hy.
  rewrite (encode_loop_more 4 n) in Hy by (done || lia).
  unfold MQTTPacket_decode. by rewrite (decode_loop_encode getch 4 n s s'), Z.mul_1_r by (done || lia).
Qed.

(** A socket that delivers the bytes of a list. *)
Definition list_getch : M (list byte) (Z * byte) := fun l =>
  match l with c :: l' => Some ((TCPSOCKET_COMPLETE, c), l') | [] => Some ((TCPSOCKET_INTERRUPTED, 0), []) end.

Lemma list_getch_yields bs rest : yields list_getch (bs ++ rest) bs rest.
Proof. induction bs as [|b bs IH]; [constructor|]. by econstructor. Qed.

Example MQTTPacket_decode_encode_witness :
  MQTTPacket_decode list_getch (MQTTPacket_encode 2097152 ++ [7]) = Some ((0, 2097152), [7]).
Proof.
  apply (MQTTPacket_decode_encode list_getch 2097152 _ [7]).
  - lia.
  - apply list_getch_yields.
Defined.

(** [C32] Bounds of the remaining-length code: a length the protocol allows takes
    one to four bytes, every [size_t] below 2^63 fits the nine bytes left in
    the ten-byte header buffer, and a longer length than the protocol allows
    is encoded all the same but refused by the decoder. *)
Theorem MQTTPacket_encode_bounds {S} (getch : M S (Z * byte)) n s s' :
  0 <= n -> yields getch s (MQTTPacket_encode n) s' ->
  bytes_ok (MQTTPacket_encode n) /\
  (n < 128 ^ 4 -> 1 <= zlen (MQTTPacket_encode n) <= 4) /\
  (n < 2 ^ 63 -> zlen (MQTTPacket_encode n) <= 9) /\
  (128 ^ 4 <= n -> exists v s1, MQTTPacket_decode getch s = Some ((SOCKET_ERROR, v), s1)).
Proof.
  intros Hn Hy. unfold MQTTPacket_encode in *. split_and!.
  - apply encode_loop_bytes.
  - intros. rewrite (encode_loop_more 4) by (simpl; lia). apply encode_loop_len; lia.
  - intros. rewrite (encode_loop_more 9) by (simpl; lia). apply encode_loop_len; lia.
  - intros. eapply (decode_loop_too_long getch 10 n s s'); (done || lia).
Qed.

Example MQTTPacket_encode_bounds_witness :
  exists v s1, MQTTPacket_decode list_getch (MQTTPacket_encode 268435456 ++ []) = Some ((SOCKET_ERROR, v), s1).
Proof.
  destruct (MQTTPacket_encode_bounds list_getch 268435456 (MQTTPacket_encode 268435456 ++ []) [])
    as (_ & _ & _ & H); [lia|apply list_getch_yields|].
  apply H. lia.
Defined.

(** [C30] A PUBLISH round-trips: the buffers the client sends for a message,
    parsed by the PUBLISH constructor with the length that was announced,
    give back the topic, the message id (for QoS 1 and 2) and the payload,
    whatever bytes follow in memory. *)
Theorem publish_roundtrip topic msgId dup qos retained payload rest :
  zlen topic < 65536 -> 0 <= msgId < 65536 -> 0 <= qos <= 2 ->
  zlen (publish_body topic msgId qos payload) < 2 ^ 31 ->
  exists bufs frees, publish_buffers topic msgId qos payload = Some (bufs, frees) /\
    MQTTPacket_publish (publish_header dup qos retained) (concat bufs ++ rest) (zlen (concat bufs)) =
    Some (Some (PPublish (MkPublish (publish_header dup qos retained) (Some topic) (zlen topic)
       (if 0 <? qos then msgId else 0) (payload ++ rest) (zlen payload)))).
Proof.
  intros Ht Hm Hq Hl. destruct (publish_buffers_spec topic msgId qos payload) as (bufs & frees & E & Eb & _).
  exists bufs, frees. split; [done|]. rewrite Eb. apply MQTTPacket_publish_body; try done.
  rewrite hdr_qos_publish. apply Z.mod_small. lia.
Qed.

Example publish_roundtrip_witness :
  exists bufs frees, publish_buffers [97; 47; 98] 513 2 [1; 2; 3] = Some (bufs, frees) /\
    MQTTPacket_publish 0x35 (concat bufs ++ [9]) (zlen (concat bufs)) =
    Some (Some (PPublish (MkPublish 0x35 (Some [97; 47; 98]) 3 513 ([1; 2; 3] ++ [9]) 3))).
Proof.
  apply (publish_roundtrip [97; 47; 98] 513 0 2 1 [1; 2; 3] [9]);
    apply (bool_decide_unpack _); vm_compute; done.
Defined.

(** [C38] What the PUBLISH constructor guarantees about an arbitrary packet of
    [datalen] bytes: a topic that was accepted lies inside the packet and the
    recorded payload length is what is left of it, at least -2; it is negative
    exactly when a QoS 1 or 2 packet ends before its message id. *)
Theorem MQTTPacket_publish_bounds h data datalen p :
  bytes_ok data -> 0 <= datalen < 2 ^ 31 -> datalen <= zlen data ->
  MQTTPacket_publish h data datalen = Some (Some (PPublish p)) ->
  exists topic, pb_topic p = Some topic /\ zlen topic = pb_topiclen p /\
    2 + pb_topiclen p <= datalen /\ 0 <= pb_msgId p < 65536 /\
    pb_payloadlen p = datalen - (2 + pb_topiclen p) - (if 0 <? hdr_qos h then 2 else 0) /\
    -2 <= pb_payloadlen p.
Proof.
  intros Hb Hd Hl. unfold MQTTPacket_publish.
  destruct (readUTFlen_bounds data 0 datalen 0 Hb) as (s & len & pos' & -> & Hs); [lia..|]. simpl.
  destruct s as [topic|]; [|done]. destruct Hs as (Hz & -> & Hle & Hge).
  assert (Hw : forall k, 0 <= k <= 2 -> int_wrap (size_wrap (datalen - (0 + 2 + len + k))) =
    datalen - (2 + len) - k).
  { intros k Hk. unfold int_wrap, size_wrap.
    destruct (Z.leb_spec 0 (datalen - (0 + 2 + len + k))).
    - rewrite (Z.mod_small _ (2 ^ 64)) by lia. rewrite Z.mod_small; lia.
    - rewrite <- (Z.mod_unique (datalen - (0 + 2 + len + k)) (2 ^ 64) (-1)
        (datalen - (0 + 2 + len + k) + 2 ^ 64)) by lia.
      rewrite <- (Z.mod_unique (datalen - (0 + 2 + len + k) + 2 ^ 64 + 2 ^ 31) (2 ^ 32) (2 ^ 32)
        (datalen - (0 + 2 + len + k) + 2 ^ 31)) by lia. lia. }
  destruct (0 <? hdr_qos h) eqn:Eq.
  - destruct (readInt data _) as [[m pos]|] eqn:Em; simpl; [|done].
    destruct (readInt_byte _ _ _ _ Hb Em) as [Hm ->]. intros [= <-]. simpl.
    exists topic. rewrite (Hw 2) by lia. split_and!; try done; lia.
  - intros [= <-]. simpl. exists topic. specialize (Hw 0). rewrite Z.add_0_r in Hw.
    rewrite Hw by lia. split_and!; try done; lia.
Qed.

Example MQTTPacket_publish_bounds_witness :
  exists p, MQTTPacket_publish 0x32 [0; 1; 97; 0; 0] 3 = Some (Some (PPublish p)) /\ pb_payloadlen p = -2.
Proof.
  eexists. split; [vm_compute; reflexivity|].
  destruct (MQTTPacket_publish_bounds 0x32 [0; 1; 97; 0; 0] 3 (MkPublish 50 (Some [97]) 1 0 [] (-2)))
    as (t & _ & _ & _ & _ & E & _).
  - apply (bool_decide_unpack _). vm_compute. done.
  - lia.
  - vm_compute. discriminate.
  - vm_compute. reflexivity.
  - exact E.
Defined.

(** [C34] CONNECT: for both protocol versions the length the code allocates is
    exactly what it writes as long as the sum of the lengths is in the range of
    [int], so the buffer neither overflows nor keeps uninitialised bytes, and its
    contents are the protocol name and level, the flags, the keep-alive interval
    and the fields in the order of the protocol.  When the sum is larger, the
    [int] has wrapped around and the code writes out of the bounds of the buffer.
    Another version is refused. *)
Theorem MQTTPacket_send_connect_buffer client version :
  connect_ok client ->
  match write_protocol version with
  | Some m => (version = 3 \/ version = 4) /\
      let bs := protocol_bytes version ++ connect_body client in
      run_write (connect_len client version) (m;; write_connect client) =
      if bool_decide (zlen bs < 2 ^ 31) then Some bs else None
  | None => version <> 3 /\ version <> 4
  end.
Proof.
  intros Hc. destruct (write_protocol version) as [m|] eqn:E.
  - apply writes_protocol in E as [Hm Hv]. split; [done|]. cbv zeta. rewrite connect_len_exact by done. apply run_write_wrapped.
    + apply writes_bind; [done|by apply writes_connect].
    + unfold protocol_bytes. destruct (version =? 3); rewrite !zlen_app; change (zlen [3]) with 1; change (zlen [4]) with 1;
        pose proof (zlen_nonneg (connect_body client)); rewrite zlen_utf_bytes; pose proof (zlen_nonneg (bytes_of_string "MQIsdp"));
        pose proof (zlen_nonneg (bytes_of_string "MQTT")); lia.
  - unfold write_protocol in E. destruct (Z.eqb_spec version 3); [done|].
    by destruct (Z.eqb_spec version 4).
Qed.

Example MQTTPacket_send_connect_buffer_witness :
  let c := ConnectData [100] (Some [117]) (Some [112]) 1 60 (Some (Will [116] [109] 1 2)) in
  match write_protocol 4 with
  | Some m => run_write (connect_len c 4) (m;; write_connect c) =
      Some [0; 4; 77; 81; 84; 84; 4; 0xF6; 0; 60; 0; 1; 100; 0; 1; 116; 0; 1; 109; 0; 1; 117; 0; 1; 112]
  | None => False
  end.
Proof.
  assert (connect_ok (ConnectData [100] (Some [117]) (Some [112]) 1 60 (Some (Will [116] [109] 1 2)))) as H.
  { split_and!; apply (bool_decide_unpack _); vm_compute; done. }
  apply (proj2 (MQTTPacket_send_connect_buffer _ 4 H)).
Defined.

(** [C35] SUBSCRIBE and UNSUBSCRIBE buffers are exactly filled when the sum of the
    lengths is in the range of [int]: message id, then each topic as a
    length-prefixed string, followed by its QoS in a SUBSCRIBE.  When the sum is
    larger the code writes out of the bounds of the buffer. *)
Theorem MQTTPacket_subscribe_buffers topics qoss msgid :
  Forall bytes_ok topics -> length topics = length qoss ->
  let sub := int_bytes msgid ++ topics_bytes topics qoss in
  let unsub := int_bytes msgid ++ (topics ≫= utf_bytes) in
  run_write (subscribe_len topics) (write_subscribe topics qoss msgid) =
    (if bool_decide (zlen sub < 2 ^ 31) then Some sub else None) /\
  run_write (unsubscribe_len topics) (write_unsubscribe topics msgid) =
    (if bool_decide (zlen unsub < 2 ^ 31) then Some unsub else None).
Proof.
  intros Ht Hl sub unsub. destruct (writes_topics topics qoss Ht Hl) as [H1 H2].
  destruct (writes_utfs topics Ht) as [H3 H4]. unfold subscribe_len, unsubscribe_len. rewrite !add_lens_wrap.
  assert (E1 : 2 + zlen topics * 3 + sum_len topics = zlen sub).
  { unfold sub. rewrite zlen_app, zlen_int_bytes, H2. lia. }
  assert (E2 : 2 + zlen topics * 2 + sum_len topics = zlen unsub).
  { unfold unsub. rewrite zlen_app, zlen_int_bytes, H4. lia. }
  rewrite E1, E2. split; apply run_write_wrapped; try (unfold sub, unsub; rewrite zlen_app, zlen_int_bytes;
    match goal with |- 0 < 2 + zlen ?l => pose proof (zlen_nonneg l); lia end).
  - apply writes_bind; [apply writes_int|done].
  - apply writes_bind; [apply writes_int|done].
Qed.

Example MQTTPacket_subscribe_buffers_witness :
  run_write (subscribe_len [[97]; [98; 99]]) (write_subscribe [[97]; [98; 99]] [1; 2] 258) =
    Some [1; 2; 0; 1; 97; 1; 0; 2; 98; 99; 2].
Proof.
  apply (proj1 (MQTTPacket_subscribe_buffers [[97]; [98; 99]] [1; 2] 258
    ltac:(apply (bool_decide_unpack _); vm_compute; done) eq_refl)).
Defined.

(** [C33] Acknowledgements: the message id the client sends is read back by the
    ack constructor, and SUBACK returns exactly the granted QoS bytes in
    order. *)
Theorem ack_suback_roundtrip h msgId qs rest :
  0 <= msgId < 65536 ->
  MQTTPacket_ack h (int_bytes msgId ++ rest) 2 = Some (Some (PAck (MkAck h msgId))) /\
  exists l, MQTTPacket_suback h (int_bytes msgId ++ qs ++ rest) (2 + zlen qs) =
      Some (Some (PSuback (MkSuback h msgId l))) /\
    LSpec.contents l = qs /\ cnt l = zlen qs.
Proof.
  intros Hm. pose proof (readInt_at [] msgId) as Hr. change (zlen []) with 0 in Hr. split.
  - unfold MQTTPacket_ack. specialize (Hr rest Hm). rewrite app_nil_l in Hr. by rewrite Hr.
  - unfold MQTTPacket_suback. specialize (Hr (qs ++ rest) Hm). rewrite app_nil_l in Hr. rewrite Hr.
    cbn [mbind option_bind fst snd]. change (0 + 2) with 2.
    destruct (suback_loop_spec (Z.to_nat (2 + zlen qs)) (int_bytes msgId ++ qs ++ rest) 2 qs rest
      LSpec.empty) as (l & E & Hc & Hn); [unfold zlen; lia| |lia|].
    + change (Z.to_nat 2) with (length (int_bytes msgId)). apply drop_app_length.
    + rewrite E. simpl. eauto.
Qed.

Example ack_suback_roundtrip_witness :
  MQTTPacket_ack 0x40 [1; 44; 7] 2 = Some (Some (PAck (MkAck 0x40 300))).
Proof. apply (ack_suback_roundtrip 0x40 300 [] [7]). lia. Defined.

(** The ack constructors do not look at the packet length: with an empty
    packet they read past its end. *)
Theorem MQTTPacket_ack_reads_past_end h :
  MQTTPacket_ack h [] 0 = None /\ MQTTPacket_connack h [] 0 = None /\
  forall b c, MQTTPacket_ack h [b; c] 0 = Some (Some (PAck (MkAck h (256 * b + c)))).
Proof. done. Qed.

End Packet.
