(* ===== verification/SocketBuffer.v ===== *)
(** Model of [lib/SocketBuffer.c]: the per-socket input queues that make
    non-blocking reads resumable, and the queue of interrupted writes.

    [socket_queue] and [pending_writes] structures live in stores indexed by
    their addresses; the lists hold the addresses.  A queue's [buf] is the
    bytes allocated for it.  Memory that [malloc] returns is arbitrary: the
    fields the code does not initialise come from the section variable
    [junk]. *)
From S2P Require Import Prelude ListSpec Packet.

Module SocketBuffer.
Import Packet.

Record socket_queue := SQ {
  q_socket : Z; q_index : Z; q_headerlen : Z; q_fixed_header : list byte;
  q_buflen : Z; q_datalen : Z; q_buf : list byte }.

(** The [iovecs] are the buffers themselves; [frees] says which are freed when
    the write completes.  The build without OpenSSL has no [ssl] field. *)
Record pending_writes := PW {
  pw_socket : Z; pw_count : Z; pw_total : Z; pw_bytes : Z;
  pw_iovecs : list (list byte); pw_frees : list Z }.

Record sbuf := SBuf {
  sq : gmap loc socket_queue;      (* allocated queues *)
  def_queue : loc;
  queues : clist loc;
  pws : gmap loc pending_writes;   (* allocated pending writes *)
  writes : clist loc }.

Definition set_sq h s := SBuf h (def_queue s) (queues s) (pws s) (writes s).
Definition set_def_queue q s := SBuf (sq s) q (queues s) (pws s) (writes s).
Definition set_queues l s := SBuf (sq s) (def_queue s) l (pws s) (writes s).
Definition set_pws h s := SBuf (sq s) (def_queue s) (queues s) h (writes s).
Definition set_writes l s := SBuf (sq s) (def_queue s) (queues s) (pws s) l.

Definition SOCKETBUFFER_COMPLETE : Z := 0.
Definition SOCKETBUFFER_INTERRUPTED : Z := -22.

Section code.
(** Contents of freshly allocated memory. *)
Variable junk : socket_queue.

Abbreviation C := (M sbuf).

Definition load_queue (q : loc) : C socket_queue := load (fun s => sq s !! q).
Definition update_queue (q : loc) (f : socket_queue -> socket_queue) : C unit :=
  fun s => v ← sq s !! q; Some (tt, set_sq (<[q := f v]> (sq s)) s).
Definition free_queue (q : loc) : C unit :=
  fun s => _ ← sq s !! q; Some (tt, set_sq (delete q (sq s)) s).

(** [socketcompare], on the queue an element points to. *)
Definition socketcompare (s : sbuf) (socket : Z) (q : loc) : bool :=
  match sq s !! q with Some v => q_socket v =? socket | None => false end.

(** [ListFindItem(queues, &socket, socketcompare)], returning the content of
    the element found; the list remembers it as current. *)
Definition find_queue (socket : Z) : C (option loc) := fun s =>
  let '(r, l) := LSpec.find_item (socketcompare s socket) (queues s) in
  Some (match r with Some a => LSpec.elem_content l a | None => None end, set_queues l s).

Definition SocketBuffer_newDefQ : C unit := fun s =>
  let q := fresh (dom (sq s)) in
  Some (tt, set_def_queue q (set_sq
    (<[q := SQ 0 0 (q_headerlen junk) (q_fixed_header junk) 0 0 (replicate 1000 0)]> (sq s)) s)).

Definition SocketBuffer_initialize : C unit :=
  SocketBuffer_newDefQ;;
  modify (set_queues LSpec.empty);;
  modify (set_writes LSpec.empty).

(** Freeing the queue also frees its buffer. *)
Definition SocketBuffer_freeDefQ : C unit :=
  q ← gets def_queue; free_queue q.

Definition SocketBuffer_terminate : C unit :=
  modify (fun s => set_pws (foldr delete (pws s) (LSpec.contents (writes s))) (set_writes LSpec.empty s));;
  modify (fun s => set_sq (foldr delete (sq s) (LSpec.contents (queues s))) (set_queues LSpec.empty s));;
  SocketBuffer_freeDefQ.

Definition SocketBuffer_cleanup (socket : Z) : C unit :=
  r ← find_queue socket;
  (match r with
   | Some q => modify (fun s => set_queues (LSpec.unlink (fun x => bool_decide (x = q)) (queues s)).2 s);;
               free_queue q
   | None => mret tt
   end);;
  d ← gets def_queue;
  v ← load_queue d;
  when (q_socket v =? socket)
    (update_queue d (fun v => SQ 0 0 0 (q_fixed_header v) (q_buflen v) 0 (q_buf v))).

(** [realloc]: the common prefix is kept. *)
Definition realloc (buf : list byte) (n : Z) : list byte :=
  take (Z.to_nat n) (buf ++ replicate (Z.to_nat n) 0).

(** The returned buffer is that of the queue returned. *)
Definition SocketBuffer_getQueuedData (socket bytes : Z) : C (loc * Z) :=
  r ← find_queue socket;
  ql ← (match r with
        | Some q => v ← load_queue q; mret (q, q_datalen v)
        | None => d ← gets def_queue; mret (d, 0)
        end);
  let '(queue, actual_len) := (ql : loc * Z) in
  v ← load_queue queue;
  when (q_buflen v <? bytes)
    (update_queue queue (fun v =>
       SQ (q_socket v) (q_index v) (q_headerlen v) (q_fixed_header v) bytes (q_datalen v)
          (if 0 <? q_datalen v
           then take (Z.to_nat (q_datalen v)) (q_buf v) ++ replicate (Z.to_nat (bytes - q_datalen v)) 0
           else realloc (q_buf v) bytes)));;
  mret (queue, actual_len).

(** The code and the character, when there is one. *)
Definition SocketBuffer_getQueuedChar (socket : Z) : C (Z * byte) :=
  r ← find_queue socket;
  match r with
  | Some q =>
      v ← load_queue q;
      if q_index v <? q_headerlen v then
        c ← load (fun _ => nthz (q_fixed_header v) (q_index v));
        update_queue q (fun v => SQ (q_socket v) (uint_wrap (q_index v + 1)) (q_headerlen v)
                                    (q_fixed_header v) (q_buflen v) (q_datalen v) (q_buf v));;
        mret (SOCKETBUFFER_COMPLETE, c)
      else if 4 <? q_index v then mret (SOCKET_ERROR, 0)
      else mret (SOCKETBUFFER_INTERRUPTED, 0)
  | None => mret (SOCKETBUFFER_INTERRUPTED, 0)
  end.

Definition SocketBuffer_interrupted (socket actual_len : Z) : C unit :=
  r ← find_queue socket;
  q ← (match r with
       | Some q => mret q
       | None =>
           d ← gets def_queue;
           v ← load_queue d;
           modify (fun s => set_queues (LSpec.append d (48 + q_buflen v) (queues s)) s);;
           SocketBuffer_newDefQ;;
           mret d
       end);
  update_queue q (fun v => SQ (q_socket v) 0 (q_headerlen v) (q_fixed_header v) (q_buflen v)
                              actual_len (q_buf v)).

Definition SocketBuffer_complete (socket : Z) : C loc :=
  r ← find_queue socket;
  (match r with
   | Some q =>
       SocketBuffer_freeDefQ;;
       modify (set_def_queue q);;
       modify (fun s => set_queues (LSpec.unlink (fun x => bool_decide (x = q)) (queues s)).2 s)
   | None => mret tt
   end);;
  d ← gets def_queue;
  update_queue d (fun v => SQ 0 0 0 (q_fixed_header v) (q_buflen v) 0 (q_buf v));;
  mret d.

Definition SocketBuffer_queueChar (socket : Z) (c : byte) : C unit :=
  d ← gets def_queue;
  r ← find_queue socket;
  dv ← load_queue d;
  (* curq and error *)
  ce ← (match r with
        | Some q => mret (q, false)
        | None =>
            if q_socket dv =? 0 then
              update_queue d (fun v => SQ socket 0 (q_headerlen v) (q_fixed_header v) (q_buflen v) 0 (q_buf v));;
              mret (d, false)
            else if negb (q_socket dv =? socket) then mret (d, true)
            else mret (d, false)
        end);
  let '(curq, error) := (ce : loc * bool) in
  v ← load_queue curq;
  let error := error || (4 <? q_index v) in
  when (negb error)
    (update_queue curq (fun v =>
       SQ (q_socket v) (q_index v + 1) (q_index v + 1)
          (<[Z.to_nat (q_index v) := c]> (q_fixed_header v)) (q_buflen v) (q_datalen v) (q_buf v))).

(** * Interrupted writes *)

Definition SocketBuffer_pendingWrite (socket count : Z) (iovecs : list (list byte)) (frees : list Z)
    (total bytes : Z) : C unit := fun s =>
  let p := fresh (dom (pws s)) in
  Some (tt, set_writes (LSpec.append p (8 + total) (writes s))
              (set_pws (<[p := PW socket count total bytes (take (Z.to_nat count) iovecs)
                                  (take (Z.to_nat count) frees)]> (pws s)) s)).

Definition pending_socketcompare (s : sbuf) (socket : Z) (p : loc) : bool :=
  match pws s !! p with Some v => pw_socket v =? socket | None => false end.

Definition SocketBuffer_getWrite (socket : Z) : C (option loc) := fun s =>
  let '(r, l) := LSpec.find_item (pending_socketcompare s socket) (writes s) in
  Some (match r with Some a => LSpec.elem_content l a | None => None end, set_writes l s).

(** Removal frees the structure. *)
Definition SocketBuffer_writeComplete (socket : Z) : C bool := fun s =>
  let '(r, l) := LSpec.unlink (pending_socketcompare s socket) (writes s) in
  match r with
  | Some p => Some (true, set_writes l (set_pws (delete p (pws s)) s))
  | None => Some (false, set_writes l s)
  end.

Definition SocketBuffer_updateWrite (socket : Z) (topic payload : list byte) : C (option loc) :=
  r ← SocketBuffer_getWrite socket;
  match r with
  | None => mret None
  | Some p =>
      v ← load (fun s => pws s !! p);
      when (pw_count v =? 4)
        (modify (fun s => set_pws (<[p := PW (pw_socket v) (pw_count v) (pw_total v) (pw_bytes v)
            (<[3%nat := payload]> (<[2%nat := topic]> (pw_iovecs v))) (pw_frees v)]> (pws s)) s));;
      mret (Some p)
  end.

End code.
End SocketBuffer.
