(* ===== verification/Socket.v ===== *)
(** Model of [lib/Socket.c]: the set of sockets that [select] watches, reading
    and writing without blocking, and the completion of interrupted writes.

    The operating system is the parameter [Kernel]: the system calls the code
    makes, with their results.  [KernelLaws] states what the code relies on:
    [recv] and [writev] move a prefix of a byte stream, one [writev] transfers at
    most [0x7ffff000] bytes (as Linux documents), and the other calls leave the
    input of other sockets alone.  A scripted kernel is an instance. *)
From S2P Require Import Prelude ListSpec Packet SocketBuffer.

(** * System calls *)

(** The result of a system call: [-1] with the value of [errno], or success. *)
Inductive sysret (A : Type) := SysErr (errno : Z) | SysOk (a : A).
Arguments SysErr {A} _.
Arguments SysOk {A} _.

Class Kernel (K : Type) := {
  (** [recv(sock, buf, n, 0)]: the bytes received. *)
  k_recv : Z -> Z -> K -> sysret (list byte) * K;
  (** [writev(sock, iovecs, count)]: the number of bytes written. *)
  k_writev : Z -> list (list byte) -> K -> sysret Z * K;
  (** [select(maxfdp1, rset, wset, NULL, timeout)]: the sets are overwritten. *)
  k_select : Z -> gset Z -> gset Z -> Z -> K -> (sysret Z * gset Z * gset Z) * K;
  (** [fcntl(sock, F_GETFL, 0)] and [fcntl(sock, F_SETFL, flags | O_NONBLOCK)]. *)
  k_getfl : Z -> K -> Z * K;
  k_setfl_nonblock : Z -> Z -> K -> sysret Z * K;
  k_shutdown : Z -> K -> sysret unit * K;
  k_close : Z -> K -> sysret unit * K;
  (** [getaddrinfo]: the error code, and the families and addresses found. *)
  k_getaddrinfo : list byte -> K -> (Z * list (Z * list byte)) * K;
  k_socket : Z -> K -> sysret Z * K;
  (** [connect(sock, address)], with the family, address and port. *)
  k_connect : Z -> Z -> list byte -> Z -> K -> sysret unit * K;
  (** [getsockopt(sock, SOL_SOCKET, SO_ERROR)]. *)
  k_getsockopt_error : Z -> K -> sysret Z * K;
  (** [time], in seconds, and [gettimeofday], in microseconds. *)
  k_time : K -> Z * K;
  k_gettimeofday : K -> Z * K
}.

(** What the code relies on.  [k_in sock] is what the peer has sent or will
    send on a socket, [k_out sock] what has been accepted for it. *)
Class KernelLaws (K : Type) `{Kernel K} := {
  k_in : Z -> K -> list byte;
  k_out : Z -> K -> list byte;
  k_recv_in : forall sock n k r k', k_recv sock n k = (r, k') ->
    match r with
    | SysOk bs => zlen bs <= Z.max 0 n /\ k_in sock k = bs ++ k_in sock k'
    | SysErr _ => k_in sock k' = k_in sock k
    end /\
    (forall s, s <> sock -> k_in s k' = k_in s k) /\ (forall s, k_out s k' = k_out s k);
  k_writev_out : forall sock bufs k r k', k_writev sock bufs k = (r, k') ->
    match r with
    | SysOk n => 0 <= n <= zlen (concat bufs) /\ n < 2 ^ 31 /\
        k_out sock k' = k_out sock k ++ take (Z.to_nat n) (concat bufs)
    | SysErr _ => k_out sock k' = k_out sock k
    end /\
    (forall s, s <> sock -> k_out s k' = k_out s k) /\ (forall s, k_in s k' = k_in s k);
  k_select_in : forall m rs ws t k s, k_in s (k_select m rs ws t k).2 = k_in s k;
  k_time_in : forall k s, k_in s (k_time k).2 = k_in s k;
  k_gettimeofday_in : forall k s, k_in s (k_gettimeofday k).2 = k_in s k;
  k_shutdown_in : forall sock k s, s <> sock -> k_in s (k_shutdown sock k).2 = k_in s k;
  k_close_in : forall sock k s, s <> sock -> k_in s (k_close sock k).2 = k_in s k
}.

(** * A scripted kernel

    Each system call on a stream takes the next entry of the script: how many
    bytes move, or [EAGAIN] for zero (and when the script is over), or the
    negated error number.  [select] reports every socket ready; closing a
    socket discards its streams; a look at the clock takes a second, until the
    clock stops. *)
Record skernel := SKernel {
  sk_in : gmap Z (list byte); sk_out : gmap Z (list byte); sk_script : list Z; sk_clock : Z }.

Definition sk_stream (m : gmap Z (list byte)) (s : Z) : list byte := default [] (m !! s).

Definition sk_recv (sock n : Z) (k : skernel) : sysret (list byte) * skernel :=
  match sk_script k with
  | c :: script =>
      if 0 <? c then
        let m := Z.to_nat (Z.min c n) in
        let i := sk_stream (sk_in k) sock in
        (SysOk (take m i), SKernel (<[sock := drop m i]> (sk_in k)) (sk_out k) script (sk_clock k))
      else (SysErr (if c =? 0 then 11 else - c), SKernel (sk_in k) (sk_out k) script (sk_clock k))
  | [] => (SysErr 11, k)
  end.

Definition sk_writev (sock : Z) (bufs : list (list byte)) (k : skernel) : sysret Z * skernel :=
  match sk_script k with
  | c :: script =>
      if 0 <? c then
        let bs := take (Z.to_nat (Z.min c 0x7ffff000)) (concat bufs) in
        (SysOk (zlen bs),
         SKernel (sk_in k) (<[sock := sk_stream (sk_out k) sock ++ bs]> (sk_out k)) script (sk_clock k))
      else (SysErr (if c =? 0 then 11 else - c), SKernel (sk_in k) (sk_out k) script (sk_clock k))
  | [] => (SysErr 11, k)
  end.

Definition sk_end : Z := 2 ^ 40.
Definition sk_now (k : skernel) : Z := 1000000 * Z.min sk_end (Z.max 0 (sk_clock k)).

#[export] Instance skernel_kernel : Kernel skernel := {|
  k_recv := sk_recv;
  k_writev := sk_writev;
  k_select _ rs ws _ k := (SysOk (Z.of_nat (size rs) + Z.of_nat (size ws)), rs, ws, k);
  k_getfl _ k := (2, k);
  k_setfl_nonblock _ _ k := (SysOk 0, k);
  k_shutdown _ k := (SysOk tt, k);
  k_close s k := (SysOk tt, SKernel (delete s (sk_in k)) (delete s (sk_out k)) (sk_script k) (sk_clock k));
  k_getaddrinfo a k := (0, [(2, a)], k);
  k_socket _ k := (SysOk 5, k);
  k_connect _ _ _ _ k := (SysOk tt, k);
  k_getsockopt_error _ k := (SysOk 0, k);
  k_time k := (sk_clock k, k);
  k_gettimeofday k := (sk_now k, SKernel (sk_in k) (sk_out k) (sk_script k) (Z.max 0 (sk_clock k) + 1))
|}.

Lemma sk_stream_insert m s bs t : sk_stream (<[s := bs]> m) t = if decide (s = t) then bs else sk_stream m t.
Proof. unfold sk_stream. case_decide as E; [subst; by rewrite lookup_insert_eq|by rewrite lookup_insert_ne]. Qed.

#[export, refine] Instance skernel_laws : KernelLaws skernel := {|
  k_in s k := sk_stream (sk_in k) s;
  k_out s k := sk_stream (sk_out k) s
|}.
Proof.
  - intros sock n k r k' E. simpl in E. unfold sk_recv in E.
    repeat case_match; simplify_eq/=; split_and!; try done.
    + unfold zlen. rewrite length_take. lia.
    + by rewrite sk_stream_insert, decide_True, take_drop.
    + intros s Hs. by rewrite sk_stream_insert, decide_False.
  - intros sock bufs k r k' E. simpl in E. unfold sk_writev in E.
    repeat case_match; simplify_eq/=; split_and!; try done.
    + unfold zlen. lia.
    + unfold zlen. rewrite length_take. lia.
    + unfold zlen. rewrite length_take. lia.
    + rewrite sk_stream_insert, decide_True by done. f_equal. unfold zlen. rewrite Nat2Z.id.
      by rewrite length_take, <- (take_take (concat bufs)), firstn_all.
    + intros s Hs. by rewrite sk_stream_insert, decide_False.
  - done.
  - done.
  - done.
  - done.
  - intros sock k s Hs. simpl. unfold sk_stream. by rewrite lookup_delete_ne.
Defined.

(** The clock that [gettimeofday] reads, in microseconds.  It may stand still, run
    at any speed, and be set back or forward; two looks in a row are in order and
    [clock_pause] apart at most.  What is assumed is that time passes: before the clock reads [d] it can be
    looked at only [clock_looks d] times more, whatever the calls in between take.
    POSIX promises neither; without it the loops that wait for the clock need not
    end. *)
Class ClockLaws (K : Type) `{Kernel K} := {
  clock : K -> Z;
  clock_end : Z;
  clock_pause : Z;
  clock_looks : Z -> K -> nat;
  clock_end_range : clock_end < 2 ^ 63;
  clock_range : forall k, 0 <= clock k <= clock_end;
  clock_reads : forall k, (k_gettimeofday k).1 = clock k;
  clock_in_a_row : forall k, clock k <= clock (k_gettimeofday k).2 <= clock k + clock_pause;
  clock_look : forall d k, d <= clock_end -> clock k < d -> (clock_looks d (k_gettimeofday k).2 < clock_looks d k)%nat;
  looks_gettimeofday : forall d k, (clock_looks d (k_gettimeofday k).2 <= clock_looks d k)%nat;
  looks_recv : forall d sock n k, (clock_looks d (k_recv sock n k).2 <= clock_looks d k)%nat;
  looks_writev : forall d sock bufs k, (clock_looks d (k_writev sock bufs k).2 <= clock_looks d k)%nat;
  looks_select : forall d m rs ws t k, (clock_looks d (k_select m rs ws t k).2 <= clock_looks d k)%nat;
  looks_shutdown : forall d sock k, (clock_looks d (k_shutdown sock k).2 <= clock_looks d k)%nat;
  looks_close : forall d sock k, (clock_looks d (k_close sock k).2 <= clock_looks d k)%nat;
  looks_time : forall d k, (clock_looks d (k_time k).2 <= clock_looks d k)%nat
}.

(** The seconds from the clock to [d], rounded up. *)
Definition sk_looks (d : Z) (k : skernel) : nat := Z.to_nat ((d + 999999) / 1000000 - Z.max 0 (sk_clock k)).

#[export, refine] Instance skernel_clock : ClockLaws skernel := {|
  clock := sk_now; clock_end := 1000000 * sk_end; clock_pause := 1000000; clock_looks := sk_looks |}.
Proof.
  - done.
  - intros k. unfold sk_now, sk_end. lia.
  - done.
  - intros k. simpl. unfold sk_now. simpl. unfold sk_end. lia.
  - intros d k Hd Hk. unfold sk_now, sk_looks in *. simpl in *. pose proof (Z.div_mod (d + 999999) 1000000).
    pose proof (Z.mod_pos_bound (d + 999999) 1000000). lia.
  - intros d k. unfold sk_looks. simpl. lia.
  - intros d sock n k. simpl. unfold sk_recv. by repeat case_match.
  - intros d sock bufs k. simpl. unfold sk_writev. by repeat case_match.
  - done.
  - done.
  - done.
  - done.
Defined.

Module Socket.
Import Packet SocketBuffer.

Definition EAGAIN : Z := 11.
Definition EWOULDBLOCK : Z := 11.
Definition EINPROGRESS : Z := 115.
Definition AF_INET : Z := 2.
Definition AF_INET6 : Z := 10.

(** The lists hold pointers to [int] cells: a cell is its address and value. *)
Abbreviation icell := (loc * Z)%type.

Record Sockets := MkSockets {
  clientsds : clist icell;
  cur_clientsds : option loc;      (* an element of clientsds *)
  connect_pending : clist icell;
  write_pending : clist icell;
  rset : gset Z;
  rset_saved : gset Z;
  maxfdp1 : Z;
  pending_wset : gset Z;
  wset : gset Z }.

Definition set_clientsds l s := MkSockets l (cur_clientsds s) (connect_pending s) (write_pending s)
  (rset s) (rset_saved s) (maxfdp1 s) (pending_wset s) (wset s).
Definition set_cur_clientsds p s := MkSockets (clientsds s) p (connect_pending s) (write_pending s)
  (rset s) (rset_saved s) (maxfdp1 s) (pending_wset s) (wset s).
Definition set_connect_pending l s := MkSockets (clientsds s) (cur_clientsds s) l (write_pending s)
  (rset s) (rset_saved s) (maxfdp1 s) (pending_wset s) (wset s).
Definition set_write_pending l s := MkSockets (clientsds s) (cur_clientsds s) (connect_pending s) l
  (rset s) (rset_saved s) (maxfdp1 s) (pending_wset s) (wset s).
Definition set_rset x s := MkSockets (clientsds s) (cur_clientsds s) (connect_pending s) (write_pending s)
  x (rset_saved s) (maxfdp1 s) (pending_wset s) (wset s).
Definition set_rset_saved x s := MkSockets (clientsds s) (cur_clientsds s) (connect_pending s)
  (write_pending s) (rset s) x (maxfdp1 s) (pending_wset s) (wset s).
Definition set_maxfdp1 n s := MkSockets (clientsds s) (cur_clientsds s) (connect_pending s)
  (write_pending s) (rset s) (rset_saved s) n (pending_wset s) (wset s).
Definition set_pending_wset x s := MkSockets (clientsds s) (cur_clientsds s) (connect_pending s)
  (write_pending s) (rset s) (rset_saved s) (maxfdp1 s) x (wset s).
Definition set_wset x s := MkSockets (clientsds s) (cur_clientsds s) (connect_pending s)
  (write_pending s) (rset s) (rset_saved s) (maxfdp1 s) (pending_wset s) x.

(** The network state: socket buffers, sockets and the operating system. *)
Record net (K : Type) := Net { n_buf : sbuf; n_s : Sockets; n_k : K }.
Arguments Net {K} _ _ _.
Arguments n_buf {K} _.
Arguments n_s {K} _.
Arguments n_k {K} _.

(** [intcompare], and the search of a list of cells for a value. *)
Definition intcompare (v : Z) (c : icell) : bool := c.2 =? v.
(** [malloc(sizeof(int))] and [ListAppend]. *)
Definition append_int (v : Z) (l : clist icell) : clist icell :=
  LSpec.append (fresh ((LSpec.contents l).*1), v) 4 l.

Section code.
Context {K : Type} `{Kernel K}.
Variable junk : socket_queue.

Abbreviation N := (M (net K)).

Definition buf {A} (m : M sbuf A) : N A :=
  zoom n_buf (fun b w => Net b (n_s w) (n_k w)) m.
Definition sockets {A} (m : M Sockets A) : N A :=
  zoom n_s (fun s w => Net (n_buf w) s (n_k w)) m.
Definition sys {A} (f : K -> A * K) : N A := fun w =>
  let '(a, k) := f (n_k w) in Some (a, Net (n_buf w) (n_s w) k).

(** [ListFindItem(list, &v, intcompare)] on one of the lists. *)
Definition find_int (get : Sockets -> clist icell) (set : clist icell -> Sockets -> Sockets) (v : Z) :
    N (option loc) :=
  sockets (fun s => let '(r, l) := LSpec.find_item (intcompare v) (get s) in Some (r, set l s)).
(** [ListRemoveItem(list, &v, intcompare)]. *)
Definition remove_int (get : Sockets -> clist icell) (set : clist icell -> Sockets -> Sockets) (v : Z) :
    N bool :=
  sockets (fun s => let '(r, l) := LSpec.unlink (intcompare v) (get s) in
                    Some (bool_decide (is_Some r), set l s)).

(** The results of the calls that return [-1] carry the [errno] left behind. *)
Definition Socket_setnonblocking (sock : Z) : N (sysret Z) :=
  flags ← sys (k_getfl sock);
  sys (k_setfl_nonblock sock (if flags =? 0 then flags else 0)).

(** Only logging besides: the result is [errno]. *)
Definition Socket_error (errno : Z) : Z := errno.

Definition Socket_outInitialize : N unit :=
  buf (SocketBuffer_initialize junk);;
  sockets (modify (fun s => MkSockets LSpec.empty None LSpec.empty LSpec.empty ∅ ∅ 0 ∅ (wset s))).

(** The freed lists are not used again. *)
Definition Socket_outTerminate : N unit :=
  sockets (modify (fun s => set_clientsds LSpec.empty (set_write_pending LSpec.empty
                             (set_connect_pending LSpec.empty s))));;
  buf SocketBuffer_terminate.

(** [FD_SET] of a descriptor that is not in the range of an [fd_set] is undefined
    behaviour, as is [FD_CLR]; descriptors get into the sets here only. *)
Definition FD_SETSIZE : Z := 1024.

Definition Socket_addSocket (newSd : Z) : N (sysret Z) :=
  r ← find_int clientsds set_clientsds newSd;
  match r with
  | None =>
      if negb (bool_decide (0 <= newSd < FD_SETSIZE)) then undefined else
      sockets (modify (fun s =>
        set_maxfdp1 (Z.max (maxfdp1 s) (newSd + 1))
          (set_rset_saved (rset_saved s ∪ {[newSd]})
            (set_clientsds (append_int newSd (clientsds s)) s))));;
      Socket_setnonblocking newSd
  | Some _ => mret (SysOk 0)
  end.

Definition Socket_noPendingWrites (socket : Z) : N bool :=
  r ← find_int write_pending set_write_pending socket;
  mret (bool_decide (r = None)).

Definition isReady (socket : Z) (read_set write_set : gset Z) : N bool :=
  r ← find_int connect_pending set_connect_pending socket;
  if bool_decide (is_Some r) && bool_decide (socket ∈ write_set) then
    _ ← remove_int connect_pending set_connect_pending socket; mret true
  else if bool_decide (socket ∈ read_set) && bool_decide (socket ∈ write_set)
  then Socket_noPendingWrites socket
  else mret false.

(** The result of [recv], and the code that the read functions make of it. *)
Definition Socket_getch (socket : Z) : N (Z * byte) :=
  q ← buf (SocketBuffer_getQueuedChar socket);
  if negb (q.1 =? SOCKETBUFFER_INTERRUPTED) then mret q
  else
    r ← sys (k_recv socket 1);
    match r with
    | SysErr errno =>
        let err := Socket_error errno in
        if (err =? EWOULDBLOCK) || (err =? EAGAIN) then
          buf (SocketBuffer_interrupted junk socket 0);; mret (TCPSOCKET_INTERRUPTED, 0)
        else mret (SOCKET_ERROR, 0)
    | SysOk [] => mret (SOCKET_ERROR, 0)
    | SysOk (c :: _) => buf (SocketBuffer_queueChar socket c);; mret (TCPSOCKET_COMPLETE, c)
    end.

(** [memcpy] of received bytes into the buffer of a queue. *)
Definition store_data (q : loc) (off : Z) (bs : list byte) : M sbuf unit :=
  v ← load_queue q;
  if bool_decide (0 <= off /\ off + zlen bs <= zlen (q_buf v)) then
    update_queue q (fun v => SQ (q_socket v) (q_index v) (q_headerlen v) (q_fixed_header v) (q_buflen v)
      (q_datalen v) (take (Z.to_nat off) (q_buf v) ++ bs ++ drop (Z.to_nat (off + zlen bs)) (q_buf v)))
  else undefined.

(** The result is the queue whose buffer is returned ([None] is [NULL]), and
    the value of [*actual_len] ([actual_len0] on entry). *)
Definition Socket_getdata (socket bytes actual_len0 : Z) : N (option loc * Z) :=
  if bytes =? 0 then q ← buf (SocketBuffer_complete socket); mret (Some q, actual_len0)
  else
    ql ← buf (SocketBuffer_getQueuedData socket bytes);
    let '(q, actual_len) := (ql : loc * Z) in
    r ← sys (k_recv socket (int_wrap (size_wrap (bytes - actual_len))));
    match r with
    | SysErr errno =>
        let rc := Socket_error errno in
        if negb (rc =? EAGAIN) && negb (rc =? EWOULDBLOCK) then mret (None, actual_len)
        else if actual_len =? bytes
        then _ ← buf (SocketBuffer_complete socket); mret (Some q, actual_len)
        else buf (SocketBuffer_interrupted junk socket actual_len);; mret (Some q, actual_len)
    | SysOk [] => mret (None, actual_len)
    | SysOk bs =>
        buf (store_data q actual_len bs);;
        let actual_len := actual_len + zlen bs in
        if actual_len =? bytes
        then _ ← buf (SocketBuffer_complete socket); mret (Some q, actual_len)
        else buf (SocketBuffer_interrupted junk socket actual_len);; mret (Some q, actual_len)
    end.

(** The code and [*bytes].  The count that [writev] returns is a [ssize_t], stored
    in an [int]. *)
Definition Socket_writev (socket : Z) (iovecs : list (list byte)) : N (Z * Z) :=
  r ← sys (k_writev socket iovecs);
  match r with
  | SysErr errno =>
      let err := Socket_error errno in
      if (err =? EWOULDBLOCK) || (err =? EAGAIN) then mret (TCPSOCKET_INTERRUPTED, 0)
      else mret (SOCKET_ERROR, 0)
  | SysOk n => let rc := int_wrap n in mret (rc, size_wrap rc)
  end.

(** A buffer and its length are a byte list.  The arrays of the code have room
    for [buf0] and four buffers more. *)
Definition Socket_putdatas (socket : Z) (buf0 : list byte) (buffers : list (list byte)) (frees : list Z) :
    N Z :=
  np ← Socket_noPendingWrites socket;
  if negb np then mret SOCKET_ERROR
  else if 4 <? zlen buffers then undefined
  else
    let total := zlen buf0 + foldr (fun b n => zlen b + n) 0 buffers in
    let iovecs := buf0 :: buffers in
    let frees1 := 1 :: frees in
    r ← Socket_writev socket iovecs;
    let '(rc, bytes) := (r : Z * Z) in
    if negb (rc =? SOCKET_ERROR) then
      if bytes =? total then mret TCPSOCKET_COMPLETE
      else
        buf (SocketBuffer_pendingWrite socket (zlen iovecs) iovecs frees1 total bytes);;
        sockets (modify (fun s =>
          set_pending_wset (pending_wset s ∪ {[socket]})
            (set_write_pending (append_int socket (write_pending s)) s)));;
        mret TCPSOCKET_INTERRUPTED
    else mret rc.

Definition Socket_addPendingWrite (socket : Z) : N unit :=
  sockets (modify (fun s => set_pending_wset (pending_wset s ∪ {[socket]}) s)).

Definition Socket_clearPendingWrite (socket : Z) : N unit :=
  sockets (modify (fun s =>
    if bool_decide (socket ∈ pending_wset s)
    then set_pending_wset (pending_wset s ∖ {[socket]}) s else s)).

Definition Socket_close_only (socket : Z) : N Z :=
  _ ← sys (k_shutdown socket);
  _ ← sys (k_recv socket 0);
  r ← sys (k_close socket);
  mret (match r with SysErr _ => SOCKET_ERROR | SysOk _ => 0 end).

Definition Socket_close (socket : Z) : N unit :=
  _ ← Socket_close_only socket;
  sockets (modify (fun s => set_rset_saved (rset_saved s ∖ {[socket]}) s));;
  sockets (modify (fun s =>
    if bool_decide (socket ∈ pending_wset s)
    then set_pending_wset (pending_wset s ∖ {[socket]}) s else s));;
  sockets (fun s =>
    match cur_clientsds s with
    | None => Some (tt, s)
    | Some a =>
        c ← LSpec.elem_content (clientsds s) a;
        if c.2 =? socket then
          n ← LSpec.next_element (clientsds s) (Some a); Some (tt, set_cur_clientsds n s)
        else Some (tt, s)
    end);;
  _ ← remove_int connect_pending set_connect_pending socket;
  _ ← remove_int write_pending set_write_pending socket;
  buf (SocketBuffer_cleanup socket);;
  _ ← remove_int clientsds set_clientsds socket;
  sockets (modify (fun s =>
    if maxfdp1 s <=? socket + 1
    then set_maxfdp1 (foldl (fun m c => Z.max c m) 0 ((LSpec.contents (clientsds s)).*2) + 1) s
    else s)).

(** The address used: the first IPv4 one, or else the last. *)
Fixpoint pick_address (res : list (Z * list byte)) : option (Z * list byte) :=
  match res with
  | [] => None
  | a :: res' => if (a.1 =? AF_INET) || bool_decide (res' = []) then Some a else pick_address res'
  end.

(** The code and the socket. *)
Definition Socket_new (addr : list byte) (port : Z) : N (Z * Z) :=
  let addr := match addr with c :: addr' => if c =? 91 (* '[' *) then addr' else addr | [] => [] end in
  g ← sys (k_getaddrinfo addr);
  let '(rc, result) := (g : Z * list (Z * list byte)) in
  (* family and address, or an error code *)
  let fa := if rc =? 0 then
      match pick_address result with
      | None => inl (-1)
      | Some (f, a) => if (f =? AF_INET6) || (f =? AF_INET) then inr (f, a) else inl (-1)
      end
    else inl rc in
  match fa with
  | inl rc => mret (rc, -1)
  | inr (family, a) =>
      r ← sys (k_socket family);
      match r with
      | SysErr errno => mret (Socket_error errno, -1)
      | SysOk sock =>
          n ← Socket_addSocket sock;
          match n with
          | SysErr errno => mret (Socket_error errno, sock)
          | SysOk _ =>
              c ← sys (k_connect sock family a port);
              let rc := match c with SysErr errno => Socket_error errno | SysOk _ => 0 end in
              when ((rc =? EINPROGRESS) || (rc =? EWOULDBLOCK))
                (sockets (modify (fun s => set_connect_pending (append_int sock (connect_pending s)) s)));;
              mret (rc, sock)
          end
      end
  end.

(** The buffers that are still to be written: those after the [bytes] already
    written, or the rest of the one where the write stopped. *)
Fixpoint remaining_iovecs (iovecs : list (list byte)) (curbuflen bytes : Z) : list (list byte) :=
  match iovecs with
  | [] => []
  | b :: iovecs' =>
      if bytes <=? curbuflen then b :: remaining_iovecs iovecs' (curbuflen + zlen b) bytes
      else if bytes <? curbuflen + zlen b then [drop (Z.to_nat (bytes - curbuflen)) b]
      else remaining_iovecs iovecs' (curbuflen + zlen b) bytes
  end.

Definition Socket_continueWrite (socket : Z) : N Z :=
  r ← buf (SocketBuffer_getWrite socket);
  match r with
  | None => undefined
  | Some p =>
      pw ← buf (load (fun s => pws s !! p));
      r ← Socket_writev socket (remaining_iovecs (pw_iovecs pw) 0 (pw_bytes pw));
      let '(rc, bytes) := (r : Z * Z) in
      if negb (rc =? SOCKET_ERROR) then
        let bytes' := size_wrap (pw_bytes pw + bytes) in
        buf (modify (fun s => set_pws (<[p := PW (pw_socket pw) (pw_count pw) (pw_total pw) bytes'
                                             (pw_iovecs pw) (pw_frees pw)]> (pws s)) s));;
        mret (if bytes' =? pw_total pw then 1 else 0)
      else mret rc
  end.

(** The scan of the client sockets from [cur_clientsds] to one that is ready;
    [fuel] bounds the elements left. *)
Fixpoint scan_ready (fuel : nat) : N unit :=
  s ← gets n_s;
  match cur_clientsds s with
  | None => mret tt
  | Some a =>
      match fuel with
      | O => undefined
      | S fuel' =>
          c ← load (fun _ => LSpec.elem_content (clientsds s) a);
          r ← isReady (c : icell).2 (rset s) (wset s);
          if (r : bool) then mret tt
          else
            n ← load (fun _ => LSpec.next_element (clientsds s) (Some a));
            sockets (modify (set_cur_clientsds n));;
            scan_ready fuel'
      end
  end.

(** * Completion of writes, and the next ready socket

    The callback [writecomplete] changes the state of the client, so these run
    on a state [W] of which the network is a part. *)
Section callback.
Context {W : Type} (getn : W -> net K) (setn : net K -> W -> W).
Variable writecomplete : option (Z -> M W unit).

Definition nets {A} (m : N A) : M W A := zoom getn setn m.

Fixpoint continueWrites_loop (fuel : nat) (pwset : gset Z) (curpending : option loc) : M W unit :=
  match curpending with
  | None => mret tt
  | Some a =>
      match fuel with
      | O => undefined
      | S fuel' =>
          c ← nets (load (fun w => LSpec.elem_content (write_pending (n_s w)) a));
          let socket := (c : icell).2 in
          rc ← (if bool_decide (socket ∈ pwset) then nets (Socket_continueWrite socket) else mret 0);
          if negb (rc =? 0) then
            _ ← nets (buf (SocketBuffer_writeComplete socket));
            nets (sockets (modify (fun s => set_pending_wset (pending_wset s ∖ {[socket]}) s)));;
            nets (sockets (modify (fun s =>
              set_write_pending (LSpec.unlink (fun x => bool_decide (x.1 = c.1)) (write_pending s)).2 s)));;
            n ← gets (fun w => cur (write_pending (n_s (getn w))));
            (match writecomplete with Some f => f socket | None => mret tt end);;
            continueWrites_loop fuel' pwset n
          else
            n ← nets (load (fun w => LSpec.next_element (write_pending (n_s w)) (Some a)));
            continueWrites_loop fuel' pwset n
      end
  end.

(** A removal can send the scan back to an element already seen, so the bound
    is quadratic in the number of pending writes. *)
Definition Socket_continueWrites (pwset : gset Z) : M W Z :=
  l ← gets (fun w => write_pending (n_s (getn w)));
  let n := S (length (items l)) in
  continueWrites_loop (n * n) pwset (fst <$> head (items l));;
  mret 0.

(** Times are in microseconds. *)
Definition Socket_getReadySocket (more_work : bool) (tp : option Z) : M W Z :=
  s0 ← gets (fun w => n_s (getn w));
  if cnt (clientsds s0) =? 0 then mret 0
  else
    let n := length (items (clientsds s0)) in
    let timeout := if more_work then 0 else match tp with Some t => t | None => 1000000 end in
    (* the socket after the first scan, and the result when the code exits early *)
    let finish : M W Z := nets (
      s ← gets n_s;
      match cur_clientsds s with
      | None => mret 0
      | Some a =>
          c ← load (fun _ => LSpec.elem_content (clientsds s) a);
          nx ← load (fun _ => LSpec.next_element (clientsds s) (Some a));
          sockets (modify (set_cur_clientsds nx));;
          mret (c : icell).2
      end) in
    nets (scan_ready n);;
    s ← gets (fun w => n_s (getn w));
    match cur_clientsds s with
    | Some _ => finish
    | None =>
        r ← nets (sys (k_select (maxfdp1 s) (rset_saved s) (pending_wset s) timeout));
        let '(rc, rs, pwset) := (r : sysret Z * gset Z * gset Z) in
        nets (sockets (modify (set_rset rs)));;
        match rc with
        | SysErr _ => mret SOCKET_ERROR
        | SysOk rc =>
            rcw ← Socket_continueWrites pwset;
            if rcw =? SOCKET_ERROR then mret 0
            else
              s ← gets (fun w => n_s (getn w));
              r ← nets (sys (k_select (maxfdp1 s) ∅ (rset_saved s) 0));
              let '(rc1, _, ws) := (r : sysret Z * gset Z * gset Z) in
              nets (sockets (modify (set_wset ws)));;
              match rc1 with
              | SysErr _ => mret SOCKET_ERROR
              | SysOk rc1 =>
                  if (rc =? 0) && (rc1 =? 0) then mret 0
                  else
                    nets (sockets (fun s => Some (tt, set_cur_clientsds (fst <$> head (items (clientsds s))) s)));;
                    nets (scan_ready n);;
                    finish
              end
        end
    end.
End callback.
End code.
End Socket.
