(* ===== verification/Reader.v ===== *)
(** Reading a packet without blocking: the part of [MQTTPacket_Factory] of
    [lib/MQTTPacket.c] that takes the bytes of one packet from a socket, and the
    proof that it can be resumed.  However the bytes arrive, the calls deliver
    the packet that was sent, and no byte is lost or read twice. *)
From S2P Require Import Prelude ListSpec Packet SocketBuffer Socket.

Module Reader.
#[local] Arguments zlen : simpl never.
Import Packet SocketBuffer Socket.

Section code.
Context {K : Type} `{Kernel K}.
Variable junk : socket_queue.

(** [MQTTPacket_Factory] up to the choice of the packet constructor: the error
    code, and the header byte, the remaining length and the data buffer when
    the whole packet is there. *)
Definition Factory_read (socket : Z) : M (net K) (Z * option (byte * Z * list byte)) :=
  h ← Socket_getch junk socket;
  let '(error, header) := (h : Z * byte) in
  if negb (error =? TCPSOCKET_COMPLETE) then mret (error, None)
  else
    d ← MQTTPacket_decode (Socket_getch junk socket);
    let '(error, remaining_length) := (d : Z * Z) in
    if negb (error =? TCPSOCKET_COMPLETE) then mret (error, None)
    else
      r ← Socket_getdata junk socket remaining_length 0;
      match r with
      | (None, _) => mret (SOCKET_ERROR, None)
      | (Some q, actual_len) =>
          if negb (actual_len =? remaining_length) then mret (TCPSOCKET_INTERRUPTED, None)
          else
            v ← buf (load_queue q);
            mret (error, Some (header, remaining_length, q_buf v))
      end.
End code.

(** * The socket buffers between and during reads *)

(** [q] is a queue in the list, with the fields [v]. *)
Definition has (b : sbuf) (q : loc) (v : socket_queue) : Prop :=
  q ∈ LSpec.contents (queues b) /\ sq b !! q = Some v.

(** A queue structure: five header bytes and the buffer it records. *)
Definition queue_wf (v : socket_queue) : Prop :=
  length (q_fixed_header v) = 5%nat /\ 0 <= q_buflen v <= zlen (q_buf v).

Record sb_wf (b : sbuf) : Prop := {
  sb_list : LSpec.wf (queues b);
  sb_nodup : NoDup (LSpec.contents (queues b));
  sb_alloc : forall q, q ∈ LSpec.contents (queues b) -> is_Some (sq b !! q);
  sb_def : def_queue b ∉ LSpec.contents (queues b);
  sb_def_alloc : is_Some (sq b !! def_queue b);
  sb_queues : forall q v, sq b !! q = Some v -> queue_wf v;
  sb_unique : forall q1 q2 v1 v2, has b q1 v1 -> has b q2 v2 ->
    q_socket v1 = q_socket v2 -> q_socket v1 <> 0 -> q1 = q2
}.

(** The queue holds the header bytes [hs], of which [i] have been handed out,
    and the data [dat]. *)
Record holds (v : socket_queue) (hs : list byte) (i : Z) (dat : list byte) : Prop := {
  h_index : q_index v = i;
  h_headerlen : q_headerlen v = zlen hs;
  h_header : take (length hs) (q_fixed_header v) = hs;
  h_datalen : q_datalen v = zlen dat;
  h_data : take (length dat) (q_buf v) = dat;
  h_buflen : zlen dat <= q_buflen v
}.

Definition no_queue (b : sbuf) (s : Z) : Prop := forall q v, has b q v -> q_socket v <> s.

(** [q] is where the input of socket [s] is kept: a queue in the list, or the
    default queue once a byte has been read. *)
Inductive target (b : sbuf) (s : Z) (q : loc) (v : socket_queue) : Prop :=
  | target_queued d :
      has b q v -> q_socket v = s ->
      sq b !! def_queue b = Some d -> q_socket d = 0 -> target b s q v
  | target_default :
      no_queue b s -> q = def_queue b -> sq b !! q = Some v -> q_socket v = s ->
      target b s q v.

(** What has been read from the socket: the header bytes [hs], of which the
    current call has seen [i], and the data [dat]. *)
Inductive reading (b : sbuf) (s : Z) : list byte -> Z -> list byte -> Prop :=
  | reading_none d :
      no_queue b s -> sq b !! def_queue b = Some d -> q_socket d = 0 -> reading b s [] 0 []
  | reading_some q v hs i dat :
      target b s q v -> hs <> [] -> holds v hs i dat ->
      (q = def_queue b -> dat = [] /\ i = zlen hs) -> reading b s hs i dat.

(** The queues of the other sockets are not touched. *)
Definition others (s : Z) (b b' : sbuf) : Prop :=
  forall q v, q_socket v <> s -> q_socket v <> 0 -> has b q v <-> has b' q v.

Lemma others_refl s b : others s b b.
Proof. done. Qed.
Lemma others_trans s b1 b2 b3 : others s b1 b2 -> others s b2 b3 -> others s b1 b3.
Proof. intros H1 H2 q v ??. by rewrite (H1 q v), (H2 q v). Qed.

(** ** Searching *)

Lemma set_queues_id b : set_queues (queues b) b = b.
Proof. by destruct b. Qed.

Lemma sb_wf_cur b c :
  sb_wf b -> (forall a, c = Some a -> a ∈ LSpec.addrs (queues b)) ->
  sb_wf (set_queues (LSpec.with_cur c (queues b)) b).
Proof.
  intros [[H1a H1b H1c] H2 H3 H4 H5 H6 H7] Hc. split; try done.
Qed.

Lemma find_queue_has b q v s :
  sb_wf b -> has b q v -> q_socket v = s -> s <> 0 ->
  exists c, find_queue s b = Some (Some q, set_queues (LSpec.with_cur c (queues b)) b) /\
    sb_wf (set_queues (LSpec.with_cur c (queues b)) b).
Proof.
  intros Hwf Hq Hs Hs0. pose proof (sb_list b Hwf) as Hl.
  unfold find_queue.
  destruct (LSpec.find_item_cases (socketcompare b s) (queues b) Hl)
    as [[E Hn]|(k1 & a & x & k2 & Ei & Hx & E & Ec)].
  - exfalso. destruct Hq as [Hin Hq]. rewrite Forall_forall in Hn. specialize (Hn q Hin).
    unfold socketcompare in Hn. rewrite Hq, Hs, Z.eqb_refl in Hn. done.
  - exists (Some a). rewrite E. change (LSpec.elem_content (LSpec.with_cur (Some a) (queues b)) a)
      with (LSpec.elem_content (queues b) a). rewrite Ec.
    assert (x = q) as ->.
    { unfold socketcompare in Hx. destruct (sq b !! x) as [w|] eqn:Ew; [|done].
      apply Z.eqb_eq in Hx. eapply (sb_unique b Hwf); [|done| |]; [split; [|done]|lia|lia].
      rewrite (LSpec.contents_mid _ _ _ _ _ Ei), elem_of_app, elem_of_cons. tauto. }
    split; [done|]. apply sb_wf_cur; [done|]. intros ? [= <-].
    unfold LSpec.addrs. rewrite Ei, fmap_app, elem_of_app, fmap_cons, elem_of_cons. tauto.
Qed.

Lemma find_queue_no b s : sb_wf b -> no_queue b s -> find_queue s b = Some (None, b).
Proof.
  intros Hwf Hn. pose proof (sb_list b Hwf) as Hl. unfold find_queue.
  destruct (LSpec.find_item_cases (socketcompare b s) (queues b) Hl)
    as [[E _]|(k1 & a & x & k2 & Ei & Hx & E & Ec)].
  - by rewrite E, set_queues_id.
  - exfalso. unfold socketcompare in Hx. destruct (sq b !! x) as [w|] eqn:Ew; [|done].
    apply Z.eqb_eq in Hx. apply (Hn x w); [split|]; [|done..].
    rewrite (LSpec.contents_mid _ _ _ _ _ Ei), elem_of_app, elem_of_cons. tauto.
Qed.

(** ** Updating a queue *)

Definition upd (q : loc) (v : socket_queue) (b : sbuf) : sbuf := set_sq (<[q := v]> (sq b)) b.

Lemma update_queue_upd q f b v : sq b !! q = Some v -> update_queue q f b = Some (tt, upd q (f v) b).
Proof. intros E. unfold update_queue. by rewrite E. Qed.

Lemma has_upd b q v q' w : q <> q' -> has (upd q v b) q' w <-> has b q' w.
Proof. intros. unfold has, upd. simpl. by rewrite lookup_insert_ne. Qed.

Lemma has_upd_eq b q v w : has (upd q v b) q w <-> q ∈ LSpec.contents (queues b) /\ w = v.
Proof. unfold has, upd. simpl. rewrite lookup_insert_eq. by split; intros [? [=]]; subst. Qed.

(** A change of a queue that keeps its socket, or any change of the default
    queue, keeps the structure. *)
Lemma upd_wf b q v v' :
  sb_wf b -> sq b !! q = Some v -> queue_wf v' ->
  q_socket v' = q_socket v \/ q = def_queue b -> sb_wf (upd q v' b).
Proof.
  intros [H1 H2 H3 H4 H5 H6 H7] Hq Hv Hs. split; try done.
  - intros q' Hin. unfold upd; simpl. destruct (decide (q = q')) as [->|].
    + rewrite lookup_insert_eq. eauto.
    + rewrite lookup_insert_ne by done. by apply H3.
  - unfold upd; simpl. destruct (decide (q = def_queue b)) as [->|].
    + rewrite lookup_insert_eq. eauto.
    + by rewrite lookup_insert_ne.
  - unfold upd; simpl. intros q' w. destruct (decide (q = q')) as [->|].
    + rewrite lookup_insert_eq. by intros [= <-].
    + rewrite lookup_insert_ne by done. apply H6.
  - assert (Hh : forall q' w, has (upd q v' b) q' w -> exists w', has b q' w' /\ q_socket w' = q_socket w).
    { intros q' w Hw. destruct (decide (q = q')) as [->|].
      - apply has_upd_eq in Hw as [Hin ->]. destruct Hs as [Hs|Hs]; [|by subst].
        exists v. by split.
      - apply has_upd in Hw; [|done]. by exists w. }
    intros q1 q2 v1 v2 (w1 & Hw1 & E1)%Hh (w2 & Hw2 & E2)%Hh E E0.
    apply (H7 q1 q2 w1 w2); congruence.
Qed.

Lemma others_upd b q v v' s :
  sb_wf b -> sq b !! q = Some v ->
  (q_socket v = s /\ q_socket v' = s) \/ q = def_queue b -> others s b (upd q v' b).
Proof.
  intros Hwf Hq Hs q' w Hw Hw0. destruct (decide (q = q')) as [->|]; [|by rewrite has_upd].
  rewrite has_upd_eq. destruct Hs as [[Hs Hs']|Hs].
  - split; [intros [_ ?]; congruence|intros [_ ->]; congruence].
  - subst. pose proof (sb_def b Hwf). split; [by intros [? _]|by intros [? _]].
Qed.

Lemma target_lookup b s q v : target b s q v -> sq b !! q = Some v /\ q_socket v = s.
Proof. by intros [d [_ ?] ? ? ?|? -> ? ?]. Qed.

Lemma target_upd b s q v v' :
  sb_wf b -> target b s q v -> q_socket v' = s -> target (upd q v' b) s q v'.
Proof.
  intros Hwf [d [Hin Hq] Hs Hd Hd0|Hn -> Hq Hs] Hs'.
  - apply (target_queued _ _ _ _ d); [by apply has_upd_eq|done| |done].
    unfold upd; simpl. rewrite lookup_insert_ne; [done|]. intros ->. by apply (sb_def b Hwf).
  - apply target_default; try done.
    + intros q w Hw. destruct (decide (q = def_queue b)) as [->|].
      * apply has_upd_eq in Hw as [Hin _]. by destruct (sb_def b Hwf).
      * apply has_upd in Hw; [|done]. by apply Hn in Hw.
    + apply lookup_insert_eq.
Qed.

(** Searching for the socket's queue. *)
Lemma find_queue_target b s q v :
  sb_wf b -> s <> 0 -> target b s q v ->
  exists r b', find_queue s b = Some (r, b') /\ sb_wf b' /\ target b' s q v /\ others s b b' /\
    def_queue b' = def_queue b /\ sq b' = sq b /\ LSpec.contents (queues b') = LSpec.contents (queues b) /\
    r = (if decide (q = def_queue b) then None else Some q).
Proof.
  intros Hwf Hs0 [d Hh Hs Hd Hd0|Hn -> Hq Hs].
  - destruct (find_queue_has b q v s) as (c & E & Hwf'); [done..|].
    eexists _, _. split; [exact E|]. split; [done|]. split; [by apply (target_queued _ _ _ _ d)|].
    split_and!; try done. rewrite decide_False; [done|]. intros ->. by apply (sb_def b Hwf), Hh.
  - exists None, b. rewrite find_queue_no by done. split_and!; try done.
    + by apply target_default.
    + by rewrite decide_True.
Qed.

(** ** Header bytes *)

Lemma reading_nonneg b s hs i dat : reading b s hs i dat -> i = 0 \/ hs <> [].
Proof. intros []; tauto. Qed.

(** A byte read before is handed out again. *)
Lemma getQueuedChar_again b s hs i dat :
  sb_wf b -> s <> 0 -> reading b s hs i dat -> 0 <= i < zlen hs -> zlen hs <= 5 ->
  exists c b', SocketBuffer_getQueuedChar s b = Some ((SOCKETBUFFER_COMPLETE, c), b') /\
    nthz hs i = Some c /\ sb_wf b' /\ reading b' s hs (i + 1) dat /\ others s b b'.
Proof.
  intros Hwf Hs0 Hr Hi Hl. destruct Hr as [|q v hs i dat Ht Hne [E1 E2 E3 E4 E5 E6] Hd].
  { change (zlen []) with 0 in Hi. lia. }
  destruct (find_queue_target b s q v) as (r & b' & E & Hwf' & Ht' & Ho & Hdef & Hsq & Hc & Er); [done..|].
  destruct (target_lookup _ _ _ _ Ht') as [Hq Hs].
  rewrite decide_False in Er.
  2: { intros ->. destruct Hd as [_ ?]; [done|]. lia. }
  subst r. unfold SocketBuffer_getQueuedChar. mstep E.
  assert (load_queue q b' = Some (v, b')) as El by (unfold load_queue, load; by rewrite Hq). mstep El.
  rewrite E1, E2. destruct (Z.ltb_spec i (zlen hs)); [|lia].
  destruct (nthz_is_Some hs i) as [c Ec]; [lia|].
  assert (nthz (q_fixed_header v) i = Some c) as Ef.
  { rewrite <- E3 in Ec. rewrite <- (take_drop (length hs) (q_fixed_header v)).
    rewrite nthz_app_l; [done|]. rewrite E3. lia. }
  cbn [mbind]. erewrite bind_step; [|unfold load; by rewrite Ef].
  erewrite bind_step; [|by apply update_queue_upd]. eexists c, _. split; [done|]. split; [done|].
  rewrite E2. set (v' := SQ _ _ _ _ _ _ _).
  assert (queue_wf v') by (apply (sb_queues b' Hwf' q v Hq)).
  split; [by apply (upd_wf _ _ v); [..|left]|].
  split.
  - apply (reading_some _ _ q v'); [by apply (target_upd _ _ _ v)|done| |].
    + split; unfold v'; simpl; try done. rewrite E1. unfold uint_wrap. rewrite Z.mod_small; lia.
    + simpl. rewrite Hdef. intros ->. by destruct Hd as [_ ?]; [|lia].
  - eapply others_trans; [done|]. apply (others_upd _ _ v); [done..|]. by left.
Qed.

(** After these a new byte has to be read. *)
Lemma getQueuedChar_more b s hs dat :
  sb_wf b -> s <> 0 -> reading b s hs (zlen hs) dat -> zlen hs <= 4 ->
  exists b', SocketBuffer_getQueuedChar s b = Some ((SOCKETBUFFER_INTERRUPTED, 0), b') /\
    sb_wf b' /\ reading b' s hs (zlen hs) dat /\ others s b b'.
Proof.
  intros Hwf Hs0 Hr Hl. remember (zlen hs) as i eqn:Ei.
  destruct Hr as [d Hn Hd Hd0|q v hs i dat Ht Hne [E1 E2 E3 E4 E5 E6] Hd].
  - unfold SocketBuffer_getQueuedChar. mstep (find_queue_no b s Hwf Hn).
    exists b. split_and!; [done..| |done]. by apply (reading_none _ _ d).
  - destruct (find_queue_target b s q v) as (r & b' & E & Hwf' & Ht' & Ho & Hdef & Hsq & Hc & Er); [done..|].
    destruct (target_lookup _ _ _ _ Ht') as [Hq Hs].
    exists b'. split.
    + unfold SocketBuffer_getQueuedChar. mstep E. subst r. case_decide; [done|].
      assert (load_queue q b' = Some (v, b')) as El by (unfold load_queue, load; by rewrite Hq). mstep El.
      rewrite E1, E2, Ei. destruct (Z.ltb_spec (zlen hs) (zlen hs)); [lia|].
      by destruct (Z.ltb_spec 4 (zlen hs)); [lia|].
    + split_and!; [done| |done]. subst i. apply (reading_some _ _ q v); try done.
      by rewrite Hdef.
Qed.

Lemma take_insert_snoc {A} (l pre : list A) (x : A) n :
  take n l = pre -> length pre = n -> (n < length l)%nat -> take (S n) (<[n := x]> l) = pre ++ [x].
Proof.
  intros H1 H2 H3. rewrite (take_S_r _ _ x) by (by apply list_lookup_insert_eq).
  by rewrite take_insert_ge, H1 by lia.
Qed.

(** A new byte is recorded. *)
Lemma queueChar_snoc b s hs i dat c :
  sb_wf b -> s <> 0 -> reading b s hs i dat -> i = zlen hs -> dat = [] -> zlen hs <= 4 ->
  exists b', SocketBuffer_queueChar s c b = Some (tt, b') /\
    sb_wf b' /\ reading b' s (hs ++ [c]) (zlen hs + 1) [] /\ others s b b'.
Proof.
  intros Hwf Hs0 Hr Ei Edat Hl.
  destruct Hr as [d Hn Hd Hd0|q v hs i dat Ht Hne [E1 E2 E3 E4 E5 E6] Hd].
  - (* the first byte: the default queue is taken *)
    unfold SocketBuffer_queueChar. erewrite bind_step by done. mstep (find_queue_no b s Hwf Hn).
    assert (load_queue (def_queue b) b = Some (d, b)) as El by (unfold load_queue, load; by rewrite Hd).
    mstep El. rewrite Hd0. change (0 =? 0) with true. cbv iota.
    rewrite bind_assoc. erewrite bind_step; [|by apply update_queue_upd]. rewrite ret_bind. cbv beta iota.
    set (v1 := SQ _ _ _ _ _ _ _).
    erewrite bind_step; [|unfold load_queue, load, upd; simpl; by rewrite lookup_insert_eq].
    change (4 <? q_index v1) with false. unfold when. cbv [orb negb].
    rewrite (update_queue_upd _ _ _ v1) by (apply lookup_insert_eq).
    destruct (sb_queues b Hwf _ _ Hd) as [Hf Hb].
    assert (Hwf1 : sb_wf (upd (def_queue b) v1 b)) by (apply (upd_wf _ _ d); [done..|by right]).
    set (v2 := SQ _ _ _ _ _ _ _).
    assert (queue_wf v2) by (by split; unfold v2; simpl; [rewrite length_insert|]).
    eexists. split; [done|]. split; [|split].
    + apply (upd_wf _ _ v1); [done|by apply lookup_insert_eq|done|by right].
    + apply (reading_some _ _ (def_queue b) v2); [|done| |done].
      * apply (target_upd _ _ _ v1); [done| |done]. apply target_default; try done.
        -- intros q w Hw. destruct (decide (q = def_queue b)) as [->|].
           ++ apply has_upd_eq in Hw as [Hin _]. by destruct (sb_def b Hwf).
           ++ apply has_upd in Hw; [|done]. by apply Hn in Hw.
        -- by apply lookup_insert_eq.
      * split; unfold v2; simpl; try done; [|lia].
        destruct (q_fixed_header d) as [|x [|]]; simplify_eq/=; done.
    + apply (others_trans _ _ (upd (def_queue b) v1 b)); [|];
        (eapply others_upd; [done| |by right]); [done|by apply lookup_insert_eq].
  - destruct (find_queue_target b s q v) as (r & b' & E & Hwf' & Ht' & Ho & Hdef & Hsq & Hc & Er); [done..|].
    destruct (target_lookup _ _ _ _ Ht') as [Hq Hs].
    assert (exists d, sq b' !! def_queue b = Some d /\ (q = def_queue b -> d = v)) as (d & Hdv & Hdq).
    { rewrite Hsq. destruct (sb_def_alloc b Hwf) as [d Hd']. exists d. split; [done|].
      intros ->. rewrite Hsq in Hq. congruence. }
    unfold SocketBuffer_queueChar. erewrite bind_step by done. mstep E.
    assert (load_queue (def_queue b) b' = Some (d, b')) as El by (unfold load_queue, load; by rewrite Hdv).
    mstep El.
    assert (exists r', (match r with
       | Some q => mret (q, false)
       | None => if q_socket d =? 0 then
              update_queue (def_queue b) (fun v => SQ s 0 (q_headerlen v) (q_fixed_header v) (q_buflen v) 0 (q_buf v));;
              mret (def_queue b, false)
            else if negb (q_socket d =? s) then mret (def_queue b, true) else mret (def_queue b, false)
        end : M sbuf (loc * bool)) b' = Some (r', b') /\ r' = (q, false)) as (r' & Er' & ->).
    { eexists. split; [|reflexivity]. subst r. case_decide as Hqd; [|done]. rewrite (Hdq Hqd), Hs, Z.eqb_refl.
      destruct (Z.eqb_spec s 0); [done|]. by rewrite <- Hqd. }
    mstep Er'. cbv beta iota.
    assert (load_queue q b' = Some (v, b')) as El' by (unfold load_queue, load; by rewrite Hq).
    mstep El'. rewrite E1. destruct (Z.ltb_spec 4 i); [lia|]. unfold when. cbv [orb negb].
    rewrite (update_queue_upd _ _ _ v) by done. rewrite E1.
    destruct (sb_queues b' Hwf' _ _ Hq) as [Hf Hb].
    set (v2 := SQ _ _ _ _ _ _ _).
    assert (queue_wf v2) by (by split; unfold v2; simpl; [rewrite length_insert|]).
    eexists. split; [done|]. split; [|split].
    + apply (upd_wf _ _ v); [done|done|done|by left].
    + apply (reading_some _ _ q v2); [by apply (target_upd _ _ _ v)|by destruct hs| |].
      * split; unfold v2; simpl; try done; rewrite ?zlen_app, ?length_app; simpl.
        -- lia.
        -- change (zlen [c]) with 1. lia.
        -- rewrite Nat.add_1_r, Ei. unfold zlen. rewrite Nat2Z.id. unfold zlen in Hl.
           apply take_insert_snoc; [done|done|lia].
        -- by subst dat.
        -- by subst dat.
      * intros _. rewrite zlen_app. by change (zlen [c]) with 1.
    + eapply others_trans; [done|]. apply (others_upd _ _ v); [done..|]. by left.
Qed.

(** ** Ending a call *)

(** The part of [holds] that the ends of a call set up. *)
Record stored (v : socket_queue) (hs dat : list byte) : Prop := {
  st_headerlen : q_headerlen v = zlen hs;
  st_header : take (length hs) (q_fixed_header v) = hs;
  st_data : take (length dat) (q_buf v) = dat;
  st_buflen : zlen dat <= q_buflen v
}.

Lemma holds_stored v hs i dat : holds v hs i dat -> stored v hs dat.
Proof. by intros [? ? ? ? ? ?]. Qed.

Lemma fresh_queue b q v : sb_wf b -> q = fresh (dom (sq b)) -> ~ has b q v /\ sq b !! q = None.
Proof.
  intros Hwf ->. assert (sq b !! fresh (dom (sq b)) = None) as E.
  { apply not_elem_of_dom, is_fresh. }
  split; [|done]. intros [_ E']. congruence.
Qed.

(** The default queue joins the list and a new default queue is made. *)
Definition enqueue_default (junk : socket_queue) (b : sbuf) (d : socket_queue) : sbuf :=
  let l := LSpec.append (def_queue b) (48 + q_buflen d) (queues b) in
  let q := fresh (dom (sq b)) in
  SBuf (<[q := SQ 0 0 (q_headerlen junk) (q_fixed_header junk) 0 0 (replicate 1000 0)]> (sq b))
       q l (pws b) (writes b).

Lemma has_enqueue junk b d q v :
  sb_wf b -> sq b !! def_queue b = Some d ->
  has (enqueue_default junk b d) q v <-> has b q v \/ (q = def_queue b /\ v = d).
Proof.
  intros Hwf Hd. unfold has, enqueue_default; simpl. rewrite LSpec.contents_append, elem_of_app, list_elem_of_singleton.
  set (q' := fresh (dom (sq b))).
  assert (sq b !! q' = None) as E by (apply not_elem_of_dom, is_fresh).
  destruct (decide (q' = q)) as [<-|Hne].
  - rewrite lookup_insert_eq, E. split; [|intros [[_ ?]|[? _]]; congruence].
    intros [[H|H] _]; [|congruence]. destruct (sb_alloc b Hwf q' H) as [? ?]. congruence.
  - rewrite lookup_insert_ne by done. split.
    + intros [[H| ->] H']; [by left|right; split; congruence].
    + intros [[H H']|[-> ->]]; [by split; [left|]|by split; [right|]].
Qed.

Section junk.
Variable junk : socket_queue.
Hypothesis junk_header : length (q_fixed_header junk) = 5%nat.

Lemma enqueue_wf b d :
  sb_wf b -> sq b !! def_queue b = Some d -> q_socket d = 0 \/ no_queue b (q_socket d) ->
  sb_wf (enqueue_default junk b d).
Proof using junk_header.
  intros Hwf Hd Hs. pose proof (has_enqueue junk b d) as Hh.
  set (q' := fresh (dom (sq b))).
  assert (sq b !! q' = None) as E by (apply not_elem_of_dom, is_fresh).
  pose proof Hwf as [H1 H2 H3 H4 H5 H6 H7]. split; unfold enqueue_default; simpl.
  - by apply LSpec.append_wf.
  - rewrite LSpec.contents_append. apply NoDup_app. split; [done|]. split; [|apply NoDup_singleton].
    intros x Hx. rewrite list_elem_of_singleton. by intros ->.
  - intros q. rewrite LSpec.contents_append, elem_of_app, list_elem_of_singleton.
    intros Hq. rewrite lookup_insert_is_Some'. right. destruct Hq as [Hq| ->]; [by apply H3|done].
  - fold q'. rewrite LSpec.contents_append, elem_of_app, list_elem_of_singleton. intros [Hq|Hq].
    + destruct (H3 _ Hq). congruence.
    + rewrite Hq in E. congruence.
  - rewrite lookup_insert_is_Some'. by left.
  - fold q'. intros q v. destruct (decide (q' = q)) as [<-|].
    + rewrite lookup_insert_eq. intros [= <-]. split; simpl; [done|]. unfold zlen. simpl. lia.
    + rewrite lookup_insert_ne by done. apply H6.
  - intros q1 q2 v1 v2. rewrite !Hh by done. intros [A1|[-> ->]] [A2|[-> ->]] Es E0; [|exfalso..|done].
    + by eapply H7.
    + destruct Hs as [Hs|Hs]; [congruence|by apply Hs in A1].
    + destruct Hs as [Hs|Hs]; [congruence|]. apply Hs in A2. congruence.
Qed.

Lemma others_enqueue b d s :
  sb_wf b -> sq b !! def_queue b = Some d -> q_socket d = s \/ q_socket d = 0 ->
  others s b (enqueue_default junk b d).
Proof.
  intros Hwf Hd Hs q v Hv Hv0. rewrite has_enqueue by done. split; [by left|].
  intros [?|[_ ->]]; [done|]. tauto.
Qed.

(** The state saved when a call has to wait: the next call starts again from
    the first header byte. *)
Lemma interrupted_some b s q v hs dat :
  sb_wf b -> s <> 0 -> target b s q v -> hs <> [] -> stored v hs dat ->
  exists b', SocketBuffer_interrupted junk s (zlen dat) b = Some (tt, b') /\
    sb_wf b' /\ reading b' s hs 0 dat /\ others s b b'.
Proof using junk_header.
  intros Hwf Hs0 Ht Hne [E2 E3 E5 E6].
  destruct (find_queue_target b s q v) as (r & b' & E & Hwf' & Ht' & Ho & Hdef & Hsq & Hc & Er); [done..|].
  unfold SocketBuffer_interrupted. mstep E.
  (* the state after the choice of the queue *)
  assert (exists b1, (match r with
       | Some q => mret q
       | None => d ← gets def_queue; v ← load_queue d;
           modify (fun s => set_queues (LSpec.append d (48 + q_buflen v) (queues s)) s);;
           SocketBuffer_newDefQ junk;; mret d
       end : M sbuf loc) b' = Some (q, b1) /\ sb_wf b1 /\ has b1 q v /\
       (exists d, sq b1 !! def_queue b1 = Some d /\ q_socket d = 0) /\ others s b b1) as
       (b1 & E1 & Hwf1 & Hq1 & (d & Hd & Hd0) & Ho1).
  { subst r. case_decide as Hq.
    - destruct (target_lookup _ _ _ _ Ht') as [Hqv Hqs]. rewrite Hq, <- Hdef in Hqv.
      exists (enqueue_default junk b' v). split_and!.
      + erewrite bind_step by done.
        erewrite bind_step; [|unfold load_queue, load; by rewrite Hqv].
        erewrite bind_step by done. subst q. by rewrite <- Hdef.
      + apply enqueue_wf; [done..|]. right. rewrite Hqs.
        destruct Ht' as [? Hh|]; [|done]. destruct Hh as [Hh _].
        rewrite Hq, <- Hdef in Hh. by destruct (sb_def b' Hwf').
      + apply has_enqueue; [done..|]. right. by rewrite Hdef.
      + eexists. split; [by apply lookup_insert_eq|done].
      + apply (others_trans _ _ b'); [done|]. apply others_enqueue; [done..|]. by left.
    - exists b'. destruct Ht' as [d Hh Hqs Hd Hd0|? ->]; [|by rewrite Hdef in Hq]. split_and!; eauto. }
  mstep E1. destruct Hq1 as [Hin Hq1]. destruct (target_lookup _ _ _ _ Ht) as [_ Hs].
  rewrite (update_queue_upd _ _ _ v) by done. set (v' := SQ _ _ _ _ _ _ _).
  assert (queue_wf v') by (apply (sb_queues _ Hwf1 _ _ Hq1)).
  eexists. split; [done|]. split_and!.
  - apply (upd_wf _ _ v); [done..|by left].
  - apply (reading_some _ _ q v'); [|done| |].
    + apply (target_upd _ _ _ v); [done| |done]. by apply (target_queued _ _ _ _ d).
    + by split.
    + simpl. intros ->. by destruct (sb_def _ Hwf1).
  - apply (others_trans _ _ b1); [done|]. apply (others_upd _ _ v); [done..|]. by left.
Qed.

Lemma interrupted_none b s :
  sb_wf b -> s <> 0 -> reading b s [] 0 [] ->
  exists b', SocketBuffer_interrupted junk s 0 b = Some (tt, b') /\
    sb_wf b' /\ reading b' s [] 0 [] /\ others s b b'.
Proof using junk_header.
  intros Hwf Hs0 Hr. inversion Hr as [d Hn Hd Hd0|]; [|done].
  unfold SocketBuffer_interrupted. mstep (find_queue_no b s Hwf Hn).
  set (b1 := enqueue_default junk b d).
  assert (Hwf1 : sb_wf b1) by (apply enqueue_wf; [done..|by left]).
  assert (Hd1 : sq b1 !! def_queue b = Some d).
  { destruct (has_enqueue junk b d (def_queue b) d) as [_ Hh]; [done..|]. by destruct Hh as [_ Hh]; [right|]. }
  erewrite bind_step.
  2: { erewrite bind_step by done. erewrite bind_step; [|unfold load_queue, load; by rewrite Hd].
       erewrite bind_step by done. erewrite bind_step by reflexivity. reflexivity. }
  change (SBuf _ _ _ _ _) with b1. fold b1.
  rewrite (update_queue_upd _ _ _ d) by done. set (v' := SQ _ _ _ _ _ _ _).
  assert (queue_wf v') by (apply (sb_queues _ Hwf1 _ _ Hd1)).
  assert (Hn1 : no_queue b1 s).
  { intros q v [Hv|[-> ->]]%has_enqueue; [by apply (Hn q v)|congruence|done..]. }
  eexists. split; [done|]. split_and!.
  - apply (upd_wf _ _ d); [done..|by left].
  - eapply reading_none.
    + intros q v Hv. destruct (decide (def_queue b = q)) as [<-|].
      * apply has_upd_eq in Hv as [_ ->]. simpl. congruence.
      * apply has_upd in Hv; [|done]. by apply Hn1 in Hv.
    + unfold upd; simpl. rewrite lookup_insert_ne; [by apply lookup_insert_eq|].
      intros E. assert (sq b !! fresh (dom (sq b)) = None) as Hf by (apply not_elem_of_dom, is_fresh).
      congruence.
    + done.
  - apply (others_trans _ _ b1); [apply others_enqueue; [done..|by right]|].
    intros q v Hv Hv0. destruct (decide (def_queue b = q)) as [<-|]; [|by rewrite has_upd].
    rewrite has_upd_eq. split; [intros [? E]|intros [? ->]]; simpl in *; congruence.
Qed.
End junk.

(** ** The end of a packet *)

(** The queue becomes the default queue, in place of the old one. *)
Definition dequeue (b : sbuf) (q : loc) : sbuf :=
  SBuf (delete (def_queue b) (sq b)) q
       (LSpec.unlink (fun x => bool_decide (x = q)) (queues b)).2 (pws b) (writes b).

Lemma has_dequeue b q q' w :
  sb_wf b -> has (dequeue b q) q' w <-> has b q' w /\ q' <> q.
Proof.
  intros Hwf. unfold has, dequeue; simpl.
  destruct (LSpec.unlink_content q (queues b)) as (_ & _ & Hx); [apply Hwf..|].
  rewrite Hx. split.
  - intros [[H1 H2] [_ H3]%lookup_delete_Some]. tauto.
  - intros [[H1 H2] H3]. split; [done|]. apply lookup_delete_Some. split; [|done].
    intros <-. by apply (sb_def b Hwf).
Qed.

Lemma dequeue_wf b q v : sb_wf b -> has b q v -> sb_wf (dequeue b q).
Proof.
  intros Hwf [Hin Hq]. pose proof Hwf as [H1 H2 H3 H4 H5 H6 H7].
  destruct (LSpec.unlink_content q (queues b)) as (Hl & Hn & Hx); [done..|].
  assert (q <> def_queue b) by (intros ->; done).
  split; unfold dequeue; simpl; try done.
  - intros x [Hx1 Hx2]%Hx. rewrite lookup_delete_ne; [by apply H3|]. by intros <-.
  - rewrite Hx. tauto.
  - rewrite lookup_delete_ne by done. eauto.
  - intros x w [_ Hw]%lookup_delete_Some. by eapply H6.
  - intros q1 q2 v1 v2 [A1 _]%has_dequeue [A2 _]%has_dequeue; [by eapply H7|done..].
Qed.

Lemma complete_some b s q v :
  sb_wf b -> s <> 0 -> target b s q v ->
  exists b' v', SocketBuffer_complete s b = Some (q, b') /\
    sb_wf b' /\ reading b' s [] 0 [] /\ others s b b' /\ sq b' !! q = Some v' /\ q_buf v' = q_buf v.
Proof.
  intros Hwf Hs0 Ht.
  destruct (find_queue_target b s q v) as (r & b' & E & Hwf' & Ht' & Ho & Hdef & Hsq & Hc & Er); [done..|].
  destruct (target_lookup _ _ _ _ Ht') as [Hqv Hqs].
  unfold SocketBuffer_complete. mstep E.
  assert (exists b1, (match r with
       | Some q => SocketBuffer_freeDefQ;; modify (set_def_queue q);;
           modify (fun s => set_queues (LSpec.unlink (fun x => bool_decide (x = q)) (queues s)).2 s)
       | None => mret tt
       end : M sbuf unit) b' = Some (tt, b1) /\ sb_wf b1 /\ def_queue b1 = q /\ sq b1 !! q = Some v /\
       no_queue b1 s /\ others s b b1) as (b1 & E1 & Hwf1 & Hd1 & Hq1 & Hn1 & Ho1).
  { subst r. case_decide as Hq.
    - exists b'. split_and!; try done; [by rewrite Hdef|].
      destruct Ht' as [? [Hin _]|]; [|done]. rewrite Hq, <- Hdef in Hin. by destruct (sb_def b' Hwf').
    - destruct Ht' as [d Hh Hqs' Hd Hd0|? ->]; [|by rewrite Hdef in Hq].
      exists (dequeue b' q). split_and!.
      + unfold SocketBuffer_freeDefQ. rewrite bind_assoc. erewrite bind_step by done.
        erewrite bind_step; [|unfold free_queue; by rewrite Hd]. done.
      + by apply (dequeue_wf _ _ v).
      + done.
      + unfold dequeue; simpl. rewrite lookup_delete_ne; [done|]. by rewrite Hdef.
      + intros q' w [Hw Hne]%has_dequeue; [|done]. intros Hs. apply Hne.
        apply (sb_unique b' Hwf' q' q w v); [done..|congruence|congruence].
      + intros q' w Hw Hw0. rewrite (Ho q' w) by done. rewrite has_dequeue by done.
        split; [|tauto]. intros Hh'. split; [done|]. intros ->.
        destruct Hh' as [_ Hq']. congruence. }
  mstep E1. erewrite bind_step by done. rewrite Hd1.
  erewrite bind_step; [|by apply (update_queue_upd _ _ _ v)]. cbv beta. set (v' := SQ _ _ _ _ _ _ _).
  assert (queue_wf v') by (apply (sb_queues _ Hwf1 _ _ Hq1)).
  eexists _, v'. split; [done|]. split_and!.
  - apply (upd_wf _ _ v); [done..|by right].
  - apply (reading_none _ _ v'); [|unfold upd; simpl; rewrite Hd1; by apply lookup_insert_eq|done].
    intros q' w Hw. destruct (decide (q = q')) as [<-|].
    + apply has_upd_eq in Hw as [Hw _]. rewrite <- Hd1 in Hw. by destruct (sb_def _ Hwf1).
    + apply has_upd in Hw; [|done]. by apply Hn1 in Hw.
  - apply (others_trans _ _ b1); [done|]. apply (others_upd _ _ v); [done..|by right].
  - by apply lookup_insert_eq.
  - done.
Qed.

(** ** Data *)

(** The buffer has room for what is still to come, and keeps what it holds. *)
Lemma getQueuedData_some b s q v hs i dat n :
  sb_wf b -> s <> 0 -> target b s q v -> holds v hs i dat -> (q = def_queue b -> dat = []) -> 0 < n ->
  exists b' v', SocketBuffer_getQueuedData s n b = Some ((q, zlen dat), b') /\
    sb_wf b' /\ target b' s q v' /\ holds v' hs i dat /\ n <= q_buflen v' /\ others s b b' /\
    def_queue b' = def_queue b.
Proof.
  intros Hwf Hs0 Ht [E1 E2 E3 E4 E5 E6] Hdat Hn.
  destruct (find_queue_target b s q v) as (r & b' & E & Hwf' & Ht' & Ho & Hdef & Hsq & Hc & Er); [done..|].
  destruct (target_lookup _ _ _ _ Ht') as [Hqv Hqs].
  assert (El : load_queue q b' = Some (v, b')) by (unfold load_queue, load; by rewrite Hqv).
  unfold SocketBuffer_getQueuedData. mstep E.
  assert ((match r with
        | Some q => v ← load_queue q; mret (q, q_datalen v)
        | None => d ← gets def_queue; mret (d, 0)
        end : M sbuf (loc * Z)) b' = Some ((q, zlen dat), b')) as Er'.
  { subst r. case_decide as Hq.
    - erewrite bind_step by done. rewrite Hdat by done. by rewrite Hq, Hdef.
    - mstep El. by rewrite E4. }
  mstep Er'. cbv beta iota. mstep El. unfold when.
  destruct (sb_queues _ Hwf' _ _ Hqv) as [Hf Hb].
  destruct (Z.ltb_spec (q_buflen v) n) as [Hlt|Hge].
  - erewrite bind_step; [|by apply (update_queue_upd _ _ _ v)]. cbv beta. set (v' := SQ _ _ _ _ _ _ _).
    assert (Hlen : n <= zlen (q_buf v')).
    { unfold v'; simpl. destruct (Z.ltb_spec 0 (q_datalen v)).
      - rewrite zlen_app. unfold zlen. rewrite length_take, length_replicate. unfold zlen in Hb. lia.
      - unfold realloc, zlen. rewrite length_take, length_app, length_replicate. lia. }
    assert (queue_wf v') by (split; [done|]; simpl in *; lia).
    eexists _, v'. split; [done|]. split_and!.
    + apply (upd_wf _ _ v); [done..|by left].
    + by apply (target_upd _ _ _ v).
    + split; try done; unfold v'; simpl; [|lia].
      rewrite E4. destruct (Z.ltb_spec 0 (zlen dat)) as [H0|H0].
      * unfold zlen at 1. rewrite Nat2Z.id, E5. apply take_app_length.
      * destruct dat; [done|]. rewrite zlen_cons in H0. pose proof (zlen_nonneg dat). lia.
    + done.
    + apply (others_trans _ _ b'); [done|]. apply (others_upd _ _ v); [done..|]. by left.
    + done.
  - exists b', v. split; [done|]. split_and!; done.
Qed.

(** Received bytes are stored after those already there. *)
Lemma store_data_some b s q v hs i dat bs n :
  sb_wf b -> target b s q v -> holds v hs i dat -> n <= q_buflen v -> zlen dat + zlen bs <= n ->
  exists b' v', store_data q (zlen dat) bs b = Some (tt, b') /\
    sb_wf b' /\ target b' s q v' /\ stored v' hs (dat ++ bs) /\ others s b b'.
Proof.
  intros Hwf Ht [E1 E2 E3 E4 E5 E6] Hn Hl.
  destruct (target_lookup _ _ _ _ Ht) as [Hqv Hqs]. destruct (sb_queues _ Hwf _ _ Hqv) as [Hf Hb].
  assert (El : load_queue q b = Some (v, b)) by (unfold load_queue, load; by rewrite Hqv).
  unfold store_data. mstep El. pose proof (zlen_nonneg dat). rewrite bool_decide_true by lia.
  rewrite (update_queue_upd _ _ _ v) by done. set (v' := SQ _ _ _ _ _ _ _).
  assert (Ebuf : q_buf v' = (dat ++ bs) ++ drop (Z.to_nat (zlen dat + zlen bs)) (q_buf v)).
  { unfold v'; simpl. rewrite <- app_assoc. f_equal. unfold zlen. by rewrite Nat2Z.id. }
  assert (Hw' : queue_wf v').
  { split; [done|]. rewrite Ebuf, !zlen_app. unfold v'; simpl. unfold zlen at 3. rewrite length_drop.
    unfold zlen in *. lia. }
  eexists _, v'. split; [done|]. split_and!.
  - apply (upd_wf _ _ v); [done..|by left].
  - by apply (target_upd _ _ _ v).
  - split; try done; [rewrite Ebuf; by apply take_app_length|]. rewrite zlen_app. unfold v'; simpl. lia.
  - apply (others_upd _ _ v); [done..|]. by left.
Qed.

(** * Resumption *)

Section resume.
Context {K : Type} `{KL : KernelLaws K}.

(** Nothing but the socket's own input changes. *)
Record net_frame (s : Z) (w w' : net K) : Prop := {
  nf_sockets : n_s w' = n_s w;
  nf_others : others s (n_buf w) (n_buf w');
  nf_in : forall t, t <> s -> k_in t (n_k w') = k_in t (n_k w);
  nf_out : forall t, k_out t (n_k w') = k_out t (n_k w)
}.

Lemma net_frame_refl s w : net_frame s w w.
Proof. by split. Qed.
Lemma net_frame_trans s w1 w2 w3 : net_frame s w1 w2 -> net_frame s w2 w3 -> net_frame s w1 w3.
Proof.
  intros [A1 A2 A3 A4] [B1 B2 B3 B4]. split.
  - congruence.
  - by eapply others_trans.
  - intros t Ht. by rewrite B3, A3.
  - intros t. by rewrite B4, A4.
Qed.

(** A packet with fixed header [F] and data [body] is being received, followed
    by [rest]: some of it is in the socket buffers and the remainder is still
    to come.  [i] header bytes have been seen by the current call. *)
Definition receiving (s : Z) (F body rest : list byte) (i : Z) (w : net K) : Prop :=
  sb_wf (n_buf w) /\ exists hs dat, reading (n_buf w) s hs i dat /\ 0 <= i <= zlen hs /\
    hs ++ dat ++ k_in s (n_k w) = F ++ body ++ rest /\ zlen hs <= zlen F /\
    (dat = [] \/ zlen hs = zlen F /\ zlen dat < zlen body).

Lemma buf_run {A} (m : M sbuf A) (w : net K) a b' :
  m (n_buf w) = Some (a, b') -> buf m w = Some (a, Net b' (n_s w) (n_k w)).
Proof. intros E. unfold buf, zoom. by rewrite E. Qed.

Lemma frame_buf s w b' : others s (n_buf w) b' -> net_frame s w (Net b' (n_s w) (n_k w)).
Proof. by split. Qed.

Lemma frame_recv s n w r k' :
  k_recv s n (n_k w) = (r, k') -> net_frame s w (Net (n_buf w) (n_s w) k').
Proof. intros E. destruct (k_recv_in _ _ _ _ _ E) as (_ & ? & ?). by split. Qed.

Lemma nthz_prefix {A} (l1 l2 k1 k2 : list A) i x :
  l1 ++ l2 = k1 ++ k2 -> zlen l1 <= zlen k1 -> nthz l1 i = Some x -> nthz k1 i = Some x.
Proof.
  intros E Hl Hx. apply nthz_Some in Hx as Hi. rewrite <- (nthz_app_l l1 l2) in Hx by done.
  rewrite E in Hx. rewrite nthz_app_l in Hx; [done|lia].
Qed.

Lemma reading_start_idle b s hs dat :
  reading b s hs 0 dat -> exists d, sq b !! def_queue b = Some d /\ q_socket d = 0.
Proof.
  inversion 1 as [d|q v ? ? ? Ht Hne Hh Hd]; subst; [by eexists|].
  destruct Ht as [d ? ? ? ?|? -> ? ?]; [by eexists|].
  destruct (Hd eq_refl) as [_ E]. destruct hs; [done|]. rewrite zlen_cons in E.
  pose proof (zlen_nonneg hs). lia.
Qed.

(** What is kept for another socket stays as it is. *)
Lemma receiving_other s t F body rest F' body' rest' w w' :
  s <> t -> t <> 0 -> net_frame s w w' -> receiving s F body rest 0 w' ->
  receiving t F' body' rest' 0 w -> receiving t F' body' rest' 0 w'.
Proof.
  intros Hst Ht0 [_ Ho Hin _] (Hwf' & hs' & dat' & Hr' & _) (Hwf & hs & dat & Hr & Hi & E & Hl & Hd).
  split; [done|]. exists hs, dat. rewrite Hin by done. split; [|done].
  destruct (reading_start_idle _ _ _ _ Hr') as (d' & Hd' & Hd0').
  remember 0 as i eqn:Ei in Hr.
  destruct Hr as [d Hn Hdd Hd0|q v hs i dat Ht Hne Hh Hdef].
  - apply (reading_none _ _ d'); try done. intros q v Hv Hv'. rewrite <- (Ho q v) in Hv by congruence.
    by apply Hn in Hv.
  - destruct Ht as [d Hq Hqs Hd1 Hd2|? -> ? ?].
    + subst i. apply (reading_some _ _ q v); [|done..|].
      * apply (target_queued _ _ _ _ d'); try done. rewrite <- (Ho q v) by congruence. done.
      * intros ->. apply (Ho _ v) in Hq; [|congruence..]. destruct Hq as [Hq _]. by destruct (sb_def _ Hwf').
    + destruct (Hdef eq_refl) as [_ E']. destruct hs; [done|]. rewrite zlen_cons in E'.
      pose proof (zlen_nonneg hs). lia.
Qed.

(** The bytes of a packet. *)
Definition packet_bytes (p : byte * list byte) : list byte :=
  (p.1 :: MQTTPacket_encode (zlen p.2)) ++ p.2.
(** Lengths within the protocol's limit. *)
Definition packet_ok (p : byte * list byte) : Prop := zlen p.2 < 128 ^ 4.
(** Packet [p] is next on the socket, part of it perhaps already read. *)
Definition next_packet (s : Z) (p : byte * list byte) (rest : list byte) (w : net K) : Prop :=
  receiving s (p.1 :: MQTTPacket_encode (zlen p.2)) p.2 rest 0 w.
(** No partial packet is kept for the socket. *)
Definition at_boundary (s : Z) (rest : list byte) (w : net K) : Prop :=
  sb_wf (n_buf w) /\ reading (n_buf w) s [] 0 [] /\ k_in s (n_k w) = rest.

Lemma boundary_next s p rest w : at_boundary s (packet_bytes p ++ rest) w -> next_packet s p rest w.
Proof.
  intros (Hwf & Hr & E). split; [done|]. exists [], []. unfold packet_bytes in E. rewrite <- app_assoc in E.
  split_and!; [done|lia|by change (zlen []) with 0|done|by pose proof (zlen_nonneg (p.1 :: MQTTPacket_encode (zlen p.2)))|by left].
Qed.

(** What a failed call leaves: the buffers are consistent, and no other socket has
    a claim on the default queue. *)
Definition stuck (s : Z) (w : net K) : Prop :=
  sb_wf (n_buf w) /\ exists hs i dat, reading (n_buf w) s hs i dat.

Variable junk : socket_queue.
Hypothesis junk_header : length (q_fixed_header junk) = 5%nat.

(** One header byte: read again, received, or not there yet. *)
Lemma Socket_getch_spec s F body rest i w :
  s <> 0 -> receiving s F body rest i w -> i < zlen F <= 5 ->
  exists rc c w', Socket_getch junk s w = Some ((rc, c), w') /\ net_frame s w w' /\
    (rc = TCPSOCKET_COMPLETE /\ nthz F i = Some c /\ receiving s F body rest (i + 1) w' \/
     rc = TCPSOCKET_INTERRUPTED /\ receiving s F body rest 0 w' \/ rc = SOCKET_ERROR /\ stuck s w').
Proof using junk_header.
  intros Hs0 (Hwf & hs & dat & Hr & Hi & Ein & Hl & Hd) HF.
  unfold Socket_getch. destruct (decide (i < zlen hs)) as [Hlt|Hge].
  - destruct (getQueuedChar_again (n_buf w) s hs i dat) as (c & b' & E & Ec & Hwf' & Hr' & Ho); [done..|lia|lia|].
    mstep (buf_run _ _ _ _ E). eexists _, c, _. split; [done|]. split; [by apply frame_buf|].
    left. split; [done|]. split; [by eapply nthz_prefix|]. split; [done|].
    exists hs, dat. split_and!; (done || simpl; lia).
  - assert (i = zlen hs) as Ei by lia.
    assert (dat = []) as Edat by (destruct Hd as [|[? _]]; [done|lia]).
    destruct (getQueuedChar_more (n_buf w) s hs dat) as (b' & E & Hwf' & Hr' & Ho); [done..|congruence|lia|].
    mstep (buf_run _ _ _ _ E). change (negb _) with false. cbv iota.
    set (w1 := Net b' (n_s w) (n_k w)).
    assert (Hf1 : net_frame s w w1) by (by apply frame_buf).
    destruct (k_recv s 1 (n_k w1)) as [r k'] eqn:Erecv.
    pose proof (frame_recv s 1 w1 r k' Erecv) as Hf2.
    erewrite bind_step; [|unfold sys; by rewrite Erecv].
    apply k_recv_in in Erecv as (Hin & _). change (n_k w1) with (n_k w) in Hin.
    destruct r as [errno|[|c bs]].
    + (* no byte *)
      destruct ((Socket_error errno =? EWOULDBLOCK) || (Socket_error errno =? EAGAIN)).
      2: { eexists _, _, _. split; [done|]. split; [by eapply net_frame_trans|]. right; right. split; [done|]. by eexists; eauto. }
      assert (exists b2, SocketBuffer_interrupted junk s 0 b' = Some (tt, b2) /\ sb_wf b2 /\
        reading b2 s hs 0 [] /\ others s b' b2) as (b2 & E2 & Hwf2 & Hr2 & Ho2).
      { clear -Hwf' Hs0 Hr' Edat junk_header. destruct Hr' as [d|q v hs i' dat' Ht Hne Hh Hq'].
        - apply interrupted_none; [done..|]. by apply (reading_none _ _ d).
        - subst dat'. apply (interrupted_some junk junk_header b' s q v hs []); [done..|]. by eapply holds_stored. }
      erewrite bind_step; [|by apply buf_run]. eexists _, _, _. split; [done|].
      split; [eapply net_frame_trans; [done|]; eapply net_frame_trans; [done|]; by apply frame_buf|].
      right; left. split; [done|]. split; [done|]. exists hs, [].
      split_and!; [done|lia|lia|simpl; rewrite Hin; by subst dat|done|by left].
    + eexists _, _, _. split; [done|]. split; [by eapply net_frame_trans|]. right; right. split; [done|]. by eexists; eauto.
    + destruct Hin as (Hb1 & Hin). assert (bs = []) as ->.
      { destruct bs; [done|]. rewrite !zlen_cons in Hb1. pose proof (zlen_nonneg bs). lia. }
      destruct (queueChar_snoc b' s hs (zlen hs) dat c) as (b2 & E2 & Hwf2 & Hr2 & Ho2); [done..|lia|].
      erewrite bind_step; [|by apply buf_run]. eexists _, c, _. split; [done|].
      split; [eapply net_frame_trans; [done|]; eapply net_frame_trans; [done|]; by apply frame_buf|].
      left. split; [done|]. subst dat. simpl in Ein. rewrite Hin in Ein.
      assert (nthz F i = Some c) as Hc.
      { rewrite (app_assoc hs [c]) in Ein. eapply nthz_prefix; [exact Ein| |].
        - rewrite zlen_app. change (zlen [c]) with 1. lia.
        - rewrite Ei, nthz_app_r, Z.sub_diag by lia. done. }
      split; [done|]. split; [done|]. exists (hs ++ [c]), []. rewrite Ei. rewrite zlen_app. change (zlen [c]) with 1.
      split_and!; [done|lia|lia|by rewrite <- app_assoc|lia|by left].
Qed.

(** The remaining length, in the same three ways. *)
Lemma decode_loop_spec s F body rest k : forall n i w pre fuel len mult value,
  s <> 0 -> F = pre ++ encode_loop k n -> zlen pre = i -> zlen F <= 5 ->
  0 <= n < 128 ^ Z.of_nat k -> (0 < k <= fuel)%nat -> len + Z.of_nat k <= 4 ->
  receiving s F body rest i w ->
  exists rc v w', decode_loop (Socket_getch junk s) fuel len mult value w = Some ((rc, v), w') /\
    net_frame s w w' /\
    (rc = TCPSOCKET_COMPLETE /\ v = value + n * mult /\ receiving s F body rest (zlen F) w' \/
     rc = TCPSOCKET_INTERRUPTED /\ receiving s F body rest 0 w' \/ rc = SOCKET_ERROR /\ stuck s w').
Proof using junk_header.
  induction k as [|k IH]; intros n i w pre fuel len mult value Hs0 HF Hi HF5 Hn Hk Hl Hr; [lia|].
  destruct fuel as [|fuel]; [lia|]. unfold decode_loop; fold (decode_loop (Socket_getch junk s)).
  unfold MAX_NO_OF_REMAINING_LENGTH_BYTES. destruct (Z.ltb_spec 4 (len + 1)); [lia|].
  pose proof (Z.mod_pos_bound n 128 ltac:(lia)) as Hm.
  destruct (digit_bits (n mod 128) Hm) as (D1 & D2 & D3 & D4 & _).
  pose proof (encode_loop_len (S k) n ltac:(lia) ltac:(lia)) as Hel.
  destruct (Socket_getch_spec s F body rest i w) as (rc & c & w' & E & Hf & Hrc); [done..| |].
  { split; [|lia]. rewrite HF, zlen_app. lia. }
  mstep E. cbv beta iota. destruct Hrc as [(-> & Hc & Hr')|[(-> & Hr')|(-> & Hr')]].
  2: { eexists _, _, _. split; [done|]. split; [done|]. by right; left. }
  2: { eexists _, _, _. split; [done|]. split; [done|]. by right; right. }
  change (negb (TCPSOCKET_COMPLETE =? TCPSOCKET_COMPLETE)) with false. cbv iota. rewrite HF, nthz_app_r, Hi, Z.sub_diag in Hc by lia.
  simpl in Hc, HF. destruct (Z.ltb_spec 0 (n / 128)) as [Hd|Hd];
    rewrite nthz_0 in Hc; injection Hc as <-.
  - rewrite D1, D2. change (negb _) with true. cbv iota.
    assert (0 < k)%nat by (destruct k; [simpl in Hn; zdm|lia]).
    assert (0 <= n / 128 < 128 ^ Z.of_nat k) as Hn'.
    { split; [zdm|]. apply Z.div_lt_upper_bound; [lia|]. rewrite <- Z.pow_succ_r by lia.
      rewrite <- Nat2Z.inj_succ. lia. }
    destruct (IH (n / 128) (i + 1) w' (pre ++ [Z.lor (n mod 128) 128]) fuel (len + 1) (mult * 128)
      (value + n mod 128 * mult)) as (rc & v & w2 & E2 & Hf2 & Hrc); [done| | |done|done|lia|lia|done|].
    + by rewrite <- app_assoc.
    + rewrite zlen_app. change (zlen [_]) with 1. lia.
    + exists rc, v, w2. split; [done|]. split; [by eapply net_frame_trans|].
      destruct Hrc as [(? & -> & ?)|?]; [left|by right]. split_and!; [done| |done].
      pose proof (Z.div_mod n 128 ltac:(lia)). nia.
  - rewrite D3, D4. change (negb _) with false. cbv iota.
    eexists _, _, _. split; [done|]. split; [done|]. left. split; [done|].
    rewrite (Z.mod_small n 128) by zdm. split; [done|].
    replace (zlen F) with (i + 1); [done|]. rewrite HF, zlen_app. change (zlen [_]) with 1. lia.
Qed.

(** The data: complete, still incomplete, or the connection has failed. *)
Lemma Socket_getdata_spec s F body rest w :
  s <> 0 -> F <> [] -> zlen body < 2 ^ 31 -> receiving s F body rest (zlen F) w ->
  exists r l w', Socket_getdata junk s (zlen body) 0 w = Some ((r, l), w') /\ net_frame s w w' /\
    match r with
    | None => stuck s w'
    | Some q =>
        if l =? zlen body then
          sb_wf (n_buf w') /\ reading (n_buf w') s [] 0 [] /\ k_in s (n_k w') = rest /\
          exists v j, sq (n_buf w') !! q = Some v /\ q_buf v = body ++ j
        else receiving s F body rest 0 w'
    end.
Proof using junk_header.
  intros Hs0 HF0 Hb (Hwf & hs & dat & Hr & Hi & Ein & Hl & Hd).
  assert (Hlen : zlen hs = zlen F) by lia. apply app_inj_1 in Ein as [-> Ein]; [|unfold zlen in Hlen; lia].
  destruct Hr as [|q v F i dat Ht Hne Hh Hdef]; [done|]. unfold Socket_getdata.
  pose proof (zlen_nonneg F) as HFl. pose proof (zlen_nonneg body) as Hb0. destruct (Z.eqb_spec (zlen body) 0) as [E0|E0].
  { assert (dat = []) as -> by (destruct Hd as [|[_ Hd]]; [done|pose proof (zlen_nonneg dat); lia]).
    destruct (complete_some (n_buf w) s q v) as (b' & v' & E & Hwf' & Hr' & Ho & Hq' & Hbuf); [done..|].
    mstep (buf_run _ _ _ _ E). exists (Some q), 0, (Net b' (n_s w) (n_k w)). split; [done|]. split; [by apply frame_buf|].
    rewrite E0. change (0 =? 0) with true. cbv iota. simpl.
    assert (body = []) as -> by (destruct body; [done|]; rewrite zlen_cons in E0; pose proof (zlen_nonneg body); lia).
    split_and!; [done..|]. exists v', (q_buf v'). by split. }
  assert (zlen dat < zlen body) as Hdl.
  { destruct Hd as [->|[_ ?]]; [change (zlen []) with 0; lia|done]. }
  destruct (getQueuedData_some (n_buf w) s q v F i dat (zlen body))
    as (b1 & v1 & E & Hwf1 & Ht1 & Hh1 & Hlen1 & Ho1 & Hdef1); [done..| |lia|].
  { intros Hq. by apply Hdef. }
  mstep (buf_run _ _ _ _ E). cbv beta iota. set (w1 := Net b1 (n_s w) (n_k w)).
  pose proof (zlen_nonneg dat) as Hdat0.
  replace (int_wrap (size_wrap (zlen body - zlen dat))) with (zlen body - zlen dat).
  2: { unfold size_wrap. rewrite Z.mod_small, int_wrap_id; unfold in_int; lia. }
  assert (Hf1 : net_frame s w w1) by (by apply frame_buf).
  destruct (k_recv s (zlen body - zlen dat) (n_k w1)) as [r k'] eqn:Erecv.
  pose proof (frame_recv s _ w1 r k' Erecv) as Hf2.
  erewrite bind_step; [|unfold sys; by rewrite Erecv].
  apply k_recv_in in Erecv as (Hin & _). change (n_k w1) with (n_k w) in Hin.
  pose proof (net_frame_trans _ _ _ _ Hf1 Hf2) as Hf12.
  destruct r as [errno|[|c bs]].
  - destruct (negb (Socket_error errno =? EAGAIN) && negb (Socket_error errno =? EWOULDBLOCK)).
    { eexists None, _, _. split; [done|]. split; [done|]. split; [done|]. eexists F, _, dat. apply (reading_some _ _ q v1); [done..|]. intros Hq. apply Hdef. etrans; [exact Hq|exact Hdef1]. }
    destruct (Z.eqb_spec (zlen dat) (zlen body)); [lia|].
    destruct (interrupted_some junk junk_header b1 s q v1 F dat) as (b2 & E2 & Hwf2 & Hr2 & Ho2); [done..| |].
    { by eapply holds_stored. }
    erewrite bind_step; [|by apply buf_run]. exists (Some q). eexists _, _. split; [done|].
    split; [eapply net_frame_trans; [done|]; by apply frame_buf|].
    destruct (Z.eqb_spec (zlen dat) (zlen body)); [lia|]. split; [done|]. exists F, dat.
    split_and!; [done|lia|lia|by simpl; rewrite Hin, Ein|lia|by right].
  - eexists None, _, _. split; [done|]. split; [done|]. split; [done|]. eexists F, _, dat. apply (reading_some _ _ q v1); [done..|]. intros Hq. apply Hdef. etrans; [exact Hq|exact Hdef1].
  - set (bs' := c :: bs) in *. destruct Hin as (Hbl & Hin).
    destruct (store_data_some b1 s q v1 F i dat bs' (zlen body))
      as (b2 & v2 & E2 & Hwf2 & Ht2 & Hst2 & Ho2); [done..|lia|].
    erewrite bind_step; [|by apply buf_run]. cbv zeta. rewrite <- zlen_app.
    rewrite Hin, app_assoc in Ein.
    destruct (Z.eqb_spec (zlen (dat ++ bs')) (zlen body)) as [Hc|Hc].
    + apply app_inj_1 in Ein as [<- Ein]; [|unfold zlen in Hc; lia].
      destruct (complete_some b2 s q v2) as (b3 & v3 & E3 & Hwf3 & Hr3 & Ho3 & Hq3 & Hbuf3); [done..|].
      erewrite bind_step; [|by apply buf_run]. exists (Some q). eexists _, _. split; [done|]. split.
      { apply (net_frame_trans _ _ _ _ Hf12), (frame_buf s (Net (n_buf w1) (n_s w1) k') b3).
        by eapply others_trans. }
      rewrite Z.eqb_refl. simpl. split_and!; [done..|]. exists v3, (drop (length (dat ++ bs')) (q_buf v2)).
      split; [done|]. rewrite Hbuf3. destruct Hst2 as [_ _ Hst2 _]. rewrite <- Hst2 at 1. by rewrite take_drop.
    + destruct (interrupted_some junk junk_header b2 s q v2 F (dat ++ bs')) as (b3 & E3 & Hwf3 & Hr3 & Ho3); [done..|].
      erewrite bind_step; [|by apply buf_run]. exists (Some q). eexists _, _. split; [done|]. split.
      { apply (net_frame_trans _ _ _ _ Hf12), (frame_buf s (Net (n_buf w1) (n_s w1) k') b3).
        by eapply others_trans. }
      destruct (Z.eqb_spec (zlen (dat ++ bs')) (zlen body)); [done|]. split; [done|]. exists F, (dat ++ bs').
      split_and!; [done|lia|lia|by simpl; rewrite Ein|lia|right; split; [done|]].
      rewrite zlen_app in *. lia.
Qed.

Definition read_outcome (s : Z) (p : byte * list byte) (rest : list byte)
    (rc : Z) (res : option (byte * Z * list byte)) (w' : net K) : Prop :=
  match res with
  | Some (header, remaining_length, data) =>
      rc = TCPSOCKET_COMPLETE /\ header = p.1 /\ remaining_length = zlen p.2 /\
      (exists j, data = p.2 ++ j) /\ at_boundary s rest w'
  | None => rc = TCPSOCKET_INTERRUPTED /\ next_packet s p rest w' \/ rc = SOCKET_ERROR /\ stuck s w'
  end.

Lemma Factory_read_spec s p rest w :
  s <> 0 -> packet_ok p -> next_packet s p rest w ->
  exists rc res w', Factory_read junk s w = Some ((rc, res), w') /\ net_frame s w w' /\
    read_outcome s p rest rc res w'.
Proof using junk_header.
  intros Hs0 Hok Hr. destruct p as [h body]. unfold packet_ok, next_packet in *. cbn [fst snd] in *.
  set (F := h :: MQTTPacket_encode (zlen body)) in *. pose proof (zlen_nonneg body) as Hb0.
  assert (HE : MQTTPacket_encode (zlen body) = encode_loop 4 (zlen body)).
  { apply encode_loop_more; [split; [done|]; exact Hok|lia|lia]. }
  pose proof (encode_loop_len 4 (zlen body) Hb0 ltac:(lia)) as Hel.
  assert (HF : 2 <= zlen F <= 5) by (unfold F; rewrite zlen_cons, HE; lia).
  unfold Factory_read.
  destruct (Socket_getch_spec s F body rest 0 w) as (rc & c & w1 & E1 & Hf1 & Hrc); [done..|lia|].
  mstep E1. cbv beta iota. destruct Hrc as [(-> & Hc & Hr1)|[(-> & Hr1)|(-> & Hr1)]].
  2: { eexists _, None, _. split; [done|]. split; [done|]. by left. }
  2: { eexists _, None, _. split; [done|]. split; [done|]. by right. }
  unfold F in Hc. rewrite nthz_0 in Hc. injection Hc as <-.
  change (negb (TCPSOCKET_COMPLETE =? TCPSOCKET_COMPLETE)) with false. cbv iota.
  destruct (decode_loop_spec s F body rest 4 (zlen body) 1 w1 [h] 5 0 1 0)
    as (rc & v & w2 & E2 & Hf2 & Hrc); [done|unfold F; by rewrite HE|done|lia|split; [done|exact Hok]|lia|lia|done|].
  unfold MQTTPacket_decode. mstep E2. cbv beta iota.
  pose proof (net_frame_trans _ _ _ _ Hf1 Hf2) as Hf12.
  destruct Hrc as [(-> & Hv & Hr2)|[(-> & Hr2)|(-> & Hr2)]].
  2: { eexists _, None, _. split; [done|]. split; [done|]. by left. }
  2: { eexists _, None, _. split; [done|]. split; [done|]. by right. }
  change (negb (TCPSOCKET_COMPLETE =? TCPSOCKET_COMPLETE)) with false. cbv iota.
  replace v with (zlen body) by lia.
  destruct (Socket_getdata_spec s F body rest w2) as (r & l & w3 & E3 & Hf3 & Hres); [done..|lia|done|].
  mstep E3. pose proof (net_frame_trans _ _ _ _ Hf12 Hf3) as Hf13. destruct r as [q|].
  2: { eexists _, None, _. split; [done|]. split; [done|]. by right. }
  cbv beta iota. destruct (l =? zlen body) eqn:El.
  - destruct Hres as (Hwf & Hrd & Hin & v' & j & Hq & Hbuf). cbn [negb]. cbv iota.
    erewrite bind_step; [|apply buf_run; unfold load_queue, load; by rewrite Hq].
    eexists _, (Some _), _. split; [done|]. split.
    + apply (net_frame_trans _ _ _ _ Hf13). by apply frame_buf.
    + simpl. split_and!; [done..| |done]. by exists j.
  - cbn [negb]. cbv iota. eexists _, None, _. split; [done|]. split; [done|]. by left.
Qed.

(** Reading up to [want] packets with at most [n] calls.  The flag tells
    whether the connection is still good. *)
Fixpoint read_packets (n : nat) (want : nat) (s : Z) : M (net K) (list (byte * Z * list byte) * bool) :=
  match n, want with
  | S n', S want' =>
      r ← Factory_read junk s;
      match r with
      | (_, Some p) => ps ← read_packets n' want' s; mret (p :: ps.1, ps.2)
      | (rc, None) =>
          if rc =? TCPSOCKET_INTERRUPTED then read_packets n' want s else mret ([], false)
      end
  | _, _ => mret ([], true)
  end.

(** The header byte and the data of a packet that was read. *)
Definition contents_of (r : byte * Z * list byte) : byte * list byte :=
  let '(h, n, data) := r in (h, take (Z.to_nat n) data).
End resume.

(** A network whose input is a byte stream, before anything has been read. *)
Definition ex_junk : socket_queue := SQ 77 77 77 [1; 2; 3; 4; 5] 0 0 [].
Definition ex_net (input : list byte) (script : list Z) : net skernel :=
  Net (SBuf {[1%positive := SQ 0 0 77 [1; 2; 3; 4; 5] 0 0 (replicate 1000 0)]} 1%positive LSpec.empty ∅ LSpec.empty)
      (MkSockets LSpec.empty None LSpec.empty LSpec.empty ∅ ∅ 0 ∅ ∅)
      (SKernel {[5 := input]} ∅ script 0).

Lemma ex_net_boundary input script : at_boundary 5 input (ex_net input script).
Proof.
  split_and!.
  - split; simpl; try done.
    + apply LSpec.wf_empty.
    + constructor.
    + intros q Hq. by apply elem_of_nil in Hq.
    + apply not_elem_of_nil.
    + intros q v [<- <-]%lookup_singleton_Some. split; simpl; [done|]. unfold zlen. simpl. lia.
    + intros q1 q2 v1 v2 [Hq _]. by apply elem_of_nil in Hq.
  - eapply reading_none; [|by apply lookup_singleton_Some|done].
    intros q v [Hq _]. by apply elem_of_nil in Hq.
  - simpl. unfold sk_stream. by rewrite lookup_singleton_eq.
Qed.

(** * Properties *)

Section resume_properties.
Context {K : Type} `{KL : KernelLaws K}.

(** [C18] A call of [MQTTPacket_Factory] is resumable.  When a packet is next on
    a socket, wherever earlier calls were interrupted, the call goes well: it
    delivers exactly that packet and leaves the rest of the stream unread, or
    it is interrupted and everything read so far is kept for the next call, or
    the connection has failed.  Packets that are partly read on other sockets
    are not disturbed. *)
Theorem Factory_read_resumes junk s p rest w :
  length (q_fixed_header junk) = 5%nat -> s <> 0 -> packet_ok p -> next_packet s p rest w ->
  exists rc res w', Factory_read junk s w = Some ((rc, res), w') /\
    read_outcome s p rest rc res w' /\
    (rc = TCPSOCKET_INTERRUPTED -> forall t p' rest', t <> s -> t <> 0 ->
       next_packet t p' rest' w -> next_packet t p' rest' w').
Proof.
  intros Hj Hs Hok Hr. destruct (Factory_read_spec junk Hj s p rest w) as (rc & res & w' & E & Hf & Ho); [done..|].
  exists rc, res, w'. split_and!; [done..|]. intros Hrc t p' rest' Ht Ht0. destruct res as [[[h n] d]|].
  - destruct Ho as [-> _]. done.
  - destruct Ho as [[_ Ho]|[Ho _]]; [|by rewrite Ho in Hrc]. intros Hn. by eapply receiving_other; [exact (not_eq_sym Ht)|done|exact Hf|exact Ho|exact Hn].
Qed.

(** [C19] The stream of packets survives any division into reads: while the
    connection is good, the packets that repeated calls deliver are the packets
    sent, in order and with their contents. *)
Theorem read_packets_stream junk s pkts rest n want w :
  length (q_fixed_header junk) = 5%nat -> s <> 0 -> Forall packet_ok pkts ->
  (want <= length pkts)%nat -> at_boundary s (concat (packet_bytes <$> pkts) ++ rest) w ->
  exists ps ok w', read_packets junk n want s w = Some ((ps, ok), w') /\
    contents_of <$> ps = take (length ps) pkts /\ (length ps <= want)%nat.
Proof.
  intros Hj Hs Hok Hw Hb.
  assert (match pkts with [] => True | p :: pkts' =>
    next_packet s p (concat (packet_bytes <$> pkts') ++ rest) w end) as Hn.
  { destruct pkts as [|p pkts]; [done|]. apply boundary_next. simpl in Hb. by rewrite <- app_assoc in Hb. }
  clear Hb. revert want pkts w Hok Hw Hn. induction n as [|n IH]; intros want pkts w Hok Hw Hn.
  { exists [], true, w. split_and!; [done..|simpl; lia]. }
  destruct want as [|want]; [exists [], true, w; by split_and!|].
  destruct pkts as [|p pkts]; [simpl in Hw; lia|]. apply Forall_cons in Hok as [Hp Hok].
  destruct (Factory_read_spec junk Hj s p _ w Hs Hp Hn) as (rc & res & w1 & E & _ & Ho).
  simpl. mstep E. destruct res as [[[h m] d]|]; cbv beta iota.
  - destruct Ho as (_ & -> & -> & (j & ->) & Hb).
    destruct (IH want pkts w1) as (ps & ok & w2 & E2 & Hps & Hlen); [done|simpl in Hw; lia| |].
    { destruct pkts as [|p' pkts]; [done|]. apply boundary_next. simpl in Hb. by rewrite <- app_assoc in Hb. }
    mstep E2. eexists _, _, _. split; [done|]. cbn [fst snd]. split; [|simpl; lia]. rewrite fmap_cons, Hps. cbn [length take]. f_equal. unfold contents_of.
    unfold zlen. rewrite Nat2Z.id, take_app_length. by destruct p.
  - destruct Ho as [[-> Ho]|[-> _]]; [|by exists [], false, w1; split_and!; [done..|simpl; lia]].
    apply (IH (S want) (p :: pkts) w1); [by constructor|done|done].
Qed.
End resume_properties.

Example Factory_read_resumes_witness :
  let w := ex_net [0x40; 2; 0; 9; 0xD0; 0] [1; 0; 1; 2] in
  exists rc res w', Factory_read ex_junk 5 w = Some ((rc, res), w') /\
    read_outcome 5 (0x40, [0; 9]) [0xD0; 0] rc res w'.
Proof.
  destruct (Factory_read_resumes ex_junk 5 (0x40, [0; 9]) [0xD0; 0]
    (ex_net [0x40; 2; 0; 9; 0xD0; 0] [1; 0; 1; 2])) as (rc & res & w' & E & Ho & _).
  - done.
  - done.
  - done.
  - apply boundary_next, ex_net_boundary.
  - by exists rc, res, w'.
Defined.

Example read_packets_stream_witness :
  exists ps ok w', read_packets ex_junk 9 2 5
      (ex_net (concat (packet_bytes <$> [(0x40, [0; 9]); (0xD0, [])])) [1; 0; 1; 1; 0; 1; 1; 1])
    = Some ((ps, ok), w') /\ contents_of <$> ps = take (length ps) [(0x40, [0; 9]); (0xD0, [])] /\
    length ps = 2%nat.
Proof.
  destruct (read_packets_stream ex_junk 5 [(0x40, [0; 9]); (0xD0, [])] [] 9 2
    (ex_net (concat (packet_bytes <$> [(0x40, [0; 9]); (0xD0, [])])) [1; 0; 1; 1; 0; 1; 1; 1]))
    as (ps & ok & w' & E & Hps & _).
  - done.
  - done.
  - by repeat constructor.
  - done.
  - rewrite app_nil_r. apply ex_net_boundary.
  - exists ps, ok, w'. split; [done|]. split; [done|]. vm_compute in E. by injection E as <- _ _.
Defined.
End Reader.
