(* ===== verification/Writer.v ===== *)
(** Writing without blocking: the properties of [Socket_putdatas],
    [Socket_continueWrite] and [Socket_continueWrites] of [lib/Socket.c].  A
    packet that cannot be written at once is kept, and its continuations
    deliver exactly the bytes that are still missing. *)
From S2P Require Import Prelude ListSpec Packet SocketBuffer Socket.

Module Writer.
Import Packet SocketBuffer Socket.
#[local] Arguments zlen : simpl never.

(** * The buffers left to write *)

Lemma remaining_whole bufs cur bytes :
  bytes <= cur -> concat (remaining_iovecs bufs cur bytes) = concat bufs.
Proof.
  revert cur. induction bufs as [|b bufs IH]; intros cur Hc; simpl; [done|].
  destruct (Z.leb_spec bytes cur); [|lia]. simpl. pose proof (zlen_nonneg b). by rewrite IH by lia.
Qed.

(** They are the bytes after those written, up to the end of a buffer; when
    something is missing they are not empty. *)
Lemma remaining_spec bufs cur bytes :
  cur <= bytes ->
  exists tail, drop (Z.to_nat (bytes - cur)) (concat bufs) =
      concat (remaining_iovecs bufs cur bytes) ++ tail /\
    (concat (remaining_iovecs bufs cur bytes) = [] -> drop (Z.to_nat (bytes - cur)) (concat bufs) = []).
Proof.
  revert cur. induction bufs as [|b bufs IH]; intros cur Hc.
  - exists []. simpl. rewrite drop_nil. done.
  - cbn [remaining_iovecs concat]. destruct (Z.leb_spec bytes cur) as [Hle|Hgt].
    + exists []. replace (bytes - cur) with 0 by lia. rewrite drop_0. cbn [concat].
      pose proof (zlen_nonneg b). rewrite remaining_whole by lia. by rewrite app_nil_r.
    + destruct (Z.ltb_spec bytes (cur + zlen b)) as [Hlt|Hge].
      * exists (concat bufs). cbn [concat]. rewrite app_nil_r, drop_app_le by (unfold zlen in Hlt; lia).
        split; [done|]. intros E. exfalso. apply (f_equal length) in E. rewrite length_drop in E.
        unfold zlen in Hlt. simpl in E. lia.
      * rewrite drop_app_ge by (unfold zlen in Hge; lia).
        replace (Z.to_nat (bytes - cur) - length b)%nat with (Z.to_nat (bytes - (cur + zlen b)))
          by (unfold zlen; lia).
        by apply IH.
Qed.

Section writes.
Context {K : Type} `{KL : KernelLaws K}.

(** * Pending writes *)

(** [p] is the pending write of a socket, with the fields [v]. *)
Definition pending (b : sbuf) (p : loc) (v : pending_writes) : Prop :=
  p ∈ LSpec.contents (writes b) /\ pws b !! p = Some v.

(** The structure of the pending writes: every one is in the list once, no two
    for the same socket. *)
Record pw_wf (b : sbuf) : Prop := {
  pw_list : LSpec.wf (writes b);
  pw_nodup : NoDup (LSpec.contents (writes b));
  pw_alloc : forall p, p ∈ LSpec.contents (writes b) -> is_Some (pws b !! p);
  pw_unique : forall p q v w, pending b p v -> pending b q w -> pw_socket v = pw_socket w -> p = q
}.

Definition wp_socks (w : net K) : list Z := (LSpec.contents (write_pending (n_s w))).*2.

(** The whole state of writing: the sockets in [write_pending] are those with a
    pending write. *)
Record w_ok (w : net K) : Prop := {
  wo_pw : pw_wf (n_buf w);
  wo_list : LSpec.wf (write_pending (n_s w));
  wo_nodup : NoDup (wp_socks w);
  wo_cells : NoDup (LSpec.contents (write_pending (n_s w))).*1;
  wo_iff : forall s, s ∈ wp_socks w <-> exists p v, pending (n_buf w) p v /\ pw_socket v = s
}.

(** [msg] is being written to the socket: [bytes] of it are out, after [out0]. *)
Definition in_flight (s : Z) (out0 msg : list byte) (bytes : Z) (w : net K) : Prop :=
  w_ok w /\ exists p v, pending (n_buf w) p v /\ pw_socket v = s /\ concat (pw_iovecs v) = msg /\
    pw_total v = zlen msg /\ pw_bytes v = bytes /\ 0 <= bytes <= zlen msg /\
    k_out s (n_k w) = out0 ++ take (Z.to_nat bytes) msg.

Lemma getWrite_pending b p v s :
  pw_wf b -> pending b p v -> pw_socket v = s ->
  exists b', SocketBuffer_getWrite s b = Some (Some p, b') /\ pw_wf b' /\ pws b' = pws b /\
    LSpec.contents (writes b') = LSpec.contents (writes b).
Proof.
  intros [Hl Hn Ha Hu] [Hin Hp] Hs. unfold SocketBuffer_getWrite.
  destruct (LSpec.find_item_cases (pending_socketcompare b s) (writes b) Hl)
    as [[_ Hf]|(k1 & a & x & k2 & Ei & Hx & E & Ec)].
  - exfalso. rewrite Forall_forall in Hf. specialize (Hf p Hin). unfold pending_socketcompare in Hf.
    rewrite Hp, Hs, Z.eqb_refl in Hf. done.
  - rewrite E. change (LSpec.elem_content (LSpec.with_cur (Some a) (writes b)) a)
      with (LSpec.elem_content (writes b) a). rewrite Ec.
    assert (x = p) as ->.
    { unfold pending_socketcompare in Hx. destruct (pws b !! x) as [w|] eqn:Ew; [|done].
      apply Z.eqb_eq in Hx. eapply Hu; [split; [|done]|by split|congruence].
      rewrite (LSpec.contents_mid _ _ _ _ _ Ei), elem_of_app, elem_of_cons. tauto. }
    eexists. split; [done|]. split; [|done]. split; try done.
    pose proof (LSpec.find_item_wf (pending_socketcompare b s) (writes b) Hl) as Hw. by rewrite E in Hw.
Qed.

Lemma getWrite_none b s :
  pw_wf b -> (forall p v, pending b p v -> pw_socket v <> s) ->
  SocketBuffer_getWrite s b = Some (None, b).
Proof.
  intros [Hl Hn Ha Hu] Hno. unfold SocketBuffer_getWrite.
  destruct (LSpec.find_item_cases (pending_socketcompare b s) (writes b) Hl)
    as [[E _]|(k1 & a & x & k2 & Ei & Hx & E & Ec)].
  - rewrite E. by destruct b.
  - exfalso. unfold pending_socketcompare in Hx. destruct (pws b !! x) as [w|] eqn:Ew; [|done].
    apply Z.eqb_eq in Hx. apply (Hno x w); [|done]. split; [|done].
    rewrite (LSpec.contents_mid _ _ _ _ _ Ei), elem_of_app, elem_of_cons. tauto.
Qed.

(** Only the position of the search in [write_pending] changes. *)
Record moved (w w' : net K) : Prop := {
  mv_buf : n_buf w' = n_buf w;
  mv_k : n_k w' = n_k w;
  mv_contents : LSpec.contents (write_pending (n_s w')) = LSpec.contents (write_pending (n_s w));
  mv_wf : LSpec.wf (write_pending (n_s w'))
}.

Lemma moved_ok w w' : w_ok w -> moved w w' -> w_ok w'.
Proof.
  intros [H1 H2 H3 Hc H4] [E1 E2 E3 E4]. unfold wp_socks in *.
  split; unfold wp_socks; rewrite ?E1, ?E3; done.
Qed.

Lemma w_ok_k w k : w_ok w -> w_ok (Net (n_buf w) (n_s w) k).
Proof. by intros [? ? ? ? ?]. Qed.

Lemma noPendingWrites_spec s w :
  w_ok w -> exists w', Socket_noPendingWrites s w = Some (bool_decide (s ∉ wp_socks w), w') /\ moved w w'.
Proof.
  intros Hok. pose proof (wo_list w Hok) as Hl. unfold Socket_noPendingWrites.
  destruct (LSpec.find_item_cases (intcompare s) (write_pending (n_s w)) Hl)
    as [[E Hf]|(k1 & a & [c v] & k2 & Ei & Hx & E & Ec)].
  - erewrite bind_step; [|unfold find_int, sockets, zoom; rewrite E; reflexivity].
    eexists. split.
    + rewrite bool_decide_true by done. rewrite bool_decide_true; [done|].
      unfold wp_socks. intros ([c v] & Hs & Hin)%list_elem_of_fmap. simpl in Hs. subst v.
      rewrite Forall_forall in Hf. specialize (Hf _ Hin). unfold intcompare in Hf. simpl in Hf. lia.
    + by split.
  - erewrite bind_step; [|unfold find_int, sockets, zoom; rewrite E; reflexivity].
    eexists. split.
    + rewrite (bool_decide_false (Some a = None)) by done. rewrite bool_decide_false; [done|].
      intros Hn. apply Hn. unfold intcompare in Hx. simpl in Hx. apply Z.eqb_eq in Hx. subst v.
      unfold wp_socks. rewrite (LSpec.contents_mid _ _ _ _ _ Ei), fmap_app, fmap_cons, elem_of_app, elem_of_cons.
      tauto.
    + split; try done. simpl.
      pose proof (LSpec.find_item_wf (intcompare s) _ Hl) as Hw. by rewrite E in Hw.
Qed.

(** What [Socket_writev] makes of the answer of [writev]: only an error other than
    "try again" is a failure, and what is accepted otherwise counts. *)
Definition failed (r : sysret Z) : bool :=
  match r with SysErr errno => negb ((errno =? EWOULDBLOCK) || (errno =? EAGAIN)) | SysOk _ => false end.
Definition accepted (r : sysret Z) : Z := match r with SysErr _ => 0 | SysOk n => n end.

Lemma Socket_writev_spec s iovecs (w : net K) :
  exists rc n k', Socket_writev s iovecs w = Some ((rc, n), Net (n_buf w) (n_s w) k') /\
    (forall t, t <> s -> k_out t k' = k_out t (n_k w)) /\
    (0 <= n <= zlen (concat iovecs) /\ rc <> SOCKET_ERROR /\
       k_out s k' = k_out s (n_k w) ++ take (Z.to_nat n) (concat iovecs) \/
     rc = SOCKET_ERROR /\ k_out s k' = k_out s (n_k w)) /\
    exists r, k_writev s iovecs (n_k w) = (r, k') /\
      if failed r then rc = SOCKET_ERROR else rc <> SOCKET_ERROR /\ n = accepted r.
Proof.
  unfold Socket_writev. destruct (k_writev s iovecs (n_k w)) as [r k'] eqn:E.
  erewrite bind_step; [|unfold sys; by rewrite E].
  pose proof E as E0. apply k_writev_out in E as (Ho & Hf & _). pose proof (zlen_nonneg (concat iovecs)).
  destruct r as [errno|n].
  - destruct ((Socket_error errno =? EWOULDBLOCK) || (Socket_error errno =? EAGAIN)) eqn:Ee.
    + eexists _, _, k'. split; [done|]. split; [done|]. split; [left; split_and!; [lia|lia|done|by rewrite app_nil_r]|].
      exists (SysErr errno). split; [done|]. unfold failed. unfold Socket_error in Ee. by rewrite Ee.
    + eexists _, _, k'. split; [done|]. split; [done|]. split; [by right|].
      exists (SysErr errno). split; [done|]. unfold failed. unfold Socket_error in Ee. by rewrite Ee.
  - destruct Ho as (Hn & Hi & Ho). cbv zeta. rewrite int_wrap_id by (unfold in_int; lia).
    assert (size_wrap n = n) as -> by (unfold size_wrap; apply Z.mod_small; lia).
    eexists _, _, k'. split; [done|]. split; [done|]. split; [|exists (SysOk n); split; [done|]; simpl; split; [|done]].
    + left. split; [done|]. split; [unfold SOCKET_ERROR; lia|done].
    + unfold SOCKET_ERROR. lia.
Qed.

(** The record kept of a partial write. *)
Lemma pendingWrite_ok s iovecs frees1 bytes (w : net K) k' :
  w_ok w -> s ∉ wp_socks w ->
  let total := zlen (concat iovecs) in
  let w' := Net (set_writes (LSpec.append (fresh (dom (pws (n_buf w)))) (8 + total) (writes (n_buf w)))
                   (set_pws (<[fresh (dom (pws (n_buf w))) :=
                       PW s (zlen iovecs) total bytes iovecs frees1]> (pws (n_buf w))) (n_buf w)))
                (set_pending_wset (pending_wset (n_s w) ∪ {[s]})
                   (set_write_pending (append_int s (write_pending (n_s w))) (n_s w))) k' in
  w_ok w' /\ pending (n_buf w') (fresh (dom (pws (n_buf w)))) (PW s (zlen iovecs) total bytes iovecs frees1).
Proof.
  intros [[H1 H2 H3 H4] H5 H6 Hcell H7] Hs total. set (p := fresh (dom (pws (n_buf w)))).
  set (v := PW s (zlen iovecs) total bytes iovecs frees1).
  assert (pws (n_buf w) !! p = None) as Hp by (apply not_elem_of_dom, is_fresh).
  assert (Hpn : p ∉ LSpec.contents (writes (n_buf w))) by (intros Hin; destruct (H3 _ Hin); congruence).
  intros w'.
  assert (Hpend : forall q x, pending (n_buf w') q x <-> pending (n_buf w) q x \/ q = p /\ x = v).
  { intros q x. unfold pending, w'; simpl. rewrite LSpec.contents_append, elem_of_app, list_elem_of_singleton.
    destruct (decide (p = q)) as [<-|Hne].
    - rewrite lookup_insert_eq, Hp. split; [intros [_ [= <-]]; by right|].
      intros [[? ?]|[_ ->]]; [congruence|by split; [right|]].
    - rewrite lookup_insert_ne by done. split; [intros [[?| ->] ?]; [by left|done]|].
      intros [[? ?]|[-> _]]; [by split; [left|]|done]. }
  assert (Hwp : wp_socks w' = wp_socks w ++ [s]).
  { unfold wp_socks, w', append_int; simpl. by rewrite LSpec.contents_append, fmap_app. }
  split; [split; [split| | | |]|].
  - by apply LSpec.append_wf.
  - unfold w'; simpl. rewrite LSpec.contents_append. apply NoDup_app. split; [done|]. split; [|apply NoDup_singleton].
    intros x Hx. rewrite list_elem_of_singleton. by intros ->.
  - unfold w'; simpl. intros q. rewrite LSpec.contents_append, elem_of_app, list_elem_of_singleton.
    rewrite lookup_insert_is_Some'. intros [Hq| ->]; [right; by apply H3|by left].
  - intros q1 q2 v1 v2. rewrite !Hpend.
    assert (Hno : forall q x, pending (n_buf w) q x -> pw_socket x <> s).
    { intros q x Hq E. apply Hs. rewrite H7. eauto. }
    intros [A1|[-> ->]] [A2|[-> ->]] E; [by eapply H4|by apply Hno in A1|by apply Hno in A2|done].
  - by apply LSpec.append_wf.
  - rewrite Hwp. apply NoDup_app. split; [done|]. split; [|apply NoDup_singleton].
    intros x Hx. rewrite list_elem_of_singleton. by intros ->.
  - unfold w', append_int; simpl. rewrite LSpec.contents_append, fmap_app. apply NoDup_app. split; [done|].
    split; [|apply NoDup_singleton]. intros x Hx. simpl. rewrite list_elem_of_singleton. intros ->.
    by apply infinite_is_fresh in Hx.
  - intros t. rewrite Hwp, elem_of_app, list_elem_of_singleton, H7. split.
    + intros [(q & x & Hq & E)| ->]; [exists q, x; by rewrite Hpend; split; [left|]|].
      exists p, v. rewrite Hpend. by split; [right|].
    + intros (q & x & Hq & E). apply Hpend in Hq as [Hq|[-> ->]]; [left; eauto|by right].
  - apply Hpend. by right.
Qed.

Lemma foldr_zlen (bufs : list (list byte)) : foldr (fun b n => zlen b + n) 0 bufs = zlen (concat bufs).
Proof. induction bufs as [|b bufs IH]; simpl; [done|]. by rewrite zlen_app, IH. Qed.

Definition putdatas_outcome (s : Z) (out0 msg : list byte) (rc : Z) (w' : net K) : Prop :=
  (rc = TCPSOCKET_COMPLETE /\ w_ok w' /\ (s ∉ wp_socks w') /\ k_out s (n_k w') = out0 ++ msg) \/
  (rc = TCPSOCKET_INTERRUPTED /\ exists b, b < zlen msg /\ in_flight s out0 msg b w') \/
  (rc = SOCKET_ERROR /\ w_ok w' /\ k_out s (n_k w') = out0).

Lemma Socket_putdatas_spec s buf0 bufs frees w :
  w_ok w -> s ∉ wp_socks w -> zlen bufs <= 4 -> length frees = length bufs ->
  exists rc w', Socket_putdatas s buf0 bufs frees w = Some (rc, w') /\
    putdatas_outcome s (k_out s (n_k w)) (concat (buf0 :: bufs)) rc w' /\
    (forall t, t <> s -> k_out t (n_k w') = k_out t (n_k w)).
Proof.
  intros Hok Hs Hb4 Hfr. destruct (noPendingWrites_spec s w Hok) as (w1 & E1 & Hm1).
  unfold Socket_putdatas. mstep E1. rewrite bool_decide_true by done. cbn [negb]. cbv iota.
  destruct (Z.ltb_spec 4 (zlen bufs)); [lia|]. cbv zeta. rewrite foldr_zlen, <- zlen_app.
  change (buf0 ++ concat bufs) with (concat (buf0 :: bufs)). set (iovecs := buf0 :: bufs) in *.
  destruct (Socket_writev_spec s iovecs w1) as (rc & n & k' & E & Hother & Hout & _).
  mstep E. cbv beta iota. pose proof (moved_ok _ _ Hok Hm1) as Hok1. destruct Hm1 as [M1 M2 M3 M4].
  assert (Hwp1 : wp_socks w1 = wp_socks w) by (unfold wp_socks; by rewrite M3).
  rewrite M2 in *. destruct Hout as [(Hn & Hrc & Hout)|[-> Hout]].
  2: { eexists _, _. split; [done|]. split; [|done]. right; right. split; [done|]. split; [|done].
       by apply w_ok_k. }
  destruct (Z.eqb_spec rc SOCKET_ERROR); [done|]. cbn [negb]. cbv iota.
  destruct (Z.eqb_spec n (zlen (concat iovecs))) as [Hall|Hpart].
  - eexists _, _. split; [done|]. split; [|done]. left. split; [done|]. split; [by apply w_ok_k|].
    split; [by rewrite <- Hwp1 in Hs|]. simpl. rewrite Hout, Hall. f_equal. unfold zlen. by rewrite Nat2Z.id, firstn_all.
  - erewrite bind_step by reflexivity. erewrite bind_step by reflexivity. simpl n_buf. simpl n_s. simpl n_k.
    assert (take (Z.to_nat (zlen iovecs)) iovecs = iovecs) as -> by (unfold zlen; by rewrite Nat2Z.id, firstn_all).
    assert (take (Z.to_nat (zlen iovecs)) (1 :: frees) = 1 :: frees) as ->.
    { apply take_ge. unfold iovecs, zlen. simpl. lia. }
    rewrite <- Hwp1 in Hs.
    destruct (pendingWrite_ok s iovecs (1 :: frees) n w1 k' Hok1 Hs) as [Hok2 Hp].
    eexists _, _. split; [reflexivity|]. split; [|done]. right; left. split; [done|].
    exists n. split; [lia|]. split; [exact Hok2|]. eexists _, _. split; [exact Hp|].
    split_and!; try done; lia.
Qed.

(** * Continuing a write *)

Definition upd_pw (p : loc) (v : pending_writes) (b : sbuf) : sbuf := set_pws (<[p := v]> (pws b)) b.

Lemma upd_pw_pending b p v v' q x :
  pending b p v ->
  pending (upd_pw p v' b) q x <-> (q <> p /\ pending b q x) \/ (q = p /\ x = v').
Proof.
  intros [Hin Hp]. unfold pending, upd_pw; simpl. destruct (decide (p = q)) as [<-|Hne].
  - rewrite lookup_insert_eq. split; [intros [_ [= <-]]; by right|].
    intros [[? _]|[_ ->]]; [done|by split].
  - rewrite lookup_insert_ne by done. split; [intros ?; by left|]. by intros [[_ ?]|[-> _]].
Qed.

Lemma upd_pw_wf b p v v' :
  pw_wf b -> pending b p v -> pw_socket v' = pw_socket v -> pw_wf (upd_pw p v' b).
Proof.
  intros [H1 H2 H3 H4] Hp Hs. split; try done.
  - intros q Hq. unfold upd_pw; simpl. rewrite lookup_insert_is_Some'. right. by apply H3.
  - intros q1 q2 v1 v2. rewrite !(upd_pw_pending b p v) by done.
    intros [[N1 A1]|[-> ->]] [[N2 A2]|[-> ->]] E; [by eapply H4|..|done]; exfalso.
    + rewrite Hs in E. by apply N1, (H4 _ _ _ _ A1 Hp).
    + rewrite Hs in E. by apply N2, (H4 _ _ _ _ A2 Hp).
Qed.

(** [w_ok] depends only on the pending writes by socket. *)
Lemma w_ok_same (w : net K) b' s' k' :
  w_ok w -> pw_wf b' ->
  (forall s, (exists p v, pending b' p v /\ pw_socket v = s) <->
             (exists p v, pending (n_buf w) p v /\ pw_socket v = s)) ->
  write_pending s' = write_pending (n_s w) -> w_ok (Net b' s' k').
Proof.
  intros [H1 H2 H3 Hc H4] Hb Hp Hs. unfold wp_socks in *. split; unfold wp_socks; simpl; rewrite ?Hs; try done.
  intros s. by rewrite H4, Hp.
Qed.

(** The lengths recorded with a pending write. *)
Definition pw_ok (v : pending_writes) : Prop :=
  pw_total v = zlen (concat (pw_iovecs v)) /\ 0 <= pw_bytes v <= pw_total v /\ pw_total v < 2 ^ 64.

Definition with_bytes (n : Z) (v : pending_writes) : pending_writes :=
  PW (pw_socket v) (pw_count v) (pw_total v) n (pw_iovecs v) (pw_frees v).

(** The buffers [iov] hold the first bytes of [msg], some if there are any. *)
Definition rest_of (msg : list byte) (iov : list (list byte)) : Prop :=
  (exists tail, msg = concat iov ++ tail) /\ (concat iov = [] -> msg = []).

(** The result of [Socket_continueWrite] after the answer [r] of [writev], when
    [n] bytes of [total] are out. *)
Definition continue_rc (r : sysret Z) (n total : Z) : Z :=
  if failed r then SOCKET_ERROR else if n =? total then 1 else 0.

(** The next bytes of the message go out. *)
Lemma Socket_continueWrite_run w p v :
  w_ok w -> pending (n_buf w) p v -> pw_ok v ->
  exists rc n b1 k', let s := pw_socket v in
    Socket_continueWrite s w = Some (rc, Net (upd_pw p (with_bytes n v) b1) (n_s w) k') /\
    pw_wf b1 /\ (forall q x, pending b1 q x <-> pending (n_buf w) q x) /\
    pw_bytes v <= n <= pw_total v /\
    k_out s k' = k_out s (n_k w) ++
      take (Z.to_nat (n - pw_bytes v)) (drop (Z.to_nat (pw_bytes v)) (concat (pw_iovecs v))) /\
    (forall t, t <> s -> k_out t k' = k_out t (n_k w)) /\
    exists iov r, k_writev s iov (n_k w) = (r, k') /\
      rest_of (drop (Z.to_nat (pw_bytes v)) (concat (pw_iovecs v))) iov /\
      n = pw_bytes v + accepted r /\ rc = continue_rc r n (pw_total v).
Proof.
  intros Hok Hp (Htot & Hb & Hlen). set (s := pw_socket v).
  destruct (getWrite_pending (n_buf w) p v s (wo_pw _ Hok) Hp eq_refl) as (b1 & E1 & Hwf1 & Hpw1 & Hc1).
  assert (Hpend : forall q x, pending b1 q x <-> pending (n_buf w) q x) by (intros; unfold pending; by rewrite Hpw1, Hc1).
  set (w1 := Net b1 (n_s w) (n_k w)).
  unfold Socket_continueWrite. erewrite bind_step; [|unfold buf, zoom; by rewrite E1]. cbv iota.
  erewrite bind_step; [|unfold buf, zoom, load; simpl; rewrite Hpw1; by rewrite (proj2 Hp)].
  change (Net b1 (n_s w) (n_k w)) with w1.
  destruct (Socket_writev_spec s (remaining_iovecs (pw_iovecs v) 0 (pw_bytes v)) w1)
    as (rc & n & k' & E & Hother & Hres & r & Ew & Hfr).
  destruct (remaining_spec (pw_iovecs v) 0 (pw_bytes v)) as (tail & Hdrop & Hnil); [lia|].
  rewrite Z.sub_0_r in Hdrop, Hnil.
  assert (Hrest : rest_of (drop (Z.to_nat (pw_bytes v)) (concat (pw_iovecs v)))
    (remaining_iovecs (pw_iovecs v) 0 (pw_bytes v))) by (split; [by exists tail|done]).
  mstep E. cbv beta iota. destruct Hres as [(Hn & Hrc & Hres)|[-> Hres]].
  2: { exists SOCKET_ERROR, (pw_bytes v), b1, k'.
       assert (upd_pw p (with_bytes (pw_bytes v) v) b1 = b1) as ->.
       { unfold upd_pw, with_bytes. destruct v; simpl. destruct Hp as [_ Hp]. rewrite <- Hpw1 in Hp.
         destruct b1; unfold set_pws; simpl in *. by rewrite insert_id. }
       split; [done|]. rewrite Z.sub_diag, app_nil_r.
       assert (Hf : failed r = true) by (destruct (failed r); [done|by destruct Hfr]).
       assert (Ha : accepted r = 0) by (by destruct r). split_and!; try done; try lia.
       eexists _, r. split; [exact Ew|]. split; [done|]. unfold continue_rc. rewrite Hf, Ha. split; [lia|done]. }
  destruct (Z.eqb_spec rc SOCKET_ERROR); [done|]. cbn [negb]. cbv iota zeta.
  erewrite bind_step by reflexivity. simpl (n_buf _). simpl (n_k _). simpl (n_s _).
  assert (Hrem : zlen (concat (remaining_iovecs (pw_iovecs v) 0 (pw_bytes v))) <= pw_total v - pw_bytes v).
  { rewrite Htot. apply (f_equal length) in Hdrop. rewrite length_drop, length_app in Hdrop. unfold zlen in *. lia. }
  assert (Hb' : size_wrap (pw_bytes v + n) = pw_bytes v + n) by (unfold size_wrap; apply Z.mod_small; lia).
  rewrite Hb'. exists (if pw_bytes v + n =? pw_total v then 1 else 0), (pw_bytes v + n), b1, k'.
  split; [reflexivity|]. split_and!; [done|done|lia|lia| |done|].
  - rewrite Hres. f_equal. rewrite Hdrop. replace (pw_bytes v + n - pw_bytes v) with n by lia.
    rewrite take_app_le; [done|]. unfold zlen in Hn. lia.
  - assert (Hf : failed r = false) by (destruct (failed r); done). rewrite Hf in Hfr. destruct Hfr as [_ Hn'].
    eexists _, r. split; [exact Ew|]. split; [done|]. unfold continue_rc. rewrite Hf, <- Hn'. by split.
Qed.

Lemma upd_pw_ok (w : net K) p v v' b1 k' :
  w_ok w -> pending (n_buf w) p v -> pw_wf b1 -> (forall q x, pending b1 q x <-> pending (n_buf w) q x) ->
  pw_socket v' = pw_socket v -> w_ok (Net (upd_pw p v' b1) (n_s w) k').
Proof.
  intros Hok Hp Hwf Hpend Hs. assert (Hp1 : pending b1 p v) by by apply Hpend.
  apply (w_ok_same w); [done|by apply (upd_pw_wf _ _ v)| |done]. intros t.
  split; intros (q & x & Hq & Ht).
  - apply (upd_pw_pending _ _ v) in Hq as [[_ Hq]|[-> ->]]; [|by exists p, v; split; [|congruence]|done].
    exists q, x. by rewrite <- Hpend.
  - rewrite <- Hpend in Hq. destruct (decide (q = p)) as [->|Hne].
    + exists p, v'. rewrite (upd_pw_pending _ _ v) by done. split; [by right|].
      destruct Hq as [_ Hq], Hp1 as [_ Hp1]. rewrite Hq in Hp1. congruence.
    + exists q, x. rewrite (upd_pw_pending _ _ v) by done. by split; [left|].
Qed.

Lemma Socket_continueWrite_spec s out0 msg bytes w :
  in_flight s out0 msg bytes w -> zlen msg < 2 ^ 64 ->
  exists rc bytes' w', Socket_continueWrite s w = Some (rc, w') /\
    in_flight s out0 msg bytes' w' /\ bytes <= bytes' /\
    (forall t, t <> s -> k_out t (n_k w') = k_out t (n_k w)) /\
    (rc = 1 /\ bytes' = zlen msg \/ rc = 0 /\ bytes' < zlen msg \/ rc = SOCKET_ERROR).
Proof.
  intros (Hok & p & v & Hp & <- & Hmsg & Htot & Hby & Hb & Hout) Hlen.
  destruct (Socket_continueWrite_run w p v Hok Hp) as (rc & n & b1 & k' & E & Hwf1 & Hpend & Hn & Ho & Hother & iov & r & _ & _ & _ & Hrc).
  { unfold pw_ok. rewrite Hmsg, Htot, Hby. lia. }
  exists rc, n. eexists. split; [exact E|]. split.
  - split; [by apply (upd_pw_ok w p v)|]. exists p, (with_bytes n v).
    split; [simpl; rewrite (upd_pw_pending _ _ v); [by right|by apply Hpend]|].
    split_and!; try done; try lia. simpl. rewrite Ho, Hout, <- app_assoc. f_equal. rewrite Hmsg, Hby.
    rewrite <- (take_drop (Z.to_nat bytes) msg) at 3.
    rewrite take_app_ge by (rewrite length_take; unfold zlen in Hb; lia). f_equal. f_equal.
    rewrite length_take. unfold zlen in Hb. lia.
  - rewrite Htot, Hby in *. split_and!; [lia|done|]. rewrite Hrc. unfold continue_rc.
    destruct (failed r); [by right; right|]. destruct (Z.eqb_spec n (zlen msg)); [by left|right; left; split; [done|lia]].
Qed.

(** * A whole message *)

(** Continuing [n] times at most. *)
Fixpoint write_all (n : nat) (s : Z) : M (net K) Z :=
  match n with
  | O => mret TCPSOCKET_INTERRUPTED
  | S n' =>
      rc ← Socket_continueWrite s;
      if rc =? 1 then mret TCPSOCKET_COMPLETE
      else if rc =? 0 then write_all n' s else mret rc
  end.
Definition send_all (n : nat) (s : Z) (buf0 : list byte) (bufs : list (list byte)) (frees : list Z) :
    M (net K) Z :=
  rc ← Socket_putdatas s buf0 bufs frees;
  if rc =? TCPSOCKET_INTERRUPTED then write_all n s else mret rc.

Lemma write_all_spec n s out0 msg bytes w :
  in_flight s out0 msg bytes w -> zlen msg < 2 ^ 64 ->
  exists rc b w', write_all n s w = Some (rc, w') /\ in_flight s out0 msg b w' /\
    (rc = TCPSOCKET_COMPLETE /\ b = zlen msg \/ rc = TCPSOCKET_INTERRUPTED \/ rc = SOCKET_ERROR) /\
    (forall t, t <> s -> k_out t (n_k w') = k_out t (n_k w)).
Proof.
  revert bytes w. induction n as [|n IH]; intros bytes w Hf Hlen.
  - exists TCPSOCKET_INTERRUPTED, bytes, w. split_and!; try done. by right; left.
  - destruct (Socket_continueWrite_spec s out0 msg bytes w Hf Hlen) as (rc & b1 & w1 & E & Hf1 & _ & Ho & Hrc).
    simpl. mstep E. destruct Hrc as [[-> ->]|[[-> Hlt]| ->]]; simpl.
    + eexists _, _, w1. split_and!; try done. by left.
    + destruct (IH b1 w1 Hf1 Hlen) as (rc & b & w2 & E2 & Hf2 & Hrc & Ho2).
      exists rc, b, w2. split_and!; try done. intros t Ht. by rewrite Ho2, Ho.
    + eexists _, _, w1. split_and!; try done. by right; right.
Qed.

(** * All pending writes *)

(** Every pending write has consistent lengths. *)
Definition all_ok (w : net K) : Prop := w_ok w /\ forall p v, pending (n_buf w) p v -> pw_ok v.

(** One attempt to write what is left of [msg] to the socket [t], when [b] bytes
    of it are out: [writev] gets the first bytes that are left, what it accepts
    counts, and the attempt ends with [rc]. *)
Definition attempted (t : Z) (out0 msg : list byte) (b b' rc : Z) : Prop :=
  exists iov k r k', k_out t k = out0 ++ take (Z.to_nat b) msg /\ rest_of (drop (Z.to_nat b) msg) iov /\
    k_writev t iov k = (r, k') /\ b' = b + accepted r /\ rc = continue_rc r b' (zlen msg).

(** Attempts one after the other, each but the last with the result 0, "not
    complete yet"; no attempt at all counts as 0 too. *)
Inductive continued (t : Z) (out0 msg : list byte) : nat -> Z -> Z -> Z -> Prop :=
  | continued_none b : continued t out0 msg 0 b b 0
  | continued_next n b b1 b' rc :
      continued t out0 msg n b b1 0 -> attempted t out0 msg b1 b' rc -> continued t out0 msg (S n) b b' rc.

(** What a round of continuations does with the sockets [pwset] that [select]
    found writable, [tried] among them.  A message in flight has been attempted
    some number of times: never when its socket is not writable, at least once
    when it is among [tried].  Exactly what [writev] accepted is out.  The write
    stays in flight, with that position, as long as the attempts say "not
    complete"; it leaves the list when an attempt has written the last byte or
    failed, and in no other case. *)
Definition advanced (pwset tried : gset Z) (w w' : net K) : Prop :=
  (forall t, t ∈ wp_socks w' -> t ∈ wp_socks w) /\
  (forall t, t ∉ wp_socks w -> k_out t (n_k w') = k_out t (n_k w)) /\
  (forall t out0 msg b, in_flight t out0 msg b w ->
     exists n b' rc, continued t out0 msg n b b' rc /\ b <= b' <= zlen msg /\
       k_out t (n_k w') = out0 ++ take (Z.to_nat b') msg /\
       (t ∉ pwset -> n = 0%nat) /\ (t ∈ tried -> (1 <= n)%nat) /\
       if rc =? 0 then in_flight t out0 msg b' w' else t ∉ wp_socks w').

Lemma in_flight_out t out0 msg b w :
  in_flight t out0 msg b w -> 0 <= b <= zlen msg /\ k_out t (n_k w) = out0 ++ take (Z.to_nat b) msg /\
    t ∈ wp_socks w.
Proof.
  intros (Hok & p & v & Hp & Hs & _ & _ & _ & Hb & Ho). split; [done|]. split; [done|].
  apply (wo_iff w Hok). eauto.
Qed.

Lemma advanced_refl pwset w : advanced pwset ∅ w w.
Proof.
  split_and!; [done..|]. intros t out0 msg b Hf. exists 0%nat, b, 0.
  destruct (in_flight_out _ _ _ _ _ Hf) as (Hb & Ho & _). split_and!; try done; try apply continued_none; try lia; set_solver.
Qed.

(** One attempt at the write of the socket [s], with the result [rc]; a write
    that is over has left the list. *)
Definition stepped (s rc : Z) (w w' : net K) : Prop :=
  (forall t, t ∈ wp_socks w' -> t ∈ wp_socks w) /\
  (forall t, t <> s -> k_out t (n_k w') = k_out t (n_k w)) /\
  (forall t out0 msg b, t <> s -> in_flight t out0 msg b w -> in_flight t out0 msg b w') /\
  (forall out0 msg b, in_flight s out0 msg b w ->
     exists b', attempted s out0 msg b b' rc /\ b <= b' <= zlen msg /\
       k_out s (n_k w') = out0 ++ take (Z.to_nat b') msg /\
       if rc =? 0 then in_flight s out0 msg b' w' else s ∉ wp_socks w').

Lemma advanced_step pwset T s rc w1 w2 w3 :
  advanced pwset T w1 w2 -> stepped s rc w2 w3 -> s ∈ pwset -> s ∈ wp_socks w2 -> advanced pwset ({[s]} ∪ T) w1 w3.
Proof.
  intros (A1 & A2 & A3) (B1 & B2 & B3 & B4) Hs Hin. split_and!.
  - eauto.
  - intros t Ht. rewrite B2, A2; [done..|]. intros ->. by apply Ht, A1.
  - intros t out0 msg b Hf. destruct (A3 t out0 msg b Hf) as (n & b1 & rc1 & Hc & Hb1 & Ho1 & Hn & HT & Hf1).
    destruct (Z.eqb_spec rc1 0) as [->|Hrc1].
    + destruct (decide (t = s)) as [->|Hne].
      * destruct (B4 _ _ _ Hf1) as (b2 & Ha & Hb2 & Ho2 & Hf2). exists (S n), b2, rc.
        split_and!; try done; try lia. by econstructor.
      * exists n, b1, 0. rewrite B2 by done. split_and!; try done; try lia; [set_solver|by apply B3].
    + destruct (decide (t = s)) as [->|Hne]; [done|]. exists n, b1, rc1. rewrite B2 by done.
      split_and!; try done; try lia; [set_solver|]. destruct (Z.eqb_spec rc1 0); [done|]. eauto.
Qed.

(** Nothing that matters to the writes changes. *)
Lemma advanced_frame pwset T w1 w2 w3 :
  advanced pwset T w1 w2 -> wp_socks w3 = wp_socks w2 -> (forall t, k_out t (n_k w3) = k_out t (n_k w2)) ->
  (forall t out0 msg b, in_flight t out0 msg b w2 -> in_flight t out0 msg b w3) -> advanced pwset T w1 w3.
Proof.
  intros (A1 & A2 & A3) B1 B2 B3. split_and!.
  - rewrite B1. eauto.
  - intros t Ht. by rewrite B2, A2.
  - intros t out0 msg b Hf. destruct (A3 t out0 msg b Hf) as (n & b1 & rc1 & Hc & Hb1 & Ho1 & Hn & HT & Hf1).
    exists n, b1, rc1. rewrite B1, B2. split_and!; try done; try lia. destruct (rc1 =? 0); [by apply B3|done].
Qed.

(** Removing the record of one pending write. *)
Definition drop_pending (s : Z) (c : icell) (w : net K) : net K :=
  let '(r, l) := LSpec.unlink (pending_socketcompare (n_buf w) s) (writes (n_buf w)) in
  Net (match r with
       | Some p => set_writes l (set_pws (delete p (pws (n_buf w))) (n_buf w))
       | None => set_writes l (n_buf w)
       end)
      (set_write_pending (LSpec.unlink (fun x => bool_decide (x.1 = c.1)) (write_pending (n_s w))).2
         (set_pending_wset (pending_wset (n_s w) ∖ {[s]}) (n_s w))) (n_k w).

Lemma drop_pending_k s c w : n_k (drop_pending s c w) = n_k w.
Proof. unfold drop_pending. by destruct (LSpec.unlink (pending_socketcompare _ _) _). Qed.

Lemma writes_unlink (b : sbuf) p v s :
  pw_wf b -> pending b p v -> pw_socket v = s ->
  exists l', LSpec.unlink (pending_socketcompare b s) (writes b) = (Some p, l') /\ LSpec.wf l' /\
    NoDup (LSpec.contents l') /\ (forall q, q ∈ LSpec.contents l' <-> q ∈ LSpec.contents (writes b) /\ q <> p).
Proof.
  intros [Hl Hn Ha Hu] [Hin Hp] Hs.
  pose proof (LSpec.unlink_wf (pending_socketcompare b s) (writes b) Hl) as Hwf.
  destruct (LSpec.unlink_cases (pending_socketcompare b s) (writes b) Hl)
    as [[_ Hf]|(k1 & a & x & k2 & Ei & Hx & E)].
  - exfalso. rewrite Forall_forall in Hf. specialize (Hf p Hin). unfold pending_socketcompare in Hf.
    rewrite Hp, Hs, Z.eqb_refl in Hf. done.
  - assert (x = p) as ->.
    { unfold pending_socketcompare in Hx. destruct (pws b !! x) as [w|] eqn:Ew; [|done].
      apply Z.eqb_eq in Hx. eapply Hu; [split; [|done]|by split|congruence].
      rewrite (LSpec.contents_mid _ _ _ _ _ Ei), elem_of_app, elem_of_cons. tauto. }
    rewrite E in *. eexists. split; [done|]. split; [done|].
    rewrite (LSpec.contents_mid _ _ _ _ _ Ei) in *. unfold LSpec.contents; simpl. rewrite fmap_app.
    apply NoDup_app in Hn as (N1 & N2 & [N3 N4]%NoDup_cons). split.
    + apply NoDup_app. split; [done|]. split; [|done]. intros y Hy Hy'. apply (N2 y Hy). by right.
    + intros q. rewrite !elem_of_app, elem_of_cons. split.
      * intros [Hq|Hq]; (split; [tauto|]); intros ->; [|done]. apply (N2 _ Hq). by left.
      * tauto.
Qed.

(** The cell in [write_pending] is found by its address. *)
Lemma cell_unlink (l : clist icell) k1 a c k2 :
  LSpec.wf l -> items l = k1 ++ (a, c) :: k2 -> NoDup (LSpec.contents l).*1 ->
  items (LSpec.unlink (fun x => bool_decide (x.1 = c.1)) l).2 = k1 ++ k2.
Proof.
  intros Hwf Ei Hnd. destruct (LSpec.unlink_cases (fun x => bool_decide (x.1 = c.1)) l Hwf)
    as [[_ Hf]|(k1' & a' & x & k2' & Ei' & Hx & E)].
  - exfalso. rewrite Forall_forall in Hf. specialize (Hf c). simpl in Hf. rewrite bool_decide_true in Hf by done.
    discriminate Hf. rewrite (LSpec.contents_mid _ _ _ _ _ Ei), elem_of_app, elem_of_cons. tauto.
  - rewrite E. simpl. apply bool_decide_eq_true in Hx.
    assert (length k1 = length k1') as Hlen.
    { eapply NoDup_lookup; [exact Hnd| |].
      - rewrite (LSpec.contents_mid _ _ _ _ _ Ei), fmap_app, fmap_cons.
        rewrite lookup_app_r, !length_fmap, Nat.sub_diag by (by rewrite !length_fmap). done.
      - rewrite (LSpec.contents_mid _ _ _ _ _ Ei'), fmap_app, fmap_cons.
        rewrite lookup_app_r, !length_fmap, Nat.sub_diag by (by rewrite !length_fmap). simpl. congruence. }
    rewrite Ei in Ei'. apply app_inj_1 in Ei' as [-> [= -> _ ->]]; done.
Qed.

Lemma cell_pending w k1 a c k2 :
  w_ok w -> items (write_pending (n_s w)) = k1 ++ (a, c) :: k2 ->
  exists p v, pending (n_buf w) p v /\ pw_socket v = c.2.
Proof.
  intros Hok Ei. apply (wo_iff _ Hok). unfold wp_socks. rewrite (LSpec.contents_mid _ _ _ _ _ Ei), fmap_app, fmap_cons.
  apply elem_of_app. right. by left.
Qed.

Lemma continueWrite_step w p v :
  all_ok w -> pending (n_buf w) p v ->
  exists rc w', Socket_continueWrite (pw_socket v) w = Some (rc, w') /\ all_ok w' /\ n_s w' = n_s w /\
    (forall t, t <> pw_socket v -> k_out t (n_k w') = k_out t (n_k w)) /\
    (forall t out0 msg b, t <> pw_socket v -> in_flight t out0 msg b w -> in_flight t out0 msg b w') /\
    (forall out0 msg b, in_flight (pw_socket v) out0 msg b w ->
       exists b', attempted (pw_socket v) out0 msg b b' rc /\ b <= b' <= zlen msg /\
         in_flight (pw_socket v) out0 msg b' w').
Proof.
  intros [Hok Hall] Hp.
  destruct (Socket_continueWrite_run w p v Hok Hp (Hall p v Hp))
    as (rc & n & b1 & k' & E & Hwf & Hpend & Hn & Ho & Hother & iov & r & Ew & Hrest & Hacc & Hrc).
  assert (Hp1 : pending b1 p v) by by apply Hpend.
  pose proof (upd_pw_ok w p v (with_bytes n v) b1 k' Hok Hp Hwf Hpend eq_refl) as Hok'.
  exists rc. eexists. split; [exact E|]. split; [split; [done|]|split_and!; [done|done| |]].
  - intros q x. simpl. rewrite (upd_pw_pending _ _ v) by done.
    intros [[_ Hq]|[-> ->]]; [by apply (Hall q), Hpend|].
    destruct (Hall p v Hp) as (? & ? & ?). unfold pw_ok, with_bytes; simpl. split_and!; lia || done.
  - intros t out0 msg b Hne (_ & q & x & Hq & Hqs & Hf). split; [done|]. exists q, x. simpl. rewrite Hother by done.
    split; [|by split]. apply (upd_pw_pending _ _ v); [done|]. left.
    split; [|by apply Hpend]. intros ->. destruct Hq as [_ Hq], Hp as [_ Hp]. congruence.
  - intros out0 msg b (_ & q & x & Hq & Hqs & Hmsg & Htot & Hby & Hb & Hout).
    assert (q = p) as -> by by eapply (pw_unique _ (wo_pw _ Hok)).
    assert (x = v) as -> by (destruct Hq as [_ Hq], Hp as [_ Hp]; congruence).
    rewrite Htot, Hby, Hmsg in *. exists n. split; [by eexists iov, _, r, k'|]. split; [lia|].
    split; [done|]. exists p, (with_bytes n v). split_and!; try done; simpl; try done; try lia.
    + apply (upd_pw_pending _ _ v); [done|by right].
    + rewrite Ho, Hout, <- app_assoc. f_equal. rewrite <- (take_drop (Z.to_nat b) msg) at 3.
      rewrite take_app_ge by (rewrite length_take; unfold zlen in Hb; lia). f_equal. f_equal.
      rewrite length_take. unfold zlen in Hb. lia.
Qed.

Lemma drop_pending_ok w p v k1 a c k2 :
  all_ok w -> pending (n_buf w) p v -> c.2 = pw_socket v ->
  items (write_pending (n_s w)) = k1 ++ (a, c) :: k2 ->
  let w' := drop_pending c.2 c w in
  all_ok w' /\ (forall t, t ∈ wp_socks w' <-> t ∈ wp_socks w /\ t <> c.2) /\
  (forall t out0 msg b, t <> c.2 -> in_flight t out0 msg b w -> in_flight t out0 msg b w').
Proof.
  intros [Hok Hall] Hp Hs Ei. pose proof Hok as [Hpw Hwf Hnd Hcells Hiff].
  destruct (writes_unlink (n_buf w) p v c.2 Hpw Hp (eq_sym Hs)) as (l' & El & Hl' & Hnd' & Hin').
  pose proof (cell_unlink _ _ _ _ _ Hwf Ei Hcells) as Ei'.
  unfold drop_pending. rewrite El. cbv zeta beta iota. set (w' := Net _ _ _).
  assert (Hpend : forall q x, pending (n_buf w') q x <-> pending (n_buf w) q x /\ q <> p).
  { intros q x. unfold pending, w'; simpl. rewrite Hin', lookup_delete_Some. naive_solver. }
  assert (Hsocks : wp_socks w' = (k1 ++ k2).*2.*2).
  { unfold wp_socks, LSpec.contents, w'. simpl. by rewrite Ei'. }
  assert (Hsocks0 : wp_socks w = (k1 ++ (a, c) :: k2).*2.*2) by (unfold wp_socks, LSpec.contents; by rewrite Ei).
  assert (Hmem : forall t, (t ∈ wp_socks w') <-> (t ∈ wp_socks w) /\ t <> c.2).
  { intros t. rewrite Hsocks. rewrite Hsocks0 in Hnd |- *.
    rewrite !fmap_app, !fmap_cons in *. apply NoDup_app in Hnd as (N1 & N2 & [N3 N4]%NoDup_cons).
    rewrite !elem_of_app, elem_of_cons. simpl in *. split.
    - intros [Ht|Ht]; (split; [tauto|]); intros ->; [|done]. apply (N2 _ Ht). by left.
    - tauto. }
  assert (Hok' : w_ok w').
  { split.
    - split; unfold w'; simpl; [done|done| |].
      + intros q [Hq Hne]%Hin'. rewrite lookup_delete_ne by done. by apply (pw_alloc _ Hpw).
      + intros q1 q2 v1 v2 [A1 _]%Hpend [A2 _]%Hpend. by eapply (pw_unique _ Hpw).
    - unfold w'; simpl. by apply LSpec.unlink_wf.
    - rewrite Hsocks. rewrite Hsocks0, !fmap_app, !fmap_cons in Hnd. rewrite !fmap_app.
      apply NoDup_app in Hnd as (N1 & N2 & [N3 N4]%NoDup_cons). apply NoDup_app.
      split; [done|]. split; [|done]. intros x Hx Hx'. apply (N2 x Hx). by right.
    - unfold LSpec.contents, w'; simpl. rewrite Ei'. unfold LSpec.contents in Hcells.
      rewrite Ei, !fmap_app, !fmap_cons in Hcells. rewrite !fmap_app.
      apply NoDup_app in Hcells as (N1 & N2 & [N3 N4]%NoDup_cons). apply NoDup_app.
      split; [done|]. split; [|done]. intros x Hx Hx'. apply (N2 x Hx). by right.
    - intros t. rewrite Hmem, Hiff. split.
      + intros [(q & x & Hq & Ht) Hne]. exists q, x. rewrite Hpend. split; [split; [done|]|done].
        intros ->. apply Hne. destruct Hq as [_ Hq], Hp as [_ Hp]. congruence.
      + intros (q & x & [Hq Hne]%Hpend & Ht). split; [by exists q, x|]. intros ->. apply Hne.
        eapply (pw_unique _ Hpw); [done|done|congruence]. }
  split; [|split; [done|]].
  - split; [done|]. intros q x [Hq _]%Hpend. by apply (Hall q).
  - intros t out0 msg b Hne (_ & q & x & Hq & Hqs & Hf). split; [done|]. exists q, x. split; [|done].
    apply Hpend. split; [done|]. intros ->. destruct Hq as [_ Hq], Hp as [_ Hp]. congruence.
Qed.

Lemma all_ok_k w k' : all_ok w -> all_ok (Net (n_buf w) (n_s w) k').
Proof. intros [Hok Hall]. split; [by apply w_ok_k|done]. Qed.

(** The callback only looks for pending writes and reads the clock. *)
Definition callback_frame (n n' : net K) : Prop :=
  n_buf n' = n_buf n /\ items (write_pending (n_s n')) = items (write_pending (n_s n)) /\
  LSpec.wf (write_pending (n_s n')) /\ (forall t, k_out t (n_k n') = k_out t (n_k n)).

Lemma callback_frame_ok n n' :
  callback_frame n n' -> all_ok n ->
  all_ok n' /\ wp_socks n' = wp_socks n /\
  (forall t out0 msg b, in_flight t out0 msg b n -> in_flight t out0 msg b n').
Proof.
  intros (Hb & Hi & Hwf & Hk) [[H1 H2 H3 H4 H5] Hall].
  assert (Hs : wp_socks n' = wp_socks n) by (unfold wp_socks, LSpec.contents; by rewrite Hi).
  assert (Hok' : w_ok n').
  { split; [by rewrite Hb|done|by rewrite Hs| |intros s; by rewrite Hs, Hb].
    unfold LSpec.contents. by rewrite Hi. }
  split; [split; [done|by rewrite Hb]|]. split; [done|].
  intros t out0 msg b (_ & q & x & Hf). split; [done|]. exists q, x. by rewrite Hb, Hk.
Qed.

(** One element of the round: an attempt, and when that ends the write its
    removal. *)
Lemma attempt_step {W} (getn : W -> net K) (setn : net K -> W -> W) (Hgs : forall n w, getn (setn n w) = n)
    pwset S u w0 k1 a c k2 :
  all_ok (getn u) -> advanced pwset S w0 (getn u) -> items (write_pending (n_s (getn u))) = k1 ++ (a, c) :: k2 ->
  c.2 ∈ pwset ->
  exists rc n', Socket_continueWrite c.2 (getn u) = Some (rc, n') /\ n_s n' = n_s (getn u) /\
    let tried u' := all_ok (getn u') /\ advanced pwset ({[c.2]} ∪ S) w0 (getn u') in
    if rc =? 0 then tried (setn n' u)
    else forall n1 n2, tried (setn (drop_pending c.2 c n') (setn n2 (setn n1 (setn n' u)))).
Proof.
  intros Hu Au Ei Hc. destruct (cell_pending _ _ _ _ _ (proj1 Hu) Ei) as (p & v & Hp & Hs).
  assert (Hin : c.2 ∈ wp_socks (getn u)) by (apply (wo_iff _ (proj1 Hu)); eauto).
  destruct (continueWrite_step _ p v Hu Hp) as (rc & n & E & Hn & Hns & Ho & Hkeep & Hatt).
  rewrite Hs in *. exists rc, n. split; [done|]. split; [done|]. cbv zeta.
  assert (Hsocks : wp_socks n = wp_socks (getn u)) by (unfold wp_socks; by rewrite Hns).
  destruct (rc =? 0) eqn:Erc.
  - rewrite Hgs. split; [done|]. eapply (advanced_step _ _ _ rc); [done| |done|done].
    split_and!; [by rewrite Hsocks|done|done|]. intros out0 msg b Hf. destruct (Hatt _ _ _ Hf) as (b' & Ha & Hb & Hf').
    exists b'. rewrite Erc. split_and!; [done|lia|lia| |done]. by apply in_flight_out in Hf' as (_ & ? & _).
  - intros n1 n2. rewrite Hgs. rewrite <- Hns in Ei.
    assert (Hin' : c.2 ∈ wp_socks n) by by rewrite Hsocks.
    apply (wo_iff _ (proj1 Hn)) in Hin' as (q & x & Hq & Hx).
    destruct (drop_pending_ok n q x k1 a c k2 Hn Hq (eq_sym Hx) Ei) as (Hd & Hmem & Hfl).
    split; [done|]. eapply (advanced_step _ _ _ rc); [done| |done|done]. split_and!.
    + intros t [Ht _]%Hmem. by rewrite <- Hsocks.
    + intros t Ht. rewrite <- Ho by done. by rewrite drop_pending_k.
    + intros t out0 msg b Hne Hf. by apply Hfl, Hkeep.
    + intros out0 msg b Hf. destruct (Hatt _ _ _ Hf) as (b' & Ha & Hb & Hf'). exists b'. rewrite Erc.
      apply in_flight_out in Hf' as (_ & Ho' & _). rewrite drop_pending_k. split_and!; [done|lia|lia|done|].
      rewrite Hmem. naive_solver.
Qed.

(** The loop over the pending writes, for an invariant [J] of the whole state
    that each of its steps keeps; it knows the sockets tried so far. *)
Section loop.
Context {W : Type} (getn : W -> net K) (setn : net K -> W -> W).
Hypothesis get_set : forall n w, getn (setn n w) = n.
Variable writecomplete : option (Z -> M W unit).
Variable pwset : gset Z.
Variable J : gset Z -> W -> Prop.
Abbreviation cells w := (items (write_pending (n_s (getn w)))).
Hypothesis J_same : forall S w, J S w -> J S (setn (getn w) w).
Hypothesis J_wf : forall S w, J S w -> LSpec.wf (write_pending (n_s (getn w))) /\
  NoDup (LSpec.contents (write_pending (n_s (getn w)))).*1.
Hypothesis J_step : forall S w k1 a c k2, J S w -> cells w = k1 ++ (a, c) :: k2 -> c.2 ∈ pwset ->
  exists rc n', Socket_continueWrite c.2 (getn w) = Some (rc, n') /\ n_s n' = n_s (getn w) /\
    if rc =? 0 then J ({[c.2]} ∪ S) (setn n' w)
    else forall n1 n2, J ({[c.2]} ∪ S) (setn (drop_pending c.2 c n') (setn n2 (setn n1 (setn n' w)))).
Hypothesis J_callback : forall S f s w, writecomplete = Some f -> J S w ->
  exists w', f s w = Some (tt, w') /\ J S w' /\ cells w' = cells w.

Lemma nets_run {A} (m : M (net K) A) (w : W) a n :
  m (getn w) = Some (a, n) -> nets getn setn m w = Some (a, setn n w).
Proof using Type. intros E. unfold nets, zoom. by rewrite E. Qed.

(** The position of the search is that of a suffix of the list. *)
Lemma current_suffix (l : clist icell) :
  LSpec.wf l -> exists k1 k, cur l = LSpec.hd_addr k None /\ items l = k1 ++ k.
Proof using Type.
  intros Hwf. destruct (cur l) as [b|] eqn:Eb; [|exists (items l), []; by rewrite app_nil_r].
  pose proof (LSpec.wf_current _ Hwf b Eb) as Hb. apply LSpec.addrs_split in Hb as (j1 & x & j2 & Ej).
  by exists j1, ((b, x) :: j2).
Qed.

(** One element of the loop whose write is over. *)
Lemma drop_steps w k1 a c k2 :
  LSpec.wf (write_pending (n_s (getn w))) -> NoDup (LSpec.contents (write_pending (n_s (getn w)))).*1 ->
  cells w = k1 ++ (a, c) :: k2 ->
  exists n1 n2 r, let w2 := setn (drop_pending c.2 c (getn w)) (setn n2 (setn n1 w)) in
    cells w2 = k1 ++ k2 /\ forall (k : bool -> M W unit),
    (b ← nets getn setn (buf (SocketBuffer_writeComplete c.2));
     nets getn setn (sockets (modify (fun s => set_pending_wset (pending_wset s ∖ {[c.2]}) s)));;
     nets getn setn (sockets (modify (fun s =>
            set_write_pending (LSpec.unlink (fun x => bool_decide (x.1 = c.1)) (write_pending s)).2 s)));;
     k b) w = k r w2.
Proof using get_set.
  intros Hwf Hnd Ei.
  assert (Ei2 : items (write_pending (n_s (drop_pending c.2 c (getn w)))) = k1 ++ k2).
  { unfold drop_pending. destruct (LSpec.unlink (pending_socketcompare _ _) _). by apply (cell_unlink _ k1 a c k2). }
  unfold drop_pending in *.
  destruct (LSpec.unlink (pending_socketcompare (n_buf (getn w)) c.2) (writes (n_buf (getn w)))) as [[q|] l'] eqn:El;
    cbv beta iota zeta in *; eexists _, _, _; (split; [rewrite get_set; exact Ei2|intros k;
    erewrite bind_step; [|apply nets_run; unfold buf, zoom, SocketBuffer_writeComplete; rewrite El; reflexivity];
    erewrite bind_step; [|apply nets_run; unfold sockets, zoom; rewrite get_set; reflexivity];
    erewrite bind_step; [|apply nets_run; unfold sockets, zoom; rewrite get_set; reflexivity]; reflexivity]).
Qed.

Lemma callback_steps S s w :
  J S w -> exists w', (match writecomplete with Some f => f s | None => mret tt end) w = Some (tt, w') /\
    J S w' /\ cells w' = cells w.
Proof using J_callback. intros Jw. destruct writecomplete as [f|] eqn:Ef; [exact (J_callback S f s w eq_refl Jw)|by exists w]. Qed.

(** The loop from a position of the list: either a write has left the list, or
    everything from there on that is writable has been tried. *)
Definition round_done (S' : gset Z) (k : list (loc * icell)) (w w' : W) : Prop :=
  (length (cells w') <= length (cells w))%nat /\
  ((length (cells w') < length (cells w))%nat \/ forall t, t ∈ k.*2.*2 -> t ∈ pwset -> t ∈ S').

Lemma continueWrites_loop_spec : forall fuel k1 k w S,
  J S w -> cells w = k1 ++ k ->
  (k <> [] -> length (cells w) * length (cells w) + length k <= fuel)%nat ->
  exists w' S', continueWrites_loop getn setn writecomplete fuel pwset (LSpec.hd_addr k None) w = Some (tt, w') /\
    J S' w' /\ S ⊆ S' /\ round_done S' k w w'.
Proof using get_set J_same J_wf J_step J_callback.
  induction fuel as [|fuel IH]; intros k1 k w S Jw Ei Hf; (destruct k as [|[a c] k2];
    [exists w, S; split; [done|]; split; [done|]; split; [done|]; split; [lia|]; right; intros t Ht; by apply elem_of_nil in Ht|]).
  { specialize (Hf ltac:(done)). simpl in Hf. lia. }
  specialize (Hf ltac:(done)). simpl in Hf. destruct (J_wf S w Jw) as [Hwf Hcells].
  assert (Ec : LSpec.elem_content (write_pending (n_s (getn w))) a = Some c) by by eapply LSpec.elem_content_mid.
  simpl. erewrite bind_step; [|apply nets_run; unfold load; by rewrite Ec].
  set (w0 := setn (getn w) w). assert (Eg0 : getn w0 = getn w) by apply get_set.
  assert (Jw0 : J S w0) by by apply J_same.
  (* the attempt to continue *)
  assert (exists rc w1 S1, (if bool_decide (c.2 ∈ pwset) then nets getn setn (Socket_continueWrite c.2) else mret 0) w0
      = Some (rc, w1) /\ n_s (getn w1) = n_s (getn w) /\ S ⊆ S1 /\ (c.2 ∈ pwset -> c.2 ∈ S1) /\
      if rc =? 0 then J S1 w1
      else forall n1 n2, J S1 (setn (drop_pending c.2 c (getn w1)) (setn n2 (setn n1 w1))))
    as (rc & w1 & S1 & E1 & Hns1 & HS1 & Hc1 & Jw1).
  { case_bool_decide as Hc; [|exists 0, w0, S; by rewrite Eg0].
    destruct (J_step S w0 k1 a c k2 Jw0 ltac:(by rewrite Eg0) Hc) as (rc & n1 & E & Hn1 & J1).
    exists rc, (setn n1 w0), ({[c.2]} ∪ S). split; [by apply nets_run|]. rewrite get_set, Hn1, Eg0.
    split_and!; [done|set_solver|set_solver|done]. }
  mstep E1. destruct (rc =? 0); cbn [negb].
  - (* the next element *)
    assert (En : LSpec.next_element (write_pending (n_s (getn w1))) (Some a) = Some (LSpec.hd_addr k2 None))
      by (rewrite Hns1; by apply (LSpec.next_element_mid _ k1 a c k2)).
    assert (Enx : nets getn setn (load (fun w => LSpec.next_element (write_pending (n_s w)) (Some a))) w1 =
      Some (LSpec.hd_addr k2 None, setn (getn w1) w1)) by (apply nets_run; unfold load; by rewrite En).
    erewrite bind_step; [|exact Enx].
    destruct (IH (k1 ++ [(a, c)]) k2 (setn (getn w1) w1) S1) as (w' & S' & E' & J' & HS' & Hlen & Hd);
      [by apply J_same|by rewrite get_set, Hns1, Ei, <- app_assoc|rewrite get_set, Hns1; lia|].
    exists w', S'. split_and!; [done|done|set_solver|]. rewrite get_set, Hns1 in *. split; [done|].
    destruct Hd as [Hd|Hd]; [by left|right]. intros t [->|Ht]%elem_of_cons; [set_solver|by apply Hd].
  - (* the write is over *)
    destruct (drop_steps w1 k1 a c k2) as (n1 & n2 & r & Ei2 & E2); [by rewrite Hns1..|].
    specialize (Jw1 n1 n2). cbv zeta in Ei2, E2. set (w2 := setn (drop_pending c.2 c (getn w1)) _) in *.
    match goal with |- exists w' S', ?m w1 = _ /\ _ => set (prog := m) end.
    assert (Hprog : prog w1 = (n ← gets (fun w => cur (write_pending (n_s (getn w))));
        (match writecomplete with Some f => f c.2 | None => mret tt end);;
        continueWrites_loop getn setn writecomplete fuel pwset n) w2).
    { apply (E2 (fun _ => _)). }
    rewrite Hprog. clear prog Hprog E2. erewrite bind_step by reflexivity.
    destruct (callback_steps S1 c.2 w2 Jw1) as (w3 & E3 & Jw3 & Ei3). mstep E3.
    assert (Hless : length (cells w) = (length (cells w3) + 1)%nat).
    { rewrite Ei3, Ei2, Ei, !length_app. simpl. lia. }
    destruct (current_suffix (write_pending (n_s (getn w2)))) as (j1 & j2 & -> & Ej); [apply (J_wf S1 w2 Jw1)|].
    destruct (IH j1 j2 w3 S1 Jw3) as (w' & S' & E' & J' & HS' & Hlen & _); [by rewrite Ei3| |].
    { intros _. apply (f_equal length) in Ej. rewrite <- Ei3, length_app in Ej. nia. }
    exists w', S'. split_and!; [done|done|set_solver|]. split; [lia|left; lia].
Qed.

(** A whole round: it ends, and when no write has left the list every writable
    one has been tried. *)
Lemma continueWrites_total w :
  J ∅ w ->
  exists w' S', Socket_continueWrites getn setn writecomplete pwset w = Some (0, w') /\ J S' w' /\
    (wp_socks (getn w') = wp_socks (getn w) -> forall t, t ∈ wp_socks (getn w) -> t ∈ pwset -> t ∈ S').
Proof using get_set J_same J_wf J_step J_callback.
  intros Jw. unfold Socket_continueWrites. erewrite bind_step by reflexivity.
  set (l := write_pending (n_s (getn w))). cbv zeta.
  assert (Eh : fst <$> head (items l) = LSpec.hd_addr (items l) None) by (by destruct (items l) as [|[] ?]).
  destruct (continueWrites_loop_spec (S (length (items l)) * S (length (items l))) [] (items l) w ∅ Jw eq_refl)
    as (w' & S' & E & Jw' & _ & _ & Hdone); [fold l; lia|].
  rewrite <- Eh in E. mstep E. exists w', S'. split; [done|]. split; [done|]. unfold wp_socks, LSpec.contents. fold l.
  intros Es t Ht. apply (f_equal length) in Es. rewrite !length_fmap in Es. destruct Hdone as [Hd|Hd]; [|by apply Hd].
  fold l in Hd. lia.
Qed.
End loop.
End writes.




(** A network with nothing pending. *)
Definition ex_net (script : list Z) : net skernel :=
  Net (SBuf {[1%positive := SQ 0 0 0 [0; 0; 0; 0; 0] 0 0 []]} 1%positive LSpec.empty ∅ LSpec.empty)
      (MkSockets LSpec.empty None LSpec.empty LSpec.empty ∅ ∅ 0 ∅ ∅) (SKernel ∅ ∅ script 0).

Lemma ex_net_ok script : w_ok (ex_net script).
Proof.
  split; simpl.
  - split; simpl; [apply LSpec.wf_empty|constructor|by intros ? ?%elem_of_nil|].
    intros p q v w [Hin _]. by apply elem_of_nil in Hin.
  - apply LSpec.wf_empty.
  - constructor.
  - constructor.
  - intros s. split; [by intros ?%elem_of_nil|]. intros (p & v & [Hin _] & _). by apply elem_of_nil in Hin.
Qed.

(** * Properties *)

(** [C20] A message is written once and in order.  Whatever the socket accepts
    at each attempt, the output is what was there before followed by a prefix
    of the message, which is the whole message when the write is reported
    complete; the streams of other sockets are not touched; and an interrupted
    write can be continued later. *)
Theorem send_all_stream {K} `{KL : KernelLaws K} n s buf0 bufs frees (w : net K) :
  let msg := concat (buf0 :: bufs) in
  w_ok w -> s ∉ wp_socks w -> zlen bufs <= 4 -> length frees = length bufs -> zlen msg < 2 ^ 64 ->
  exists rc b w', send_all n s buf0 bufs frees w = Some (rc, w') /\
    k_out s (n_k w') = k_out s (n_k w) ++ take b msg /\
    (forall t, t <> s -> k_out t (n_k w') = k_out t (n_k w)) /\
    (rc = TCPSOCKET_COMPLETE /\ take b msg = msg \/
     rc = TCPSOCKET_INTERRUPTED /\ in_flight s (k_out s (n_k w)) msg (Z.of_nat b) w' \/
     rc = SOCKET_ERROR).
Proof.
  intros msg Hok Hs Hb Hfr Hlen.
  destruct (Socket_putdatas_spec s buf0 bufs frees w Hok Hs Hb Hfr) as (rc & w1 & E & Hout & Hother).
  unfold send_all. mstep E. destruct Hout as [(-> & _ & _ & Ho)|[(-> & b & _ & Hf)|(-> & _ & Ho)]]; simpl.
  - exists TCPSOCKET_COMPLETE, (length msg), w1. rewrite firstn_all. split_and!; try done. by left.
  - destruct (write_all_spec n s _ _ _ _ Hf Hlen) as (rc & b' & w' & E' & Hf' & Hrc & Ho').
    assert (0 <= b' <= zlen msg /\ k_out s (n_k w') = k_out s (n_k w) ++ take (Z.to_nat b') msg) as [Hb' Hk].
    { by destruct Hf' as (_ & p & v & _ & _ & _ & _ & _ & ? & ?). }
    exists rc, (Z.to_nat b'), w'. split_and!; [done|done| |].
    + intros t Ht. by rewrite Ho', Hother.
    + destruct Hrc as [[-> ->]|[-> | ->]]; [left|right; left|by right; right]; (split; [done|]).
      * apply take_ge. unfold zlen. by rewrite Nat2Z.id.
      * by rewrite Z2Nat.id by lia.
  - exists SOCKET_ERROR, 0%nat, w1. rewrite app_nil_r. split_and!; try done. by right; right.
Qed.

Example send_all_stream_witness :
  exists rc b w', send_all 5 7 [1; 2] [[3; 4; 5]; [6]] [0; 0] (ex_net [1; 0; 2; 9; 9]) = Some (rc, w') /\
    k_out 7 (n_k w') = [] ++ take b [1; 2; 3; 4; 5; 6] /\ rc = TCPSOCKET_COMPLETE.
Proof.
  destruct (send_all_stream 5 7 [1; 2] [[3; 4; 5]; [6]] [0; 0] (ex_net [1; 0; 2; 9; 9]))
    as (rc & b & w' & E & Ho & _).
  - apply ex_net_ok.
  - unfold wp_socks. simpl. by intros ?%elem_of_nil.
  - by vm_compute.
  - done.
  - by vm_compute.
  - exists rc, b, w'. split; [done|]. split; [exact Ho|]. vm_compute in E. by injection E as <- _.
Defined.

(** [C21] A round of continuations always ends, however the position of the
    search moves while elements are removed, and keeps the structure of the
    pending writes.  Every message in flight has moved on by exactly what
    [writev] accepted in the attempts of the round: each attempt hands over the
    bytes that follow those already out, a write that is not complete stays in
    flight at its new position, and it leaves the list only when its last byte
    is out or [writev] has failed.  Nothing is attempted on a socket that is not
    writable, and when no write leaves the list the round has attempted every
    pending write whose socket is writable. *)
Theorem Socket_continueWrites_advance {K} `{KL : KernelLaws K} {W} (getn : W -> net K) (setn : net K -> W -> W)
    (writecomplete : option (Z -> M W unit)) (pwset : gset Z) (w : W) :
  (forall n w, getn (setn n w) = n) ->
  (forall f, writecomplete = Some f ->
     forall s w, exists w', f s w = Some (tt, w') /\ callback_frame (getn w) (getn w')) ->
  all_ok (getn w) ->
  exists w' tried, Socket_continueWrites getn setn writecomplete pwset w = Some (0, w') /\
    all_ok (getn w') /\ advanced pwset tried (getn w) (getn w') /\
    (wp_socks (getn w') = wp_socks (getn w) ->
     forall t, t ∈ wp_socks (getn w) -> t ∈ pwset -> t ∈ tried).
Proof.
  intros Hgs Hcb Hall.
  destruct (continueWrites_total getn setn Hgs writecomplete pwset
      (fun S u => all_ok (getn u) /\ advanced pwset S (getn w) (getn u))) with (w := w) as (w' & S' & E & [Hok' Ha] & Hd).
  - intros S u. by rewrite Hgs.
  - intros S u [[Hok _] _]. split; apply Hok.
  - intros S u k1 a c k2 [Hu Au] Ei Hc. by apply (attempt_step getn setn Hgs pwset S u (getn w) k1 a c k2).
  - intros S f s u Ef [Hu Au]. destruct (Hcb f Ef s u) as (u' & E & Hf).
    destruct (callback_frame_ok _ _ Hf Hu) as (Hu' & Hs & Hfl).
    exists u'. split_and!; try done; [|apply Hf]. eapply advanced_frame; [done|done|apply Hf|done].
  - split; [done|apply advanced_refl].
  - by exists w', S'.
Qed.

(** One write in flight on socket 7: [1;2;3], of which one byte is out. *)
Definition ex_pending (script : list Z) : net skernel :=
  Net (SBuf {[1%positive := SQ 0 0 0 [0; 0; 0; 0; 0] 0 0 []]} 1%positive LSpec.empty {[1%positive := PW 7 2 3 1 [[1]; [2; 3]] [1; 0]]}
         (LSpec.append 1%positive 11 LSpec.empty))
      (MkSockets LSpec.empty None LSpec.empty (append_int 7 LSpec.empty) ∅ ∅ 8 {[7]} ∅)
      (SKernel ∅ {[7 := [1]]} script 0).

Lemma ex_pending_ok script : all_ok (ex_pending script).
Proof.
  assert (Hp : forall p v, pending (n_buf (ex_pending script)) p v <->
    p = 1%positive /\ v = PW 7 2 3 1 [[1]; [2; 3]] [1; 0]).
  { intros p v. unfold pending; simpl. rewrite LSpec.contents_append, lookup_singleton_Some. simpl.
    rewrite list_elem_of_singleton. naive_solver. }
  split; [split|].
  - split; simpl; try rewrite LSpec.contents_append.
    + apply LSpec.append_wf, LSpec.wf_empty.
    + apply NoDup_singleton.
    + intros p ->%list_elem_of_singleton. rewrite lookup_singleton_eq. eauto.
    + intros p q v w [-> _]%Hp [-> _]%Hp _. done.
  - apply LSpec.append_wf, LSpec.wf_empty.
  - apply NoDup_singleton.
  - apply NoDup_singleton.
  - intros s. change (wp_socks (ex_pending script)) with [7]. rewrite list_elem_of_singleton. setoid_rewrite Hp.
    naive_solver.
  - intros p v [-> ->]%Hp. unfold pw_ok. vm_compute. by split_and!.
Qed.

Example Socket_continueWrites_advance_witness :
  exists w' tried, Socket_continueWrites (fun n => n) (fun n _ => n) None {[7]} (ex_pending [2]) = Some (0, w') /\
    all_ok w' /\ advanced {[7]} tried (ex_pending [2]) w' /\ k_out 7 (n_k w') = [1; 2; 3] /\ wp_socks w' = [].
Proof.
  destruct (Socket_continueWrites_advance (fun n => n) (fun n _ => n) None {[7]} (ex_pending [2]))
    as (w' & tried & E & Hall & Hadv & _).
  - done.
  - done.
  - apply ex_pending_ok.
  - exists w', tried. split; [exact E|]. split; [exact Hall|]. split; [exact Hadv|].
    vm_compute in E. by injection E as <-.
Defined.

(** On a concrete state: an error is taken for completion: when the continuation of a write
    fails (here with [ECONNRESET]), [Socket_continueWrite] returns a value other
    than zero, so the round removes the pending write as if the message had
    been sent, and reports no error. *)
Example Socket_continueWrites_drops_on_error :
  exists w', Socket_continueWrites (fun n => n) (fun n _ => n) None {[7]} (ex_pending [-104]) = Some (0, w') /\
    k_out 7 (n_k w') = [1] /\ wp_socks w' = [] /\ LSpec.contents (writes (n_buf w')) = [] /\
    pending_wset (n_s w') = ∅.
Proof. eexists. split; [vm_compute; reflexivity|]. by vm_compute. Qed.

(** A message interrupted on socket 5, the socket closed, another connection
    that gets the same descriptor, and a message interrupted there. *)
Definition stale_scenario : M (net skernel) (Z * Z * Z) :=
  rc1 ← Socket_putdatas 5 [1; 2; 3] [] [];
  Socket_close 5;;
  _ ← Socket_addSocket 5;
  rc2 ← Socket_putdatas 5 [9; 8; 7] [] [];
  rc3 ← Socket_continueWrites (fun n => n) (fun n _ => n) None {[5]};
  mret (rc1, rc2, rc3).

(** On a concrete history: [Socket_close] leaves the pending write of the socket in the list of
    the socket buffers.  When the descriptor is used again, the bytes of the old
    message are written to the new connection in place of those of the new
    one. *)
Example Socket_close_keeps_stale_write :
  exists w', stale_scenario (ex_net [1; 9; 1; 9]) =
      Some ((TCPSOCKET_INTERRUPTED, TCPSOCKET_INTERRUPTED, 0), w') /\
    k_out 5 (n_k w') = [9; 2; 3].
Proof. eexists. split; vm_compute; reflexivity. Qed.
End Writer.
