(* ===== verification/Wire.v ===== *)
(** The network as a whole: what its operations need and keep, whatever state the
    connections are in.  Closing a socket, reading a packet and completing
    writes do not go wrong, and leave the input of other sockets alone. *)
From S2P Require Import Prelude ListSpec Packet SocketBuffer Socket Reader Writer.

Module Wire.
Import Packet SocketBuffer Socket.
#[local] Arguments zlen : simpl never.

Lemma NoDup_app_cons {A} (l1 l2 : list A) x :
  NoDup (l1 ++ x :: l2) -> NoDup (l1 ++ l2) /\ (x ∉ l1 ++ l2) /\ NoDup l2.
Proof.
  rewrite !NoDup_app, NoDup_cons. intros (N1 & N2 & N3 & N4). split; [|split; [|done]].
  - split; [done|]. split; [|done]. intros y Hy Hy'. apply (N2 y Hy). by right.
  - rewrite elem_of_app. intros [Hx|Hx]; [|done]. apply (N2 x Hx). by left.
Qed.

Section closing.
Context {K : Type} `{Kernel K}.

(** * Closing a socket *)

(** What closing a socket relies on: the scan is at a socket of the list, and the
    default queue is allocated and not in the list of queues. *)
Record net_ok (n : net K) : Prop := {
  no_cur a : cur_clientsds (n_s n) = Some a -> a ∈ LSpec.addrs (clientsds (n_s n));
  no_sockets : LSpec.wf (clientsds (n_s n)) /\ LSpec.wf (queues (n_buf n));
  no_default : is_Some (sq (n_buf n) !! def_queue (n_buf n));
  no_apart : def_queue (n_buf n) ∉ LSpec.contents (queues (n_buf n)) }.

(** Only the writing side has changed. *)
Record writes_only (n n' : net K) : Prop := {
  wo_cur : cur_clientsds (n_s n') = cur_clientsds (n_s n);
  wo_sockets : clientsds (n_s n') = clientsds (n_s n);
  wo_sq : sq (n_buf n') = sq (n_buf n);
  wo_def : def_queue (n_buf n') = def_queue (n_buf n);
  wo_queues : queues (n_buf n') = queues (n_buf n) }.

Lemma writes_only_ok n n' : writes_only n n' -> net_ok n -> net_ok n'.
Proof. intros [E1 E2 E3 E4 E5] [H1 H2 H3 H4]. split; rewrite ?E1, ?E2, ?E3, ?E4, ?E5; done. Qed.

Definition keeps_net {A} (m : M (net K) A) : Prop := triple net_ok m (fun _ => net_ok).

Lemma keeps_sys {A} (f : K -> A * K) : keeps_net (sys f).
Proof.
  intros n [H1 H2 H3 H4]. unfold sys. destruct (f (n_k n)) as [a k]. exists a, (Net (n_buf n) (n_s n) k). split; [done|by split].
Qed.

Lemma keeps_sockets (f : Sockets -> Sockets) :
  (forall s, clientsds (f s) = clientsds s /\ cur_clientsds (f s) = cur_clientsds s) -> keeps_net (sockets (modify f)).
Proof.
  intros Hf n [H1 H2 H3 H4]. destruct (Hf (n_s n)) as [E1 E2]. eexists tt, _. split; [reflexivity|].
  split; simpl; rewrite ?E1, ?E2; done.
Qed.

Lemma keeps_remove_int get set v :
  (forall l s, clientsds (set l s) = clientsds s /\ cur_clientsds (set l s) = cur_clientsds s) -> keeps_net (remove_int get set v).
Proof.
  intros Hf n [H1 H2 H3 H4]. unfold remove_int, sockets, zoom. destruct (LSpec.unlink _ _) as [r l].
  destruct (Hf l (n_s n)) as [E1 E2]. eexists _, _. split; [reflexivity|]. split; simpl; rewrite ?E1, ?E2; done.
Qed.

(** The scan moves off the socket. *)
Definition move_cursor (socket : Z) : M (net K) unit :=
  sockets (fun s =>
    match cur_clientsds s with
    | None => Some (tt, s)
    | Some a =>
        c ← LSpec.elem_content (clientsds s) a;
        if c.2 =? socket then
          n ← LSpec.next_element (clientsds s) (Some a); Some (tt, set_cur_clientsds n s)
        else Some (tt, s)
    end).

Lemma keeps_move_cursor socket : keeps_net (move_cursor socket).
Proof.
  intros n [H1 [H2 H2'] H3 H4]. unfold move_cursor, sockets, zoom.
  destruct (cur_clientsds (n_s n)) as [a|] eqn:Ec; [|by eexists tt, _; split; [reflexivity|split; [simpl; by rewrite Ec|..]]].
  destruct (LSpec.addrs_split _ _ (H1 a eq_refl)) as (k1 & c & k2 & Ei).
  rewrite (LSpec.elem_content_mid _ _ _ _ _ H2 Ei). cbn [mbind option_bind].
  destruct (c.2 =? socket); [|eexists tt, _; split; [reflexivity|split; [simpl; rewrite Ec|..]; done]].
  assert (Ha : LSpec.next_element (clientsds (n_s n)) (Some a) = Some (LSpec.hd_addr k2 None)).
  { by apply (LSpec.next_element_mid _ k1 a c k2). }
  rewrite Ha. cbn [mbind option_bind]. eexists tt, _. split; [reflexivity|]. split; try done.
  intros b. simpl. unfold LSpec.addrs. rewrite Ei, fmap_app, fmap_cons. destruct k2 as [|[b' y] k2]; [done|].
  simpl. intros [= <-]. apply elem_of_app. right. right. left.
Qed.

Lemma keeps_bind {A B} (m : M (net K) A) (f : A -> M (net K) B) (Q : B -> net K -> Prop) :
  keeps_net m -> (forall a, triple net_ok (f a) Q) -> triple net_ok (m ≫= f) Q.
Proof. intros Hm Hf. by eapply triple_bind. Qed.

(** Forgetting the queues of the socket. *)
Lemma cleanup_total sock n : net_ok n -> exists n', buf (SocketBuffer_cleanup sock) n = Some (tt, n').
Proof.
  intros [H1 [H2 H2'] [d Hd] H4]. unfold buf, zoom, SocketBuffer_cleanup, find_queue.
  set (b := n_buf n) in *.
  unfold mbind at 1, M_bind.
  destruct (LSpec.find_item_cases (socketcompare b sock) (queues b) H2') as [[-> _]|(k1 & a & q & k2 & Ei & Hq & -> & Ec)].
  - unfold load_queue, load, gets, mbind, M_bind, mret, M_ret. simpl. rewrite Hd. simpl. unfold update_queue, when.
    destruct (q_socket d =? sock); simpl; rewrite ?Hd; by eexists.
  - change (LSpec.elem_content (LSpec.with_cur (Some a) (queues b)) a) with (LSpec.elem_content (queues b) a). rewrite Ec.
    unfold socketcompare in Hq. destruct (sq b !! q) as [v|] eqn:Hv; [|done].
    assert (Hne : q <> def_queue b).
    { intros ->. apply H4. rewrite (LSpec.contents_mid _ _ _ _ _ Ei). apply elem_of_app. right. left. }
    unfold modify, free_queue, load_queue, load, gets, update_queue, mbind, M_bind, mret, M_ret, when. simpl. rewrite Hv. simpl.
    rewrite lookup_delete_ne by done. rewrite Hd. simpl. destruct (q_socket d =? sock); simpl; [|by eexists].
    rewrite lookup_delete_ne by done. rewrite Hd. simpl. by eexists.
Qed.

Lemma remove_int_total get set v (n : net K) : exists r n', remove_int get set v n = Some (r, n').
Proof. unfold remove_int, sockets, zoom. destruct (LSpec.unlink _ _) as [r l]. by eexists _, _. Qed.

Lemma Socket_close_total sock n : net_ok n -> exists n', Socket_close sock n = Some (tt, n').
Proof.
  revert n. cut (triple net_ok (Socket_close sock) (fun _ _ => True)).
  { intros Ht n Hn. destruct (Ht n Hn) as ([] & n' & E & _). by exists n'. }
  unfold Socket_close, Socket_close_only. apply keeps_bind.
  { apply keeps_bind; [apply keeps_sys|intros _]. apply keeps_bind; [apply keeps_sys|intros _].
    apply keeps_bind; [apply keeps_sys|intros r]. intros n Hn. by eexists _, n. }
  intros _. apply keeps_bind; [by apply keeps_sockets|intros _].
  apply keeps_bind; [apply keeps_sockets; intros s; by case_bool_decide|intros _].
  apply keeps_bind; [apply keeps_move_cursor|intros _].
  apply keeps_bind; [by apply keeps_remove_int|intros _]. apply keeps_bind; [by apply keeps_remove_int|intros _].
  intros n Hn. destruct (cleanup_total sock n Hn) as (n1 & E1). mstep E1.
  destruct (remove_int_total clientsds set_clientsds sock n1) as (r & n2 & E2). mstep E2. by eexists _, _.
Qed.

(** Sending changes the writing side only. *)
#[export] Instance writes_only_refl : Reflexive writes_only.
Proof. by split. Qed.
#[export] Instance writes_only_trans : Transitive writes_only.
Proof. intros n1 n2 n3 [] []. split; congruence. Qed.

Lemma writes_only_sys {A} (f : K -> A * K) n a n' : sys f n = Some (a, n') -> writes_only n n'.
Proof. unfold sys. destruct (f (n_k n)) as [b k]. intros [= _ <-]. by split. Qed.

Lemma writes_only_bind {A B} (m : M (net K) A) (f : A -> M (net K) B) n b n' :
  (forall a n1, m n = Some (a, n1) -> writes_only n n1) ->
  (forall a n1, f a n1 = Some (b, n') -> writes_only n1 n') ->
  (m ≫= f) n = Some (b, n') -> writes_only n n'.
Proof. intros Hm Hf (a & n1 & E1 & E2)%bind_Some. etrans; [by eapply Hm|by eapply Hf]. Qed.

Lemma writes_only_noPending sock n b n' : Socket_noPendingWrites sock n = Some (b, n') -> writes_only n n'.
Proof.
  unfold Socket_noPendingWrites, find_int, sockets, zoom, mbind, M_bind. destruct (LSpec.find_item _ _) as [r l]. by intros [= _ <-].
Qed.

Lemma writes_only_updateWrite sock t p n r n' :
  buf (SocketBuffer_updateWrite sock t p) n = Some (r, n') -> writes_only n n'.
Proof.
  unfold buf, zoom, SocketBuffer_updateWrite, SocketBuffer_getWrite, load, modify, when, mbind, M_bind, mret, M_ret.
  destruct (LSpec.find_item _ _) as [[q|] l]; cbn; [|by intros [= _ <-]]. destruct (LSpec.elem_content l q) as [c|]; cbn; [|by intros [= _ <-]].
  destruct (pws (n_buf n) !! c) as [v|]; cbn; [|discriminate]. destruct (pw_count v =? 4); cbn; by intros [= _ <-].
Qed.

Lemma writes_only_putdatas sock buf0 bufs frees n rc n' :
  Socket_putdatas sock buf0 bufs frees n = Some (rc, n') -> writes_only n n'.
Proof.
  unfold Socket_putdatas. apply writes_only_bind.
  { intros np n1. apply writes_only_noPending. }
  intros np n1. destruct (negb np); [by intros [= _ <-]|]. destruct (4 <? zlen bufs); [done|]. apply writes_only_bind.
  { intros r n2. unfold Socket_writev. apply writes_only_bind; [intros a n3; apply writes_only_sys|].
    intros a n3. destruct a as [v|errno]; cbv zeta; cases; intros E; by injection E; intros; subst. }
  intros [rc1 bytes] n2. destruct (negb (rc1 =? SOCKET_ERROR)); [|by intros [= _ <-]].
  destruct (bytes =? _); [by intros [= _ <-]|]. apply writes_only_bind.
  { intros [] n3. unfold buf, zoom, SocketBuffer_pendingWrite. by intros [= <-]. }
  intros [] n3. apply writes_only_bind; [|by intros [] n4 [= _ <-]].
  intros [] n4. unfold sockets, zoom, modify. by intros [= <-].
Qed.

End closing.

Section safety.
Context {K : Type} `{KL : KernelLaws K}.
Import Reader Writer.
Implicit Types (n : net K).

(** * A network that is in order *)

(** The writing side: every socket that waits to be written has a record.  (Not
    every record has a socket that waits: [Socket_close] leaves records behind.) *)
Record wsafe n : Prop := {
  ws_list : LSpec.wf (writes (n_buf n));
  ws_nodup : NoDup (LSpec.contents (writes (n_buf n)));
  ws_alloc : forall p, p ∈ LSpec.contents (writes (n_buf n)) -> is_Some (pws (n_buf n) !! p);
  ws_cells : LSpec.wf (write_pending (n_s n));
  ws_nodup_cells : NoDup (LSpec.contents (write_pending (n_s n))).*1;
  ws_socks : NoDup (wp_socks n);
  ws_has : forall s, s ∈ wp_socks n -> exists p v, pending (n_buf n) p v /\ pw_socket v = s }.

Record net_safe n : Prop := {
  sf_cur a : cur_clientsds (n_s n) = Some a -> a ∈ LSpec.addrs (clientsds (n_s n));
  sf_list : LSpec.wf (clientsds (n_s n));
  sf_unique : NoDup (LSpec.contents (clientsds (n_s n))).*2;
  sf_sb : sb_wf (n_buf n);
  sf_w : wsafe n }.

Lemma net_safe_ok n : net_safe n -> net_ok n.
Proof. intros [H1 H2 _ [] _]. by split. Qed.

(** Input is kept as it is: [sb_wf] and what is kept for a socket depend on the
    queues only. *)
Record same_input (b b' : sbuf) : Prop := {
  si_sq : sq b' = sq b; si_def : def_queue b' = def_queue b; si_queues : queues b' = queues b }.

Lemma same_input_wf b b' : same_input b b' -> sb_wf b -> sb_wf b'.
Proof. intros [E1 E2 E3] []. split; unfold has in *; rewrite ?E1, ?E2, ?E3; done. Qed.

(** ** What is kept for a socket between two calls *)

Inductive kept (b : sbuf) (s : Z) : list byte -> list byte -> Prop :=
  | kept_none : no_queue b s -> kept b s [] []
  | kept_some q v hs dat : has b q v -> q <> def_queue b -> q_socket v = s -> hs <> [] -> holds v hs 0 dat -> kept b s hs dat.

(** The default queue belongs to no socket, or to none but [s]. *)
Definition idle (b : sbuf) : Prop := exists d, sq b !! def_queue b = Some d /\ q_socket d = 0.
Definition free_for (b : sbuf) (s : Z) : Prop :=
  exists d, sq b !! def_queue b = Some d /\ (q_socket d = 0 \/ q_socket d = s).

Lemma reading_kept b s hs dat : reading b s hs 0 dat <-> kept b s hs dat /\ idle b.
Proof.
  split.
  - intros Hr. destruct (reading_start_idle _ _ _ _ Hr) as (d & Hd & Hd0). split; [|by exists d].
    remember 0 as i eqn:Ei. destruct Hr as [d' Hn _ _|q v hs i dat Ht Hne Hh Hdef]; [by apply kept_none|]. subst i.
    assert (Hqd : q <> def_queue b).
    { intros E. destruct (Hdef E) as [_ E']. destruct hs; [done|]. rewrite zlen_cons in E'. pose proof (zlen_nonneg hs). lia. }
    destruct Ht as [? Hq Hs _ _|? -> ? ?]; [by apply (kept_some _ _ q v)|done].
  - intros [Hk (d & Hd & Hd0)]. destruct Hk as [Hn|q v hs dat Hq Hqd Hs Hne Hh]; [by apply (reading_none _ _ d)|].
    by apply (reading_some _ _ q v); [by apply (target_queued _ _ _ _ d)|..].
Qed.

(** Packet [p] is next on the socket, wherever the reading of it stopped. *)
Definition waiting (s : Z) (p : byte * list byte) (rest : list byte) n : Prop :=
  let F := p.1 :: MQTTPacket_encode (zlen p.2) in
  exists hs dat, kept (n_buf n) s hs dat /\ hs ++ dat ++ k_in s (n_k n) = F ++ p.2 ++ rest /\ zlen hs <= zlen F /\
    (dat = [] \/ zlen hs = zlen F /\ zlen dat < zlen p.2).
Definition at_rest (s : Z) (rest : list byte) n : Prop := kept (n_buf n) s [] [] /\ k_in s (n_k n) = rest.

Lemma next_packet_waiting s p rest n : next_packet s p rest n <-> sb_wf (n_buf n) /\ idle (n_buf n) /\ waiting s p rest n.
Proof.
  unfold next_packet, receiving, waiting. split.
  - intros (Hwf & hs & dat & [Hk Hi]%reading_kept & _ & E & Hl & Hd). split; [done|]. split; [done|]. by exists hs, dat.
  - intros (Hwf & Hi & hs & dat & Hk & E & Hl & Hd). split; [done|]. exists hs, dat.
    split; [by apply reading_kept|]. pose proof (zlen_nonneg hs). by split_and!.
Qed.

Lemma at_boundary_rest s rest n : at_boundary s rest n <-> sb_wf (n_buf n) /\ idle (n_buf n) /\ at_rest s rest n.
Proof. unfold at_boundary, at_rest. rewrite reading_kept. tauto. Qed.

Lemma at_rest_waiting s p rest n : at_rest s (packet_bytes p ++ rest) n -> waiting s p rest n.
Proof.
  intros [Hk E]. exists [], []. unfold packet_bytes in E. rewrite <- app_assoc in E. split; [done|].
  split; [done|]. split; [apply zlen_nonneg|by left].
Qed.

Lemma waiting_move s p rest n n' :
  (forall hs dat, kept (n_buf n) s hs dat -> kept (n_buf n') s hs dat) -> k_in s (n_k n') = k_in s (n_k n) ->
  waiting s p rest n -> waiting s p rest n'.
Proof. intros Hk Hin (hs & dat & Hk' & E & Hl). exists hs, dat. split; [by apply Hk|]. by rewrite Hin. Qed.

Lemma same_input_kept b b' s hs dat : same_input b b' -> kept b s hs dat -> kept b' s hs dat.
Proof.
  intros [E1 E2 E3] [Hn|q v ? ? Hq Hqd Hs Hne Hh].
  - apply kept_none. intros q v. unfold has. rewrite E1, E3. apply Hn.
  - apply (kept_some _ _ q v); [|by rewrite E2|done..]. unfold has. by rewrite E1, E3.
Qed.

(** * Sending *)

(** What sending and looking at the clock do to the network. *)
Record net_step n n' : Prop := {
  st_only : writes_only n n';
  st_safe : wsafe n -> wsafe n';
  st_in : forall s, k_in s (n_k n') = k_in s (n_k n) }.

#[export] Instance net_step_refl : Reflexive net_step.
Proof. by split. Qed.
#[export] Instance net_step_trans : Transitive net_step.
Proof.
  intros n1 n2 n3 A B. split; [etrans; [apply A|apply B]|intros Hw; by apply B, A|].
  intros s. by rewrite (st_in _ _ B), (st_in _ _ A).
Qed.

Lemma net_step_input n n' : net_step n n' -> same_input (n_buf n) (n_buf n').
Proof. intros [[] _ _]. by split. Qed.

Lemma net_step_safe n n' : net_step n n' -> net_safe n -> net_safe n'.
Proof.
  intros St [H1 H2 H3 H4 H5]. pose proof (net_step_input _ _ St) as Hi. destruct St as [[E1 E2 _ _ _] Hw _].
  split; rewrite ?E1, ?E2; [done..|by eapply same_input_wf|by apply Hw].
Qed.

Lemma net_step_waiting s p rest n n' : net_step n n' -> waiting s p rest n -> waiting s p rest n'.
Proof. intros St. apply waiting_move; [intros hs dat; by apply same_input_kept, net_step_input|apply St]. Qed.
Lemma net_step_rest s rest n n' : net_step n n' -> at_rest s rest n -> at_rest s rest n'.
Proof.
  intros St [Hk E]. split; [by eapply same_input_kept; [apply net_step_input|]|by rewrite (st_in _ _ St)].
Qed.
Lemma net_step_idle n n' : net_step n n' -> idle (n_buf n) -> idle (n_buf n').
Proof. intros St (d & Hd & H0). destruct (net_step_input _ _ St) as [E1 E2 _]. exists d. by rewrite E1, E2. Qed.

Lemma wp_socks_contents n n' :
  LSpec.contents (write_pending (n_s n')) = LSpec.contents (write_pending (n_s n)) -> wp_socks n' = wp_socks n.
Proof. unfold wp_socks. by intros ->. Qed.

(** The lists of the writing side up to their current elements, and the records up
    to what they say of their socket. *)
Lemma wsafe_same n n' :
  LSpec.wf (writes (n_buf n')) -> LSpec.contents (writes (n_buf n')) = LSpec.contents (writes (n_buf n)) ->
  (forall p v, pws (n_buf n) !! p = Some v -> exists v', pws (n_buf n') !! p = Some v' /\ pw_socket v' = pw_socket v) ->
  LSpec.wf (write_pending (n_s n')) ->
  LSpec.contents (write_pending (n_s n')) = LSpec.contents (write_pending (n_s n)) -> wsafe n -> wsafe n'.
Proof.
  intros W1 E1 Hp W2 E2 [H1 H2 H3 H4 H5 H6 H7]. pose proof (wp_socks_contents _ _ E2) as Ew.
  split; rewrite ?E1, ?E2, ?Ew; try done.
  - intros p Hin. destruct (H3 p Hin) as [v Hv]. destruct (Hp p v Hv) as (v' & -> & _). done.
  - intros s Hs. destruct (H7 s Hs) as (p & v & [Hin Hv] & Hvs). destruct (Hp p v Hv) as (v' & Hv' & Es).
    exists p, v'. unfold pending. by rewrite E1, Es.
Qed.

Lemma wsafe_k n k : wsafe n -> wsafe (Net (n_buf n) (n_s n) k).
Proof. intros []. by split. Qed.

Lemma find_int_safe n s :
  exists r n', find_int write_pending set_write_pending s n = Some (r, n') /\ net_step n n' /\
    items (write_pending (n_s n')) = items (write_pending (n_s n)) /\ n_buf n' = n_buf n /\ n_k n' = n_k n.
Proof.
  unfold find_int, sockets, zoom. destruct (LSpec.find_item (intcompare s) (write_pending (n_s n))) as [r l] eqn:E.
  assert (El : l = (LSpec.find_item (intcompare s) (write_pending (n_s n))).2) by (by rewrite E).
  eexists r, _. split; [reflexivity|]. split; [|simpl; by rewrite El, LSpec.find_item_items].
  split; [by split| |done]. intros W. apply (wsafe_same n); simpl; try done; [apply W|eauto| |].
  - subst l. apply LSpec.find_item_wf, W.
  - subst l. unfold LSpec.contents. by rewrite LSpec.find_item_items.
Qed.

Lemma noPending_safe n s :
  exists b n', Socket_noPendingWrites s n = Some (b, n') /\ net_step n n' /\
    items (write_pending (n_s n')) = items (write_pending (n_s n)) /\ n_buf n' = n_buf n /\ n_k n' = n_k n.
Proof.
  unfold Socket_noPendingWrites. destruct (find_int_safe n s) as (r & n' & E & S). mstep E. by eexists _, n'.
Qed.

(** A socket found to have no pending write has none. *)
Lemma noPending_true n s n' :
  LSpec.wf (write_pending (n_s n)) -> Socket_noPendingWrites s n = Some (true, n') -> s ∉ wp_socks n.
Proof.
  intros W. unfold Socket_noPendingWrites, find_int, sockets, zoom, mbind, M_bind.
  destruct (LSpec.find_item_cases (intcompare s) (write_pending (n_s n)) W)
    as [[E Hf]|(k1 & a & c & k2 & _ & _ & E & _)]; rewrite E; [|done]. intros _ Hin.
  unfold wp_socks in Hin. apply list_elem_of_fmap in Hin as (c & Hc & Hin). rewrite Forall_forall in Hf.
  specialize (Hf c Hin). unfold intcompare in Hf. lia.
Qed.

Lemma net_step_sys {A} (f : K -> A * K) n a n' :
  (forall k s, k_in s (f k).2 = k_in s k) -> sys f n = Some (a, n') -> net_step n n'.
Proof.
  intros Hf. unfold sys. destruct (f (n_k n)) as [b k] eqn:E. intros [= _ <-]. split; [by split|apply wsafe_k|].
  intros s. simpl. by rewrite <- (Hf (n_k n) s), E.
Qed.

Lemma net_step_time n t n' : sys k_time n = Some (t, n') -> net_step n n'.
Proof. apply net_step_sys, k_time_in. Qed.

(** The record of an interrupted write. *)
Lemma pendingWrite_safe n s v :
  wsafe n -> (s ∉ wp_socks n) -> pw_socket v = s ->
  let p := fresh (dom (pws (n_buf n))) in
  forall sz s' (k' : K), write_pending s' = append_int s (write_pending (n_s n)) ->
  wsafe (Net (set_writes (LSpec.append p sz (writes (n_buf n))) (set_pws (<[p := v]> (pws (n_buf n))) (n_buf n))) s' k').
Proof.
  intros [H1 H2 H3 H4 H5 H6 H7] Hs Hv p sz s' k' Es. unfold append_int in Es. set (b' := set_writes _ _).
  assert (Hp : pws (n_buf n) !! p = None) by (apply not_elem_of_dom, is_fresh).
  assert (Hpn : p ∉ LSpec.contents (writes (n_buf n))) by (intros Hin; destruct (H3 _ Hin); congruence).
  assert (Ew : wp_socks (Net b' s' k') = wp_socks n ++ [s]).
  { unfold wp_socks. simpl. by rewrite Es, LSpec.contents_append, fmap_app. }
  split; rewrite ?Ew; simpl; rewrite ?Es; simpl; rewrite ?LSpec.contents_append.
  - by apply LSpec.append_wf.
  - apply NoDup_app. split; [done|]. split; [|apply NoDup_singleton]. intros x Hx. rewrite list_elem_of_singleton. by intros ->.
  - intros q. rewrite elem_of_app, list_elem_of_singleton, lookup_insert_is_Some'. intros [Hq| ->]; [right; by apply H3|by left].
  - by apply LSpec.append_wf.
  - rewrite fmap_app. apply NoDup_app. split; [done|]. split; [|apply NoDup_singleton].
    intros x Hx. simpl. rewrite list_elem_of_singleton. intros ->. by apply infinite_is_fresh in Hx.
  - apply NoDup_app. split; [done|]. split; [|apply NoDup_singleton]. intros x Hx. rewrite list_elem_of_singleton. by intros ->.
  - intros t. rewrite elem_of_app, list_elem_of_singleton. unfold pending; simpl. rewrite LSpec.contents_append. intros [Ht| ->].
    + destruct (H7 t Ht) as (q & x & [Hq Hx] & Hxs). exists q, x. split; [|done]. split; [set_solver|].
      rewrite lookup_insert_ne; [done|]. by intros <-.
    + exists p, v. split; [|done]. split; [set_solver|]. by rewrite lookup_insert_eq.
Qed.

Lemma net_step_putdatas s buf0 bufs frees n rc n' :
  Socket_putdatas s buf0 bufs frees n = Some (rc, n') -> net_step n n'.
Proof.
  intros E. split; [by eapply writes_only_putdatas| |].
  - intros W. unfold Socket_putdatas in E. apply bind_Some in E as (np & n1 & E1 & E).
    destruct (noPending_safe n s) as (np' & n1' & E1' & St1 & Ei1 & Eb1 & Ek1). rewrite E1 in E1'. injection E1' as <- <-.
    pose proof (st_safe _ _ St1 W) as W1. destruct np; cbn [negb] in E; cbv iota in E; [|by injection E as _ <-].
    apply noPending_true in E1; [|apply W].
    assert (Hs1 : s ∉ wp_socks n1) by (unfold wp_socks, LSpec.contents in *; by rewrite Ei1).
    destruct (4 <? zlen bufs); [done|]. cbv zeta in E. apply bind_Some in E as ([rc1 bytes] & n2 & E2 & E).
    destruct (Socket_writev_spec s (buf0 :: bufs) n1) as (rc2 & m2 & k2 & E2' & _). rewrite E2 in E2'. injection E2' as <- <- ->.
    destruct (negb (rc1 =? SOCKET_ERROR)); [|injection E as _ <-; by apply wsafe_k].
    destruct (bytes =? _); [injection E as _ <-; by apply wsafe_k|].
    apply bind_Some in E as ([] & n3 & E3 & E). unfold buf, zoom, SocketBuffer_pendingWrite in E3. injection E3 as <-.
    apply bind_Some in E as ([] & n4 & E4 & E). unfold sockets, zoom, modify in E4. injection E4 as <-. injection E as _ <-.
    simpl. by apply (pendingWrite_safe n1 s (PW s _ _ bytes _ _) W1 Hs1).
  - intros t. unfold Socket_putdatas in E. apply bind_Some in E as (np & n1 & E1 & E).
    destruct (noPending_safe n s) as (np' & n1' & E1' & _ & _ & _ & Ek1). rewrite E1 in E1'. injection E1' as <- <-.
    destruct np; cbn [negb] in E; cbv iota in E; [|injection E as _ <-; by rewrite Ek1].
    destruct (4 <? zlen bufs); [done|]. cbv zeta in E. apply bind_Some in E as ([rc1 bytes] & n2 & E2 & E).
    assert (E2k : k_in t (n_k n2) = k_in t (n_k n1)).
    { unfold Socket_writev, sys, mbind, M_bind in E2. destruct (k_writev s (buf0 :: bufs) (n_k n1)) as [r k'] eqn:Ew.
      pose proof (k_writev_out _ _ _ _ _ Ew) as (_ & _ & Hin). destruct r; cbv zeta in E2; revert E2; cases; intros [= _ _ <-]; apply Hin. }
    rewrite <- Ek1, <- E2k. destruct (negb (rc1 =? SOCKET_ERROR)); [|by injection E as _ <-].
    destruct (bytes =? _); [by injection E as _ <-|].
    apply bind_Some in E as ([] & n3 & E3 & E). unfold buf, zoom, SocketBuffer_pendingWrite in E3. injection E3 as <-.
    apply bind_Some in E as ([] & n4 & E4 & E). unfold sockets, zoom, modify in E4. injection E4 as <-. by injection E as _ <-.
Qed.

(** * Completing writes *)

Lemma getWrite_safe b s r b' :
  SocketBuffer_getWrite s b = Some (r, b') ->
  same_input b b' /\ pws b' = pws b /\ LSpec.contents (writes b') = LSpec.contents (writes b) /\
  (LSpec.wf (writes b) -> LSpec.wf (writes b')).
Proof.
  unfold SocketBuffer_getWrite. destruct (LSpec.find_item (pending_socketcompare b s) (writes b)) as [o l] eqn:E.
  assert (El : l = (LSpec.find_item (pending_socketcompare b s) (writes b)).2) by (by rewrite E).
  intros [= _ <-]. subst l. split; [by split|]. split; [done|]. simpl. split; [|apply LSpec.find_item_wf].
  unfold LSpec.contents. by rewrite LSpec.find_item_items.
Qed.

(** A record that says less or more of what is written. *)
Lemma net_step_record n b1 p v v' k :
  same_input (n_buf n) b1 -> pws b1 = pws (n_buf n) -> LSpec.contents (writes b1) = LSpec.contents (writes (n_buf n)) ->
  (LSpec.wf (writes (n_buf n)) -> LSpec.wf (writes b1)) -> pws b1 !! p = Some v -> pw_socket v' = pw_socket v ->
  (forall s, k_in s k = k_in s (n_k n)) ->
  net_step n (Net (set_pws (<[p := v']> (pws b1)) b1) (n_s n) k).
Proof.
  intros [E1 E2 E3] Ep Ec Hw Hv Hs Hk. split; [by split| |done]. intros W. apply (wsafe_same n); simpl; try done; [by apply Hw, W| |apply W].
  intros q x Hq. rewrite <- Ep in Hq. destruct (decide (q = p)) as [->|Hne].
  - exists v'. rewrite lookup_insert_eq. split; [done|]. rewrite Hs. congruence.
  - exists x. by rewrite lookup_insert_ne.
Qed.

Lemma net_step_updateWrite s topic payload n r n' :
  buf (SocketBuffer_updateWrite s topic payload) n = Some (r, n') -> net_step n n'.
Proof.
  unfold buf, zoom. destruct (SocketBuffer_updateWrite s topic payload (n_buf n)) as [[o b]|] eqn:E; [|done].
  intros [= _ <-]. unfold SocketBuffer_updateWrite in E. apply bind_Some in E as (r1 & b1 & E1 & E).
  destruct (getWrite_safe _ _ _ _ E1) as (Hi & Hp & Hc & Hw). destruct r1 as [p|].
  - apply bind_Some in E as (v & b2 & E2 & E). unfold load in E2. destruct (pws b1 !! p) as [v0|] eqn:Hv; [|done].
    injection E2 as <- <-. destruct (pw_count v0 =? 4).
    + injection E as _ <-. by apply (net_step_record n b1 p v0).
    + injection E as _ <-. split; [destruct Hi; by split| |done]. intros W.
      apply (wsafe_same n); simpl; rewrite ?Hp; try done; [by apply Hw, W|eauto|apply W].
  - injection E as _ <-. split; [destruct Hi; by split| |done]. intros W.
    apply (wsafe_same n); simpl; rewrite ?Hp; try done; [by apply Hw, W|eauto|apply W].
Qed.

Lemma getWrite_found b s p v :
  LSpec.wf (writes b) -> (forall p, p ∈ LSpec.contents (writes b) -> is_Some (pws b !! p)) ->
  pending b p v -> pw_socket v = s ->
  exists q x b', SocketBuffer_getWrite s b = Some (Some q, b') /\ pws b' !! q = Some x /\ pws b' = pws b.
Proof.
  intros Hl Ha [Hin Hp] Hs. unfold SocketBuffer_getWrite.
  destruct (LSpec.find_item_cases (pending_socketcompare b s) (writes b) Hl)
    as [[_ Hf]|(k1 & a & q & k2 & Ei & Hx & E & Ec)].
  - exfalso. rewrite Forall_forall in Hf. specialize (Hf p Hin). unfold pending_socketcompare in Hf.
    rewrite Hp, Hs, Z.eqb_refl in Hf. done.
  - rewrite E. change (LSpec.elem_content (LSpec.with_cur (Some a) (writes b)) a)
      with (LSpec.elem_content (writes b) a). rewrite Ec.
    destruct (Ha q) as [x Hx']; [rewrite (LSpec.contents_mid _ _ _ _ _ Ei), elem_of_app, elem_of_cons; tauto|].
    by eexists q, x, _.
Qed.

Lemma continueWrite_safe n s :
  wsafe n -> s ∈ wp_socks n ->
  exists rc n', Socket_continueWrite s n = Some (rc, n') /\ net_step n n' /\ n_s n' = n_s n.
Proof.
  intros W Hs. destruct (ws_has _ W s Hs) as (p & v & Hp & Hv).
  destruct (getWrite_found (n_buf n) s p v (ws_list _ W) (ws_alloc _ W) Hp Hv) as (q & x & b1 & E1 & Hx & Hpws).
  destruct (getWrite_safe _ _ _ _ E1) as (Hi & Hp1 & Hc & Hw). unfold Socket_continueWrite.
  erewrite bind_step; [|unfold buf, zoom; by rewrite E1]. cbv iota.
  erewrite bind_step; [|unfold buf, zoom, load; simpl; by rewrite Hx]. set (n1 := Net b1 (n_s n) (n_k n)).
  change (Net (n_buf n1) (n_s n1) (n_k n1)) with n1.
  destruct (k_writev s (remaining_iovecs (pw_iovecs x) 0 (pw_bytes x)) (n_k n1)) as [r k'] eqn:Ek.
  pose proof (k_writev_out _ _ _ _ _ Ek) as (_ & _ & Hin).
  assert (Hno : net_step n (Net b1 (n_s n) k')).
  { split; [destruct Hi; by split| |done]. intros _.
    apply (wsafe_same n); simpl; rewrite ?Hp1; try done; [by apply Hw, W|eauto|apply W]. }
  assert (Hrec : forall by', net_step n (Net (set_pws (<[q := PW (pw_socket x) (pw_count x) (pw_total x) by' (pw_iovecs x) (pw_frees x)]> (pws b1)) b1) (n_s n) k')).
  { intros by'. by apply (net_step_record n b1 q x). }
  unfold Socket_writev. rewrite bind_assoc. erewrite bind_step; [|unfold sys; by rewrite Ek].
  destruct r as [errno|m]; cbv zeta.
  - destruct ((Socket_error errno =? EWOULDBLOCK) || (Socket_error errno =? EAGAIN)); rewrite ret_bind; cbv beta iota.
    + eexists _, _. split; [reflexivity|]. split; [apply Hrec|done].
    + eexists _, _. split; [reflexivity|]. by split.
  - rewrite ret_bind. cbv beta iota. destruct (negb (int_wrap m =? SOCKET_ERROR)); eexists _, _; (split; [reflexivity|]).
    + split; [apply Hrec|done].
    + by split.
Qed.

(** A write that is over: its cell leaves the list, and a record of its socket. *)
Lemma drop_pending_safe n k1 a c k2 :
  wsafe n -> items (write_pending (n_s n)) = k1 ++ (a, c) :: k2 -> net_step n (drop_pending c.2 c n).
Proof.
  intros W Ei. pose proof (cell_unlink _ _ _ _ _ (ws_cells _ W) Ei (ws_nodup_cells _ W)) as Ei'.
  unfold drop_pending. set (l' := (LSpec.unlink (fun x => bool_decide (x.1 = c.1)) (write_pending (n_s n))).2) in *.
  assert (Hl' : LSpec.wf l') by apply LSpec.unlink_wf, W.
  destruct W as [H1 H2 H3 H4 H5 H6 H7].
  assert (Es : wp_socks n = k1.*2.*2 ++ c.2 :: k2.*2.*2).
  { unfold wp_socks. by rewrite (LSpec.contents_mid _ _ _ _ _ Ei), fmap_app, fmap_cons. }
  assert (Es' : (LSpec.contents l').*2 = k1.*2.*2 ++ k2.*2.*2) by (unfold LSpec.contents; by rewrite Ei', !fmap_app).
  assert (Ec' : (LSpec.contents l').*1 = k1.*2.*1 ++ k2.*2.*1) by (unfold LSpec.contents; by rewrite Ei', !fmap_app).
  rewrite (LSpec.contents_mid _ _ _ _ _ Ei), fmap_app, fmap_cons in H5.
  assert (N5 : NoDup (LSpec.contents l').*1) by (rewrite Ec'; by apply NoDup_app_cons in H5 as (? & ? & ?)).
  rewrite Es in H6. apply NoDup_app_cons in H6 as (N6 & Nc & _).
  assert (Hh : forall t, t ∈ (LSpec.contents l').*2 -> t <> c.2 /\ exists p v, pending (n_buf n) p v /\ pw_socket v = t).
  { intros t. rewrite Es'. intros Ht. split; [by intros ->|]. apply H7. rewrite Es. set_solver. }
  destruct (LSpec.unlink_cases (pending_socketcompare (n_buf n) c.2) (writes (n_buf n)) H1)
    as [[-> _]|(j1 & b & q & j2 & Ej & Hq & Eu)].
  - split; [by split| |done]. intros _. split; unfold wp_socks; simpl; try done; [by rewrite Es'|].
    intros t Ht. by destruct (Hh t Ht).
  - pose proof (LSpec.unlink_wf (pending_socketcompare (n_buf n) c.2) _ H1) as Wu. rewrite Eu in *.
    set (wl := CList _ _ _ _) in *. simpl in Wu. assert (Ew : LSpec.contents wl = j1.*2 ++ j2.*2) by (unfold LSpec.contents; simpl; by rewrite fmap_app).
    rewrite (LSpec.contents_mid _ _ _ _ _ Ej) in H2, H3. apply NoDup_app_cons in H2 as (N2 & Nq & _).
    unfold pending_socketcompare in Hq. destruct (pws (n_buf n) !! q) as [vq|] eqn:Hvq; [|done]. apply Z.eqb_eq in Hq.
    split; [by split| |done]. intros _. split; unfold wp_socks; simpl; rewrite ?Ew; try done.
    + intros p Hp. rewrite lookup_delete_ne; [apply H3; set_solver|]. by intros <-.
    + by rewrite Es'.
    + intros t Ht. destruct (Hh t Ht) as (Hne & p & v & [Hp Hv] & Hvt). exists p, v. split; [|done].
      assert (p <> q) by (intros ->; congruence). unfold pending. simpl. rewrite Ew, lookup_delete_ne by done.
      split; [|done]. rewrite (LSpec.contents_mid _ _ _ _ _ Ej) in Hp. set_solver.
Qed.

(** * Closing a socket *)

(** The steps of closing socket [t] leave the input of the others alone. *)
Record closing (t : Z) n n' : Prop := {
  cg_in : forall s, s <> t -> k_in s (n_k n') = k_in s (n_k n);
  cg_kept : forall s hs dat, s <> t -> kept (n_buf n) s hs dat -> kept (n_buf n') s hs dat;
  cg_idle : idle (n_buf n) -> idle (n_buf n');
  cg_free s : free_for (n_buf n) s -> free_for (n_buf n') s }.

#[export] Instance closing_refl t : Reflexive (closing t).
Proof. by split. Qed.
#[export] Instance closing_trans t : Transitive (closing t).
Proof.
  intros n1 n2 n3 A B. split; [|intros s hs dat Hs Hk..| | ].
  - intros s Hs. by rewrite (cg_in _ _ _ B), (cg_in _ _ _ A).
  - by apply B, A.
  - intros Hi. by apply B, A.
  - intros s Hf. by apply B, A.
Qed.

(** A step that keeps the input. *)
Lemma closing_input t n n' :
  same_input (n_buf n) (n_buf n') -> (forall s, s <> t -> k_in s (n_k n') = k_in s (n_k n)) -> closing t n n'.
Proof.
  intros Hi Hin. split; [done|intros s hs dat _; by apply same_input_kept|..]; destruct Hi as [E1 E2 _];
    [|intros s]; intros (d & Hd & H0); exists d; by rewrite E1, E2.
Qed.

Lemma wsafe_input n b s k :
  pws b = pws (n_buf n) -> writes b = writes (n_buf n) -> write_pending s = write_pending (n_s n) -> wsafe n -> wsafe (Net b s k).
Proof.
  intros E1 E2 E3 []. split; unfold pending, wp_socks in *; simpl; rewrite ?E1, ?E2, ?E3; done.
Qed.

(** [m] is a step of closing [t] that does not touch the list of sockets. *)
Definition closes (t : Z) {A} (m : M (net K) A) : Prop := forall n, net_safe n ->
  exists a n', m n = Some (a, n') /\ net_safe n' /\ closing t n n' /\
    clientsds (n_s n') = clientsds (n_s n) /\ cur_clientsds (n_s n') = cur_clientsds (n_s n).

Lemma closes_bind {A B} t (m : M (net K) A) (f : A -> M (net K) B) :
  closes t m -> (forall a, closes t (f a)) -> closes t (m ≫= f).
Proof.
  intros Hm Hf n Hn. destruct (Hm n Hn) as (a & n1 & E1 & S1 & C1 & D1 & U1).
  destruct (Hf a n1 S1) as (b & n2 & E2 & S2 & C2 & D2 & U2). exists b, n2. mstep E1. split; [done|].
  split; [done|]. split; [by etrans|]. by rewrite D2, U2.
Qed.

Lemma closes_ret {A} t (a : A) : closes t (mret a).
Proof. intros n Hn. by exists a, n. Qed.

Lemma closes_sys {A} t (f : K -> A * K) :
  (forall k s, s <> t -> k_in s (f k).2 = k_in s k) -> closes t (sys f).
Proof.
  intros Hf n [H1 H2 H3 H4 H5]. unfold sys. destruct (f (n_k n)) as [a k] eqn:E.
  eexists a, _. split; [reflexivity|]. split; [split; try done; by apply wsafe_k|]. split; [|done].
  apply closing_input; [done|]. intros s Hs. simpl. by rewrite <- (Hf (n_k n) s Hs), E.
Qed.

Lemma closes_sockets t (f : Sockets -> Sockets) :
  (forall s, clientsds (f s) = clientsds s /\ cur_clientsds (f s) = cur_clientsds s /\ write_pending (f s) = write_pending s) ->
  closes t (sockets (modify f)).
Proof.
  intros Hf n [H1 H2 H3 H4 H5]. destruct (Hf (n_s n)) as (E1 & E2 & E3). eexists tt, _. split; [reflexivity|].
  split; [split; simpl; rewrite ?E1, ?E2; try done; by eapply wsafe_input|].
  split; [by apply closing_input|done].
Qed.

Lemma closes_connect_pending t v : closes t (remove_int connect_pending set_connect_pending v).
Proof.
  intros n [H1 H2 H3 H4 H5]. unfold remove_int, sockets, zoom. destruct (LSpec.unlink _ _) as [r l].
  eexists _, _. split; [reflexivity|]. split; [split; try done; by eapply wsafe_input|]. split; [by apply closing_input|done].
Qed.

Lemma closes_write_pending t v : closes t (remove_int write_pending set_write_pending v).
Proof.
  intros n [H1 H2 H3 H4 [W1 W2 W3 W4 W5 W6 W7]]. unfold remove_int, sockets, zoom.
  destruct (LSpec.unlink_cases (intcompare v) (write_pending (n_s n)) W4) as [[E _]|(k1 & a & x & k2 & Ei & _ & E)].
  - rewrite E. eexists _, _. split; [reflexivity|]. split; [split; try done; by split|]. split; [by apply closing_input|done].
  - pose proof (LSpec.unlink_wf (intcompare v) _ W4) as Wl. rewrite E in *. set (l := CList _ _ _ _) in *. simpl in Wl.
    assert (Ec : LSpec.contents l = k1.*2 ++ k2.*2) by (unfold LSpec.contents; simpl; by rewrite fmap_app).
    unfold wp_socks in *. rewrite (LSpec.contents_mid _ _ _ _ _ Ei) in W5, W6, W7. rewrite fmap_app, fmap_cons in W5.
    rewrite fmap_app, fmap_cons in W6, W7.
    eexists _, _. split; [reflexivity|]. split; [split; try done|split; [by apply closing_input|done]].
    split; unfold wp_socks; simpl; rewrite ?Ec, ?fmap_app; try done.
    + by apply NoDup_app_cons in W5 as (? & _).
    + by apply NoDup_app_cons in W6 as (? & _).
    + intros s Hs. apply W7. set_solver.
Qed.

(** The queues of a socket are forgotten. *)
Definition forget_queue (q : loc) (b : sbuf) : sbuf :=
  set_sq (delete q (sq b)) (set_queues (LSpec.unlink (fun x => bool_decide (x = q)) (queues b)).2 b).

Lemma has_forget b q q' w : sb_wf b -> has (forget_queue q b) q' w <-> has b q' w /\ q' <> q.
Proof.
  intros Hwf. unfold has, forget_queue; simpl.
  destruct (LSpec.unlink_content q (queues b)) as (_ & _ & Hx); [apply Hwf..|].
  rewrite Hx. split.
  - intros [[H1 H2] [_ H3]%lookup_delete_Some]. tauto.
  - intros [[H1 H2] H3]. split; [done|]. by apply lookup_delete_Some.
Qed.

Lemma forget_wf b q v : sb_wf b -> has b q v -> sb_wf (forget_queue q b).
Proof.
  intros Hwf [Hin Hq]. pose proof Hwf as [H1 H2 H3 H4 H5 H6 H7].
  destruct (LSpec.unlink_content q (queues b)) as (Hl & Hn & Hx); [done..|].
  assert (q <> def_queue b) by (intros ->; done).
  split; unfold forget_queue; simpl; try done.
  - intros x [Hx1 Hx2]%Hx. rewrite lookup_delete_ne; [by apply H3|]. by intros <-.
  - rewrite Hx. tauto.
  - by rewrite lookup_delete_ne.
  - intros x w [_ Hw]%lookup_delete_Some. by eapply H6.
  - intros q1 q2 v1 v2 [A1 _]%has_forget [A2 _]%has_forget; [by eapply H7|done..].
Qed.

(** Queues that are not of socket [t] stay. *)
Lemma kept_move b b' t s hs dat :
  (forall q v, q_socket v <> t -> has b q v <-> has b' q v) -> def_queue b' = def_queue b -> s <> t ->
  kept b s hs dat -> kept b' s hs dat.
Proof.
  intros Hh Ed Hs [Hn|q v ? ? Hq Hqd Hqs Hne Hd].
  - apply kept_none. intros q v Hq Hqs. apply (Hn q v); [|done]. apply Hh; [congruence|done].
  - apply (kept_some _ _ q v); [|by rewrite Ed|done..]. apply Hh; [congruence|done].
Qed.

(** The second half of the cleaning up: the default queue. *)
Lemma reset_default t n :
  net_safe n -> exists n',
    buf (d ← gets def_queue; v ← load_queue d;
      when (q_socket v =? t) (update_queue d (fun v => SQ 0 0 0 (q_fixed_header v) (q_buflen v) 0 (q_buf v)))) n = Some (tt, n') /\
    net_safe n' /\ closing t n n' /\ n_s n' = n_s n /\ (free_for (n_buf n) t -> idle (n_buf n')).
Proof.
  intros [H1 H2 H3 H4 H5]. destruct (sb_def_alloc _ H4) as [d Hd]. unfold buf, zoom.
  erewrite bind_step by reflexivity. erewrite bind_step; [|unfold load_queue, load; by rewrite Hd].
  destruct (Z.eqb_spec (q_socket d) t) as [Et|Et]; cbn [when].
  - rewrite (update_queue_upd _ _ _ d Hd). eexists. split; [reflexivity|].
    set (d' := SQ _ _ _ _ _ _ _). assert (Hd' : queue_wf d') by apply (sb_queues _ H4 _ _ Hd).
    assert (Hi : idle (upd (def_queue (n_buf n)) d' (n_buf n))) by (exists d'; split; [by apply lookup_insert_eq|done]).
    assert (Hwf : sb_wf (upd (def_queue (n_buf n)) d' (n_buf n))) by (apply (upd_wf _ _ d); [done..|by right]).
    split; [split; try done; by eapply wsafe_input|]. split; [|done]. split; [done| |done|].
    + intros s hs dat Hs. apply (kept_move _ _ t); [|done|done]. intros q v _.
      destruct (decide (def_queue (n_buf n) = q)) as [<-|Hne]; [|symmetry; by apply has_upd].
      split; intros [Hin _]; by destruct (sb_def _ H4).
    + intros s _. destruct Hi as (x & ? & ?). exists x. tauto.
  - eexists. split; [reflexivity|]. split; [split; try done; by eapply wsafe_input|]. split; [by apply closing_input|].
    split; [done|]. intros (x & Hx & [H0|H0]); exists d; simpl; rewrite Hd in Hx; injection Hx as <-; [done|congruence].
Qed.

Lemma queue_or_none b t : LSpec.wf (queues b) -> (exists q v, has b q v /\ q_socket v = t) \/ no_queue b t.
Proof.
  intros Hl. destruct (LSpec.find_item_cases (socketcompare b t) (queues b) Hl) as [[_ Hf]|(k1 & a & q & k2 & Ei & Hq & _)].
  - right. intros q v [Hin Hv] Hs. rewrite Forall_forall in Hf. specialize (Hf q Hin). unfold socketcompare in Hf.
    rewrite Hv in Hf. lia.
  - left. unfold socketcompare in Hq. destruct (sq b !! q) as [v|] eqn:Hv; [|done]. exists q, v. split; [|lia].
    split; [|done]. rewrite (LSpec.contents_mid _ _ _ _ _ Ei). set_solver.
Qed.

Lemma cleanup_safe t n :
  t <> 0 -> net_safe n -> exists n', buf (SocketBuffer_cleanup t) n = Some (tt, n') /\ net_safe n' /\ closing t n n' /\
    n_s n' = n_s n /\ (free_for (n_buf n) t -> idle (n_buf n')).
Proof.
  intros Ht0 Hn.
  assert (Hq0 : exists b1, (r ← find_queue t; (match r with
     | Some q => modify (fun s => set_queues (LSpec.unlink (fun x => bool_decide (x = q)) (queues s)).2 s);; free_queue q
     | None => mret tt end)) (n_buf n) = Some (tt, b1) /\
     let n1 := Net b1 (n_s n) (n_k n) in net_safe n1 /\ closing t n n1).
  { pose proof Hn as [H1 H2 H3 H4 H5].
    destruct (queue_or_none (n_buf n) t (sb_list _ H4)) as [(q & v & Hq & Hs)|Hnq].
    - destruct (find_queue_has (n_buf n) q v t H4 Hq Hs Ht0) as (c & E & Hwf). mstep E. erewrite bind_step by reflexivity.
      unfold free_queue. simpl. rewrite (proj2 Hq). eexists. split; [reflexivity|]. cbv zeta.
      set (b0 := set_queues (LSpec.with_cur c (queues (n_buf n))) (n_buf n)) in *.
      change (set_sq _ _) with (forget_queue q b0). assert (Hq0 : has b0 q v) by done.
      assert (Hd : forall q' w, q_socket w <> t -> has (n_buf n) q' w <-> has (forget_queue q b0) q' w).
      { intros q' w Hw. rewrite has_forget by done. unfold has. simpl. change (LSpec.contents (LSpec.with_cur c (queues (n_buf n))))
          with (LSpec.contents (queues (n_buf n))). split; [|tauto]. intros [Hin Hl]. split; [done|]. intros ->.
        destruct Hq as [_ Hq]. congruence. }
      assert (Hne : q <> def_queue (n_buf n)) by (intros ->; by destruct (sb_def _ H4), Hq).
      split; [split; try done; [by eapply forget_wf|by eapply wsafe_input]|].
      split; [done|intros s hs dat Hs'; by apply (kept_move _ _ t)|..]; [|intros s]; intros (d & Hd' & H0); exists d; simpl;
        by rewrite lookup_delete_ne.
    - mstep (find_queue_no _ _ H4 Hnq). eexists. split; [reflexivity|]. split; [by split; try done; eapply wsafe_input|by apply closing_input]. }
  destruct Hq0 as (b1 & E & S1 & C1). destruct (reset_default t _ S1) as (n' & E2 & S2 & C2 & Es & Hf).
  exists n'. split; [|split; [done|split; [by etrans|split; [done|]]]].
  - unfold buf, zoom in *. unfold SocketBuffer_cleanup. rewrite <- bind_assoc. by rewrite (bind_step _ _ _ _ _ E).
  - intros Hfree. apply Hf, C1, Hfree.
Qed.

(** The scan is not at socket [t]. *)
Definition off (t : Z) (s : Sockets) : Prop :=
  forall a c, cur_clientsds s = Some a -> LSpec.elem_content (clientsds s) a = Some c -> c.2 <> t.

Lemma move_cursor_off t n : net_safe n -> exists n', move_cursor t n = Some (tt, n') /\ net_safe n' /\ closing t n n' /\
  off t (n_s n').
Proof.
  intros [H1 H2 H3 H4 H5]. unfold move_cursor, sockets, zoom.
  destruct (cur_clientsds (n_s n)) as [a|] eqn:Ec.
  2: { eexists. split; [reflexivity|]. split; [split; try done; simpl; [by rewrite Ec|by eapply wsafe_input]|].
       split; [by apply closing_input|]. intros a c. simpl. by rewrite Ec. }
  destruct (LSpec.addrs_split _ _ (H1 a eq_refl)) as (k1 & c & k2 & Ei).
  rewrite (LSpec.elem_content_mid _ _ _ _ _ H2 Ei). cbn [mbind option_bind].
  destruct (Z.eqb_spec c.2 t) as [Et|Et].
  2: { eexists. split; [reflexivity|]. split; [split; try done; simpl; [by rewrite Ec|by eapply wsafe_input]|].
       split; [by apply closing_input|]. intros a' c'. simpl. rewrite Ec. intros [= <-]. rewrite (LSpec.elem_content_mid _ _ _ _ _ H2 Ei). by intros [= <-]. }
  rewrite (LSpec.next_element_mid _ k1 a c k2) by done. cbn [mbind option_bind]. eexists. split; [reflexivity|].
  pose proof H3 as N3. rewrite (LSpec.contents_mid _ _ _ _ _ Ei), fmap_app, fmap_cons in N3. apply NoDup_app_cons in N3 as (_ & Nc & _).
  assert (Hb : forall b, LSpec.hd_addr k2 None = Some b -> exists x k3, k2 = (b, x) :: k3).
  { intros b. destruct k2 as [|[b' x] k3]; [done|]. simpl. intros [= ->]. by exists x, k3. }
  split.
  - split; try done; simpl; [|by eapply wsafe_input]. intros b (x & k3 & ->)%Hb. unfold LSpec.addrs. rewrite Ei. set_solver.
  - split; [by apply closing_input|]. intros b c'. simpl. intros (x & k3 & ->)%Hb Hc' Et'.
    rewrite (LSpec.elem_content_mid _ (k1 ++ [(a, c)]) b x k3) in Hc'; [|done|by rewrite Ei, <- app_assoc].
    injection Hc' as ->. apply Nc. rewrite Et, <- Et', !fmap_cons. set_solver.
Qed.

Lemma remove_clientsds t n :
  net_safe n -> off t (n_s n) -> exists r n', remove_int clientsds set_clientsds t n = Some (r, n') /\ net_safe n' /\
    n_buf n' = n_buf n /\ n_k n' = n_k n.
Proof.
  intros [H1 H2 H3 H4 H5] Hoff. unfold remove_int, sockets, zoom.
  destruct (LSpec.unlink_cases (intcompare t) (clientsds (n_s n)) H2) as [[E _]|(k1 & a & x & k2 & Ei & Hx & E)].
  - rewrite E. eexists _, _. split; [reflexivity|]. split; [split; try done; by eapply wsafe_input|done].
  - pose proof (LSpec.unlink_wf (intcompare t) _ H2) as Wl. rewrite E in *. set (l := CList _ _ _ _) in *. simpl in Wl.
    eexists _, _. split; [reflexivity|]. split; [split; simpl; try done|done]; [|..|by eapply wsafe_input].
    + intros b Hb. pose proof (H1 b Hb) as Hin. unfold LSpec.addrs in *. rewrite Ei, fmap_app, fmap_cons in Hin.
      assert (b <> a); [|simpl; rewrite fmap_app; set_solver]. intros ->.
      apply (Hoff a x Hb); [by eapply LSpec.elem_content_mid|]. unfold intcompare in Hx. lia.
    + assert (Ec : LSpec.contents l = k1.*2 ++ k2.*2) by (unfold LSpec.contents; simpl; by rewrite fmap_app).
      rewrite (LSpec.contents_mid _ _ _ _ _ Ei), fmap_app, fmap_cons in H3. apply NoDup_app_cons in H3 as (N & _).
      by rewrite Ec, fmap_app.
Qed.

Lemma Socket_close_safe t n :
  t <> 0 -> net_safe n -> exists n', Socket_close t n = Some (tt, n') /\ net_safe n' /\ closing t n n' /\
    (free_for (n_buf n) t -> idle (n_buf n')).
Proof.
  intros Ht Hn. unfold Socket_close.
  assert (H1 : closes t (Socket_close_only t)).
  { unfold Socket_close_only. apply closes_bind; [apply closes_sys; intros; by apply k_shutdown_in|intros _].
    apply closes_bind; [|intros _; apply closes_bind; [apply closes_sys; intros; by apply k_close_in|intros r; apply closes_ret]].
    apply closes_sys. intros k s Hs. destruct (k_recv t 0 k) as [r k'] eqn:E. by apply k_recv_in in E as (_ & Hin & _); apply Hin. }
  destruct (H1 n Hn) as (r1 & n1 & E1 & S1 & C1 & _). mstep E1.
  destruct (closes_sockets t (fun s => set_rset_saved (rset_saved s ∖ {[t]}) s) ltac:(done) n1 S1) as (r2 & n2 & E2 & S2 & C2 & _).
  mstep E2.
  destruct (closes_sockets t (fun s => if bool_decide (t ∈ pending_wset s) then set_pending_wset (pending_wset s ∖ {[t]}) s else s)
    ltac:(intros s; cbv beta; by case_bool_decide) n2 S2) as (r3 & n3 & E3 & S3 & C3 & _). mstep E3.
  destruct (move_cursor_off t n3 S3) as (n4 & E4 & S4 & C4 & O4). mstep E4.
  destruct (closes_connect_pending t t n4 S4) as (r5 & n5 & E5 & S5 & C5 & D5 & U5). mstep E5.
  destruct (closes_write_pending t t n5 S5) as (r6 & n6 & E6 & S6 & C6 & D6 & U6). mstep E6.
  destruct (cleanup_safe t n6 Ht S6) as (n7 & E7 & S7 & C7 & D7 & F7). mstep E7.
  destruct (remove_clientsds t n7 S7) as (r8 & n8 & E8 & S8 & B8 & K8).
  { unfold off. rewrite D7, D6, U6, D5, U5. exact O4. }
  mstep E8. destruct (closes_sockets t (fun s => if maxfdp1 s <=? t + 1
    then set_maxfdp1 (foldl (fun m c => Z.max c m) 0 ((LSpec.contents (clientsds s)).*2) + 1) s else s)
    ltac:(intros s; cbv beta; by destruct (maxfdp1 s <=? t + 1)) n8 S8) as (r9 & n9 & E9 & S9 & C9 & _).
  destruct r9. exists n9. split; [exact E9|]. split; [done|].
  assert (C8 : closing t n7 n8) by (apply closing_input; rewrite ?B8, ?K8; [by split|done]).
  assert (C16 : closing t n n6) by (do 5 (etrans; [eassumption|]); done). split.
  - etrans; [exact C16|]. etrans; [exact C7|]. by etrans.
  - intros Hf. apply C9, C8, F7, C16, Hf.
Qed.

(** A closed connection does not disturb the others. *)
Lemma closing_waiting t s p rest n n' : closing t n n' -> s <> t -> waiting s p rest n -> waiting s p rest n'.
Proof. intros C Hs. apply waiting_move; [intros hs dat; by apply C|by apply C]. Qed.
Lemma closing_rest t s rest n n' : closing t n n' -> s <> t -> at_rest s rest n -> at_rest s rest n'.
Proof. intros C Hs [Hk E]. split; [by apply C|by rewrite (cg_in _ _ _ C)]. Qed.

(** * Reading *)

(** Computations on the input side. *)
Definition input_only {A} (m : M sbuf A) : Prop :=
  forall b a b', m b = Some (a, b') -> pws b' = pws b /\ writes b' = writes b.
Definition reads_only {A} (m : M (net K) A) : Prop :=
  forall n a n', m n = Some (a, n') -> pws (n_buf n') = pws (n_buf n) /\ writes (n_buf n') = writes (n_buf n).

Lemma input_bind {A B} (m : M sbuf A) (f : A -> M sbuf B) : input_only m -> (forall a, input_only (f a)) -> input_only (m ≫= f).
Proof. intros Hm Hf b r b' (a & b1 & E1 & E2)%bind_Some. destruct (Hm _ _ _ E1) as [<- <-]. by eapply Hf. Qed.
Lemma reads_bind {A B} (m : M (net K) A) (f : A -> M (net K) B) : reads_only m -> (forall a, reads_only (f a)) -> reads_only (m ≫= f).
Proof. intros Hm Hf b r b' (a & b1 & E1 & E2)%bind_Some. destruct (Hm _ _ _ E1) as [<- <-]. by eapply Hf. Qed.
Lemma input_ret {A} (a : A) : input_only (mret a).
Proof. by intros b r b' [= _ <-]. Qed.
Lemma reads_ret {A} (a : A) : reads_only (mret a).
Proof. by intros b r b' [= _ <-]. Qed.
Lemma input_undefined {A} : input_only (undefined : M sbuf A).
Proof. done. Qed.
Lemma input_load {A} (f : sbuf -> option A) : input_only (load f).
Proof. intros b r b'. unfold load. destruct (f b); [|done]. by intros [= _ <-]. Qed.
Lemma input_gets {A} (f : sbuf -> A) : input_only (gets f).
Proof. by intros b r b' [= _ <-]. Qed.
Lemma input_modify f : (forall b, pws (f b) = pws b /\ writes (f b) = writes b) -> input_only (modify f).
Proof. intros Hf b r b' [= _ <-]. apply Hf. Qed.
Lemma input_update q f : input_only (update_queue q f).
Proof. intros b r b'. unfold update_queue. destruct (sq b !! q); [|done]. by intros [= _ <-]. Qed.
Lemma input_free q : input_only (free_queue q).
Proof. intros b r b'. unfold free_queue. destruct (sq b !! q); [|done]. by intros [= _ <-]. Qed.
Lemma input_find s : input_only (find_queue s).
Proof. intros b r b'. unfold find_queue. destruct (LSpec.find_item _ _) as [o l]. by intros [= _ <-]. Qed.
Lemma input_new junk : input_only (SocketBuffer_newDefQ junk).
Proof. by intros b r b' [= _ <-]. Qed.
Lemma reads_buf {A} (m : M sbuf A) : input_only m -> reads_only (buf m).
Proof. intros Hm n a n'. unfold buf, zoom. destruct (m (n_buf n)) as [[r b]|] eqn:E; [|done]. intros [= _ <-]. by apply Hm in E. Qed.
Lemma reads_sys {A} (f : K -> A * K) : reads_only (sys f).
Proof. intros n a n'. unfold sys. destruct (f (n_k n)). by intros [= _ <-]. Qed.
Lemma reads_load {A} (f : net K -> option A) : reads_only (load f).
Proof. intros b r b'. unfold load. destruct (f b); [|done]. by intros [= _ <-]. Qed.

Create HintDb input.
#[local] Hint Resolve input_ret reads_ret input_undefined input_load input_gets input_update input_free input_find input_new
  reads_buf reads_sys reads_load : input.

(** Case analysis down to the primitive operations. *)
Ltac input :=
  repeat first
    [ solve [eauto with input]
    | apply input_bind; [|intros ?]
    | apply reads_bind; [|intros ?]
    | apply input_modify; by intros ?
    | apply reads_buf
    | progress unfold load_queue, when
    | case_match
    | progress cbv zeta ].

Lemma input_getQueuedChar s : input_only (SocketBuffer_getQueuedChar s).
Proof. unfold SocketBuffer_getQueuedChar. input. Qed.
Lemma input_interrupted junk s l : input_only (SocketBuffer_interrupted junk s l).
Proof. unfold SocketBuffer_interrupted. input. Qed.
Lemma input_queueChar s c : input_only (SocketBuffer_queueChar s c).
Proof. unfold SocketBuffer_queueChar. input. Qed.
Lemma input_complete s : input_only (SocketBuffer_complete s).
Proof. unfold SocketBuffer_complete, SocketBuffer_freeDefQ. input. Qed.
Lemma input_getQueuedData s sz : input_only (SocketBuffer_getQueuedData s sz).
Proof. unfold SocketBuffer_getQueuedData. input. Qed.
Lemma input_store_data q off bs : input_only (store_data q off bs).
Proof. unfold store_data. input. Qed.
#[local] Hint Resolve input_getQueuedChar input_interrupted input_queueChar input_complete input_getQueuedData input_store_data : input.

Lemma reads_getch junk s : reads_only (Socket_getch junk s).
Proof. unfold Socket_getch. input. Qed.
#[local] Hint Resolve reads_getch : input.

Lemma reads_decode junk s : forall fuel len mult value, reads_only (decode_loop (Socket_getch junk s) fuel len mult value).
Proof. induction fuel as [|fuel IH]; intros; simpl; [by intros ? ? ?|]. input. Qed.
#[local] Hint Resolve reads_decode : input.

Lemma reads_Factory junk s : reads_only (Factory_read junk s).
Proof. unfold Factory_read, MQTTPacket_decode, Socket_getdata. input. Qed.

Lemma kept_others s t b b' hs dat : others s b b' -> sb_wf b' -> t <> s -> t <> 0 -> kept b t hs dat -> kept b' t hs dat.
Proof.
  intros Ho Hwf Hts Ht0 [Hn|q v ? ? Hq Hqd Hqs Hne Hd].
  - apply kept_none. intros q v Hq Hqs. apply (Hn q v); [|done]. apply Ho; [congruence..|done].
  - assert (Hq' : has b' q v) by (apply Ho; [congruence..|done]). apply (kept_some _ _ q v); try done.
    intros ->. destruct Hq' as [Hin _]. by destruct (sb_def _ Hwf).
Qed.

Lemma stuck_free s n : stuck s n -> sb_wf (n_buf n) /\ free_for (n_buf n) s.
Proof.
  intros [Hwf (hs & i & dat & Hr)]. split; [done|]. destruct Hr as [d _ Hd H0|q v hs i dat Ht _ _ _]; [exists d; tauto|].
  destruct Ht as [d _ _ Hd H0|? -> Hv Hs]; [exists d; tauto|exists v; tauto].
Qed.

(** What is left of the input after a call that reads. *)
Definition read_left (s : Z) (p : byte * list byte) (rest : list byte) (rc : Z) (res : option (byte * Z * list byte)) n' : Prop :=
  match res with
  | Some (header, len, data) =>
      rc = TCPSOCKET_COMPLETE /\ header = p.1 /\ len = zlen p.2 /\ (exists j, data = p.2 ++ j) /\
      at_rest s rest n' /\ idle (n_buf n')
  | None => rc = TCPSOCKET_INTERRUPTED /\ waiting s p rest n' /\ idle (n_buf n') \/ rc = SOCKET_ERROR /\ free_for (n_buf n') s
  end.

Lemma Factory_read_safe junk s p rest n :
  length (q_fixed_header junk) = 5%nat -> s <> 0 -> packet_ok p -> net_safe n -> idle (n_buf n) -> waiting s p rest n ->
  exists rc res n', Factory_read junk s n = Some ((rc, res), n') /\ net_safe n' /\ read_left s p rest rc res n' /\
    (forall t hs dat, t <> s -> t <> 0 -> kept (n_buf n) t hs dat -> kept (n_buf n') t hs dat) /\
    (forall t, t <> s -> k_in t (n_k n') = k_in t (n_k n)).
Proof.
  intros Hj Hs Hp Hn Hi Hw. assert (Hnx : next_packet s p rest n) by (apply next_packet_waiting; split; [apply Hn|done]).
  destruct (Factory_read_spec junk Hj s p rest n Hs Hp Hnx) as (rc & res & n' & E & Hf & Ho).
  destruct (reads_Factory junk s n _ n' E) as [Ep Ew]. exists rc, res, n'. split; [done|].
  assert (Hout : sb_wf (n_buf n') /\ read_left s p rest rc res n').
  { destruct res as [[[h l] d]|]; unfold read_left.
    - destruct Ho as (-> & -> & -> & Hd & (Hwf & Hi' & Hr')%at_boundary_rest). split; [done|]. by split_and!.
    - destruct Ho as [[-> (Hwf & Hi' & Hw')%next_packet_waiting]|[-> [Hwf Hf']%stuck_free]]; split; try done; [by left|by right]. }
  destruct Hout as [Hwf Hl]. split.
  - destruct Hn as [H1 H2 H3 H4 H5]. rewrite <- (nf_sockets _ _ _ Hf) in H1, H2, H3. split; try done.
    pose proof (nf_sockets _ _ _ Hf) as Es. destruct n' as [b' s' k']. simpl in *. apply (wsafe_input n); [done..|by rewrite Es|done].
  - split; [done|]. split; [|by intros t Ht; apply Hf]. intros t hs dat Ht Ht0. apply (kept_others s); [apply Hf|done..].
Qed.

(** * The next ready socket *)

(** The position of the scan may move as well. *)
Record net_moves n n' : Prop := {
  mo_input : same_input (n_buf n) (n_buf n');
  mo_in : forall s, k_in s (n_k n') = k_in s (n_k n);
  mo_list : clientsds (n_s n') = clientsds (n_s n);
  mo_safe : net_safe n -> net_safe n' }.

#[export] Instance net_moves_refl : Reflexive net_moves.
Proof. by split. Qed.
#[export] Instance net_moves_trans : Transitive net_moves.
Proof.
  intros n1 n2 n3 [[] A2 A3 A4] [[] B2 B3 B4]. split; [split; congruence| |congruence|auto]. intros s. by rewrite B2, A2.
Qed.
Lemma net_step_moves n n' : net_step n n' -> net_moves n n'.
Proof. intros St. split; [by apply net_step_input|apply St|apply St|by apply net_step_safe]. Qed.

Lemma net_moves_kept n n' s hs dat : net_moves n n' -> kept (n_buf n) s hs dat -> kept (n_buf n') s hs dat.
Proof. intros M. by apply same_input_kept, M. Qed.
Lemma net_moves_idle n n' : net_moves n n' -> idle (n_buf n) -> idle (n_buf n').
Proof. intros [[E1 E2 _] _ _ _] (d & Hd & H0). exists d. by rewrite E1, E2. Qed.
Lemma net_moves_free n n' s : net_moves n n' -> free_for (n_buf n) s -> free_for (n_buf n') s.
Proof. intros [[E1 E2 _] _ _ _] (d & Hd & H0). exists d. by rewrite E1, E2. Qed.

(** Setting fields that are not part of the invariant. *)
Lemma net_moves_sockets n s' :
  clientsds s' = clientsds (n_s n) -> (forall a, cur_clientsds s' = Some a -> a ∈ LSpec.addrs (clientsds (n_s n))) ->
  write_pending s' = write_pending (n_s n) -> net_moves n (Net (n_buf n) s' (n_k n)).
Proof.
  intros E1 E2 E3. split; [done|done|done|]. intros [H1 H2 H3 H4 H5]. split; simpl; rewrite ?E1; try done. by eapply wsafe_input.
Qed.

Lemma isReady_moves sock rs ws n :
  exists b n', isReady sock rs ws n = Some (b, n') /\ net_moves n n' /\ clientsds (n_s n') = clientsds (n_s n) /\
    cur_clientsds (n_s n') = cur_clientsds (n_s n).
Proof.
  unfold isReady, find_int. unfold sockets at 1, zoom at 1. unfold mbind at 1, M_bind.
  destruct (LSpec.find_item (intcompare sock) (connect_pending (n_s n))) as [r l].
  set (n1 := Net (n_buf n) (set_connect_pending l (n_s n)) (n_k n)).
  assert (M1 : net_safe n -> net_moves n n1) by (intros Hn; apply net_moves_sockets; try done; apply Hn).
  assert (M1' : net_moves n n1) by (split; [done|done|done|intros Hn; by apply M1]).
  destruct (bool_decide (is_Some r) && bool_decide (sock ∈ ws)).
  - unfold remove_int, sockets, zoom, mbind, M_bind. destruct (LSpec.unlink _ _) as [r2 l2]. eexists _, _. split; [reflexivity|].
    split; [|done]. etrans; [exact M1'|]. split; [done|done|done|]. intros [H1 H2 H3 H4 H5]. split; try done. by eapply wsafe_input.
  - destruct (bool_decide (sock ∈ rs) && bool_decide (sock ∈ ws)); [|by eexists _, n1].
    destruct (noPending_safe n1 sock) as (b & n' & E & St & _). exists b, n'. split; [exact E|].
    split; [etrans; [exact M1'|by apply net_step_moves]|]. destruct St as [[E1 E2 _ _ _] _ _]. by rewrite E1, E2.
Qed.

Lemma scan_ready_moves : forall fuel n,
  net_safe n ->
  match cur_clientsds (n_s n) with
  | None => True
  | Some a => exists k1 c k2, items (clientsds (n_s n)) = k1 ++ (a, c) :: k2 /\ (length k2 < fuel)%nat
  end ->
  exists n', scan_ready fuel n = Some (tt, n') /\ net_moves n n' /\ clientsds (n_s n') = clientsds (n_s n).
Proof.
  induction fuel as [|fuel IH]; intros n Hn Hpos.
  { simpl. unfold gets, mbind, M_bind. destruct (cur_clientsds (n_s n)) as [a|]; [|by exists n].
    destruct Hpos as (k1 & c & k2 & _ & Hl). lia. }
  cbn [scan_ready]. erewrite bind_step by reflexivity. destruct (cur_clientsds (n_s n)) as [a|] eqn:Ec; [|by exists n].
  destruct Hpos as (k1 & c & k2 & Ei & Hl).
  erewrite bind_step; [|unfold load; by rewrite (LSpec.elem_content_mid _ _ _ _ _ (sf_list _ Hn) Ei)].
  destruct (isReady_moves c.2 (rset (n_s n)) (wset (n_s n)) n) as (b & n1 & E1 & M1 & D1 & U1). mstep E1.
  destruct b; [by exists n1|].
  erewrite bind_step; [|unfold load; by rewrite (LSpec.next_element_mid _ k1 a c k2 (sf_list _ Hn) Ei)].
  erewrite bind_step by reflexivity. pose proof (mo_safe _ _ M1 Hn) as Hn1.
  set (n2 := Net (n_buf n1) (set_cur_clientsds (LSpec.hd_addr k2 None) (n_s n1)) (n_k n1)).
  assert (M2 : net_moves n1 n2).
  { apply net_moves_sockets; [done| |done]. simpl. rewrite D1. intros b Hb. unfold LSpec.addrs. rewrite Ei, fmap_app, fmap_cons.
    apply LSpec.hd_addr_in in Hb. set_solver. }
  destruct (IH n2) as (n' & E' & M' & D').
  { by apply M2. }
  { simpl. destruct k2 as [|[b x] k2]; [done|]. simpl. exists (k1 ++ [(a, c)]), x, k2.
    rewrite D1, Ei, <- app_assoc. split; [done|]. simpl in Hl. lia. }
  exists n'. split; [exact E'|]. split; [by etrans; [exact M1|etrans]|]. by rewrite D', <- D1.
Qed.

Section ready.
Context {W : Type} (getn : W -> net K) (setn : net K -> W -> W).
Hypothesis get_set : forall n w, getn (setn n w) = n.
Hypothesis set_set : forall n n' w, setn n (setn n' w) = setn n w.
Variable writecomplete : option (Z -> M W unit).
Variable J : W -> Prop.
Hypothesis J_safe : forall w, J w -> net_safe (getn w).
Hypothesis J_moves : forall w n', J w -> net_moves (getn w) n' -> J (setn n' w).
Variable len : nat.
Hypothesis J_len : forall w, J w -> length (items (clientsds (n_s (getn w)))) = len.
Hypothesis J_callback : forall f s w, writecomplete = Some f -> J w ->
  exists w', f s w = Some (tt, w') /\ J w' /\ items (write_pending (n_s (getn w'))) = items (write_pending (n_s (getn w))).

Lemma continueWrites_safe pwset w :
  J w -> exists w', Socket_continueWrites getn setn writecomplete pwset w = Some (0, w') /\ J w'.
Proof.
  intros Jw.
  destruct (continueWrites_total getn setn get_set writecomplete pwset (fun _ => J)) with (w := w)
    as (w' & S' & E & Jw' & _); [..|by exists w'].
  - intros _ u Ju. by apply J_moves.
  - intros _ u Ju. split; apply (sf_w _ (J_safe u Ju)).
  - intros _ u k1 a c k2 Ju Ei _. destruct (continueWrite_safe (getn u) c.2 (sf_w _ (J_safe u Ju))) as (rc & n' & E & St & Es).
    { unfold wp_socks. rewrite (LSpec.contents_mid _ _ _ _ _ Ei). set_solver. }
    exists rc, n'. split; [done|]. split; [done|].
    assert (J1 : J (setn n' u)) by (by apply J_moves, net_step_moves).
    destruct (rc =? 0); [done|]. intros n1 n2. rewrite !set_set. apply J_moves; [done|].
    pose proof (J_safe _ J1) as Hs1. rewrite get_set in Hs1.
    apply net_moves_trans with n'; [by apply net_step_moves|].
    apply net_step_moves. apply (drop_pending_safe _ k1 a c k2); [apply (sf_w _ Hs1)|by rewrite Es].
  - intros _. exact J_callback.
  - done.
Qed.

Lemma nets_moves {A} (m : M (net K) A) w a n' :
  J w -> m (getn w) = Some (a, n') -> net_moves (getn w) n' -> exists w', nets getn setn m w = Some (a, w') /\ J w' /\ getn w' = n'.
Proof.
  intros Jw E M. exists (setn n' w). split; [unfold nets, zoom; by rewrite E|]. split; [by apply J_moves|apply get_set].
Qed.

(** The scan starts at a socket of the list. *)
Lemma scan_safe w :
  J w -> exists w', nets getn setn (scan_ready len) w = Some (tt, w') /\ J w'.
Proof.
  intros Jw. pose proof (J_safe w Jw) as Hn.
  destruct (scan_ready_moves len (getn w) Hn) as (n' & E & M & _).
  { destruct (cur_clientsds (n_s (getn w))) as [a|] eqn:Ec; [|done].
    destruct (LSpec.addrs_split _ _ (sf_cur _ Hn a Ec)) as (k1 & c & k2 & Ei). exists k1, c, k2. split; [done|].
    rewrite <- (J_len w Jw), Ei, length_app. simpl. lia. }
  destruct (nets_moves _ w _ _ Jw E M) as (w' & E' & Jw' & Eg). by exists w'.
Qed.

(** The socket found, and the position behind it. *)
Lemma finish_safe w :
  J w -> exists sock w', nets getn setn (s ← gets n_s;
      match cur_clientsds s with
      | None => mret 0
      | Some a =>
          c ← load (fun _ => LSpec.elem_content (clientsds s) a);
          nx ← load (fun _ => LSpec.next_element (clientsds s) (Some a));
          sockets (modify (set_cur_clientsds nx));;
          mret (c : icell).2
      end) w = Some (sock, w') /\ J w'.
Proof.
  intros Jw. pose proof (J_safe w Jw) as Hn. destruct (cur_clientsds (n_s (getn w))) as [a|] eqn:Ec.
  - destruct (LSpec.addrs_split _ _ (sf_cur _ Hn a Ec)) as (k1 & c & k2 & Ei).
    eassert (E : _ (getn w) = Some (c.2, Net (n_buf (getn w)) (set_cur_clientsds (LSpec.hd_addr k2 None) (n_s (getn w))) (n_k (getn w)))).
    2: { destruct (nets_moves _ w _ _ Jw E) as (w' & E' & Jw' & _); [|by exists c.2, w'].
         apply net_moves_sockets; [done| |done]. intros b Hb. simpl in Hb. unfold LSpec.addrs. rewrite Ei, fmap_app, fmap_cons.
         apply LSpec.hd_addr_in in Hb. set_solver. }
    cbv beta. erewrite bind_step by reflexivity. rewrite Ec.
    erewrite bind_step; [|unfold load; by rewrite (LSpec.elem_content_mid _ _ _ _ _ (sf_list _ Hn) Ei)].
    erewrite bind_step; [|unfold load; by rewrite (LSpec.next_element_mid _ k1 a c k2 (sf_list _ Hn) Ei)]. reflexivity.
  - destruct (nets_moves (s ← gets n_s; mret (M := M (net K)) 0) w 0 (getn w) Jw) as (w' & E' & Jw' & _); [done|done|].
    exists 0, w'. split; [|done]. rewrite <- E'. unfold nets, zoom, gets, mbind, M_bind. by rewrite Ec.
Qed.

Lemma getReadySocket_safe more tp w :
  J w -> exists sock w', Socket_getReadySocket getn setn writecomplete more tp w = Some (sock, w') /\ J w'.
Proof.
  intros Jw. unfold Socket_getReadySocket. erewrite bind_step by reflexivity.
  destruct (cnt (clientsds (n_s (getn w))) =? 0); [by exists 0, w|]. cbv zeta.
  rewrite (J_len w Jw). destruct (scan_safe w Jw) as (w1 & E1 & J1). mstep E1. erewrite bind_step by reflexivity.
  destruct (cur_clientsds (n_s (getn w1))); [by apply finish_safe|].
  assert (Hsel : forall m rs ws t u, J u -> exists r u', nets getn setn (sys (k_select m rs ws t)) u = Some (r, u') /\ J u' /\
    n_s (getn u') = n_s (getn u)).
  { intros m rs ws t u Ju. destruct (sys (k_select m rs ws t) (getn u)) as [[r n']|] eqn:E.
    - assert (St : net_step (getn u) n') by (by eapply net_step_sys; [|exact E]; intros; apply k_select_in).
      destruct (nets_moves _ u _ _ Ju E (net_step_moves _ _ St)) as (u' & E' & J' & Eg). exists r, u'. split; [done|].
      split; [done|]. rewrite Eg. unfold sys in E. destruct (k_select m rs ws t (n_k (getn u))). by injection E as _ <-.
    - unfold sys in E. by destruct (k_select m rs ws t (n_k (getn u))). }
  assert (Hset : forall (f : Sockets -> Sockets) u, J u ->
    (forall s, clientsds (f s) = clientsds s /\ write_pending (f s) = write_pending s) ->
    (forall a, cur_clientsds (f (n_s (getn u))) = Some a -> a ∈ LSpec.addrs (clientsds (n_s (getn u)))) ->
    exists u', nets getn setn (sockets (modify f)) u = Some (tt, u') /\ J u' /\ n_s (getn u') = f (n_s (getn u))).
  { intros f u Ju Hf Hc. destruct (Hf (n_s (getn u))) as [F1 F2].
    destruct (nets_moves (sockets (modify f)) u tt (Net (n_buf (getn u)) (f (n_s (getn u))) (n_k (getn u))) Ju eq_refl)
      as (u' & E' & J' & Eg); [by apply net_moves_sockets|]. exists u'. by rewrite Eg. }
  destruct (Hsel (maxfdp1 (n_s (getn w1))) (rset_saved (n_s (getn w1))) (pending_wset (n_s (getn w1)))
    (if more then 0 else match tp with Some t => t | None => 1000000 end) w1 J1) as ([[rc rs] pwset] & w2 & E2 & J2 & D2).
  mstep E2. cbv beta iota.
  destruct (Hset (set_rset rs) w2 J2 ltac:(done)) as (w3 & E3 & J3 & D3).
  { intros a. apply (sf_cur _ (J_safe w2 J2)). }
  mstep E3. destruct rc as [errno|rc]; [by exists SOCKET_ERROR, w3|].
  destruct (continueWrites_safe pwset w3 J3) as (w4 & E4 & J4). mstep E4. change (0 =? SOCKET_ERROR) with false. cbv iota.
  erewrite bind_step by reflexivity.
  destruct (Hsel (maxfdp1 (n_s (getn w4))) ∅ (rset_saved (n_s (getn w4))) 0 w4 J4) as ([[rc1 rs1] ws1] & w5 & E5 & J5 & D5).
  mstep E5. cbv beta iota. destruct (Hset (set_wset ws1) w5 J5 ltac:(done)) as (w6 & E6 & J6 & D6).
  { intros a. apply (sf_cur _ (J_safe w5 J5)). }
  mstep E6. destruct rc1 as [errno|rc1]; [by exists SOCKET_ERROR, w6|].
  destruct ((rc =? 0) && (rc1 =? 0)); [by exists 0, w6|].
  destruct (Hset (fun s => set_cur_clientsds (fst <$> head (items (clientsds s))) s) w6 J6 ltac:(done)) as (w7 & E7 & J7 & D7).
  { intros a. simpl. unfold LSpec.addrs. destruct (items (clientsds (n_s (getn w6)))) as [|[b x] k]; [done|]. simpl. intros [= <-]. set_solver. }
  change (fun s : Sockets => Some (tt, set_cur_clientsds (fst <$> head (items (clientsds s))) s))
    with (modify (fun s : Sockets => set_cur_clientsds (fst <$> head (items (clientsds s))) s)).
  mstep E7. destruct (scan_safe w7 J7) as (w8 & E8 & J8). mstep E8. by apply finish_safe.
Qed.
End ready.
End safety.
End Wire.
