(* ===== verification/World.v ===== *)
(** The state of the client library: the structures of [lib/Clients.h],
    [lib/MQTTProtocol.h] and [lib/MQTTPersistence.h], the module variables
    [state] and [bstate], and the interface of a persistence implementation
    ([lib/MQTTClientPersistence.h]).

    Structures that the code shares through pointers (clients, messages,
    publications, queue entries) live in stores indexed by their addresses;
    lists hold addresses.  The strings and payloads that a structure owns are
    part of its value. *)
From S2P Require Import Prelude ListSpec Packet SocketBuffer Socket.

Module World.
Import Packet SocketBuffer Socket.

(** * Persistence implementations *)

(** The function pointers of [MQTTClient_persistence], over the state [PS] that
    the implementation keeps; a handle is an integer.  Each returns its code
    (0 is success) with its results. *)
Record MQTTClient_persistence (PS : Type) := MkPersistence {
  popen : list byte -> list byte -> PS -> (Z * Z) * PS;      (* code and handle *)
  pclose : Z -> PS -> Z * PS;
  pput : Z -> string -> list (list byte) -> PS -> Z * PS;
  pget : Z -> string -> PS -> (Z * list byte) * PS;
  premove : Z -> string -> PS -> Z * PS;
  pkeys : Z -> PS -> (Z * list string) * PS;
  pclear : Z -> PS -> Z * PS;
  pcontainskey : Z -> string -> PS -> Z * PS
}.
Arguments MkPersistence {PS}.
Arguments popen {PS}. Arguments pclose {PS}. Arguments pput {PS}. Arguments pget {PS}.
Arguments premove {PS}. Arguments pkeys {PS}. Arguments pclear {PS}. Arguments pcontainskey {PS}.

(** * Structures *)

Record networkHandles := MkNet { nh_socket : Z; lastSent : Z; lastReceived : Z }.

Record Publications := MkPub {
  p_topic : list byte; p_topiclen : Z; p_payload : list byte; p_payloadlen : Z; p_refcount : Z }.

Record Messages := MkMsg {
  m_qos : Z; m_retain : Z; m_msgid : Z; m_publish : loc; m_lastTouch : Z;
  m_nextMessageType : Z; m_len : Z }.

(** [MQTTClient_message] and the queue entry; [qe_msg] is owned by the entry. *)
Record MQTTClient_message := MkMessage {
  mm_payloadlen : Z; mm_payload : list byte; mm_qos : Z; mm_retained : Z; mm_dup : Z; mm_msgid : Z }.
Record qEntry := MkEntry {
  qe_msg : MQTTClient_message; qe_topicName : list byte; qe_topicLen : Z; qe_seqno : Z }.

Record Clients (PS : Type) := MkClient {
  c_data : connect_data;           (* clientID, username, password, cleansession, keepAliveInterval, will *)
  c_connected : bool; c_good : bool; c_ping_outstanding : bool; c_connect_state : Z;
  c_net : networkHandles;
  c_msgID : Z; c_retryInterval : Z; c_maxInflightMessages : Z;
  c_inboundMsgs : clist loc; c_outboundMsgs : clist loc; c_messageQueue : clist loc;
  c_qentry_seqno : Z; c_phandle : Z; c_persistence : option (MQTTClient_persistence PS) }.
Arguments MkClient {PS}.
Arguments c_data {PS}. Arguments c_connected {PS}. Arguments c_good {PS}.
Arguments c_ping_outstanding {PS}. Arguments c_connect_state {PS}. Arguments c_net {PS}.
Arguments c_msgID {PS}. Arguments c_retryInterval {PS}. Arguments c_maxInflightMessages {PS}.
Arguments c_inboundMsgs {PS}. Arguments c_outboundMsgs {PS}. Arguments c_messageQueue {PS}.
Arguments c_qentry_seqno {PS}. Arguments c_phandle {PS}. Arguments c_persistence {PS}.

Record pending_write := MkPW { pwr_socket : Z; pwr_p : loc }.

(** The handle of the application ([MQTTClients] of [lib/MQTTClient.c]): which
    callbacks are set, and the server's address (a C string, without NUL).  A
    handle has the address of its client [m->c]. *)
Record MQTTClients := MkHandle { m_cl : bool; m_ma : bool; m_dc : bool; m_serverURI : list byte }.

(** What the application sees through its callbacks. *)
Inductive event := DeliveryComplete (client : loc) (msgid : Z) | ConnectionLost (client : loc).

(** The whole state: network, persistence, [bstate->clients], the allocated
    structures and the protocol's [state]. *)
Record world (K PS : Type) := MkWorld {
  w_net : net K;
  w_ps : PS;
  w_clients : clist loc;               (* bstate->clients *)
  w_cl : gmap loc (Clients PS);
  w_handles : clist loc;               (* handles, by client *)
  w_ms : gmap loc MQTTClients;
  w_msgs : gmap loc Messages;
  w_pubs : gmap loc Publications;
  w_qes : gmap loc qEntry;
  w_publications : clist loc;          (* state.publications *)
  w_pending : clist (loc * pending_write);  (* state.pending_writes, with the cells' addresses *)
  w_msgs_received : Z;
  w_msgs_sent : Z;
  w_last : Z;                          (* the static [last] of MQTTClient_retry *)
  w_events : list event;
  w_initialized : bool }.                 (* the static [initialized] *)
Arguments MkWorld {K PS}.
Arguments w_net {K PS}. Arguments w_ps {K PS}. Arguments w_clients {K PS}. Arguments w_cl {K PS}. Arguments w_handles {K PS}. Arguments w_ms {K PS}.
Arguments w_msgs {K PS}. Arguments w_pubs {K PS}. Arguments w_qes {K PS}. Arguments w_publications {K PS}.
Arguments w_pending {K PS}. Arguments w_msgs_received {K PS}. Arguments w_msgs_sent {K PS}.
Arguments w_last {K PS}. Arguments w_events {K PS}. Arguments w_initialized {K PS}.

(** * Updates *)

Section updates.
Context {K PS : Type}.
Implicit Types (w : world K PS) (c : Clients PS).

Definition set_net x w : world K PS := MkWorld x (w_ps w) (w_clients w) (w_cl w) (w_handles w) (w_ms w) (w_msgs w) (w_pubs w) (w_qes w)
  (w_publications w) (w_pending w) (w_msgs_received w) (w_msgs_sent w) (w_last w) (w_events w) (w_initialized w).
Definition set_ps x w : world K PS := MkWorld (w_net w) x (w_clients w) (w_cl w) (w_handles w) (w_ms w) (w_msgs w) (w_pubs w) (w_qes w)
  (w_publications w) (w_pending w) (w_msgs_received w) (w_msgs_sent w) (w_last w) (w_events w) (w_initialized w).
Definition set_clients x w : world K PS := MkWorld (w_net w) (w_ps w) x (w_cl w) (w_handles w) (w_ms w) (w_msgs w) (w_pubs w) (w_qes w)
  (w_publications w) (w_pending w) (w_msgs_received w) (w_msgs_sent w) (w_last w) (w_events w) (w_initialized w).
Definition set_cl x w : world K PS := MkWorld (w_net w) (w_ps w) (w_clients w) x (w_handles w) (w_ms w) (w_msgs w) (w_pubs w) (w_qes w)
  (w_publications w) (w_pending w) (w_msgs_received w) (w_msgs_sent w) (w_last w) (w_events w) (w_initialized w).
Definition set_handles x w : world K PS := MkWorld (w_net w) (w_ps w) (w_clients w) (w_cl w) x (w_ms w)
  (w_msgs w) (w_pubs w) (w_qes w) (w_publications w) (w_pending w) (w_msgs_received w) (w_msgs_sent w)
  (w_last w) (w_events w) (w_initialized w).
Definition set_msgs x w : world K PS := MkWorld (w_net w) (w_ps w) (w_clients w) (w_cl w) (w_handles w) (w_ms w) x (w_pubs w) (w_qes w)
  (w_publications w) (w_pending w) (w_msgs_received w) (w_msgs_sent w) (w_last w) (w_events w) (w_initialized w).
Definition set_pubs x w : world K PS := MkWorld (w_net w) (w_ps w) (w_clients w) (w_cl w) (w_handles w) (w_ms w) (w_msgs w) x (w_qes w)
  (w_publications w) (w_pending w) (w_msgs_received w) (w_msgs_sent w) (w_last w) (w_events w) (w_initialized w).
Definition set_qes x w : world K PS := MkWorld (w_net w) (w_ps w) (w_clients w) (w_cl w) (w_handles w) (w_ms w) (w_msgs w) (w_pubs w) x
  (w_publications w) (w_pending w) (w_msgs_received w) (w_msgs_sent w) (w_last w) (w_events w) (w_initialized w).
Definition set_publications x w : world K PS := MkWorld (w_net w) (w_ps w) (w_clients w) (w_cl w) (w_handles w) (w_ms w) (w_msgs w) (w_pubs w)
  (w_qes w) x (w_pending w) (w_msgs_received w) (w_msgs_sent w) (w_last w) (w_events w) (w_initialized w).
Definition set_pending x w : world K PS := MkWorld (w_net w) (w_ps w) (w_clients w) (w_cl w) (w_handles w) (w_ms w) (w_msgs w) (w_pubs w)
  (w_qes w) (w_publications w) x (w_msgs_received w) (w_msgs_sent w) (w_last w) (w_events w) (w_initialized w).
Definition add_received n w : world K PS := MkWorld (w_net w) (w_ps w) (w_clients w) (w_cl w) (w_handles w) (w_ms w) (w_msgs w) (w_pubs w)
  (w_qes w) (w_publications w) (w_pending w) (uint_wrap (w_msgs_received w + n)) (w_msgs_sent w) (w_last w)
  (w_events w) (w_initialized w).
Definition add_sent n w : world K PS := MkWorld (w_net w) (w_ps w) (w_clients w) (w_cl w) (w_handles w) (w_ms w) (w_msgs w) (w_pubs w)
  (w_qes w) (w_publications w) (w_pending w) (w_msgs_received w) (uint_wrap (w_msgs_sent w + n)) (w_last w)
  (w_events w) (w_initialized w).
Definition set_last x w : world K PS := MkWorld (w_net w) (w_ps w) (w_clients w) (w_cl w) (w_handles w) (w_ms w) (w_msgs w) (w_pubs w)
  (w_qes w) (w_publications w) (w_pending w) (w_msgs_received w) (w_msgs_sent w) x (w_events w) (w_initialized w).
Definition add_event e w : world K PS := MkWorld (w_net w) (w_ps w) (w_clients w) (w_cl w) (w_handles w) (w_ms w) (w_msgs w) (w_pubs w)
  (w_qes w) (w_publications w) (w_pending w) (w_msgs_received w) (w_msgs_sent w) (w_last w) (w_events w ++ [e]) (w_initialized w).
Definition set_initialized x w : world K PS := MkWorld (w_net w) (w_ps w) (w_clients w) (w_cl w) (w_handles w) (w_ms w) (w_msgs w)
  (w_pubs w) (w_qes w) (w_publications w) (w_pending w) (w_msgs_received w) (w_msgs_sent w) (w_last w) (w_events w) x.
Definition set_ms x w : world K PS := MkWorld (w_net w) (w_ps w) (w_clients w) (w_cl w) (w_handles w) x (w_msgs w) (w_pubs w)
  (w_qes w) (w_publications w) (w_pending w) (w_msgs_received w) (w_msgs_sent w) (w_last w) (w_events w) (w_initialized w).

Definition set_connected x c : Clients PS := MkClient (c_data c) x (c_good c) (c_ping_outstanding c) (c_connect_state c)
  (c_net c) (c_msgID c) (c_retryInterval c) (c_maxInflightMessages c) (c_inboundMsgs c) (c_outboundMsgs c)
  (c_messageQueue c) (c_qentry_seqno c) (c_phandle c) (c_persistence c).
Definition set_good x c : Clients PS := MkClient (c_data c) (c_connected c) x (c_ping_outstanding c) (c_connect_state c)
  (c_net c) (c_msgID c) (c_retryInterval c) (c_maxInflightMessages c) (c_inboundMsgs c) (c_outboundMsgs c)
  (c_messageQueue c) (c_qentry_seqno c) (c_phandle c) (c_persistence c).
Definition set_ping x c : Clients PS := MkClient (c_data c) (c_connected c) (c_good c) x (c_connect_state c)
  (c_net c) (c_msgID c) (c_retryInterval c) (c_maxInflightMessages c) (c_inboundMsgs c) (c_outboundMsgs c)
  (c_messageQueue c) (c_qentry_seqno c) (c_phandle c) (c_persistence c).
Definition set_connect_state x c : Clients PS := MkClient (c_data c) (c_connected c) (c_good c) (c_ping_outstanding c) x
  (c_net c) (c_msgID c) (c_retryInterval c) (c_maxInflightMessages c) (c_inboundMsgs c) (c_outboundMsgs c)
  (c_messageQueue c) (c_qentry_seqno c) (c_phandle c) (c_persistence c).
Definition set_cnet x c : Clients PS := MkClient (c_data c) (c_connected c) (c_good c) (c_ping_outstanding c)
  (c_connect_state c) x (c_msgID c) (c_retryInterval c) (c_maxInflightMessages c) (c_inboundMsgs c)
  (c_outboundMsgs c) (c_messageQueue c) (c_qentry_seqno c) (c_phandle c) (c_persistence c).
Definition set_msgID x c : Clients PS := MkClient (c_data c) (c_connected c) (c_good c) (c_ping_outstanding c)
  (c_connect_state c) (c_net c) x (c_retryInterval c) (c_maxInflightMessages c) (c_inboundMsgs c)
  (c_outboundMsgs c) (c_messageQueue c) (c_qentry_seqno c) (c_phandle c) (c_persistence c).
Definition set_inbound x c : Clients PS := MkClient (c_data c) (c_connected c) (c_good c) (c_ping_outstanding c)
  (c_connect_state c) (c_net c) (c_msgID c) (c_retryInterval c) (c_maxInflightMessages c) x
  (c_outboundMsgs c) (c_messageQueue c) (c_qentry_seqno c) (c_phandle c) (c_persistence c).
Definition set_outbound x c : Clients PS := MkClient (c_data c) (c_connected c) (c_good c) (c_ping_outstanding c)
  (c_connect_state c) (c_net c) (c_msgID c) (c_retryInterval c) (c_maxInflightMessages c) (c_inboundMsgs c)
  x (c_messageQueue c) (c_qentry_seqno c) (c_phandle c) (c_persistence c).
Definition set_queue x c : Clients PS := MkClient (c_data c) (c_connected c) (c_good c) (c_ping_outstanding c)
  (c_connect_state c) (c_net c) (c_msgID c) (c_retryInterval c) (c_maxInflightMessages c) (c_inboundMsgs c)
  (c_outboundMsgs c) x (c_qentry_seqno c) (c_phandle c) (c_persistence c).
Definition set_seqno x c : Clients PS := MkClient (c_data c) (c_connected c) (c_good c) (c_ping_outstanding c)
  (c_connect_state c) (c_net c) (c_msgID c) (c_retryInterval c) (c_maxInflightMessages c) (c_inboundMsgs c)
  (c_outboundMsgs c) (c_messageQueue c) x (c_phandle c) (c_persistence c).
Definition set_persistence h x c : Clients PS := MkClient (c_data c) (c_connected c) (c_good c) (c_ping_outstanding c)
  (c_connect_state c) (c_net c) (c_msgID c) (c_retryInterval c) (c_maxInflightMessages c) (c_inboundMsgs c)
  (c_outboundMsgs c) (c_messageQueue c) (c_qentry_seqno c) h x.

Definition set_data x c : Clients PS := MkClient x (c_connected c) (c_good c) (c_ping_outstanding c) (c_connect_state c)
  (c_net c) (c_msgID c) (c_retryInterval c) (c_maxInflightMessages c) (c_inboundMsgs c) (c_outboundMsgs c)
  (c_messageQueue c) (c_qentry_seqno c) (c_phandle c) (c_persistence c).
Definition set_limits retry inflight c : Clients PS := MkClient (c_data c) (c_connected c) (c_good c) (c_ping_outstanding c)
  (c_connect_state c) (c_net c) (c_msgID c) retry inflight (c_inboundMsgs c) (c_outboundMsgs c)
  (c_messageQueue c) (c_qentry_seqno c) (c_phandle c) (c_persistence c).

Definition set_socket x (n : networkHandles) := MkNet x (lastSent n) (lastReceived n).
Definition set_lastSent x (n : networkHandles) := MkNet (nh_socket n) x (lastReceived n).
Definition set_lastReceived x (n : networkHandles) := MkNet (nh_socket n) (lastSent n) x.

Definition set_refcount x p := MkPub (p_topic p) (p_topiclen p) (p_payload p) (p_payloadlen p) x.
Definition set_lastTouch x m := MkMsg (m_qos m) (m_retain m) (m_msgid m) (m_publish m) x (m_nextMessageType m) (m_len m).
Definition set_nextMessageType x m :=
  MkMsg (m_qos m) (m_retain m) (m_msgid m) (m_publish m) (m_lastTouch m) x (m_len m).

(** * Access *)

Abbreviation P := (M (world K PS)).

(** A step of the network. *)
Definition onet {A} (m : M (net K) A) : P A := zoom w_net set_net m.
(** A call of the persistence implementation. *)
Definition ops {A} (f : PS -> A * PS) : P A := fun w =>
  let '(a, s) := f (w_ps w) in Some (a, set_ps s w).

Definition client (c : loc) : P (Clients PS) := load (fun w => w_cl w !! c).
Definition upd_client (c : loc) (f : Clients PS -> Clients PS) : P unit :=
  fun w => x ← w_cl w !! c; Some (tt, set_cl (<[c := f x]> (w_cl w)) w).
Definition message (m : loc) : P Messages := load (fun w => w_msgs w !! m).
Definition upd_message (m : loc) (f : Messages -> Messages) : P unit :=
  fun w => x ← w_msgs w !! m; Some (tt, set_msgs (<[m := f x]> (w_msgs w)) w).
Definition publication (p : loc) : P Publications := load (fun w => w_pubs w !! p).
Definition upd_publication (p : loc) (f : Publications -> Publications) : P unit :=
  fun w => x ← w_pubs w !! p; Some (tt, set_pubs (<[p := f x]> (w_pubs w)) w).
Definition entry (q : loc) : P qEntry := load (fun w => w_qes w !! q).

(** [malloc] of a structure, and [free]; freeing what is not allocated is
    undefined. *)
Definition new_message (x : Messages) : P loc := fun w =>
  let m := fresh (dom (w_msgs w)) in Some (m, set_msgs (<[m := x]> (w_msgs w)) w).
Definition free_message (m : loc) : P unit :=
  fun w => _ ← w_msgs w !! m; Some (tt, set_msgs (delete m (w_msgs w)) w).
Definition new_publication (x : Publications) : P loc := fun w =>
  let p := fresh (dom (w_pubs w)) in Some (p, set_pubs (<[p := x]> (w_pubs w)) w).
Definition free_publication (p : loc) : P unit :=
  fun w => _ ← w_pubs w !! p; Some (tt, set_pubs (delete p (w_pubs w)) w).
Definition new_entry (x : qEntry) : P loc := fun w =>
  let q := fresh (dom (w_qes w)) in Some (q, set_qes (<[q := x]> (w_qes w)) w).
Definition free_entry (q : loc) : P unit :=
  fun w => _ ← w_qes w !! q; Some (tt, set_qes (delete q (w_qes w)) w).

(** [clientSocketCompare], on the client an element points to. *)
Definition clientSocketCompare (w : world K PS) (socket : Z) (c : loc) : bool :=
  match w_cl w !! c with Some x => nh_socket (c_net x) =? socket | None => false end.

(** [(Clients* )(ListFindItem(bstate->clients, &sock, clientSocketCompare)->content)]:
    undefined when there is no such client. *)
Definition find_client (socket : Z) : P loc := fun w =>
  let '(r, l) := LSpec.find_item (clientSocketCompare w socket) (w_clients w) in
  a ← r; c ← LSpec.elem_content l a; Some (c, set_clients l w).

(** [messageIDCompare], on the message an element points to. *)
Definition messageIDCompare (w : world K PS) (msgid : Z) (m : loc) : bool :=
  match w_msgs w !! m with Some x => m_msgid x =? msgid | None => false end.

(** [ListFindItem(client->list, &msgid, messageIDCompare)] on a list of the
    client: the message found, which becomes current. *)
Definition find_msg (get : Clients PS -> clist loc) (set : clist loc -> Clients PS -> Clients PS)
    (c : loc) (msgid : Z) : P (option loc) := fun w =>
  x ← w_cl w !! c;
  let '(r, l) := LSpec.find_item (messageIDCompare w msgid) (get x) in
  Some (match r with Some a => LSpec.elem_content l a | None => None end,
        set_cl (<[c := set l x]> (w_cl w)) w).

(** [ListRemove(client->list, m)], without the content's storage. *)
Definition remove_elem (get : Clients PS -> clist loc) (set : clist loc -> Clients PS -> Clients PS)
    (c m : loc) : P unit :=
  upd_client c (fun x => set (LSpec.unlink (fun y => bool_decide (y = m)) (get x)).2 x).
End updates.
End World.
