(* ===== verification/Persistence.v ===== *)
(** Model of [lib/MQTTPersistence.c]: the keys and records under which messages
    are persisted, the packets and queue entries restored from records, and the
    order of restored messages.  (Restoring whole sessions is in [Restore].)

    Records are the concatenation of the buffers handed to the implementation.
    A key that does not fit its nine-byte buffer is undefined behaviour. *)
From Stdlib Require Import Sorted.
From S2P Require Import Prelude ListSpec Packet SocketBuffer Socket World.

Module Persistence.
Import Packet SocketBuffer Socket World.

(** * Keys *)

Definition PERSISTENCE_PUBLISH_SENT : string := "s-".
Definition PERSISTENCE_PUBREL : string := "sc-".
Definition PERSISTENCE_PUBLISH_RECEIVED : string := "r-".
Definition PERSISTENCE_COMMAND_KEY : string := "c-".
Definition PERSISTENCE_QUEUE_KEY : string := "q-".
(** [MESSAGE_FILENAME_LENGTH] and [PERSISTENCE_MAX_KEY_LENGTH]. *)
Definition MAX_KEY_LENGTH : Z := 8.
Definition MQTTCLIENT_PERSISTENCE_ERROR : Z := -2.
Definition MAX_MSG_ID : Z := 65535.

(** [sprintf(key, "%s%d", stem, n)] into a buffer of [MAX_KEY_LENGTH + 1]. *)
Definition sprintf_key (stem : string) (n : Z) : option string :=
  let key := (stem +:+ pretty n)%string in
  if MAX_KEY_LENGTH <? Z.of_nat (String.length key) then None else Some key.

(** * Packets from records *)

(** An [int] computed without overflow. *)
Definition int_exact (z : Z) : option Z := if bool_decide (in_int z) then Some z else None.

(** The length bytes, from [pos]: the remaining length and the length of the
    fixed header.  The loop is not limited to four bytes: it ends at the latest
    by reading outside the record or by overflow of [multiplier]. *)
Fixpoint restore_length (fuel : nat) (buffer : list byte) (pos remaining_length multiplier : Z) :
    option (Z * Z) :=
  match fuel with
  | O => None
  | S fuel' =>
      c ← nthz buffer pos;
      part ← int_exact (Z.land c 127 * multiplier);
      remaining ← int_exact (remaining_length + part);
      multiplier' ← int_exact (multiplier * 128);
      if negb (Z.land c 128 =? 0)
      then restore_length fuel' buffer (pos + 1) remaining multiplier'
      else Some (remaining, pos + 1)
  end.

(** [None] is undefined behaviour, [Some None] a [NULL] packet. *)
Definition MQTTPersistence_restorePacket (buffer : list byte) (buflen : Z) : option (option packet) :=
  header ← nthz buffer 0;
  r ← restore_length (length buffer) buffer 1 0 1;
  let '(remaining_length, fixed_header_length) := (r : Z * Z) in
  if size_wrap (fixed_header_length + remaining_length) =? buflen then
    let ptype := hdr_type header in
    if (CONNECT <=? ptype) && (ptype <=? DISCONNECT) then
      match new_packets ptype with
      | Some f => f header (drop (Z.to_nat fixed_header_length) buffer) remaining_length
      | None => Some None
      end
    else Some None
  else Some None.

(** * Order *)

(** The loop of the two insertions: the first element whose key is greater. *)
Fixpoint insert_index (key : loc -> option Z) (n : Z) (its : list (loc * loc)) : option (option loc) :=
  match its with
  | [] => Some None
  | (a, x) :: its' =>
      k ← key x;
      if n <? k then Some (Some a) else insert_index key n its'
  end.

Definition insert_by (key : loc -> option Z) (n : Z) (content : loc) (size : Z) (l : clist loc) :
    option (clist loc) :=
  index ← insert_index key n (items l);
  LSpec.insert content size index l.

Definition MQTTPersistence_insertInOrder (msgs : gmap loc Messages) (l : clist loc) (content : loc) (size : Z) :
    option (clist loc) :=
  m ← msgs !! content;
  insert_by (fun x => m_msgid <$> msgs !! x) (m_msgid m) content size l.

Definition MQTTPersistence_insertInSeqOrder (qes : gmap loc qEntry) (l : clist loc) (content : loc) (size : Z) :
    option (clist loc) :=
  q ← qes !! content;
  insert_by (fun x => qe_seqno <$> qes !! x) (qe_seqno q) content size l.

(** The scan for the largest gap: [prev] is the id before the rest [ids], at
    position [i]; the result is the position to start from, if any. *)
Fixpoint wrap_scan (ids : list Z) (prev : Z) (i : nat) (gap : Z) (wrapel : option nat) : option nat :=
  match ids with
  | [] => wrapel
  | id :: ids' =>
      if gap <? id - prev then wrap_scan ids' id (S i) (id - prev) (Some i)
      else wrap_scan ids' id (S i) gap wrapel
  end.

Definition wrap_point (ids : list Z) : option nat :=
  match ids with
  | [] => None
  | firstMsgID :: ids' =>
      wrap_scan ids' firstMsgID 1 (MAX_MSG_ID - List.last ids 0 + firstMsgID) None
  end.

(** The list starts from the element at position [i]; the end is joined to the
    beginning. *)
Definition rotate {A} (i : nat) (l : clist A) : clist A :=
  CList (drop i (items l) ++ take i (items l)) (cur l) (cnt l) (csize l).

Definition wrap_list (key : loc -> option Z) (l : clist loc) : option (clist loc) :=
  if 0 <? cnt l then
    ids ← mapM key (LSpec.contents l);
    Some (match wrap_point ids with Some i => rotate i l | None => l end)
  else Some l.

(** * Queue entries *)

(** An [int] in memory: four bytes, least significant first. *)
Definition le32 (z : Z) : list byte :=
  [z mod 256; z / 256 mod 256; z / 65536 mod 256; z / 16777216 mod 256].
Definition rd32 (buffer : list byte) (pos : Z) : option Z :=
  bs ← subz buffer pos 4;
  match bs with
  | [a; b; c; d] => Some (int_wrap (a + 256 * b + 65536 * c + 16777216 * d))
  | _ => None
  end.

(** The bytes of a C string, up to the NUL; all of [s] when it has none (the
    terminator that follows a topic). *)
Fixpoint c_str (s : list byte) : list byte :=
  match s with
  | [] => []
  | c :: s' => if c =? 0 then [] else c :: c_str s'
  end.

(** The eight buffers of a queue entry. *)
Definition queue_buffers (qe : qEntry) : option (list (list byte)) :=
  let m := qe_msg qe in
  payload ← subz (mm_payload m) 0 (mm_payloadlen m);
  Some [le32 (mm_payloadlen m); payload; le32 (mm_qos m); le32 (mm_retained m);
        le32 (mm_dup m); le32 (mm_msgid m); c_str (qe_topicName qe) ++ [0]; le32 (qe_topicLen qe)].

(** The string at [pos]: a NUL has to be in the record. *)
Fixpoint strlen_at (s : list byte) : option Z :=
  match s with
  | [] => None
  | c :: s' => if c =? 0 then Some 0 else Z.succ <$> strlen_at s'
  end.

Definition MQTTPersistence_restoreQueueEntry (buffer : list byte) (buflen : Z) : option qEntry :=
  payloadlen ← rd32 buffer 0;
  let ptr := 4 in
  payload ← subz buffer ptr payloadlen;
  let ptr := ptr + payloadlen in
  qos ← rd32 buffer ptr;
  retained ← rd32 buffer (ptr + 4);
  dup ← rd32 buffer (ptr + 8);
  msgid ← rd32 buffer (ptr + 12);
  let ptr := ptr + 16 in
  n ← strlen_at (drop (Z.to_nat ptr) buffer);
  topicName ← subz buffer ptr n;
  topicLen ← rd32 buffer (ptr + n + 1);
  Some (MkEntry (MkMessage payloadlen payload qos retained dup msgid) topicName topicLen 0).

Section state.
Context {K PS : Type}.
Abbreviation P := (M (world K PS)).

Definition MQTTPersistence_put (socket : Z) (buf0 : list byte) (buffers : list (list byte))
    (htype msgId scr : Z) : P Z :=
  c ← find_client socket;
  x ← client c;
  match c_persistence x with
  | None => mret 0
  | Some per =>
      key ← load (fun _ =>
        if scr =? 1 then sprintf_key PERSISTENCE_PUBLISH_RECEIVED msgId
        else if scr =? 0 then
          if htype =? PUBREL then sprintf_key PERSISTENCE_PUBREL msgId
          else if htype =? PUBLISH then sprintf_key PERSISTENCE_PUBLISH_SENT msgId
          else None
        else None);
      ops (pput per (c_phandle x) key (buf0 :: buffers))
  end.

Definition MQTTPersistence_remove (c : loc) (type : string) (qos msgId : Z) : P Z :=
  x ← client c;
  match c_persistence x with
  | None => mret 0
  | Some per =>
      if bool_decide (type = PERSISTENCE_PUBLISH_SENT) && (qos =? 2) then
        key ← load (fun _ => sprintf_key PERSISTENCE_PUBLISH_SENT msgId);
        _ ← ops (premove per (c_phandle x) key);
        key ← load (fun _ => sprintf_key PERSISTENCE_PUBREL msgId);
        ops (premove per (c_phandle x) key)
      else
        key ← load (fun _ => sprintf_key type msgId);
        ops (premove per (c_phandle x) key)
  end.

Definition MQTTPersistence_clear (c : loc) : P Z :=
  x ← client c;
  match c_persistence x with
  | None => mret 0
  | Some per => ops (pclear per (c_phandle x))
  end.

Definition MQTTPersistence_close (c : loc) : P Z :=
  x ← client c;
  match c_persistence x with
  | None => mret 0
  | Some per =>
      rc ← ops (pclose per (c_phandle x));
      upd_client c (set_persistence 0 None);;
      mret rc
  end.

(** The list of outbound messages starts after the largest gap of ids. *)
Definition MQTTPersistence_wrapMsgID (c : loc) : P unit := fun w =>
  x ← w_cl w !! c;
  l ← wrap_list (fun m => m_msgid <$> w_msgs w !! m) (c_outboundMsgs x);
  Some (tt, set_cl (<[c := set_outbound l x]> (w_cl w)) w).

Definition MQTTPersistence_unpersistQueueEntry (c : loc) (qe : qEntry) : P Z :=
  x ← client c;
  match c_persistence x with
  | None => undefined
  | Some per =>
      key ← load (fun _ => sprintf_key PERSISTENCE_QUEUE_KEY (int_wrap (qe_seqno qe)));
      ops (premove per (c_phandle x) key)
  end.

(** The sequence number is given to the entry [q] too. *)
Definition MQTTPersistence_persistQueueEntry (c q : loc) : P Z :=
  x ← client c;
  qe ← entry q;
  bufs ← load (fun _ => queue_buffers qe);
  let seqno := uint_wrap (c_qentry_seqno x + 1) in
  upd_client c (set_seqno seqno);;
  key ← load (fun _ => sprintf_key PERSISTENCE_QUEUE_KEY (int_wrap seqno));
  (fun w => Some (tt, set_qes (<[q := MkEntry (qe_msg qe) (qe_topicName qe) (qe_topicLen qe) seqno]> (w_qes w)) w));;
  match c_persistence x with
  | None => undefined
  | Some per => ops (pput per (c_phandle x) key bufs)
  end.

(** [atoi]: blanks, an optional sign and digits. *)
Fixpoint digits (s : string) (n : Z) : Z :=
  match s with
  | EmptyString => n
  | String a s' =>
      let d := Z.of_N (Ascii.N_of_ascii a) - 48 in
      if (0 <=? d) && (d <=? 9) then digits s' (10 * n + d) else n
  end.
Fixpoint atoi (s : string) : Z :=
  match s with
  | EmptyString => 0
  | String a s' =>
      let c := Z.of_N (Ascii.N_of_ascii a) in
      if (c =? 32) || ((9 <=? c) && (c <=? 13)) then atoi s'
      else int_wrap (if c =? 45 (* '-' *) then - digits s' 0
                     else if c =? 43 (* '+' *) then digits s' 0
                     else digits s 0)
  end.

(** [key + 2]. *)
Definition after_stem (key : string) : string :=
  match key with String _ (String _ s) => s | _ => EmptyString end.

Definition sizeof_qEntry : Z := 24.

(** The loop over the keys of the store. *)
Fixpoint restore_queue_loop (per : MQTTClient_persistence PS) (handle : Z) (c : loc) (keys : list string) : P Z :=
  match keys with
  | [] => mret 0
  | key :: keys' =>
      if negb (String.prefix PERSISTENCE_QUEUE_KEY key) then restore_queue_loop per handle c keys'
      else
        r ← ops (pget per handle key);
        let '(rc, buffer) := (r : Z * list byte) in
        if negb (rc =? 0) then mret rc
        else
          qe ← load (fun _ => MQTTPersistence_restoreQueueEntry buffer (zlen buffer));
          let seqno := uint_wrap (atoi (after_stem key)) in
          q ← new_entry (MkEntry (qe_msg qe) (qe_topicName qe) (qe_topicLen qe) seqno);
          x ← client c;
          l ← load (fun w => MQTTPersistence_insertInSeqOrder (w_qes w) (c_messageQueue x) q sizeof_qEntry);
          upd_client c (fun x => set_seqno (Z.max (c_qentry_seqno x) seqno) (set_queue l x));;
          restore_queue_loop per handle c keys'
  end.

Definition MQTTPersistence_restoreMessageQueue (c : loc) : P Z :=
  x ← client c;
  match c_persistence x with
  | None => mret 0
  | Some per =>
      r ← ops (pkeys per (c_phandle x));
      let '(rc, keys) := (r : Z * list string) in
      if negb (rc =? 0) then mret rc else restore_queue_loop per (c_phandle x) c keys
  end.
End state.

#[local] Arguments zlen : simpl never.

(** * Key lengths *)

Lemma pretty_len_ge n s : (String.length s <= String.length (pretty_N_go n s))%nat.
Proof.
  revert s. induction (N.lt_wf_0 n) as [n _ IH]; intros s.
  destruct (decide (n = 0)%N) as [->|Hn]; [by rewrite pretty_N_go_0|].
  rewrite pretty_N_go_step by lia. etrans; [|apply IH; apply N.div_lt; lia]. simpl. lia.
Qed.

Lemma pretty_N_go_length n : forall k s, (n < 10 ^ N.of_nat k)%N ->
  (String.length (pretty_N_go n s) <= k + String.length s)%nat /\
  (forall j, (10 ^ N.of_nat j <= n)%N -> (j + 1 + String.length s <= String.length (pretty_N_go n s))%nat).
Proof.
  induction (N.lt_wf_0 n) as [n _ IH]; intros k s Hk.
  destruct (decide (n = 0)%N) as [->|Hn].
  { rewrite pretty_N_go_0. split; [lia|]. intros j Hj.
    pose proof (N.pow_nonzero 10 (N.of_nat j) ltac:(lia)). lia. }
  rewrite pretty_N_go_step by lia. destruct k as [|k]; [simpl in Hk; lia|].
  assert (n / 10 < n)%N by (apply N.div_lt; lia).
  assert (n / 10 < 10 ^ N.of_nat k)%N.
  { apply N.Div0.div_lt_upper_bound. by rewrite Nat2N.inj_succ, N.pow_succ_r' in Hk. }
  destruct (IH (n / 10)%N H k (String (pretty_N_char (n mod 10)) s) H0) as [H1 H2]. simpl in H1, H2.
  split; [lia|]. intros j Hj. destruct j as [|j].
  - pose proof (pretty_len_ge (n / 10) (String (pretty_N_char (n mod 10)) s)). simpl in *. lia.
  - specialize (H2 j). rewrite Nat2N.inj_succ, N.pow_succ_r' in Hj.
    assert (10 ^ N.of_nat j <= n / 10)%N by (apply N.div_le_lower_bound; lia). lia.
Qed.

(** Decimal digits of a number. *)
Lemma pretty_length n k :
  0 <= n -> (0 < k)%nat ->
  (n < 10 ^ Z.of_nat k -> (String.length (pretty n) <= k)%nat) /\
  (10 ^ Z.of_nat k <= n -> (k < String.length (pretty n))%nat).
Proof.
  intros Hn Hk. destruct n as [|p|p]; [|clear Hn|lia].
  { split; [simpl; lia|]. pose proof (Z.pow_pos_nonneg 10 (Z.of_nat k)). lia. }
  assert (Ez : 10 ^ Z.of_nat k = Z.of_N (10 ^ N.of_nat k)) by (rewrite N2Z.inj_pow; by rewrite nat_N_Z).
  change (pretty (Zpos p)) with (pretty_N_go (Npos p) "").
  change (Zpos p) with (Z.of_N (Npos p)). rewrite Ez. split; intros H.
  - destruct (pretty_N_go_length (Npos p) k "") as [H1 _]; [lia|]. simpl in H1. lia.
  - destruct (pretty_N_go_length (Npos p) (N.to_nat (Npos p)) "") as [_ H2].
    { rewrite N2Nat.id. apply N.pow_gt_lin_r. lia. }
    specialize (H2 k ltac:(lia)). simpl in H2. lia.
Qed.

Lemma string_length_app (s t : string) : String.length (s +:+ t) = (String.length s + String.length t)%nat.
Proof. induction s as [|a s IH]; [done|]. simpl. by rewrite IH. Qed.

Lemma sprintf_key_Some stem n :
  Z.of_nat (String.length stem + String.length (pretty n)) <= MAX_KEY_LENGTH ->
  sprintf_key stem n = Some (stem +:+ pretty n).
Proof.
  intros H. unfold sprintf_key. destruct (Z.ltb_spec MAX_KEY_LENGTH (Z.of_nat (String.length (stem +:+ pretty n)))); [|done].
  rewrite string_length_app in *. lia.
Qed.

Lemma sprintf_key_None stem n :
  MAX_KEY_LENGTH < Z.of_nat (String.length stem + String.length (pretty n)) -> sprintf_key stem n = None.
Proof.
  intros H. unfold sprintf_key. destruct (Z.ltb_spec MAX_KEY_LENGTH (Z.of_nat (String.length (stem +:+ pretty n)))); [done|].
  rewrite string_length_app in *. lia.
Qed.

(** * Records of packets *)

Lemma int_exact_Some z : in_int z -> int_exact z = Some z.
Proof. intros. unfold int_exact. by rewrite bool_decide_true. Qed.

Lemma restore_length_encode k : forall n pre post fuel rem mult,
  0 <= n < 128 ^ Z.of_nat k -> (0 < k)%nat -> zlen (encode_loop k n) <= Z.of_nat fuel -> 0 <= rem -> 0 < mult ->
  mult * 128 ^ Z.of_nat k <= 128 ^ 4 -> rem + n * mult < 2 ^ 31 ->
  restore_length fuel (pre ++ encode_loop k n ++ post) (zlen pre) rem mult =
    Some (rem + n * mult, zlen pre + zlen (encode_loop k n)).
Proof.
  induction k as [|k IH]; intros n pre post fuel rem mult Hn Hk Hf Hr Hm Hmk Hv; [lia|].
  destruct fuel as [|fuel]; [pose proof (encode_loop_len (S k) n); lia|]. cbn [restore_length encode_loop] in *.
  pose proof (Z.mod_pos_bound n 128 ltac:(lia)) as Hd.
  destruct (digit_bits (n mod 128) Hd) as (D1 & D2 & D3 & D4 & _).
  pose proof (Z.div_mod n 128 ltac:(lia)) as Hdm. pose proof (Z.div_pos n 128 ltac:(lia) ltac:(lia)) as Hq.
  rewrite Nat2Z.inj_succ, Z.pow_succ_r in Hmk, Hn by lia.
  pose proof (Z.pow_pos_nonneg 128 (Z.of_nat k) ltac:(lia) ltac:(lia)) as Hpk.
  assert (mult * 128 <= 128 ^ 4) by nia.
  destruct (Z.ltb_spec 0 (n / 128)) as [Hlt|Hge].
  - cbn [app]. rewrite nthz_app_r, Z.sub_diag, nthz_0 by lia. cbn [mbind option_bind]. rewrite D1, D2.
    repeat (rewrite int_exact_Some by (unfold in_int; nia); cbn [mbind option_bind]).
    change (negb (128 =? 0)) with true. cbv iota.
    assert (0 < k)%nat by (destruct k; [simpl in Hn; zdm|lia]).
    assert (n / 128 < 128 ^ Z.of_nat k) by (apply Z.div_lt_upper_bound; lia).
    specialize (IH (n / 128) (pre ++ [Z.lor (n mod 128) 128]) post fuel (rem + n mod 128 * mult) (mult * 128)).
    rewrite zlen_app, <- app_assoc in IH. change (zlen [Z.lor (n mod 128) 128]) with 1 in IH.
    cbn [app] in IH. rewrite zlen_cons in Hf. rewrite IH by (lia || nia).
    rewrite zlen_cons. f_equal. f_equal; nia.
  - cbn [app]. rewrite nthz_app_r, Z.sub_diag, nthz_0 by lia. cbn [mbind option_bind]. rewrite D3, D4.
    repeat (rewrite int_exact_Some by (unfold in_int; nia); cbn [mbind option_bind]).
    change (negb (0 =? 0)) with false. cbv iota. change (zlen [n mod 128]) with 1.
    by rewrite (Z.mod_small n 128) by zdm.
Qed.

(** The record of a packet: what [MQTTPersistence_put] is given. *)
Definition record (header : byte) (buffers : list (list byte)) : list byte :=
  (header :: MQTTPacket_encode (zlen (concat buffers))) ++ concat buffers.

Lemma restorePacket_record h buffers :
  zlen (concat buffers) < 128 ^ 4 -> CONNECT <= hdr_type h <= DISCONNECT ->
  MQTTPersistence_restorePacket (record h buffers) (zlen (record h buffers)) =
    match new_packets (hdr_type h) with
    | Some f => f h (concat buffers) (zlen (concat buffers))
    | None => Some None
    end.
Proof.
  intros Hl Ht. unfold record. set (body := concat buffers) in *. pose proof (zlen_nonneg body) as Hb.
  assert (HE : MQTTPacket_encode (zlen body) = encode_loop 4 (zlen body)) by (apply encode_loop_more; [done|lia|lia]).
  pose proof (encode_loop_len 4 (zlen body) Hb ltac:(lia)) as Hel.
  unfold MQTTPersistence_restorePacket. rewrite HE.
  pose proof (restore_length_encode 4 (zlen body) [h] body
    (length ((h :: encode_loop 4 (zlen body)) ++ body)) 0 1) as Hr.
  change (zlen [h]) with 1 in Hr. change ([h] ++ encode_loop 4 (zlen body) ++ body) with
    ((h :: encode_loop 4 (zlen body)) ++ body) in Hr.
  rewrite Hr; [|split; [done|exact Hl]|lia| |lia|lia|lia|lia].
  2: { rewrite length_app. cbn [length]. unfold zlen. lia. }
  cbn [app]. rewrite nthz_0. cbn [mbind option_bind].
  rewrite zlen_cons, zlen_app.
  assert (size_wrap (1 + zlen (encode_loop 4 (zlen body)) + (0 + zlen body * 1)) =
    1 + zlen (encode_loop 4 (zlen body)) + (0 + zlen body * 1)) as -> by (apply Z.mod_small; lia).
  destruct (Z.eqb_spec (1 + zlen (encode_loop 4 (zlen body)) + (0 + zlen body * 1))
    (1 + (zlen (encode_loop 4 (zlen body)) + zlen body))); [|lia].
  destruct (Z.leb_spec CONNECT (hdr_type h)); [|lia]. destruct (Z.leb_spec (hdr_type h) DISCONNECT); [|lia].
  cbn [andb]. cbv iota. rewrite Z.add_0_l, Z.mul_1_r.
  replace (drop (Z.to_nat (1 + zlen (encode_loop 4 (zlen body)))) (h :: encode_loop 4 (zlen body) ++ body)) with body; [done|].
  symmetry. apply (drop_app_length' (h :: encode_loop 4 (zlen body)) body). simpl. unfold zlen. lia.
Qed.

Lemma hdr_type_publish dup qos retained : hdr_type (publish_header dup qos retained) = PUBLISH.
Proof.
  unfold hdr_type, publish_header, set_retain, set_qos, set_dup, set_type.
  rewrite !get_set_bits_other by lia. by rewrite get_set_bits by lia.
Qed.

(** * Queue entries *)

Lemma le32_bytes z : length (le32 z) = 4%nat.
Proof. done. Qed.

Lemma rd32_le32 pre z post : in_int z -> rd32 (pre ++ le32 z ++ post) (zlen pre) = Some z.
Proof.
  intros Hz. unfold rd32. rewrite (subz_app pre (le32 z) post) by done. cbn [mbind option_bind le32].
  f_equal. unfold int_wrap, in_int in *. zdm.
Qed.

Lemma c_str_no_nul s : Forall (fun c => c <> 0) (c_str s).
Proof.
  induction s as [|c s IH]; simpl; [constructor|]. destruct (Z.eqb_spec c 0); [constructor|]. by constructor.
Qed.

Lemma c_str_idem s : c_str (c_str s) = c_str s.
Proof.
  induction s as [|c s IH]; [done|]. simpl. destruct (c =? 0) eqn:E; [done|]. simpl. by rewrite E, IH.
Qed.

Lemma strlen_at_app s post : Forall (fun c => c <> 0) s -> strlen_at (s ++ 0 :: post) = Some (zlen s).
Proof.
  induction 1 as [|c s Hc _ IH]; simpl; [done|]. destruct (Z.eqb_spec c 0); [done|].
  rewrite IH. simpl. rewrite zlen_cons. f_equal. lia.
Qed.

Lemma zlen_le32 z : zlen (le32 z) = 4.
Proof. done. Qed.

(** The ints of an entry. *)
Definition entry_ok (qe : qEntry) : Prop :=
  let m := qe_msg qe in
  mm_payloadlen m = zlen (mm_payload m) /\ in_int (mm_payloadlen m) /\ in_int (mm_qos m) /\
  in_int (mm_retained m) /\ in_int (mm_dup m) /\ in_int (mm_msgid m) /\ in_int (qe_topicLen qe).
#[local] Opaque le32.

Lemma restoreQueueEntry_buffers qe :
  entry_ok qe ->
  exists bufs, queue_buffers qe = Some bufs /\
    MQTTPersistence_restoreQueueEntry (concat bufs) (zlen (concat bufs)) =
      Some (MkEntry (qe_msg qe) (c_str (qe_topicName qe)) (qe_topicLen qe) 0).
Proof.
  destruct qe as [[n pay qos ret dup mid] topic tlen seqno]. intros (En & H1 & H2 & H3 & H4 & H5 & H6). simpl in *.
  unfold queue_buffers; simpl. subst n.
  assert (subz pay 0 (zlen pay) = Some pay) as ->.
  { pose proof (subz_app [] pay [] 0 (zlen pay) eq_refl eq_refl) as E. by rewrite app_nil_r in E. }
  simpl. eexists. split; [done|]. set (t := c_str topic). pose proof (c_str_no_nul topic) as Ht. fold t in Ht.
  cbn [concat]. rewrite <- !app_assoc, app_nil_r. cbn [app].
  set (pre1 := le32 (zlen pay)). set (pre2 := pre1 ++ pay). set (pre3 := pre2 ++ le32 qos).
  set (pre4 := pre3 ++ le32 ret). set (pre5 := pre4 ++ le32 dup). set (pre6 := pre5 ++ le32 mid).
  set (pre7 := pre6 ++ t ++ [0]).
  assert (L : zlen pre1 = 4 /\ zlen pre2 = 4 + zlen pay /\ zlen pre3 = 8 + zlen pay /\ zlen pre4 = 12 + zlen pay /\
    zlen pre5 = 16 + zlen pay /\ zlen pre6 = 20 + zlen pay /\ zlen pre7 = 21 + zlen pay + zlen t).
  { unfold pre7, pre6, pre5, pre4, pre3, pre2, pre1. rewrite !zlen_app, !zlen_le32. change (zlen [0]) with 1. lia. }
  destruct L as (L1 & L2 & L3 & L4 & L5 & L6 & L7).
  pose proof (zlen_nonneg pay). pose proof (zlen_nonneg t).
  match goal with |- MQTTPersistence_restoreQueueEntry ?b (zlen ?b) = _ => set (buffer := b) end.
  assert (R0 : rd32 buffer 0 = Some (zlen pay)) by (apply (rd32_le32 [] (zlen pay)); done).
  assert (B2 : forall rest, pre1 ++ pay ++ rest = pre2 ++ rest) by (intros; unfold pre2; by rewrite <- app_assoc).
  assert (R1 : subz buffer 4 (zlen pay) = Some pay) by (apply subz_app; done).
  assert (R2 : rd32 buffer (zlen pre2) = Some qos).
  { unfold buffer. rewrite B2. by apply rd32_le32. }
  assert (R3 : rd32 buffer (zlen pre3) = Some ret).
  { unfold buffer. rewrite B2, app_assoc. by apply rd32_le32. }
  assert (R4 : rd32 buffer (zlen pre4) = Some dup).
  { unfold buffer. rewrite B2, app_assoc, (app_assoc (pre2 ++ _)). by apply rd32_le32. }
  assert (R5 : rd32 buffer (zlen pre5) = Some mid).
  { unfold buffer. rewrite B2, app_assoc, (app_assoc (pre2 ++ _)), (app_assoc ((pre2 ++ _) ++ _)). by apply rd32_le32. }
  assert (B6 : buffer = pre6 ++ t ++ 0 :: le32 tlen).
  { unfold buffer, pre6, pre5, pre4, pre3. by rewrite B2, <- !app_assoc. }
  assert (R6 : strlen_at (drop (Z.to_nat (zlen pre6)) buffer) = Some (zlen t)).
  { rewrite B6. rewrite drop_app_length' by (unfold zlen; lia). by apply strlen_at_app. }
  assert (R7 : subz buffer (zlen pre6) (zlen t) = Some t) by (rewrite B6; by apply subz_app).
  assert (R8 : rd32 buffer (zlen pre7) = Some tlen).
  { rewrite B6. replace (pre6 ++ t ++ 0 :: le32 tlen) with (pre7 ++ le32 tlen ++ []).
    - by apply rd32_le32.
    - unfold pre7. by rewrite app_nil_r, <- !app_assoc. }
  unfold MQTTPersistence_restoreQueueEntry. rewrite R0. cbn [mbind option_bind]. cbv zeta. rewrite R1.
  cbn [mbind option_bind].
  rewrite L2 in R2. rewrite L3 in R3. rewrite L4 in R4. rewrite L5 in R5. rewrite L6 in R6, R7. rewrite L7 in R8.
  rewrite R2. cbn [mbind option_bind]. replace (4 + zlen pay + 4) with (8 + zlen pay) by lia. rewrite R3.
  cbn [mbind option_bind]. replace (4 + zlen pay + 8) with (12 + zlen pay) by lia. rewrite R4.
  cbn [mbind option_bind]. replace (4 + zlen pay + 12) with (16 + zlen pay) by lia. rewrite R5.
  cbn [mbind option_bind]. replace (4 + zlen pay + 16) with (20 + zlen pay) by lia. rewrite R6.
  cbn [mbind option_bind]. rewrite R7. cbn [mbind option_bind].
  replace (20 + zlen pay + zlen t + 1) with (21 + zlen pay + zlen t) by lia. by rewrite R8.
Qed.

(** * Order *)

(** The keys of the elements. *)
Definition keys_of (key : loc -> option Z) (xs : list loc) : list Z := omap key xs.

Lemma keys_of_app key xs ys : keys_of key (xs ++ ys) = keys_of key xs ++ keys_of key ys.
Proof. apply omap_app. Qed.

Lemma insert_index_spec key n its :
  (forall x, x ∈ its.*2 -> is_Some (key x)) -> Sorted Z.le (keys_of key its.*2) ->
  exists k1 k2, its = k1 ++ k2 /\ insert_index key n its = Some (LSpec.hd_addr k2 None) /\
    Forall (fun k => k <= n) (keys_of key k1.*2) /\ Forall (fun k => n < k) (keys_of key k2.*2).
Proof.
  induction its as [|[a x] its IH]; intros Hk Hs; [by exists [], []|]. cbn [insert_index].
  destruct (Hk x) as [k Ek]; [by left|]. rewrite Ek. cbn [mbind option_bind].
  unfold keys_of in Hs. cbn in Hs. rewrite Ek in Hs. destruct (Z.ltb_spec n k) as [Hlt|Hge].
  - exists [], ((a, x) :: its). split_and!; [done..|]. unfold keys_of. cbn. rewrite Ek.
    apply Sorted_StronglySorted in Hs; [|intros ? ? ?; lia]. inversion Hs as [|? ? _ Hall]; subst.
    constructor; [done|]. eapply Forall_impl; [exact Hall|]. intros y Hy. simpl in *. lia.
  - destruct IH as (k1 & k2 & -> & E & H1 & H2).
    + intros y Hy. apply Hk. by right.
    + by inversion Hs.
    + exists ((a, x) :: k1), k2. split_and!; [done..| |done]. unfold keys_of. cbn. rewrite Ek. by constructor.
Qed.

Lemma Sorted_insert (xs ys : list Z) n :
  Sorted Z.le (xs ++ ys) -> Forall (fun k => k <= n) xs -> Forall (fun k => n < k) ys ->
  Sorted Z.le (xs ++ n :: ys).
Proof.
  intros Hs Hx Hy. apply Sorted_StronglySorted in Hs; [|intros ? ? ?; lia]. apply StronglySorted_Sorted.
  induction xs as [|x xs IH]; simpl in *.
  - constructor; [done|]. eapply Forall_impl; [exact Hy|]. intros; simpl in *; lia.
  - inversion Hs as [|? ? Hs' Hall]; subst. inversion Hx; subst. constructor; [by apply IH|].
    rewrite Forall_app in Hall. apply Forall_app. split; [tauto|]. constructor; [done|tauto].
Qed.

Lemma insert_by_spec key n content size l :
  LSpec.wf l -> (forall x, x ∈ LSpec.contents l -> is_Some (key x)) -> key content = Some n ->
  Sorted Z.le (keys_of key (LSpec.contents l)) ->
  exists xs ys l', insert_by key n content size l = Some l' /\ LSpec.wf l' /\
    LSpec.contents l = xs ++ ys /\ LSpec.contents l' = xs ++ content :: ys /\
    Sorted Z.le (keys_of key (LSpec.contents l')) /\ Forall (fun k => n < k) (keys_of key ys).
Proof.
  intros Hwf Hk Hc Hs. destruct (insert_index_spec key n (items l) Hk Hs) as (k1 & k2 & Ei & E & H1 & H2).
  exists k1.*2, k2.*2. eexists. unfold insert_by. rewrite E. cbn [mbind option_bind].
  rewrite (LSpec.insert_between content size l k1 k2) by done. split; [done|].
  split; [by apply LSpec.insert_between_wf|]. unfold LSpec.contents in *; simpl. rewrite Ei, fmap_app in *.
  rewrite fmap_app, fmap_cons. split_and!; [done..| |done].
  rewrite !keys_of_app in *. unfold keys_of at 2. cbn. rewrite Hc. by apply Sorted_insert.
Qed.

(** Differences of consecutive ids. *)
Fixpoint gaps (prev : Z) (ids : list Z) : list Z :=
  match ids with [] => [] | id :: ids' => id - prev :: gaps id ids' end.

Lemma wrap_scan_none ids : forall prev i gap wrapel,
  Forall (fun g => g <= gap) (gaps prev ids) -> wrap_scan ids prev i gap wrapel = wrapel.
Proof.
  induction ids as [|id ids IH]; intros prev i gap wrapel Hg; simpl; [done|].
  inversion Hg; subst. destruct (Z.ltb_spec gap (id - prev)); [lia|]. by apply IH.
Qed.

Lemma wrap_scan_max a : forall prev i gap wrapel h b d,
  d = h - List.last (prev :: a) 0 ->
  Forall (fun g => g < d) (gaps prev a) -> gap < d -> Forall (fun g => g <= d) (gaps h b) ->
  wrap_scan (a ++ h :: b) prev i gap wrapel = Some (i + length a)%nat.
Proof.
  induction a as [|x a IH]; intros prev i gap wrapel h b d Hd Ha Hg Hb; simpl.
  - simpl in Hd. destruct (Z.ltb_spec gap (h - prev)); [|lia]. rewrite wrap_scan_none by (by rewrite <- Hd).
    f_equal. lia.
  - inversion Ha; subst. change (List.last (prev :: x :: a) 0) with (List.last (x :: a) 0) in *.
    destruct (Z.ltb_spec gap (x - prev)).
    + rewrite (IH x (S i) (x - prev) (Some i) h b _ eq_refl); [f_equal; lia|done|lia|done].
    + rewrite (IH x (S i) gap wrapel h b _ eq_refl); [f_equal; lia|done|lia|done].
Qed.

Lemma rotate_wf {A} i (l : clist A) : LSpec.wf l -> LSpec.wf (rotate i l).
Proof.
  intros [Hn Hc Hk]. unfold rotate. split; unfold LSpec.addrs in *; simpl.
  - rewrite fmap_app. rewrite <- (take_drop i (items l)), fmap_app in Hn.
    apply NoDup_app in Hn as (N1 & N2 & N3). apply NoDup_app. split; [done|]. split; [|done].
    intros x Hx Hx'. by apply (N2 x).
  - intros a Ha. specialize (Hc a Ha). rewrite <- (take_drop i (items l)), fmap_app, elem_of_app in Hc.
    rewrite fmap_app, elem_of_app. tauto.
  - rewrite Hk. rewrite <- (take_drop i (items l)) at 1. rewrite !zlen_app. lia.
Qed.

Lemma hdr_type_ack type dup : hdr_type (ack_header_byte type dup) = type mod 16.
Proof.
  unfold hdr_type, ack_header_byte, set_qos, set_dup, set_type. cbv zeta. destruct (type =? PUBREL);
    repeat (rewrite get_set_bits_other by lia); by rewrite get_set_bits by lia.
Qed.

(** The record of a PUBLISH. *)
Lemma publish_record_restores topic msgId dup qos retained payload :
  zlen topic < 65536 -> 0 <= msgId < 65536 -> 1 <= qos <= 2 ->
  zlen (publish_body topic msgId qos payload) < 128 ^ 4 ->
  exists bufs frees, publish_buffers topic msgId qos payload = Some (bufs, frees) /\
    let h := publish_header dup qos retained in let r := record h bufs in
    MQTTPersistence_restorePacket r (zlen r) =
      Some (Some (PPublish (MkPublish h (Some topic) (zlen topic) msgId payload (zlen payload)))).
Proof.
  intros Ht Hm Hq Hl. destruct (publish_buffers_spec topic msgId qos payload) as (bufs & frees & E & Eb & _).
  exists bufs, frees. split; [done|]. cbv zeta. rewrite restorePacket_record.
  - rewrite hdr_type_publish. change (new_packets PUBLISH) with (Some MQTTPacket_publish). cbv iota.
    rewrite Eb. pose proof (MQTTPacket_publish_body (publish_header dup qos retained) topic msgId qos payload []) as Hp.
    rewrite !app_nil_r in Hp. destruct (Z.ltb_spec 0 qos); [|lia].
    apply Hp; [done..| |lia]. rewrite hdr_qos_publish. apply Z.mod_small. lia.
  - by rewrite Eb.
  - rewrite hdr_type_publish. unfold CONNECT, DISCONNECT, PUBLISH. lia.
Qed.

(** * Properties *)

Lemma pubrel_record_restores msgId dup :
  0 <= msgId < 65536 ->
  let h := ack_header_byte PUBREL dup in let r := record h [int_bytes msgId] in
  MQTTPersistence_restorePacket r (zlen r) = Some (Some (PAck (MkAck h msgId))).
Proof.
  intros Hm. cbv zeta. assert (Ht' : hdr_type (ack_header_byte PUBREL dup) = PUBREL) by (by rewrite hdr_type_ack).
  rewrite restorePacket_record; rewrite ?Ht'.
  - change (new_packets PUBREL) with (Some MQTTPacket_ack). cbv iota. cbn [concat].
      unfold MQTTPacket_ack. pose proof (readInt_at [] msgId []) as Hr. rewrite !app_nil_r, app_nil_l in *.
      change (zlen []) with 0 in Hr. by rewrite Hr.
  - cbn [concat]. rewrite app_nil_r, zlen_int_bytes. lia.
  - unfold CONNECT, DISCONNECT, PUBREL. lia.
Qed.

(** [C23] What is persisted when a PUBLISH or a PUBREL is sent restores to the
    packet that was sent: the same topic, message id, flags and payload. *)
Theorem persisted_packets_restore topic msgId dup qos retained payload :
  zlen topic < 65536 -> 0 <= msgId < 65536 -> 1 <= qos <= 2 ->
  zlen (publish_body topic msgId qos payload) < 128 ^ 4 ->
  (exists bufs frees, publish_buffers topic msgId qos payload = Some (bufs, frees) /\
     let h := publish_header dup qos retained in let r := record h bufs in
     MQTTPersistence_restorePacket r (zlen r) =
       Some (Some (PPublish (MkPublish h (Some topic) (zlen topic) msgId payload (zlen payload))))) /\
  (let h := ack_header_byte PUBREL dup in let r := record h [int_bytes msgId] in
   MQTTPersistence_restorePacket r (zlen r) = Some (Some (PAck (MkAck h msgId)))).
Proof.
  intros Ht Hm Hq Hl. split; [by apply publish_record_restores|by apply pubrel_record_restores].
Qed.

Example persisted_packets_restore_witness :
  exists bufs frees, publish_buffers [97; 47; 98] 513 2 [1; 2; 3] = Some (bufs, frees) /\
    let r := record (publish_header 0 2 1) bufs in
    MQTTPersistence_restorePacket r (zlen r) = Some (Some (PPublish
      (MkPublish (publish_header 0 2 1) (Some [97; 47; 98]) 3 513 [1; 2; 3] 3))).
Proof.
  apply (persisted_packets_restore [97; 47; 98] 513 0 2 1 [1; 2; 3]); [by vm_compute|lia|lia|by vm_compute].
Defined.

(** [C24] A queue entry restores to what was persisted: message, payload, flags
    and ids, with the topic up to its first NUL and no sequence number (which
    the key carries). *)
Theorem queue_entry_roundtrip qe :
  entry_ok qe ->
  exists bufs, queue_buffers qe = Some bufs /\ length bufs = 8%nat /\
    MQTTPersistence_restoreQueueEntry (concat bufs) (zlen (concat bufs)) =
      Some (MkEntry (qe_msg qe) (c_str (qe_topicName qe)) (qe_topicLen qe) 0).
Proof.
  intros Hok. destruct (restoreQueueEntry_buffers qe Hok) as (bufs & E & Hr).
  exists bufs. split; [done|]. split; [|done]. unfold queue_buffers in E.
  destruct (subz _ _ _); simpl in E; [|done]. by injection E as <-.
Qed.

Example queue_entry_roundtrip_witness :
  let qe := MkEntry (MkMessage 3 [9; 0; 255] 1 0 1 40000) [97; 98] 2 7 in
  entry_ok qe /\ exists bufs, queue_buffers qe = Some bufs /\ length bufs = 8%nat /\
    MQTTPersistence_restoreQueueEntry (concat bufs) (zlen (concat bufs)) =
      Some (MkEntry (MkMessage 3 [9; 0; 255] 1 0 1 40000) [97; 98] 2 0).
Proof.
  assert (Hok : entry_ok (MkEntry (MkMessage 3 [9; 0; 255] 1 0 1 40000) [97; 98] 2 7)).
  { unfold entry_ok, in_int. simpl. change (zlen [9; 0; 255]) with 3. lia. }
  split; [exact Hok|]. apply (queue_entry_roundtrip (MkEntry (MkMessage 3 [9; 0; 255] 1 0 1 40000) [97; 98] 2 7) Hok).
Defined.

(** [C25] Restored outbound messages are kept in the order of their ids: an
    insertion into an ordered list gives an ordered list with just that element
    more, after those with the same id.  The same holds of queue entries and
    sequence numbers. *)
Theorem insertInOrder_sorted (msgs : gmap loc Messages) (qes : gmap loc qEntry) (l : clist loc) content size :
  let mid x := m_msgid <$> msgs !! x in
  let seq x := qe_seqno <$> qes !! x in
  LSpec.wf l ->
  (is_Some (msgs !! content) -> (forall x, x ∈ LSpec.contents l -> is_Some (msgs !! x)) ->
   Sorted Z.le (keys_of mid (LSpec.contents l)) ->
   exists xs ys l', MQTTPersistence_insertInOrder msgs l content size = Some l' /\ LSpec.wf l' /\
     LSpec.contents l = xs ++ ys /\ LSpec.contents l' = xs ++ content :: ys /\
     Sorted Z.le (keys_of mid (LSpec.contents l')) /\
     Forall (fun k => from_option (fun n => n < k) False (mid content)) (keys_of mid ys)) /\
  (is_Some (qes !! content) -> (forall x, x ∈ LSpec.contents l -> is_Some (qes !! x)) ->
   Sorted Z.le (keys_of seq (LSpec.contents l)) ->
   exists xs ys l', MQTTPersistence_insertInSeqOrder qes l content size = Some l' /\ LSpec.wf l' /\
     LSpec.contents l = xs ++ ys /\ LSpec.contents l' = xs ++ content :: ys /\
     Sorted Z.le (keys_of seq (LSpec.contents l')) /\
     Forall (fun k => from_option (fun n => n < k) False (seq content)) (keys_of seq ys)).
Proof.
  intros mid seq Hwf.
  split; intros [m Em] Hk Hs; unfold MQTTPersistence_insertInOrder, MQTTPersistence_insertInSeqOrder, mid, seq in *;
    rewrite Em; simpl; (apply insert_by_spec; [done| |by rewrite Em|done]);
    intros x Hx; destruct (Hk x Hx) as [? ->]; eauto.
Qed.

Definition ex_msgs : gmap loc Messages :=
  {[ 1%positive := MkMsg 1 0 5 1 0 0 0; 2%positive := MkMsg 2 0 9 1 0 5 0; 3%positive := MkMsg 1 0 7 1 0 0 0 ]}.
Definition ex_outbound : clist loc := LSpec.append 2%positive 8 (LSpec.append 1%positive 8 LSpec.empty).

Example insertInOrder_sorted_witness :
  exists xs ys l', MQTTPersistence_insertInOrder ex_msgs ex_outbound 3%positive 8 = Some l' /\ LSpec.wf l' /\
     LSpec.contents ex_outbound = xs ++ ys /\ LSpec.contents l' = xs ++ 3%positive :: ys /\
     Sorted Z.le (keys_of (fun x => m_msgid <$> ex_msgs !! x) (LSpec.contents l')) /\
     Forall (fun k => 7 < k) (keys_of (fun x => m_msgid <$> ex_msgs !! x) ys).
Proof.
  apply (insertInOrder_sorted ex_msgs ∅ ex_outbound 3%positive 8).
  - apply LSpec.append_wf, LSpec.append_wf, LSpec.wf_empty.
  - by vm_compute; eauto.
  - intros x Hx. change (LSpec.contents ex_outbound) with [1%positive; 2%positive] in Hx.
    rewrite !elem_of_cons in Hx. destruct Hx as [->|[->|[]%elem_of_nil]]; vm_compute; eauto.
  - change (keys_of (fun x => m_msgid <$> ex_msgs !! x) (LSpec.contents ex_outbound)) with [5; 9].
    repeat constructor. done.
Defined.

(** [C26] The order of sending is restored.  When the ids in use, in increasing
    order, are [lo ++ hi] and the gap between the two parts is the largest (the
    one from the last id around to the first included), the ids have wrapped:
    the messages of [hi] were sent first, and the list is turned so that they
    come first.  When no gap exceeds the one around, the list stays as it is. *)
Theorem wrapMsgID_order {K PS} (c : loc) (w : world K PS) x (A B : list loc) f lo h hi :
  let mid m := m_msgid <$> w_msgs w !! m in
  w_cl w !! c = Some x -> LSpec.wf (c_outboundMsgs x) -> LSpec.contents (c_outboundMsgs x) = A ++ B ->
  mapM mid A = Some (f :: lo) -> mapM mid B = Some (h :: hi) ->
  exists l, MQTTPersistence_wrapMsgID c w = Some (tt, set_cl (<[c := set_outbound l x]> (w_cl w)) w) /\
    LSpec.wf l /\
    (let d := h - List.last (f :: lo) 0 in
     Forall (fun g => g < d) (gaps f lo) -> MAX_MSG_ID - List.last (h :: hi) 0 + f < d ->
     Forall (fun g => g <= d) (gaps h hi) -> LSpec.contents l = B ++ A) /\
    (Forall (fun g => g <= MAX_MSG_ID - List.last (h :: hi) 0 + f) (gaps f (lo ++ h :: hi)) ->
     LSpec.contents l = A ++ B).
Proof.
  intros mid Hx Hwf Hc HA HB. unfold MQTTPersistence_wrapMsgID. rewrite Hx. cbn [mbind option_bind].
  assert (Hlen : length (items (c_outboundMsgs x)) = length (A ++ B)).
  { rewrite <- Hc. unfold LSpec.contents. by rewrite length_fmap. }
  assert (HAl : length A = S (length lo)) by (by apply mapM_Some, Forall2_length in HA).
  unfold wrap_list. rewrite (LSpec.wf_count _ Hwf). unfold zlen. rewrite Hlen, length_app.
  destruct (Z.ltb_spec 0 (Z.of_nat (length A + length B))); [|lia]. fold mid.
  assert (mapM mid (A ++ B) = Some (f :: lo ++ h :: hi)) as Hm.
  { apply mapM_Some. apply mapM_Some in HA, HB. exact (Forall2_app HA HB). }
  rewrite Hc, Hm. cbn [mbind option_bind].
  assert (Hlast : List.last (f :: lo ++ h :: hi) 0 = List.last (h :: hi) 0).
  { clear. revert f. induction lo as [|y lo IH]; intros f; [done|]. rewrite <- (IH y). done. }
  unfold wrap_point. rewrite Hlast.
  destruct (wrap_scan _ _ _ _ _) as [i|] eqn:Ew; (eexists; split; [reflexivity|]); (split; [|split]).
  - by apply rotate_wf.
  - intros H1 H2 H3. rewrite (wrap_scan_max lo f 1 _ None h hi _ eq_refl) in Ew by done.
    injection Ew as <-. unfold rotate, LSpec.contents in *; simpl.
    rewrite fmap_app, fmap_drop, fmap_take, Hc.
    replace (S (length lo)) with (length A) by lia. by rewrite drop_app_length, take_app_length.
  - intros Hg. by rewrite wrap_scan_none in Ew.
  - done.
  - intros H1 H2 H3. by rewrite (wrap_scan_max lo f 1 _ None h hi _ eq_refl) in Ew by done.
  - done.
Qed.

(** A client with the given outbound messages. *)
Definition ex_client {PS} (out : clist loc) : Clients PS :=
  MkClient (ConnectData [] None None 0 0 None) true true false 0 (MkNet 5 0 0) 0 0 10
    LSpec.empty out LSpec.empty 0 0 None.
Definition ex_world (msgs : gmap loc Messages) (out : clist loc) : world unit unit :=
  MkWorld (Net (SBuf ∅ 1%positive LSpec.empty ∅ LSpec.empty)
              (MkSockets LSpec.empty None LSpec.empty LSpec.empty ∅ ∅ 0 ∅ ∅) tt) tt
    (LSpec.append 1%positive 0 LSpec.empty) {[1%positive := ex_client out]} LSpec.empty ∅ msgs ∅ ∅ LSpec.empty LSpec.empty 0 0 0 [] true.

Example wrapMsgID_order_witness :
  let msg n := MkMsg 1 0 n 1 0 0 0 in
  let msgs : gmap loc Messages := {[1%positive := msg 1; 2%positive := msg 2; 3%positive := msg 65534;
                                    4%positive := msg 65535]} in
  let out := foldl (fun l x => LSpec.append x 8 l) LSpec.empty [1; 2; 3; 4]%positive in
  exists l, MQTTPersistence_wrapMsgID 1%positive (ex_world msgs out) =
      Some (tt, set_cl {[1%positive := set_outbound l (ex_client out)]} (ex_world msgs out)) /\
    LSpec.contents l = [3; 4; 1; 2]%positive.
Proof.
  intros msg msgs out.
  destruct (wrapMsgID_order 1%positive (ex_world msgs out) (ex_client out) [1; 2]%positive [3; 4]%positive 1 [2] 65534 [65535])
    as (l & E & _ & H & _).
  - done.
  - do 4 apply LSpec.append_wf. apply LSpec.wf_empty.
  - done.
  - done.
  - done.
  - exists l. split; [exact E|]. apply H; unfold MAX_MSG_ID; simpl; repeat constructor; lia.
Defined.

(** Keys and their buffers: the keys of messages fit the nine bytes
    allocated for them for every message id, and the key of a queue entry fits
    as long as the sequence number has at most six digits; from 1000000 on it
    overflows the buffer. *)
Theorem key_lengths msgId seqno :
  0 <= msgId <= MAX_MSG_ID -> 0 <= seqno ->
  (forall stem, stem ∈ [PERSISTENCE_PUBLISH_SENT; PERSISTENCE_PUBREL; PERSISTENCE_PUBLISH_RECEIVED] ->
     sprintf_key stem msgId = Some (stem +:+ pretty msgId)) /\
  (seqno < 1000000 -> sprintf_key PERSISTENCE_QUEUE_KEY seqno = Some (PERSISTENCE_QUEUE_KEY +:+ pretty seqno)) /\
  (1000000 <= seqno -> sprintf_key PERSISTENCE_QUEUE_KEY seqno = None).
Proof.
  intros Hm Hs. destruct (pretty_length msgId 5) as [H5 _]; [lia..|]. destruct (pretty_length seqno 6) as [H6 H7]; [lia..|].
  unfold MAX_MSG_ID in Hm. split; [|split].
  - intros stem Hin. apply sprintf_key_Some. specialize (H5 ltac:(lia)). unfold MAX_KEY_LENGTH.
    rewrite !elem_of_cons in Hin. destruct Hin as [->|[->|[->|[]%elem_of_nil]]]; simpl; lia.
  - intros Hlt. apply sprintf_key_Some. specialize (H6 ltac:(lia)). unfold MAX_KEY_LENGTH. simpl. lia.
  - intros Hge. apply sprintf_key_None. specialize (H7 ltac:(lia)). unfold MAX_KEY_LENGTH. simpl. lia.
Qed.

Example key_lengths_witness :
  sprintf_key PERSISTENCE_PUBREL 65535 = Some "sc-65535"%string /\
  sprintf_key PERSISTENCE_QUEUE_KEY 1000000 = None.
Proof.
  destruct (key_lengths 65535 1000000) as (H1 & _ & H3); [unfold MAX_MSG_ID; lia|lia|]. split.
  - apply (H1 PERSISTENCE_PUBREL). rewrite !elem_of_cons. tauto.
  - apply H3. lia.
Defined.
End Persistence.
