(* ===== verification/Send.v ===== *)
(** Model of the rest of [lib/MQTTPacket.c] and [lib/MQTTPacketOut.c], on the
    whole state: receiving a packet, and sending each kind of packet.

    The [networkHandles* net] of the code is always the [net] of a client, so
    the functions take the client's address.  Buffers are values: the flags that
    say which are freed after the write are passed on, the frees are not
    modelled. *)
From S2P Require Import Prelude ListSpec Packet SocketBuffer Socket Reader World Persistence.

Module Send.
Import Packet SocketBuffer Socket World Persistence.

(** What sending a PUBLISH uses of the network: handing over a socket, the first
    buffer, the other buffers and the flags that say which are freed.  In the
    program it is [Socket_putdatas]. *)
Class Transport (K PS : Type) := putdatas : Z -> list byte -> list (list byte) -> list Z -> M (world K PS) Z.
#[export] Instance socket_transport {K PS : Type} `{Kernel K} : Transport K PS :=
  fun socket buf0 buffers frees => onet (Socket_putdatas socket buf0 buffers frees).

Section code.
Context {K PS : Type} `{Kernel K}.
Variable junk : socket_queue.
Abbreviation P := (M (world K PS)).

Definition time : P Z := onet (sys k_time).

(** [time(&(net->lastSent))] and [time(&(net->lastReceived))]. *)
Definition stamp_sent (c : loc) : P unit :=
  t ← time; upd_client c (fun x => set_cnet (set_lastSent t (c_net x)) x).
Definition stamp_received (c : loc) : P unit :=
  t ← time; upd_client c (fun x => set_cnet (set_lastReceived t (c_net x)) x).

(** The error code and the packet ([None] is [NULL]).  An unknown packet type
    leaves the code of the reading. *)
Definition MQTTPacket_Factory (c : loc) : P (Z * option packet) :=
  x ← client c;
  let socket := nh_socket (c_net x) in
  r ← onet (Reader.Factory_read junk socket);
  match r with
  | (error, None) => mret (error, None)
  | (error, Some (header, remaining_length, data)) =>
      let ptype := hdr_type header in
      if (ptype <? CONNECT) || (DISCONNECT <? ptype) then mret (error, None)
      else match new_packets ptype with
      | None => mret (error, None)
      | Some build =>
          pack ← load (fun _ => build header data remaining_length);
          match pack with
          | None => mret (BAD_MQTT_PACKET, None)
          | Some pack =>
              error ← (match pack with
                | PPublish p =>
                    if (ptype =? PUBLISH) && (hdr_qos header =? 2) then
                      body ← load (fun _ => subz data 0 remaining_length);
                      MQTTPersistence_put socket (header :: MQTTPacket_encode remaining_length) [body]
                        ptype (pb_msgId p) 1
                    else mret error
                | _ => mret error
                end);
              stamp_received c;;
              mret (error, Some pack)
          end
      end
  end.

(** A [NULL] buffer of length 0 is empty. *)
Definition MQTTPacket_send (c : loc) (header : byte) (buffer : list byte) (free : Z) : P Z :=
  x ← client c;
  let socket := nh_socket (c_net x) in
  let buf := header :: MQTTPacket_encode (zlen buffer) in
  (if hdr_type header =? PUBREL then
     r ← load (fun _ => readInt buffer 0);
     _ ← MQTTPersistence_put socket buf [buffer] (hdr_type header) r.1 0;
     mret tt
   else mret tt);;
  rc ← onet (Socket_putdatas socket buf [buffer] [free]);
  when (rc =? TCPSOCKET_COMPLETE) (stamp_sent c);;
  mret rc.

Definition MQTTPacket_sends `{T : Transport K PS} (c : loc) (header : byte) (buffers : list (list byte)) (frees : list Z) : P Z :=
  x ← client c;
  let socket := nh_socket (c_net x) in
  let total := foldr (fun b n => zlen b + n) 0 buffers in
  let buf := header :: MQTTPacket_encode total in
  (if (hdr_type header =? PUBLISH) && negb (hdr_qos header =? 0) then
     ptraux ← load (fun _ => buffers !! 2%nat);
     r ← load (fun _ => readInt ptraux 0);
     _ ← MQTTPersistence_put socket buf buffers (hdr_type header) r.1 0;
     mret tt
   else mret tt);;
  rc ← putdatas socket buf buffers frees;
  when (rc =? TCPSOCKET_COMPLETE) (stamp_sent c);;
  mret rc.

Definition MQTTPacket_send_disconnect (c : loc) : P Z :=
  MQTTPacket_send c (set_type DISCONNECT 0) [] 0.

Definition MQTTPacket_send_pingreq (c : loc) : P Z :=
  MQTTPacket_send c (set_type PINGREQ 0) [] 0.

Definition MQTTPacket_send_ack (type msgid dup : Z) (c : loc) : P Z :=
  buf ← load (fun _ => run_write 2 (writeInt msgid));
  MQTTPacket_send c (ack_header_byte type dup) buf 1.

Definition MQTTPacket_send_puback (msgid : Z) (c : loc) : P Z := MQTTPacket_send_ack PUBACK msgid 0 c.
Definition MQTTPacket_send_pubrec (msgid : Z) (c : loc) : P Z := MQTTPacket_send_ack PUBREC msgid 0 c.
Definition MQTTPacket_send_pubrel (msgid dup : Z) (c : loc) : P Z := MQTTPacket_send_ack PUBREL msgid dup c.
Definition MQTTPacket_send_pubcomp (msgid : Z) (c : loc) : P Z := MQTTPacket_send_ack PUBCOMP msgid 0 c.

(** The strings of the client are C strings, without NUL. *)
Definition MQTTPacket_send_connect (c : loc) (MQTTVersion : Z) : P Z :=
  x ← client c;
  let len := connect_len (c_data x) MQTTVersion in
  match write_protocol MQTTVersion with
  | None => mret (-1)
  | Some wp =>
      buf ← load (fun _ => run_write len (wp;; write_connect (c_data x)));
      MQTTPacket_send c (set_type CONNECT 0) buf 1
  end.

(** A null topic pointer is undefined behaviour; the payload is
    [payloadlen] bytes. *)
Definition MQTTPacket_send_publish `{T : Transport K PS} (pack : Publish) (dup qos retained : Z) (c : loc) : P Z :=
  topic ← load (fun _ => pb_topic pack);
  payload ← load (fun _ => subz (pb_payload pack) 0 (pb_payloadlen pack));
  bs ← load (fun _ => publish_buffers (c_str topic) (pb_msgId pack) qos payload);
  MQTTPacket_sends c (publish_header dup qos retained) bs.1 bs.2.

Definition MQTTPacket_send_subscribe (topics : list (list byte)) (qoss : list Z) (msgid dup : Z) (c : loc) : P Z :=
  data ← load (fun _ => run_write (subscribe_len topics) (write_subscribe topics qoss msgid));
  MQTTPacket_send c (subscribe_header SUBSCRIBE dup) data 1.

Definition MQTTPacket_send_unsubscribe (topics : list (list byte)) (msgid dup : Z) (c : loc) : P Z :=
  data ← load (fun _ => run_write (unsubscribe_len topics) (write_unsubscribe topics msgid));
  MQTTPacket_send c (subscribe_header UNSUBSCRIBE dup) data 1.
End code.
End Send.
