(* ===== verification/Store.v ===== *)
(** Model of the stored publications and messages of
    [lib/MQTTProtocolClient.c] and of the delivery queue of [lib/MQTTClient.c]:
    publications shared by reference counts, messages in flight, publications
    kept for unfinished writes, and the queue of arrived messages.

    [uninit] is the value of the fields that the code leaves uninitialised, and
    [heap] says whether a topic string was allocated by the library
    ([Heap_findItem]): such a string is taken over, any other is copied. *)
From S2P Require Import Prelude ListSpec Packet SocketBuffer Socket World Persistence Send.

Module Store.
Import Packet SocketBuffer Socket World Persistence Send.

Definition sizeof_Messages : Z := 40.
Definition sizeof_Publications : Z := 32.
Definition sizeof_pending_write : Z := 16.

Section code.
Context {K PS : Type} `{Kernel K}.
Variable uninit : Z.
Abbreviation P := (M (world K PS)).

Implicit Types (get : Clients PS -> clist loc) (set : clist loc -> Clients PS -> Clients PS).

(** [ListAppend(client->list, m, size)]. *)
Definition append_elem get set (c m : loc) (size : Z) : P unit :=
  upd_client c (fun x => set (LSpec.append m size (get x)) x).

(** [ListRemove(&(state.publications), p)], which frees [p] if it is there. *)
Definition remove_from_publications (p : loc) : P unit := fun w =>
  let '(r, l) := LSpec.unlink (fun y => bool_decide (y = p)) (w_publications w) in
  match r with
  | Some _ => free_publication p (set_publications l w)
  | None => Some (tt, set_publications l w)
  end.

(** [ListRemove(client->list, m)], which frees [m] if it is there. *)
Definition remove_message get set (c m : loc) : P unit := fun w =>
  x ← w_cl w !! c;
  let '(r, l) := LSpec.unlink (fun y => bool_decide (y = m)) (get x) in
  let w' := set_cl (<[c := set l x]> (w_cl w)) w in
  match r with
  | Some _ => free_message m w'
  | None => Some (tt, w')
  end.

(** The publication and [*len]. *)
Definition MQTTProtocol_storePublication (heap : bool) (publish : Publish) : P (loc * Z) :=
  topic ← load (fun _ => pb_topic publish);
  payload ← load (fun _ => subz (pb_payload publish) 0 (pb_payloadlen publish));
  let len := int_wrap (zlen (c_str topic) + 1 + sizeof_Publications + pb_payloadlen publish) in
  p ← new_publication (MkPub (if heap then topic else c_str topic) (pb_topiclen publish)
                             payload (pb_payloadlen publish) 1);
  modify (fun w => set_publications (LSpec.append p len (w_publications w)) w);;
  mret (p, len).

Definition MQTTProtocol_removePublication (p : loc) : P unit :=
  x ← publication p;
  let n := int_wrap (p_refcount x - 1) in
  upd_publication p (set_refcount n);;
  when (n =? 0) (remove_from_publications p).

(** [mm] is the message whose publication is shared, if any. *)
Definition MQTTProtocol_createMessage (heap : bool) (publish : Publish) (mm : option loc) (qos retained : Z) : P loc :=
  r ← (match mm with
       | None =>
           r ← MQTTProtocol_storePublication heap publish;
           mret (r.1, int_wrap (sizeof_Messages + r.2))
       | Some m0 =>
           x ← message m0;
           upd_publication (m_publish x) (fun p => set_refcount (int_wrap (p_refcount p + 1)) p);;
           mret (m_publish x, sizeof_Messages)
       end);
  let '(p, len) := (r : loc * Z) in
  t ← time;
  new_message (MkMsg qos retained (pb_msgId publish) p t (if qos =? 2 then PUBREC else uninit) len).

(** The loop of [MQTTProtocol_emptyMessageList] over the messages. *)
Fixpoint remove_publications (ms : list loc) : P unit :=
  match ms with
  | [] => mret tt
  | m :: ms' =>
      x ← message m;
      MQTTProtocol_removePublication (m_publish x);;
      remove_publications ms'
  end.

(** Freeing the contents of a list ([ListEmpty]). *)
Fixpoint free_messages (ms : list loc) : P unit :=
  match ms with
  | [] => mret tt
  | m :: ms' => free_message m;; free_messages ms'
  end.
Fixpoint free_entries (qs : list loc) : P unit :=
  match qs with
  | [] => mret tt
  | q :: qs' => free_entry q;; free_entries qs'
  end.

Definition MQTTProtocol_emptyMessageList get set (c : loc) : P unit :=
  x ← client c;
  let ms := LSpec.contents (get x) in
  remove_publications ms;;
  free_messages ms;;
  upd_client c (set LSpec.empty).

(** The list itself is freed too. *)
Definition MQTTProtocol_freeMessageList get set (c : loc) : P unit :=
  MQTTProtocol_emptyMessageList get set c.

(** The strings and payloads are part of the entries. *)
Definition MQTTClient_emptyMessageQueue (c : loc) : P unit :=
  x ← client c;
  when (0 <? cnt (c_messageQueue x))
    (free_entries (LSpec.contents (c_messageQueue x));;
     upd_client c (set_queue LSpec.empty)).

(** The topic is taken over, and so is the payload for QoS 2. *)
Definition Protocol_processPublication (publish : Publish) (c : loc) : P unit :=
  topic ← load (fun _ => pb_topic publish);
  let qos := hdr_qos (pb_header publish) in
  payload ← load (fun _ =>
    if qos =? 2 then Some (pb_payload publish)
    else subz (pb_payload publish) 0 (pb_payloadlen publish));
  let mm := MkMessage (pb_payloadlen publish) payload qos (hdr_retain (pb_header publish))
              (if qos =? 2 then 0 else hdr_dup (pb_header publish)) (pb_msgId publish) in
  q ← new_entry (MkEntry mm topic (pb_topiclen publish) uninit);
  append_elem c_messageQueue set_queue c q (16 + pb_payloadlen publish + zlen (c_str topic) + 1);;
  x ← client c;
  when (bool_decide (is_Some (c_persistence x)))
    (_ ← MQTTPersistence_persistQueueEntry c q; mret tt).

(** * Publications of unfinished QoS 0 writes *)

Definition MQTTProtocol_storeQoS0 (heap : bool) (c : loc) (publish : Publish) : P unit :=
  r ← MQTTProtocol_storePublication heap publish;
  let '(p, len) := (r : loc * Z) in
  x ← client c;
  let socket := nh_socket (c_net x) in
  modify (fun w => set_pending
    (LSpec.append (fresh ((LSpec.contents (w_pending w)).*1), MkPW socket p) (sizeof_pending_write + len) (w_pending w)) w);;
  pub ← publication p;
  _ ← onet (buf (SocketBuffer_updateWrite socket (p_topic pub) (p_payload pub)));
  mret tt.

(** [le] is the address of the current element; each step removes an element or
    moves on. *)
Fixpoint checkPendingWrites_loop (fuel : nat) (le : option loc) : P unit :=
  match le with
  | None => mret tt
  | Some a =>
      match fuel with
      | O => undefined
      | S fuel' =>
          pw ← load (fun w => LSpec.elem_content (w_pending w) a);
          np ← onet (Socket_noPendingWrites (pwr_socket pw.2));
          if (np : bool) then
            MQTTProtocol_removePublication (pwr_p pw.2);;
            modify (fun w => set_pending
              (LSpec.unlink (fun y => bool_decide (y.1 = pw.1)) (LSpec.with_cur (Some a) (w_pending w))).2 w);;
            n ← gets (fun w => cur (w_pending w));
            checkPendingWrites_loop fuel' n
          else
            n ← load (fun w => LSpec.next_element (w_pending w) (Some a));
            checkPendingWrites_loop fuel' n
      end
  end.

Definition MQTTProtocol_checkPendingWrites : P unit :=
  l ← gets w_pending;
  when (0 <? cnt l) (checkPendingWrites_loop (S (length (items l))) (fst <$> head (items l))).

(** [ListFindItem(handles, &socket, clientSockCompare)]: the client of the
    handle found. *)
Definition find_handle (socket : Z) : P (option loc) := fun w =>
  let '(r, l) := LSpec.find_item (clientSocketCompare w socket) (w_handles w) in
  Some (match r with Some a => LSpec.elem_content l a | None => None end, set_handles l w).

(** The callback of [Socket_continueWrites]. *)
Definition MQTTClient_writeComplete (socket : Z) : P unit :=
  MQTTProtocol_checkPendingWrites;;
  found ← find_handle socket;
  match found with
  | Some c => stamp_sent c
  | None => mret tt
  end.
End code.
End Store.
