(* ===== verification/Session.v ===== *)
(** Model of closing sessions in [lib/MQTTClient.c]: the clean-up of a session,
    the disconnection of a client, and the notification of the application.

    The waiting for messages in flight of [MQTTClient_disconnect1] is a
    parameter; it is empty for the internal disconnections, whose timeout is 0.
    The semaphores and the background thread are not modelled. *)
From S2P Require Import Prelude ListSpec Packet SocketBuffer Socket World Persistence Send Store.

Module Session.
Import Packet SocketBuffer Socket World Persistence Send Store.

Definition MQTTCLIENT_SUCCESS : Z := 0.
Definition MQTTCLIENT_FAILURE : Z := -1.
Definition MQTTCLIENT_DISCONNECTED : Z := -3.

Section code.
Context {K PS : Type} `{Kernel K}.
Abbreviation P := (M (world K PS)).

Definition MQTTClient_cleanSession (c : loc) : P Z :=
  rc ← MQTTPersistence_clear c;
  MQTTProtocol_emptyMessageList c_inboundMsgs set_inbound c;;
  MQTTProtocol_emptyMessageList c_outboundMsgs set_outbound c;;
  MQTTClient_emptyMessageQueue c;;
  upd_client c (set_msgID 0);;
  mret rc.

Definition MQTTClient_closeSession (c : loc) : P unit :=
  upd_client c (set_good false);;
  upd_client c (set_ping false);;
  x ← client c;
  when (0 <? nh_socket (c_net x))
    (when (c_connected x) (_ ← MQTTPacket_send_disconnect c; mret tt);;
     onet (Socket_close (nh_socket (c_net x)));;
     upd_client c (fun x => set_cnet (set_socket 0 (c_net x)) x));;
  upd_client c (set_connected false);;
  upd_client c (set_connect_state 0);;
  x ← client c;
  when (negb (cd_cleansession (c_data x) =? 0)) (_ ← MQTTClient_cleanSession c; mret tt).

(** [Thread_start(connectionLost_call, m)]. *)
Definition notify_lost (call_connection_lost was_connected : bool) (c : loc) : P unit :=
  m ← load (fun w => w_ms w !! c);
  when (call_connection_lost && m_cl m && was_connected) (modify (add_event (ConnectionLost c))).

Definition MQTTClient_disconnect1 (wait : P unit) (c : loc) (call_connection_lost : bool) : P Z :=
  x ← client c;
  if negb (c_connected x) && (c_connect_state x =? 0) then
    notify_lost call_connection_lost false c;;
    mret MQTTCLIENT_DISCONNECTED
  else
    when (c_connected x) (upd_client c (set_connect_state (-2));; wait);;
    MQTTClient_closeSession c;;
    notify_lost call_connection_lost (c_connected x) c;;
    mret MQTTCLIENT_SUCCESS.

(** With timeout 0, [elapsed >= timeout] ends the waiting at once: it looks at the
    clock twice in a row and does nothing else ([Yield.disconnect_wait_now]), and
    the looks are left out.  A clock that is set back between these two looks
    would make the code wait, by a call of [MQTTClient_yield]. *)
Definition MQTTClient_disconnect_internal (c : loc) : P Z :=
  MQTTClient_disconnect1 (mret tt) c true.

Definition MQTTProtocol_closeSession (c : loc) : P unit :=
  _ ← MQTTClient_disconnect_internal c; mret tt.
End code.
End Session.
