(* ===== verification/Protocol.v ===== *)
(** Model of the protocol of [lib/MQTTProtocolClient.c] and
    [lib/MQTTProtocolOut.c]: message ids, the exchanges that publish and receive
    messages with QoS 0, 1 and 2, keep-alive, retries and connecting. *)
From S2P Require Import Prelude ListSpec Packet SocketBuffer Socket World Persistence Send Store Session.

Module Protocol.
Import Packet SocketBuffer Socket World Persistence Send Store Session.

Definition DEFAULT_PORT : Z := 1883.

(** * Strings *)

Definition put_at (dest : list byte) (i : Z) (c : byte) : option (list byte) :=
  if bool_decide (0 <= i < zlen dest) then Some (<[Z.to_nat i := c]> dest) else None.

(** [while (count > 1 && ( *temp++ = *src++)) count--]: the destination and
    [temp]. *)
Fixpoint strncpy_loop (count : nat) (dest : list byte) (temp : Z) (src : list byte) :
    option (list byte * Z) :=
  match count with
  | S (S _ as count') =>
      match src with
      | [] => None
      | c :: src' =>
          dest' ← put_at dest temp c;
          if c =? 0 then Some (dest', temp + 1) else strncpy_loop count' dest' (temp + 1) src'
      end
  | _ => Some (dest, temp)
  end.

(** [src] is what is readable at the source. *)
Definition MQTTStrncpy (dest src : list byte) (dest_size : Z) : option (list byte) :=
  r ← strncpy_loop (Z.to_nat dest_size) dest 0 src;
  put_at r.1 r.2 0.

(** [junk] is the allocated memory. *)
Definition MQTTStrdup (junk src : list byte) : option (list byte) :=
  n ← strlen_at src;
  if bool_decide (zlen junk = n + 1) then MQTTStrncpy junk src (n + 1) else None.

(** [strrchr], as an index. *)
Fixpoint strrchr_from (s : list byte) (c : byte) (i : Z) (found : option Z) : option Z :=
  match s with
  | [] => found
  | x :: s' => strrchr_from s' c (i + 1) (if x =? c then Some i else found)
  end.
Definition strrchr (s : list byte) (c : byte) : option Z := strrchr_from s c 0 None.

(** [atoi] on a C string. *)
Fixpoint atoi_digits (s : list byte) (n : Z) : Z :=
  match s with
  | [] => n
  | c :: s' => if (48 <=? c) && (c <=? 57) then atoi_digits s' (10 * n + (c - 48)) else n
  end.
Fixpoint atoi (s : list byte) : Z :=
  match s with
  | [] => 0
  | c :: s' =>
      if (c =? 32) || ((9 <=? c) && (c <=? 13)) then atoi s'
      else int_wrap (if c =? 45 then - atoi_digits s' 0
                     else if c =? 43 then atoi_digits s' 0
                     else atoi_digits s 0)
  end.

(** The address, the port, and the string at [uri] afterwards: without a port,
    the address is [uri] itself, and a closing bracket is overwritten there.
    An empty address is indexed at [-1], which is undefined. *)
Definition MQTTProtocol_addressPort (uri : list byte) : option (list byte * Z * list byte) :=
  let colon_pos := strrchr uri 58 (* ':' *) in
  let colon_pos :=
    if bool_decide (head uri = Some 91 (* '[' *)) then
      match strrchr uri 93 (* ']' *), colon_pos with
      | Some b, Some a => if a <? b then None else colon_pos
      | _, _ => colon_pos
      end
    else colon_pos in
  let '(buf, port) :=
    match colon_pos with
    | Some a => (take (Z.to_nat a) uri, atoi (drop (Z.to_nat (a + 1)) uri))
    | None => (uri, DEFAULT_PORT)
    end in
  l ← nthz buf (zlen buf - 1);
  let addr := if l =? 93 then take (Z.to_nat (zlen buf - 1)) buf else buf in
  Some (addr, port, match colon_pos with Some _ => uri | None => addr end).

Section code.
Context {K PS : Type} `{Kernel K}.
Variable junk : socket_queue.
Variable uninit : Z.
Abbreviation P := (M (world K PS)).

(** * Message ids *)

Definition next_msgid (msgid : Z) : Z := if msgid =? MAX_MSG_ID then 1 else msgid + 1.

(** [None] when the ids tried are all in use and [start_msgid] is not met: the
    code does not terminate. *)
Fixpoint assign_loop (fuel : nat) (c : loc) (start_msgid msgid : Z) : P Z :=
  match fuel with
  | O => undefined
  | S fuel' =>
      r ← find_msg c_outboundMsgs set_outbound c msgid;
      match r with
      | None => mret msgid
      | Some _ =>
          let msgid := next_msgid msgid in
          if msgid =? start_msgid then mret 0 else assign_loop fuel' c start_msgid msgid
      end
  end.

Definition MQTTProtocol_assignMsgId (c : loc) : P Z :=
  x ← client c;
  let start_msgid := c_msgID x in
  msgid ← assign_loop (Z.to_nat MAX_MSG_ID) c start_msgid (next_msgid start_msgid);
  when (negb (msgid =? 0)) (upd_client c (set_msgID msgid));;
  mret msgid.

(** * Publishing *)

Definition MQTTProtocol_startPublishCommon `{T : Transport K PS} (heap : bool) (pubclient : loc) (publish : Publish) (qos retained : Z) : P Z :=
  rc ← MQTTPacket_send_publish publish 0 qos retained pubclient;
  when ((qos =? 0) && (rc =? TCPSOCKET_INTERRUPTED)) (MQTTProtocol_storeQoS0 heap pubclient publish);;
  mret rc.

(** The code and the message ([*mm]). *)
Definition MQTTProtocol_startPublish `{T : Transport K PS} (heap : bool) (pubclient : loc) (publish : Publish) (qos retained : Z)
    (mm : option loc) : P (Z * option loc) :=
  if 0 <? qos then
    m ← MQTTProtocol_createMessage uninit heap publish mm qos retained;
    x ← message m;
    append_elem c_outboundMsgs set_outbound pubclient m (m_len x);;
    pub ← publication (m_publish x);
    rc ← MQTTProtocol_startPublishCommon heap pubclient
      (MkPublish (pb_header publish) (Some (p_topic pub)) (pb_topiclen publish) (pb_msgId publish)
                 (p_payload pub) (pb_payloadlen publish)) qos retained;
    mret (rc, Some m)
  else
    rc ← MQTTProtocol_startPublishCommon heap pubclient publish qos retained;
    mret (rc, mm).

(** The packets received are in storage of the library. *)
Definition MQTTProtocol_handlePublishes (publish : Publish) (sock : Z) : P Z :=
  c ← find_client sock;
  let qos := hdr_qos (pb_header publish) in
  if qos =? 0 then Protocol_processPublication uninit publish c;; mret TCPSOCKET_COMPLETE
  else if qos =? 1 then
    rc ← MQTTPacket_send_puback (pb_msgId publish) c;
    Protocol_processPublication uninit publish c;;
    mret rc
  else if qos =? 2 then
    r ← MQTTProtocol_storePublication true publish;
    let '(p, len) := (r : loc * Z) in
    m ← new_message (MkMsg qos (hdr_retain (pb_header publish)) (pb_msgId publish) p uninit PUBREL uninit);
    f ← find_msg c_inboundMsgs set_inbound c (pb_msgId publish);
    (match f with
     | Some msg =>
         y ← message msg;
         MQTTProtocol_removePublication (m_publish y);;
         x ← client c;
         l ← load (fun _ => LSpec.insert m (sizeof_Messages + len) (cur (c_inboundMsgs x)) (c_inboundMsgs x));
         upd_client c (set_inbound l);;
         remove_message c_inboundMsgs set_inbound c msg
     | None => append_elem c_inboundMsgs set_inbound c m (sizeof_Messages + len)
     end);;
    MQTTPacket_send_pubrec (pb_msgId publish) c
  else mret TCPSOCKET_COMPLETE.

Definition MQTTProtocol_handlePubacks (puback : Ack) (sock : Z) : P Z :=
  c ← find_client sock;
  f ← find_msg c_outboundMsgs set_outbound c (ack_msgId puback);
  match f with
  | None => mret TCPSOCKET_COMPLETE
  | Some m =>
      x ← message m;
      if negb (m_qos x =? 1) then mret TCPSOCKET_COMPLETE
      else
        rc ← MQTTPersistence_remove c PERSISTENCE_PUBLISH_SENT (m_qos x) (ack_msgId puback);
        MQTTProtocol_removePublication (m_publish x);;
        remove_message c_outboundMsgs set_outbound c m;;
        mret rc
  end.

Definition touch (m : loc) : P unit := t ← time; upd_message m (set_lastTouch t).

Definition MQTTProtocol_handlePubrecs (pubrec : Ack) (sock : Z) : P Z :=
  c ← find_client sock;
  upd_client c (fun x => set_outbound (LSpec.with_cur None (c_outboundMsgs x)) x);;
  f ← find_msg c_outboundMsgs set_outbound c (ack_msgId pubrec);
  match f with
  | None => mret TCPSOCKET_COMPLETE
  | Some m =>
      x ← message m;
      if negb (m_qos x =? 2) then mret TCPSOCKET_COMPLETE
      else if negb (m_nextMessageType x =? PUBREC) then mret TCPSOCKET_COMPLETE
      else
        rc ← MQTTPacket_send_pubrel (ack_msgId pubrec) 0 c;
        upd_message m (set_nextMessageType PUBCOMP);;
        touch m;;
        mret rc
  end.

(** The publication of the message is handed over to the delivery queue. *)
Definition MQTTProtocol_handlePubrels (pubrel : Ack) (sock : Z) : P Z :=
  c ← find_client sock;
  f ← find_msg c_inboundMsgs set_inbound c (ack_msgId pubrel);
  match f with
  | None =>
      if hdr_dup (ack_header pubrel) =? 0 then mret TCPSOCKET_COMPLETE
      else MQTTPacket_send_pubcomp (ack_msgId pubrel) c
  | Some m =>
      x ← message m;
      if negb (m_qos x =? 2) then mret TCPSOCKET_COMPLETE
      else if negb (m_nextMessageType x =? PUBREL) then mret TCPSOCKET_COMPLETE
      else
        rc ← MQTTPacket_send_pubcomp (ack_msgId pubrel) c;
        pub ← publication (m_publish x);
        Protocol_processPublication uninit
          (MkPublish (set_retain (m_retain x) (set_qos (m_qos x) (to_char uninit))) (Some (p_topic pub))
             (p_topiclen pub) (m_msgid x) (p_payload pub) (p_payloadlen pub)) c;;
        rc' ← MQTTPersistence_remove c PERSISTENCE_PUBLISH_RECEIVED (m_qos x) (ack_msgId pubrel);
        remove_from_publications (m_publish x);;
        remove_message c_inboundMsgs set_inbound c m;;
        modify (add_received 1);;
        mret (rc + rc')
  end.

Definition MQTTProtocol_handlePubcomps (pubcomp : Ack) (sock : Z) : P Z :=
  c ← find_client sock;
  f ← find_msg c_outboundMsgs set_outbound c (ack_msgId pubcomp);
  match f with
  | None => mret TCPSOCKET_COMPLETE
  | Some m =>
      x ← message m;
      if negb (m_qos x =? 2) then mret TCPSOCKET_COMPLETE
      else if negb (m_nextMessageType x =? PUBCOMP) then mret TCPSOCKET_COMPLETE
      else
        rc ← MQTTPersistence_remove c PERSISTENCE_PUBLISH_SENT (m_qos x) (ack_msgId pubcomp);
        MQTTProtocol_removePublication (m_publish x);;
        remove_message c_outboundMsgs set_outbound c m;;
        modify (add_sent 1);;
        mret rc
  end.

Definition MQTTProtocol_handlePingresps (sock : Z) : P Z :=
  c ← find_client sock;
  upd_client c (set_ping false);;
  mret TCPSOCKET_COMPLETE.

(** The packets are only freed. *)
Definition MQTTProtocol_handleSubacks (suback : Suback) (sock : Z) : P Z :=
  _ ← find_client sock; mret TCPSOCKET_COMPLETE.
Definition MQTTProtocol_handleUnsubacks (unsuback : Ack) (sock : Z) : P Z :=
  _ ← find_client sock; mret TCPSOCKET_COMPLETE.

Definition MQTTProtocol_subscribe (c : loc) (topics : list (list byte)) (qoss : list Z) (msgID : Z) : P Z :=
  MQTTPacket_send_subscribe topics qoss msgID 0 c.
Definition MQTTProtocol_unsubscribe (c : loc) (topics : list (list byte)) (msgID : Z) : P Z :=
  MQTTPacket_send_unsubscribe topics msgID 0 c.

(** * Keep-alive and retries *)

Definition keepalive_client (now : Z) (c : loc) : P unit :=
  x ← client c;
  let k := cd_keepAliveInterval (c_data x) in
  when (c_connected x && (0 <? k) &&
        ((k <=? now - lastSent (c_net x)) || (k <=? now - lastReceived (c_net x))))
    (if negb (c_ping_outstanding x) then
       np ← onet (Socket_noPendingWrites (nh_socket (c_net x)));
       when np
         (rc ← MQTTPacket_send_pingreq c;
          if negb (rc =? TCPSOCKET_COMPLETE) then MQTTProtocol_closeSession c
          else
            upd_client c (fun x => set_cnet (set_lastSent now (c_net x)) x);;
            upd_client c (set_ping true))
     else MQTTProtocol_closeSession c).

(** No element of [bstate->clients] is removed meanwhile. *)
Fixpoint keepalive_loop (now : Z) (cs : list loc) : P unit :=
  match cs with
  | [] => mret tt
  | c :: cs' => keepalive_client now c;; keepalive_loop now cs'
  end.

Definition MQTTProtocol_keepalive (now : Z) : P unit :=
  l ← gets w_clients; keepalive_loop now (LSpec.contents l).

(** Retrying one message: [true] when the session was closed. *)
Definition retry_message (c m : loc) : P bool :=
  x ← message m;
  if (m_qos x =? 1) || ((m_qos x =? 2) && (m_nextMessageType x =? PUBREC)) then
    pub ← publication (m_publish x);
    let publish := MkPublish (to_char uninit) (Some (p_topic pub)) uninit (m_msgid x) (p_payload pub) (p_payloadlen pub) in
    rc ← MQTTPacket_send_publish publish 1 (m_qos x) (m_retain x) c;
    if rc =? SOCKET_ERROR then
      upd_client c (set_good false);; MQTTProtocol_closeSession c;; mret true
    else
      when ((m_qos x =? 0) && (rc =? TCPSOCKET_INTERRUPTED)) (MQTTProtocol_storeQoS0 true c publish);;
      touch m;; mret false
  else if negb (m_qos x =? 0) && (m_nextMessageType x =? PUBCOMP) then
    rc ← MQTTPacket_send_pubrel (m_msgid x) 0 c;
    if negb (rc =? TCPSOCKET_COMPLETE) then
      upd_client c (set_good false);; MQTTProtocol_closeSession c;; mret true
    else touch m;; mret false
  else mret false.

(** The loop over the messages; it ends when the session is closed. *)
Fixpoint retries_loop (now : Z) (c : loc) (regardless : bool) (ms : list loc) : P unit :=
  match ms with
  | [] => mret tt
  | m :: ms' =>
      x ← client c;
      if negb (c_connected x && c_good x) then mret tt
      else
        np ← onet (Socket_noPendingWrites (nh_socket (c_net x)));
        if negb np then mret tt
        else
          y ← message m;
          closed ← (if regardless || (Z.max (c_retryInterval x) 10 <? now - m_lastTouch y)
                    then retry_message c m else mret false);
          if (closed : bool) then mret tt else retries_loop now c regardless ms'
  end.

Definition MQTTProtocol_retries (now : Z) (c : loc) (regardless : bool) : P unit :=
  x ← client c;
  if negb regardless && (c_retryInterval x <=? 0) then mret tt
  else retries_loop now c regardless (LSpec.contents (c_outboundMsgs x)).

Fixpoint retry_loop (now : Z) (doRetry regardless : bool) (cs : list loc) : P unit :=
  match cs with
  | [] => mret tt
  | c :: cs' =>
      x ← client c;
      (if negb (c_connected x) then mret tt
       else if negb (c_good x) then MQTTProtocol_closeSession c
       else
         np ← onet (Socket_noPendingWrites (nh_socket (c_net x)));
         when (np && doRetry) (MQTTProtocol_retries now c regardless));;
      retry_loop now doRetry regardless cs'
  end.

Definition MQTTProtocol_retry (now : Z) (doRetry regardless : bool) : P unit :=
  l ← gets w_clients; retry_loop now doRetry regardless (LSpec.contents l).

(** * Clients *)

(** The strings are part of the client; the structure itself is freed
    elsewhere. *)
Definition MQTTProtocol_freeClient (c : loc) : P unit :=
  MQTTProtocol_freeMessageList c_outboundMsgs set_outbound c;;
  MQTTProtocol_freeMessageList c_inboundMsgs set_inbound c;;
  x ← client c;
  free_entries (LSpec.contents (c_messageQueue x));;
  upd_client c (set_queue LSpec.empty).

(** The code, and the string at [ip_address] afterwards. *)
Definition MQTTProtocol_connect (ip_address : list byte) (c : loc) (MQTTVersion : Z) : P (Z * list byte) :=
  upd_client c (set_good true);;
  a ← load (fun _ => MQTTProtocol_addressPort ip_address);
  let '(addr, port, uri) := (a : list byte * Z * list byte) in
  r ← onet (Socket_new addr port);
  let '(rc, sock) := (r : Z * Z) in
  upd_client c (fun x => set_cnet (set_socket sock (c_net x)) x);;
  if (rc =? EINPROGRESS) || (rc =? EWOULDBLOCK) then
    upd_client c (set_connect_state 1);; mret (rc, uri)
  else if rc =? 0 then
    rc ← MQTTPacket_send_connect c MQTTVersion;
    upd_client c (set_connect_state (if rc =? 0 then 3 else 0));;
    mret (rc, uri)
  else mret (rc, uri).
End code.
End Protocol.
