(* ===== verification/Footprint.v ===== *)
(** Footprints: what a handler can touch besides the messages.  A relation between
    states that holds for the elementary changes of the network holds for every
    operation of the protocol; this is used for the writing side of the network
    and for the sequence numbers of delivery queues. *)
From S2P Require Import Prelude ListSpec Packet SocketBuffer Socket Reader Writer Wire World Persistence Send Store Session Protocol.

Module Footprint.
Import Packet SocketBuffer Socket Wire World Persistence Send Store Session Protocol.

Section footprint.
Context {K PS : Type} `{Kernel K}.
Implicit Types (w : world K PS) (x : Clients PS).
Abbreviation P := (M (world K PS)).

(** The sequence numbers of the delivery queues. *)
Definition seqnos w : gmap loc Z := c_qentry_seqno <$> w_cl w.

Record footprint (R : world K PS -> world K PS -> Prop) : Prop := {
  fp_refl : Reflexive R;
  fp_trans : Transitive R;
  fp_same w w' : w_net w' = w_net w -> seqnos w' = seqnos w -> R w w';
  fp_time w t n : sys k_time (w_net w) = Some (t, n) -> R w (set_net n w);
  fp_pending w s b n : Socket_noPendingWrites s (w_net w) = Some (b, n) -> R w (set_net n w);
  fp_putdatas w s b0 bs fs rc n : Socket_putdatas s b0 bs fs (w_net w) = Some (rc, n) -> R w (set_net n w);
  fp_update w s t p r n : buf (SocketBuffer_updateWrite s t p) (w_net w) = Some (r, n) -> R w (set_net n w) }.

Section within.
Variable R : world K PS -> world K PS -> Prop.
Hypothesis F : footprint R.

Definition within {A} (m : P A) : Prop := forall w a w', m w = Some (a, w') -> R w w'.

Lemma within_bind {A B} (m : P A) (f : A -> P B) : within m -> (forall a, within (f a)) -> within (m ≫= f).
Proof. intros Hm Hf w b w' (a & w1 & E1 & E2)%bind_Some. eapply (fp_trans _ F); [by eapply Hm|by eapply Hf]. Qed.

(** Neither the network nor a sequence number changes. *)
Lemma within_still {A} (m : P A) :
  (forall w a w', m w = Some (a, w') -> w_net w' = w_net w /\ seqnos w' = seqnos w) -> within m.
Proof. intros Hm w a w' E. destruct (Hm _ _ _ E). by apply F. Qed.

Lemma seqnos_insert (f : Clients PS -> Clients PS) (cl : gmap loc (Clients PS)) c x :
  cl !! c = Some x -> c_qentry_seqno (f x) = c_qentry_seqno x -> c_qentry_seqno <$> <[c := f x]> cl = c_qentry_seqno <$> cl.
Proof. intros Hx Hf. rewrite fmap_insert, Hf. apply insert_id. by rewrite lookup_fmap, Hx. Qed.

Lemma within_ret {A} (a : A) : within (mret a).
Proof. apply within_still. by intros w b w' [= _ <-]. Qed.
Lemma within_undefined {A} : within (undefined : P A).
Proof. done. Qed.
Lemma within_load {A} (f : world K PS -> option A) : within (load f).
Proof. apply within_still. unfold load. intros w a w' E. destruct (f w); [|done]. by injection E as _ <-. Qed.
Lemma within_gets {A} (f : world K PS -> A) : within (gets f).
Proof. apply within_still. by intros w b w' [= _ <-]. Qed.
Lemma within_modify (f : world K PS -> world K PS) : (forall w, w_net (f w) = w_net w /\ w_cl (f w) = w_cl w) -> within (modify f).
Proof.
  intros Hf. apply within_still. intros w a w' [= _ <-]. destruct (Hf w) as [-> E]. split; [done|]. unfold seqnos. by rewrite E.
Qed.
Lemma within_upd_client c f : (forall x, c_qentry_seqno (f x) = c_qentry_seqno x) -> within (upd_client c f).
Proof.
  intros Hf. apply within_still. unfold upd_client. intros w a w' E. destruct (w_cl w !! c) as [x|] eqn:Hx; [|done].
  injection E as _ <-. split; [done|]. by apply seqnos_insert.
Qed.
Lemma within_upd_publication p f : within (upd_publication p f).
Proof. apply within_still. unfold upd_publication. intros w a w' E. destruct (w_pubs w !! p); [|done]. by injection E as _ <-. Qed.
Lemma within_upd_message m f : within (upd_message m f).
Proof. apply within_still. unfold upd_message. intros w a w' E. destruct (w_msgs w !! m); [|done]. by injection E as _ <-. Qed.
Lemma within_ops {A} (f : PS -> A * PS) : within (ops f).
Proof. apply within_still. unfold ops. intros w a w' E. destruct (f (w_ps w)). by injection E as _ <-. Qed.
Lemma within_new_message v : within (new_message v).
Proof. apply within_still. by intros w a w' [= _ <-]. Qed.
Lemma within_new_publication v : within (new_publication v).
Proof. apply within_still. by intros w a w' [= _ <-]. Qed.
Lemma within_new_entry v : within (new_entry v).
Proof. apply within_still. by intros w a w' [= _ <-]. Qed.
Lemma within_find_client sock : within (find_client sock).
Proof.
  apply within_still. unfold find_client. intros w a w' E. destruct (LSpec.find_item _ _) as [[r|] l]; [|done].
  cbn [mbind option_bind] in E. destruct (LSpec.elem_content _ _); [|done]. by injection E as _ <-.
Qed.
Lemma within_find_handle sock : within (find_handle sock).
Proof. apply within_still. unfold find_handle. intros w a w' E. destruct (LSpec.find_item _ _) as [r l]. by injection E as _ <-. Qed.
Lemma within_find_msg get set c id : (forall l x, c_qentry_seqno (set l x) = c_qentry_seqno x) -> within (find_msg get set c id).
Proof.
  intros Hs. apply within_still. unfold find_msg. intros w a w' E. destruct (w_cl w !! c) as [x|] eqn:Hx; [|done].
  cbn [mbind option_bind] in E. destruct (LSpec.find_item _ _) as [r l]. injection E as _ <-. split; [done|].
  by apply (seqnos_insert (set l)).
Qed.
Lemma within_remove_from_publications p : within (remove_from_publications p).
Proof.
  apply within_still. unfold remove_from_publications, free_publication. intros w a w' E.
  destruct (LSpec.unlink _ _) as [[r|] l]; [|by injection E as _ <-]. simpl in E.
  destruct (w_pubs w !! p); [|done]. by injection E as _ <-.
Qed.
Lemma within_remove_message get set c m : (forall l x, c_qentry_seqno (set l x) = c_qentry_seqno x) -> within (remove_message get set c m).
Proof.
  intros Hs. apply within_still. unfold remove_message, free_message. intros w a w' E. destruct (w_cl w !! c) as [x|] eqn:Hx; [|done].
  cbn [mbind option_bind] in E. destruct (LSpec.unlink _ _) as [[r|] l].
  - simpl in E. destruct (w_msgs w !! m); [|done]. injection E as _ <-. split; [done|]. by apply (seqnos_insert (set l)).
  - injection E as _ <-. split; [done|]. by apply (seqnos_insert (set l)).
Qed.

Lemma within_onet {A} (m : M (net K) A) :
  (forall w a n, m (w_net w) = Some (a, n) -> R w (set_net n w)) -> within (onet m).
Proof.
  intros Hm w a w'. unfold onet, zoom. destruct (m (w_net w)) as [[b n]|] eqn:E; [|done]. intros [= _ <-]. by eapply Hm.
Qed.
Lemma within_time : within time.
Proof. apply within_onet. intros w a n. by apply F. Qed.
Lemma within_noPending s : within (onet (Socket_noPendingWrites s)).
Proof. apply within_onet. intros w a n. by apply F. Qed.
Lemma within_putdatas s b0 bs fs : within (onet (Socket_putdatas s b0 bs fs)).
Proof. apply within_onet. intros w a n. by apply F. Qed.
Lemma within_updateWrite s t p : within (onet (buf (SocketBuffer_updateWrite s t p))).
Proof. apply within_onet. intros w a n. by apply F. Qed.
End within.
End footprint.

Create HintDb footprint.
#[export] Hint Resolve within_ret within_undefined within_load within_gets within_upd_publication within_upd_message within_ops
  within_new_message within_new_publication within_new_entry within_find_client within_find_handle within_time within_noPending
  within_putdatas within_updateWrite within_remove_from_publications : footprint.

(** Down to the elementary operations. *)
Ltac footprint :=
  repeat first
    [ solve [eauto with footprint]
    | apply within_bind; [done| |intros ?]
    | apply within_modify; [done|by intros ?]
    | apply within_upd_client; [done|by intros ?]
    | apply within_find_msg; [done|by intros ? ?]
    | apply within_remove_message; [done|by intros ? ?]
    | progress unfold client, message, publication, entry, when, touch, stamp_sent, stamp_received, append_elem, remove_elem
    | case_match
    | progress cbv zeta ].

Section operations.
Context {K PS : Type} `{Kernel K}.
Variable uninit : Z.
Variable R : world K PS -> world K PS -> Prop.
Hypothesis F : footprint R.
Abbreviation within := (within R).

Lemma within_put sock b0 bs t id scr : within (MQTTPersistence_put sock b0 bs t id scr).
Proof. unfold MQTTPersistence_put. footprint. Qed.
Lemma within_remove c t q id : within (MQTTPersistence_remove c t q id).
Proof. unfold MQTTPersistence_remove. footprint. Qed.
#[local] Hint Resolve within_put within_remove : footprint.
Lemma within_send c h b fr : within (MQTTPacket_send c h b fr).
Proof. unfold MQTTPacket_send. footprint. Qed.
Lemma within_sends c h bs fs : within (MQTTPacket_sends c h bs fs).
Proof. unfold MQTTPacket_sends, putdatas, socket_transport. footprint. Qed.
#[local] Hint Resolve within_send within_sends : footprint.
Lemma within_ack t id dup c : within (MQTTPacket_send_ack t id dup c).
Proof. unfold MQTTPacket_send_ack. footprint. Qed.
Lemma within_publish p dup q r c : within (MQTTPacket_send_publish p dup q r c).
Proof. unfold MQTTPacket_send_publish. footprint. Qed.
#[local] Hint Resolve within_ack within_publish : footprint.
Lemma within_removePublication p : within (MQTTProtocol_removePublication p).
Proof. unfold MQTTProtocol_removePublication. footprint. Qed.
Lemma within_storePublication heap p : within (MQTTProtocol_storePublication heap p).
Proof. unfold MQTTProtocol_storePublication. footprint. Qed.
#[local] Hint Resolve within_removePublication within_storePublication : footprint.
Lemma within_createMessage heap p mm q r : within (MQTTProtocol_createMessage uninit heap p mm q r).
Proof. unfold MQTTProtocol_createMessage. footprint. Qed.
Lemma within_storeQoS0 heap c p : within (MQTTProtocol_storeQoS0 heap c p).
Proof. unfold MQTTProtocol_storeQoS0. footprint. Qed.
#[local] Hint Resolve within_createMessage within_storeQoS0 : footprint.
Lemma within_startPublish heap c p q r mm : within (MQTTProtocol_startPublish uninit heap c p q r mm).
Proof. unfold MQTTProtocol_startPublish, MQTTProtocol_startPublishCommon. footprint. Qed.
Lemma within_assign c : within (MQTTProtocol_assignMsgId c).
Proof.
  assert (Hl : forall fuel st id, within (assign_loop fuel c st id)).
  { induction fuel as [|fuel IH]; intros st id; simpl; footprint. }
  unfold MQTTProtocol_assignMsgId. footprint.
Qed.

Lemma within_puback a s : within (MQTTProtocol_handlePubacks a s).
Proof. unfold MQTTProtocol_handlePubacks. footprint. Qed.
Lemma within_pubrec a s : within (MQTTProtocol_handlePubrecs a s).
Proof. unfold MQTTProtocol_handlePubrecs, MQTTPacket_send_pubrel. footprint. Qed.
Lemma within_pubcomp a s : within (MQTTProtocol_handlePubcomps a s).
Proof. unfold MQTTProtocol_handlePubcomps. footprint. Qed.
Lemma within_pingresp s : within (MQTTProtocol_handlePingresps s).
Proof. unfold MQTTProtocol_handlePingresps. footprint. Qed.
Lemma within_checkPending : within MQTTProtocol_checkPendingWrites.
Proof.
  assert (Hl : forall fuel le, within (checkPendingWrites_loop fuel le)).
  { induction fuel as [|fuel IH]; intros le; simpl; footprint. }
  unfold MQTTProtocol_checkPendingWrites. footprint.
Qed.

(** Closing a session, apart from the socket. *)
Lemma within_free_message m : within (free_message m).
Proof. apply within_still; [done|]. unfold free_message. intros w a w' E. destruct (w_msgs w !! m); [|done]. by injection E as _ <-. Qed.
Lemma within_free_entry q : within (free_entry q).
Proof. apply within_still; [done|]. unfold free_entry. intros w a w' E. destruct (w_qes w !! q); [|done]. by injection E as _ <-. Qed.
#[local] Hint Resolve within_free_message within_free_entry : footprint.
Lemma within_emptyMessageList get set c :
  (forall l x, c_qentry_seqno (set l x) = c_qentry_seqno x) -> within (MQTTProtocol_emptyMessageList get set c).
Proof.
  intros Hs. unfold MQTTProtocol_emptyMessageList.
  assert (Hp : forall ms, within (remove_publications ms)) by (induction ms; simpl; footprint).
  assert (Hm : forall ms, within (free_messages ms)) by (induction ms; simpl; footprint).
  footprint.
Qed.
Lemma within_emptyQueue c : within (MQTTClient_emptyMessageQueue c).
Proof.
  assert (Hq : forall qs, within (free_entries qs)) by (induction qs; simpl; footprint).
  unfold MQTTClient_emptyMessageQueue. footprint.
Qed.
Lemma within_clear c : within (MQTTPersistence_clear c).
Proof. unfold MQTTPersistence_clear. footprint. Qed.
#[local] Hint Resolve within_emptyQueue within_clear : footprint.
Lemma within_cleanSession c : within (MQTTClient_cleanSession c).
Proof.
  assert (Hi : within (MQTTProtocol_emptyMessageList c_inboundMsgs set_inbound c)) by (by apply within_emptyMessageList).
  assert (Ho : within (MQTTProtocol_emptyMessageList c_outboundMsgs set_outbound c)) by (by apply within_emptyMessageList).
  unfold MQTTClient_cleanSession. footprint.
Qed.
Lemma within_notify b b' c : within (notify_lost b b' c).
Proof. unfold notify_lost. footprint. Qed.
Lemma within_disconnect c : within (MQTTPacket_send_disconnect c).
Proof. unfold MQTTPacket_send_disconnect. footprint. Qed.

(** Delivering a message takes a sequence number, when there is a store. *)
Section delivering.
Hypothesis R_persist : forall c q, within (MQTTPersistence_persistQueueEntry c q).
#[local] Hint Resolve R_persist : footprint.

Lemma within_process p c : within (Protocol_processPublication uninit p c).
Proof. unfold Protocol_processPublication. footprint. Qed.
#[local] Hint Resolve within_process : footprint.
Lemma within_publishes p s : within (MQTTProtocol_handlePublishes uninit p s).
Proof. unfold MQTTProtocol_handlePublishes, MQTTPacket_send_puback, MQTTPacket_send_pubrec. footprint. Qed.
Lemma within_pubrel a s : within (MQTTProtocol_handlePubrels uninit a s).
Proof. unfold MQTTProtocol_handlePubrels, MQTTPacket_send_pubcomp. footprint. Qed.
End delivering.

(** Closing sockets. *)
Section hanging_up.
Hypothesis R_close : forall s, within (onet (Socket_close s)).

Lemma within_disconnect_internal c : within (MQTTClient_disconnect_internal c).
Proof.
  pose proof (within_cleanSession c). pose proof within_notify. pose proof (within_disconnect c).
  unfold MQTTClient_disconnect_internal, MQTTClient_disconnect1, MQTTClient_closeSession. footprint.
Qed.
#[local] Hint Resolve within_disconnect_internal : footprint.
Lemma within_closeSession c : within (MQTTProtocol_closeSession c).
Proof. unfold MQTTProtocol_closeSession. footprint. Qed.
#[local] Hint Resolve within_closeSession : footprint.

Lemma within_keepalive now : within (MQTTProtocol_keepalive now).
Proof.
  assert (Hc : forall c, within (keepalive_client now c)) by (intros c; unfold keepalive_client, MQTTPacket_send_pingreq; footprint).
  assert (Hl : forall cs, within (keepalive_loop now cs)) by (induction cs; simpl; footprint).
  unfold MQTTProtocol_keepalive. footprint.
Qed.

Lemma within_retry_message c m : within (retry_message uninit c m).
Proof. unfold retry_message, MQTTPacket_send_pubrel. footprint. Qed.
#[local] Hint Resolve within_retry_message : footprint.
Lemma within_retry now doRetry regardless : within (MQTTProtocol_retry uninit now doRetry regardless).
Proof.
  assert (Hm : forall c ms, within (retries_loop uninit now c regardless ms)) by (intros c; induction ms; simpl; footprint).
  assert (Hr : forall c, within (MQTTProtocol_retries uninit now c regardless)) by (intros c; unfold MQTTProtocol_retries; footprint).
  assert (Hl : forall cs, within (retry_loop uninit now doRetry regardless cs)) by (induction cs; simpl; footprint).
  unfold MQTTProtocol_retry. footprint.
Qed.
End hanging_up.
End operations.

(** * The two footprints used *)

Section instances.
Context {K PS : Type} `{KL : KernelLaws K}.
Variable uninit : Z.
Implicit Types (w : world K PS).
Abbreviation P := (M (world K PS)).

Lemma step_footprint : footprint (fun w w' : world K PS => net_step (w_net w) (w_net w')).
Proof.
  split.
  - by intros w.
  - intros w1 w2 w3 A B. by etrans.
  - by intros w w' -> _.
  - intros w t n. apply net_step_time.
  - intros w s b n E. destruct (noPending_safe (w_net w) s) as (b' & n' & E' & St & _). rewrite E in E'. by injection E' as <- <-.
  - intros w s b0 bs fs rc n. apply net_step_putdatas.
  - intros w s t p r n. apply net_step_updateWrite.
Qed.

Lemma seqno_footprint : footprint (fun w w' : world K PS => seqnos w' = seqnos w).
Proof. split; try done. intros w1 w2 w3 A B. by etrans. Qed.

(** The sequence number of a queue grows by at most [k]. *)
Definition seqno_of w (c : loc) : Z := default 0 (seqnos w !! c).
Definition grows (k : Z) w w' : Prop :=
  forall c n, 0 <= seqno_of w c <= n -> n + k < 2 ^ 32 -> 0 <= seqno_of w' c <= n + k.

Lemma seqno_lookup w c x : w_cl w !! c = Some x -> seqno_of w c = c_qentry_seqno x.
Proof. intros Hx. unfold seqno_of, seqnos. by rewrite lookup_fmap, Hx. Qed.
Lemma grows_same w w' : seqnos w' = seqnos w -> grows 0 w w'.
Proof. intros E c n. unfold seqno_of. rewrite E. lia. Qed.
Lemma grows_trans j k w1 w2 w3 : 0 <= k -> grows j w1 w2 -> grows k w2 w3 -> grows (j + k) w1 w3.
Proof. intros Hk A B c n Hn Hb. destruct (B c (n + j)) as [? ?]; [apply A; lia|lia|lia]. Qed.
Lemma grows_weaken j k w w' : j <= k -> grows j w w' -> grows k w w'.
Proof. intros Hk A c n Hn Hb. destruct (A c n Hn); lia. Qed.

Definition growing (k : Z) {A} (m : P A) : Prop := 0 <= k /\ forall w a w', m w = Some (a, w') -> grows k w w'.
Lemma growing_none {A} (m : P A) : within (fun w w' => seqnos w' = seqnos w) m -> growing 0 m.
Proof. intros Hm. split; [done|]. intros w a w' E. by eapply grows_same, Hm. Qed.
Lemma growing_bind j k {A B} (m : P A) (f : A -> P B) : growing j m -> (forall a, growing k (f a)) -> 0 <= k -> growing (j + k) (m ≫= f).
Proof.
  intros [Hj Hm] Hf Hk. split; [lia|]. intros w b w' (a & w1 & E1 & E2)%bind_Some.
  eapply grows_trans; [done|by eapply Hm|by eapply Hf].
Qed.
(** A step that takes no number, before or after one that may. *)
Lemma growing_then {A B} (m : P A) (f : A -> P B) :
  within (fun w w' => seqnos w' = seqnos w) m -> (forall a, growing 1 (f a)) -> growing 1 (m ≫= f).
Proof. intros Hm Hf. change 1 with (0 + 1). apply growing_bind; [by apply growing_none|done|done]. Qed.
Lemma growing_last {A B} (m : P A) (f : A -> P B) :
  growing 1 m -> (forall a, within (fun w w' => seqnos w' = seqnos w) (f a)) -> growing 1 (m ≫= f).
Proof. intros Hm Hf. change 1 with (1 + 0). apply growing_bind; [done| |done]. intros a. by apply growing_none. Qed.
Lemma growing_still {A} (m : P A) : within (fun w w' => seqnos w' = seqnos w) m -> growing 1 m.
Proof. intros Hm. split; [done|]. intros w a w' E. eapply (grows_weaken 0); [done|]. by eapply grows_same, Hm. Qed.

Lemma growing_persist c q : growing 1 (MQTTPersistence_persistQueueEntry c q).
Proof.
  pose proof seqno_footprint as F. split; [done|]. unfold MQTTPersistence_persistQueueEntry.
  intros w r w' (x & w1 & Ex & E)%bind_Some. unfold client, load in Ex. destruct (w_cl w !! c) as [x'|] eqn:Hx; [|done].
  injection Ex as -> ->. apply bind_Some in E as (qe & w2 & Eq & E). unfold entry, load in Eq.
  destruct (w_qes w1 !! q); [|done]. injection Eq as -> ->. apply bind_Some in E as (bufs & w3 & Eb & E).
  unfold load in Eb. destruct (queue_buffers qe); [|done]. injection Eb as -> ->. cbv zeta in E.
  apply bind_Some in E as ([] & w4 & Eu & E). unfold upd_client in Eu. rewrite Hx in Eu. injection Eu as <-.
  assert (G : grows 1 w3 (set_cl (<[c := set_seqno (uint_wrap (c_qentry_seqno x + 1)) x]> (w_cl w3)) w3)).
  { intros c0 n Hn Hb. unfold seqno_of, seqnos in *. cbn [w_cl set_cl]. destruct (decide (c0 = c)) as [->|Hne].
    - rewrite lookup_fmap, Hx in Hn. rewrite lookup_fmap, lookup_insert_eq. simpl in *. unfold uint_wrap.
      rewrite Z.mod_small; lia.
    - rewrite lookup_fmap, lookup_insert_ne, <- lookup_fmap by done. lia. }
  change 1 with (1 + 0). eapply grows_trans; [done|exact G|]. apply grows_same.
  revert E. set (w5 := set_cl _ _). clearbody w5. intros E.
  apply bind_Some in E as (key & w6 & Ek & E). apply bind_Some in E as ([] & w7 & [= <-] & E).
  unfold load in Ek. destruct (sprintf_key _ _); [|done]. injection Ek as -> ->.
  destruct (c_persistence x); [|done]. unfold ops in E. destruct (pput _ _ _ _ _). by injection E as _ <-.
Qed.

Lemma persist_net c q w r w' : MQTTPersistence_persistQueueEntry c q w = Some (r, w') -> w_net w' = w_net w.
Proof.
  unfold MQTTPersistence_persistQueueEntry, client, entry, upd_client, ops, load, mbind, M_bind. intros E.
  destruct (w_cl w !! c) as [x|] eqn:Hx; [|done]. destruct (w_qes w !! q); [|done]. destruct (queue_buffers _); [|done]. cbv zeta in E.
  rewrite Hx in E. cbn [option_bind] in E. destruct (sprintf_key _ _); [|done]. destruct (c_persistence x); [|done].
  destruct (pput _ _ _ _ _). by injection E as _ <-.
Qed.

Lemma growing_process p c : growing 1 (Protocol_processPublication uninit p c).
Proof.
  pose proof seqno_footprint as F. unfold Protocol_processPublication.
  repeat (apply growing_then; [footprint|intros ?]). destruct (bool_decide _); simpl; [|apply growing_still; footprint].
  apply growing_last; [apply growing_persist|intros; footprint].
Qed.

Lemma growing_publishes p s : growing 1 (MQTTProtocol_handlePublishes uninit p s).
Proof.
  pose proof seqno_footprint as F. unfold MQTTProtocol_handlePublishes. apply growing_then; [footprint|intros c].
  cbv zeta. destruct (hdr_qos _ =? 0); [apply growing_last; [apply growing_process|intros; footprint]|].
  destruct (hdr_qos _ =? 1).
  - apply growing_then; [by apply within_ack|intros rc]. apply growing_last; [apply growing_process|intros; footprint].
  - apply growing_still. destruct (hdr_qos _ =? 2); [|footprint].
    pose proof (fun h p => within_storePublication _ F h p) as HS. unfold MQTTPacket_send_pubrec.
    pose proof (fun p => within_removePublication _ F p) as HR.
    pose proof (fun t i d c => within_ack _ F t i d c) as HA. footprint.
Qed.

Lemma growing_pubrel a s : growing 1 (MQTTProtocol_handlePubrels uninit a s).
Proof.
  pose proof seqno_footprint as F. pose proof (fun t i d c => within_ack _ F t i d c) as HA.
  unfold MQTTProtocol_handlePubrels, MQTTPacket_send_pubcomp.
  apply growing_then; [footprint|intros c]. apply growing_then; [footprint|intros [m|]]; [|apply growing_still; footprint].
  apply growing_then; [footprint|intros x]. destruct (negb _); [apply growing_still; footprint|].
  destruct (negb _); [apply growing_still; footprint|]. do 2 (apply growing_then; [footprint|intros ?]).
  apply growing_last; [apply growing_process|intros _].
  pose proof (fun c t q id => within_remove _ F c t q id) as HM. footprint.
Qed.
End instances.
End Footprint.
