(* ===== verification/Memory.v ===== *)
(** Ownership of the structures of the whole state.

    Every message belongs to one list of one client, every publication to one
    message or one unfinished write, and every queue entry to one delivery
    queue: the multisets of owners and of allocated structures agree, so that no
    structure is leaked, freed twice or reached after it is freed.  [inv] is this
    invariant, with the structures that a function holds while it runs. *)
From stdpp Require Import gmultiset.
From S2P Require Import Prelude ListSpec Packet SocketBuffer Socket World Persistence Send Store Session Protocol.

Module Memory.
Import Packet SocketBuffer Socket World Persistence Send Store Session Protocol.

(** * Multisets of addresses *)

Abbreviation lsd := (list_to_set_disj (C := gmultiset loc)).

(** The addresses that the values of a map mention. *)
Definition collect {A} (f : loc -> A -> list loc) (m : gmap loc A) : gmultiset loc :=
  lsd (map_to_list m ≫= fun kx => f kx.1 kx.2).

Definition keys {A} (m : gmap loc A) : gmultiset loc := collect (fun k _ => [k]) m.

Section collect.
Context {A : Type}.
Implicit Types (m : gmap loc A) (f : loc -> A -> list loc).

Lemma collect_new f m k x :
  m !! k = None -> collect f (<[k := x]> m) = lsd (f k x) ⊎ collect f m.
Proof.
  intros Hk. unfold collect. rewrite <- list_to_set_disj_app. apply list_to_set_disj_perm.
  change (f k x ++ (map_to_list m ≫= fun kx => f kx.1 kx.2))
    with (((k, x) :: map_to_list m) ≫= fun kx => f kx.1 kx.2).
  by rewrite map_to_list_insert.
Qed.

Lemma collect_delete f m k x :
  m !! k = Some x -> collect f m = lsd (f k x) ⊎ collect f (delete k m).
Proof.
  intros Hk. rewrite <- (collect_new f (delete k m) k x) by apply lookup_delete_eq.
  by rewrite insert_delete_id.
Qed.

Lemma collect_insert f m k x y :
  m !! k = Some x -> collect f (<[k := y]> m) = lsd (f k y) ⊎ collect f (delete k m).
Proof.
  intros Hk. rewrite <- insert_delete_eq. apply collect_new, lookup_delete_eq.
Qed.

Lemma collect_same f m k x y :
  m !! k = Some x -> f k y = f k x -> collect f (<[k := y]> m) = collect f m.
Proof. intros Hk E. by rewrite (collect_insert f m k x y Hk), E, <- collect_delete. Qed.

Lemma collect_fmap {B} (g : A -> B) (f : loc -> B -> list loc) m :
  collect f (g <$> m) = collect (fun k x => f k (g x)) m.
Proof.
  unfold collect. rewrite map_to_list_fmap. f_equal.
  induction (map_to_list m) as [|[k x] l IH]; [done|]. cbn. f_equal. exact IH.
Qed.

Lemma keys_multiplicity m k : (multiplicity k (keys m) <= 1)%nat.
Proof.
  destruct (m !! k) as [x|] eqn:E.
  - unfold keys. rewrite (collect_delete _ m k x E).
    assert (Hn : multiplicity k (collect (fun k (_ : A) => [k]) (delete k m)) = 0%nat).
    { apply not_elem_of_multiplicity. unfold collect. rewrite elem_of_list_to_set_disj, list_elem_of_bind.
      intros ([k' y] & Hk & Hin). apply list_elem_of_singleton in Hk. simpl in Hk. subst k'.
      apply elem_of_map_to_list in Hin. by rewrite lookup_delete_eq in Hin. }
    rewrite multiplicity_disj_union, Hn. simpl. rewrite multiplicity_disj_union, multiplicity_singleton.
    rewrite multiplicity_empty. case_decide; lia.
  - assert (k ∉ keys m) as Hk.
    { unfold keys, collect. rewrite elem_of_list_to_set_disj, list_elem_of_bind.
      intros ([k' y] & Hk & Hin). apply list_elem_of_singleton in Hk. simpl in Hk. subst k'.
      apply elem_of_map_to_list in Hin. by rewrite E in Hin. }
    apply not_elem_of_multiplicity in Hk. lia.
Qed.

Lemma elem_of_keys m k : k ∈ keys m <-> is_Some (m !! k).
Proof.
  unfold keys, collect. rewrite elem_of_list_to_set_disj, list_elem_of_bind. split.
  - intros ([k' y] & Hk & Hin). apply list_elem_of_singleton in Hk. simpl in Hk. subst k'.
    apply elem_of_map_to_list in Hin. by exists y.
  - intros [x Hx]. exists (k, x). split; [by apply list_elem_of_singleton|by apply elem_of_map_to_list].
Qed.

Lemma elem_of_collect f m y : y ∈ collect f m <-> exists k x, m !! k = Some x /\ y ∈ f k x.
Proof.
  unfold collect. rewrite elem_of_list_to_set_disj, list_elem_of_bind. split.
  - intros ([k x] & Hy & Hin). apply elem_of_map_to_list in Hin. eauto.
  - intros (k & x & Hk & Hy). exists (k, x). split; [done|by apply elem_of_map_to_list].
Qed.

Lemma keys_new m k x : m !! k = None -> keys (<[k := x]> m) = {[+ k +]} ⊎ keys m.
Proof. intros. unfold keys. rewrite collect_new by done. simpl. multiset_solver. Qed.
Lemma keys_delete m k x : m !! k = Some x -> keys m = {[+ k +]} ⊎ keys (delete k m).
Proof. intros Hk. unfold keys at 1. rewrite (collect_delete _ m k x Hk). simpl. unfold keys. multiset_solver. Qed.
Lemma keys_insert m k x y : m !! k = Some x -> keys (<[k := y]> m) = keys m.
Proof. intros. by apply (collect_same _ m k x). Qed.
End collect.

(** A list contained in a set of keys has no duplicates. *)
Lemma lsd_NoDup {A} (m : gmap loc A) (l : list loc) (X : gmultiset loc) :
  lsd l ⊎ X = keys m -> NoDup l.
Proof.
  revert X. induction l as [|k l IH]; intros X E; [constructor|].
  simpl in E. constructor.
  - intros Hk. pose proof (keys_multiplicity m k) as Hm. rewrite <- E, !multiplicity_disj_union in Hm.
    rewrite multiplicity_singleton in Hm. case_decide; [|done]. apply elem_of_list_to_set_disj in Hk.
    rewrite elem_of_multiplicity in Hk. lia.
  - apply (IH ({[+ k +]} ⊎ X)). rewrite <- E. multiset_solver.
Qed.

Lemma elem_of_lsd (l : list loc) y : y ∈ lsd l <-> y ∈ l.
Proof. apply elem_of_list_to_set_disj. Qed.
Lemma lsd_app (l k : list loc) : lsd (l ++ k) = lsd l ⊎ lsd k.
Proof. apply list_to_set_disj_app. Qed.
Lemma lsd_cons x (l : list loc) : lsd (x :: l) = {[+ x +]} ⊎ lsd l.
Proof. done. Qed.

(** * What the protocol sees of a state *)

(** A message in flight, with its publication. *)
Record amsg := AMsg {
  am_id : Z; am_qos : Z; am_retain : Z; am_next : Z;
  am_topic : list byte; am_topiclen : Z; am_payload : list byte; am_payloadlen : Z }.

(** The session of a client: messages being received, messages being sent, and
    messages waiting for the application. *)
Record session := Sess {
  s_in : list amsg; s_out : list amsg; s_queue : list (MQTTClient_message * list byte * Z) }.

Section views.
Context {K PS : Type}.
Implicit Types (w : world K PS) (x : Clients PS).

Definition msg_view w (m : loc) : option amsg :=
  x ← w_msgs w !! m;
  p ← w_pubs w !! m_publish x;
  Some (AMsg (m_msgid x) (m_qos x) (m_retain x) (m_nextMessageType x)
             (p_topic p) (p_topiclen p) (p_payload p) (p_payloadlen p)).

Definition entry_view w (q : loc) : option (MQTTClient_message * list byte * Z) :=
  e ← w_qes w !! q; Some (qe_msg e, qe_topicName e, qe_topicLen e).

Definition session_of w (c : loc) : option session :=
  x ← w_cl w !! c;
  i ← mapM (msg_view w) (LSpec.contents (c_inboundMsgs x));
  o ← mapM (msg_view w) (LSpec.contents (c_outboundMsgs x));
  q ← mapM (entry_view w) (LSpec.contents (c_messageQueue x));
  Some (Sess i o q).

(** * The invariant *)

Definition client_msgs x : list loc := LSpec.contents (c_inboundMsgs x) ++ LSpec.contents (c_outboundMsgs x).

(** The lists of the state are well formed. *)
Record wfs w : Prop := {
  wfs_clients : LSpec.wf (w_clients w);
  wfs_handles : LSpec.wf (w_handles w);
  wfs_publications : LSpec.wf (w_publications w);
  wfs_pending : LSpec.wf (w_pending w);
  wfs_in : forall c x, w_cl w !! c = Some x -> LSpec.wf (c_inboundMsgs x);
  wfs_out : forall c x, w_cl w !! c = Some x -> LSpec.wf (c_outboundMsgs x);
  wfs_queue : forall c x, w_cl w !! c = Some x -> LSpec.wf (c_messageQueue x) }.

(** The message ids of a list are distinct. *)
Definition ids w (l : list loc) : list (option Z) := (fun m => m_msgid <$> w_msgs w !! m) <$> l.

Definition pub_ok (p : Publications) : Prop :=
  p_refcount p = 1 /\ p_payloadlen p = zlen (p_payload p).
Definition msg_ok (m : Messages) : Prop := 0 <= m_msgid m <= MAX_MSG_ID.

(** [Em], [Ep] and [Eq] are the messages, publications and queue entries that
    have no owner in the state; [Dp] are the publications that a message still
    refers to after they were freed. *)
Record inv (Em Ep Dp Eq : gmultiset loc) w : Prop := {
  i_wf : wfs w;
  i_msgs : collect (fun _ x => client_msgs x) (w_cl w) ⊎ Em = keys (w_msgs w);
  i_pubs : collect (fun _ m => [m_publish m]) (w_msgs w)
             ⊎ lsd ((fun y => pwr_p y.2) <$> LSpec.contents (w_pending w)) ⊎ Ep = keys (w_pubs w) ⊎ Dp;
  i_publist : lsd (LSpec.contents (w_publications w)) = keys (w_pubs w);
  i_qes : collect (fun _ x => LSpec.contents (c_messageQueue x)) (w_cl w) ⊎ Eq = keys (w_qes w);
  i_pub_ok : map_Forall (fun _ p => pub_ok p) (w_pubs w);
  i_msg_ok : map_Forall (fun _ m => msg_ok m) (w_msgs w);
  i_ids_in : forall c x, w_cl w !! c = Some x -> NoDup (ids w (LSpec.contents (c_inboundMsgs x)));
  i_ids_out : forall c x, w_cl w !! c = Some x -> NoDup (ids w (LSpec.contents (c_outboundMsgs x)));
  i_clients : NoDup (LSpec.contents (w_clients w)) /\
    (forall c, c ∈ LSpec.contents (w_clients w) -> is_Some (w_cl w !! c)) }.

(** Nothing is held. *)
Definition winv w : Prop := inv ∅ ∅ ∅ ∅ w.

(** * Steps that do not change the session *)

(** A client up to times and the current elements of its lists. *)
Definition cnorm x : Clients PS :=
  set_cnet (MkNet (nh_socket (c_net x)) 0 0)
    (set_inbound (LSpec.with_cur None (c_inboundMsgs x))
      (set_outbound (LSpec.with_cur None (c_outboundMsgs x))
        (set_queue (LSpec.with_cur None (c_messageQueue x)) x))).

(** Sending, receiving and searching: only the network, the persistent store,
    times and current elements change. *)
Record quiet w w' : Prop := {
  q_wf : wfs w -> wfs w';
  q_clients : items (w_clients w') = items (w_clients w);
  q_cl : cnorm <$> w_cl w' = cnorm <$> w_cl w;
  q_handles : items (w_handles w') = items (w_handles w);
  q_ms : w_ms w' = w_ms w;
  q_msgs : w_msgs w' = w_msgs w;
  q_pubs : w_pubs w' = w_pubs w;
  q_qes : w_qes w' = w_qes w;
  q_publications : w_publications w' = w_publications w;
  q_pending : w_pending w' = w_pending w;
  q_received : w_msgs_received w' = w_msgs_received w;
  q_sent : w_msgs_sent w' = w_msgs_sent w;
  q_last : w_last w' = w_last w;
  q_events : w_events w' = w_events w }.

#[export] Instance quiet_refl : Reflexive quiet.
Proof. intros w. by split. Qed.
#[export] Instance quiet_trans : Transitive quiet.
Proof. intros w1 w2 w3 H1 H2. destruct H1, H2. split; [by auto|by etrans..]. Qed.

Lemma quiet_client w w' c x :
  quiet w w' -> w_cl w !! c = Some x -> exists x', w_cl w' !! c = Some x' /\ cnorm x' = cnorm x.
Proof.
  intros Q Hx. pose proof (f_equal (fun m => m !! c) (q_cl _ _ Q)) as E.
  simpl in E. rewrite !lookup_fmap, Hx in E. destruct (w_cl w' !! c) as [x'|]; [|done].
  exists x'. split; [done|]. exact (inj Some _ _ E).
Qed.

Lemma quiet_client_inv w w' c x' :
  quiet w w' -> w_cl w' !! c = Some x' -> exists x, w_cl w !! c = Some x /\ cnorm x' = cnorm x.
Proof.
  intros Q Hx. pose proof (f_equal (fun m => m !! c) (q_cl _ _ Q)) as E.
  simpl in E. rewrite !lookup_fmap, Hx in E. destruct (w_cl w !! c) as [x|]; [|done].
  exists x. split; [done|]. exact (inj Some _ _ E).
Qed.

(** What is equal in clients with the same normal form. *)
Record csim x x' : Prop := {
  cs_data : c_data x' = c_data x;
  cs_connected : c_connected x' = c_connected x;
  cs_good : c_good x' = c_good x;
  cs_ping : c_ping_outstanding x' = c_ping_outstanding x;
  cs_state : c_connect_state x' = c_connect_state x;
  cs_socket : nh_socket (c_net x') = nh_socket (c_net x);
  cs_msgID : c_msgID x' = c_msgID x;
  cs_in : items (c_inboundMsgs x') = items (c_inboundMsgs x);
  cs_out : items (c_outboundMsgs x') = items (c_outboundMsgs x);
  cs_queue : items (c_messageQueue x') = items (c_messageQueue x);
  cs_seqno : c_qentry_seqno x' = c_qentry_seqno x;
  cs_handle : c_phandle x' = c_phandle x;
  cs_per : c_persistence x' = c_persistence x }.

Lemma cnorm_csim x x' : cnorm x' = cnorm x -> csim x x'.
Proof.
  destruct x as [? ? ? ? ? [? ? ?] ? ? ? [? ? ? ?] [? ? ? ?] [? ? ? ?] ? ? ?],
    x' as [? ? ? ? ? [? ? ?] ? ? ? [? ? ? ?] [? ? ? ?] [? ? ? ?] ? ? ?].
  cbv. intros [= -> -> -> -> -> -> -> -> -> -> -> -> -> -> -> -> -> -> -> -> ->]. by split.
Qed.

Lemma quiet_csim w w' c x :
  quiet w w' -> w_cl w !! c = Some x -> exists x', w_cl w' !! c = Some x' /\ csim x x'.
Proof. intros Q Hx. destruct (quiet_client w w' c x Q Hx) as (x' & ? & ?%cnorm_csim). eauto. Qed.

Lemma csim_contents x x' :
  csim x x' ->
  LSpec.contents (c_inboundMsgs x') = LSpec.contents (c_inboundMsgs x) /\
  LSpec.contents (c_outboundMsgs x') = LSpec.contents (c_outboundMsgs x) /\
  LSpec.contents (c_messageQueue x') = LSpec.contents (c_messageQueue x).
Proof. intros C. unfold LSpec.contents. by rewrite (cs_in _ _ C), (cs_out _ _ C), (cs_queue _ _ C). Qed.

Lemma quiet_session w w' c : quiet w w' -> session_of w' c = session_of w c.
Proof.
  intros Q. unfold session_of.
  assert (Hm : forall m, msg_view w' m = msg_view w m).
  { intros m. unfold msg_view. by rewrite (q_msgs _ _ Q), (q_pubs _ _ Q). }
  assert (He : forall q, entry_view w' q = entry_view w q).
  { intros q. unfold entry_view. by rewrite (q_qes _ _ Q). }
  destruct (w_cl w !! c) as [x|] eqn:Ex.
  - destruct (quiet_csim w w' c x Q Ex) as (x' & -> & (E1 & E2 & E3)%csim_contents).
    cbn [mbind option_bind]. rewrite E1, E2, E3.
    by rewrite !(mapM_ext _ _ _ Hm), (mapM_ext _ _ _ He).
  - destruct (w_cl w' !! c) as [x'|] eqn:Ex'; [|done].
    destruct (quiet_client_inv w w' c x' Q Ex') as (x & E & _). congruence.
Qed.

Lemma quiet_inv Em Ep Dp Eq w w' : quiet w w' -> inv Em Ep Dp Eq w -> inv Em Ep Dp Eq w'.
Proof.
  intros Q I. destruct I as [H1 H2 H3 H4 H5 H6 H7 H8 H9 [H10 H11]].
  assert (Hi : forall l, ids w' l = ids w l) by (intros; unfold ids; by rewrite (q_msgs _ _ Q)).
  assert (Hc : forall f, (forall k x, f k (cnorm x) = f k x) -> collect f (w_cl w') = collect f (w_cl w)).
  { intros f Hf. transitivity (collect f (cnorm <$> w_cl w')).
    - rewrite collect_fmap. unfold collect. f_equal. apply list_bind_ext; [|done]. by intros [].
    - rewrite (q_cl _ _ Q), collect_fmap. unfold collect. f_equal. apply list_bind_ext; [|done]. by intros []. }
  split.
  - by apply (q_wf _ _ Q).
  - rewrite Hc by done. by rewrite (q_msgs _ _ Q).
  - by rewrite (q_msgs _ _ Q), (q_pubs _ _ Q), (q_pending _ _ Q).
  - by rewrite (q_publications _ _ Q), (q_pubs _ _ Q).
  - rewrite Hc by done. by rewrite (q_qes _ _ Q).
  - by rewrite (q_pubs _ _ Q).
  - by rewrite (q_msgs _ _ Q).
  - intros c x' Hx'. destruct (quiet_client_inv w w' c x' Q Hx') as (x & Hx & C%cnorm_csim%csim_contents).
    destruct C as (-> & _ & _). rewrite Hi. by apply (H8 c).
  - intros c x' Hx'. destruct (quiet_client_inv w w' c x' Q Hx') as (x & Hx & C%cnorm_csim%csim_contents).
    destruct C as (_ & -> & _). rewrite Hi. by apply (H9 c).
  - unfold LSpec.contents. rewrite (q_clients _ _ Q). split; [done|].
    intros c Hin. destruct (H11 c Hin) as [x Hx]. destruct (quiet_client w w' c x Q Hx) as (x' & -> & _). done.
Qed.

(** * The client of a socket *)

(** [c] is the client that a search for [sock] finds. *)
Record at_socket w (sock : Z) (c : loc) (x : Clients PS) : Prop := {
  as_in : c ∈ LSpec.contents (w_clients w);
  as_client : w_cl w !! c = Some x;
  as_socket : nh_socket (c_net x) = sock;
  as_unique : forall c', c' ∈ LSpec.contents (w_clients w) -> clientSocketCompare w sock c' = true -> c' = c }.

Lemma clientSocketCompare_quiet w w' sock c :
  quiet w w' -> clientSocketCompare w' sock c = clientSocketCompare w sock c.
Proof.
  intros Q. unfold clientSocketCompare. destruct (w_cl w !! c) as [x|] eqn:Ex.
  - destruct (quiet_csim w w' c x Q Ex) as (x' & -> & C). by rewrite (cs_socket _ _ C).
  - destruct (w_cl w' !! c) as [x'|] eqn:Ex'; [|done].
    destruct (quiet_client_inv w w' c x' Q Ex') as (x & E & _). congruence.
Qed.

Lemma quiet_at_socket w w' sock c x :
  quiet w w' -> at_socket w sock c x -> exists x', at_socket w' sock c x' /\ csim x x'.
Proof.
  intros Q [H1 H2 H3 H4]. destruct (quiet_csim w w' c x Q H2) as (x' & E & C).
  exists x'. split; [|done]. assert (Hc : LSpec.contents (w_clients w') = LSpec.contents (w_clients w)).
  { unfold LSpec.contents. by rewrite (q_clients _ _ Q). }
  split; [by rewrite Hc|done|by rewrite (cs_socket _ _ C)|].
  intros c' Hc'. rewrite (clientSocketCompare_quiet w w') by done. rewrite Hc in Hc'. by apply H4.
Qed.
End views.
End Memory.
