(* ===== verification/Sending.v ===== *)
(** Sending and searching leave sessions alone: the operations of [Send] and the
    searches of [World] do not go wrong, and change at most the network, the
    persistent store, times and the current elements of lists. *)
From S2P Require Import Prelude ListSpec Packet SocketBuffer Socket World Persistence Send Store Session Protocol Memory.

Module Sending.
Import Packet SocketBuffer Socket World Persistence Send Store Session Protocol Memory.

#[local] Arguments zlen : simpl never.

Section sending.
Context {K PS : Type} `{Kernel K}.
Implicit Types (w : world K PS) (x : Clients PS).
Abbreviation P := (M (world K PS)).

(** [m] does not go wrong from [w], and is quiet. *)
Definition quiets {A} (w : world K PS) (m : P A) : Prop :=
  exists a w', m w = Some (a, w') /\ quiet w w'.

Lemma quiets_ret {A} w (a : A) : quiets w (mret a).
Proof. by exists a, w. Qed.

Lemma quiets_bind {A B} w (m : P A) (f : A -> P B) :
  quiets w m -> (forall a w', quiet w w' -> quiets w' (f a)) -> quiets w (m ≫= f).
Proof.
  intros (a & w1 & E & Q) Hf. destruct (Hf a w1 Q) as (b & w2 & E2 & Q2).
  exists b, w2. mstep E. split; [done|by etrans].
Qed.

(** The value bound is known. *)
Lemma quiets_step {A B} w (m : P A) (f : A -> P B) a w' :
  m w = Some (a, w') -> quiet w w' -> quiets w' (f a) -> quiets w (m ≫= f).
Proof.
  intros E Q (b & w2 & E2 & Q2). exists b, w2. mstep E. split; [done|by etrans].
Qed.

Lemma quiets_load {A B} w (g : world K PS -> option A) (f : A -> P B) a :
  g w = Some a -> quiets w (f a) -> quiets w (load g ≫= f).
Proof. intros E. apply quiets_step; [|done]. unfold load. by rewrite E. Qed.

Lemma quiets_client {B} w c x (f : Clients PS -> P B) :
  w_cl w !! c = Some x -> quiets w (f x) -> quiets w (client c ≫= f).
Proof. intros E. by apply quiets_load. Qed.

(** Reads of the state. *)
Lemma client_eq w c x : w_cl w !! c = Some x -> client c w = Some (x, w).
Proof. intros E. unfold client, load. by rewrite E. Qed.
Lemma message_eq w m v : w_msgs w !! m = Some v -> message m w = Some (v, w).
Proof. intros E. unfold message, load. by rewrite E. Qed.
Lemma publication_eq w p v : w_pubs w !! p = Some v -> publication p w = Some (v, w).
Proof. intros E. unfold publication, load. by rewrite E. Qed.

Lemma quiets_when w (b : bool) (m : P unit) : quiets w m -> quiets w (when b m).
Proof. destruct b; [done|]. intros. by exists tt, w. Qed.

Lemma quiet_net w n : quiet w (set_net n w).
Proof. split; try done. by destruct 1. Qed.
Lemma quiet_ps w s : quiet w (set_ps s w).
Proof. split; try done. by destruct 1. Qed.

Lemma quiets_onet {A} w (m : M (net K) A) :
  (exists a n, m (w_net w) = Some (a, n)) -> quiets w (onet m).
Proof.
  intros (a & n & E). exists a, (set_net n w). unfold onet, zoom. rewrite E. split; [done|apply quiet_net].
Qed.

Lemma quiets_ops {A} w (f : PS -> A * PS) : quiets w (ops f).
Proof.
  unfold quiets, ops. destruct (f (w_ps w)) as [a s]. exists a, (set_ps s w). split; [done|apply quiet_ps].
Qed.

(** Replacing a client by one with the same normal form. *)
Lemma quiet_cl w c x x' :
  w_cl w !! c = Some x -> cnorm x' = cnorm x ->
  LSpec.wf (c_inboundMsgs x') -> LSpec.wf (c_outboundMsgs x') -> LSpec.wf (c_messageQueue x') ->
  quiet w (set_cl (<[c := x']> (w_cl w)) w).
Proof.
  intros Hx E W1 W2 W3. split; try done.
  - intros [H1 H2 H3 H4 H5 H6 H7].
    assert (HH : forall (g : Clients PS -> clist loc), LSpec.wf (g x') -> (forall c x, w_cl w !! c = Some x -> LSpec.wf (g x)) ->
      forall c0 x0, <[c:=x']> (w_cl w) !! c0 = Some x0 -> LSpec.wf (g x0)).
    { intros g Hg Hall c0 x0. rewrite lookup_insert_Some. intros [[-> ->]|[_ ?]]; [done|by eapply Hall]. }
    split; simpl; try done; by apply HH.
  - simpl. rewrite fmap_insert. apply insert_id. by rewrite lookup_fmap, Hx, E.
Qed.

Lemma quiets_stamp w c (f : Z -> networkHandles -> networkHandles) x :
  w_cl w !! c = Some x -> wfs w -> (forall t n, nh_socket (f t n) = nh_socket n) ->
  quiets w (t ← time; upd_client c (fun x => set_cnet (f t (c_net x)) x)).
Proof.
  intros Hx W Hf. unfold quiets, time, onet, zoom, sys, upd_client. unfold mbind at 1, M_bind.
  destruct (k_time (n_k (w_net w))) as [t k] eqn:Ek.
  set (n := Net _ _ k). set (w1 := set_net n w). change (w_cl w1) with (w_cl w). rewrite Hx.
  eexists _, _. split; [reflexivity|]. etrans; [apply (quiet_net w n)|].
  apply (quiet_cl w1 c x); [done| |exact (wfs_in w W c x Hx)|exact (wfs_out w W c x Hx)|exact (wfs_queue w W c x Hx)].
  unfold cnorm. simpl. by rewrite Hf.
Qed.

Lemma quiets_stamp_sent w c x : w_cl w !! c = Some x -> wfs w -> quiets w (stamp_sent c).
Proof. intros. by eapply quiets_stamp. Qed.
Lemma quiets_stamp_received w c x : w_cl w !! c = Some x -> wfs w -> quiets w (stamp_received c).
Proof. intros. by eapply quiets_stamp. Qed.

(** Searches. *)
Lemma wf_with_cur {A} (l : clist A) a : LSpec.wf l -> a ∈ LSpec.addrs l -> LSpec.wf (LSpec.with_cur (Some a) l).
Proof. intros [? ? ?] Ha. split; simpl; try done. by intros b [= <-]. Qed.

Lemma quiets_find_client w sock c x :
  wfs w -> at_socket w sock c x ->
  exists w', find_client sock w = Some (c, w') /\ quiet w w' /\ w_net w' = w_net w /\ w_ps w' = w_ps w /\
    w_cl w' = w_cl w.
Proof.
  intros W [H1 H2 H3 H4]. unfold find_client.
  destruct (LSpec.find_item_cases (clientSocketCompare w sock) (w_clients w) (wfs_clients w W))
    as [[-> Hn]|(k1 & a & y & k2 & Ei & Hy & -> & Ec)].
  - exfalso. rewrite Forall_forall in Hn. specialize (Hn c H1). unfold clientSocketCompare in Hn.
    rewrite H2, H3, Z.eqb_refl in Hn. done.
  - cbn [mbind option_bind]. change (LSpec.elem_content (LSpec.with_cur (Some a) (w_clients w)) a)
      with (LSpec.elem_content (w_clients w) a).
    rewrite Ec. cbn [mbind option_bind]. assert (y = c) as ->.
    { apply H4; [|done]. rewrite (LSpec.contents_mid _ _ _ _ _ Ei). apply elem_of_app. right. constructor. }
    eexists. split; [reflexivity|]. split; [|done]. split; try done. intros [? ? ? ? ? ? ?]. split; try done.
    apply wf_with_cur; [done|]. unfold LSpec.addrs. rewrite Ei, fmap_app, fmap_cons. apply elem_of_app. right. constructor.
Qed.

(** [c] is found by its socket. *)
Record ready w (c : loc) x : Prop := {
  r_wf : wfs w;
  r_at : at_socket w (nh_socket (c_net x)) c x }.

Lemma ready_client w c x : ready w c x -> w_cl w !! c = Some x.
Proof. intros R. apply (as_client _ _ _ _ (r_at _ _ _ R)). Qed.

Lemma quiet_ready w w' c x : quiet w w' -> ready w c x -> exists x', ready w' c x' /\ csim x x'.
Proof.
  intros Q [W A]. destruct (quiet_at_socket _ _ _ _ _ Q A) as (x' & A' & C).
  exists x'. split; [|done]. split; [by apply (q_wf _ _ Q)|]. by rewrite (cs_socket _ _ C).
Qed.

Lemma key_ok stem n :
  (String.length stem <= 3)%nat -> 0 <= n <= MAX_MSG_ID -> sprintf_key stem n = Some (stem +:+ pretty n).
Proof.
  intros Hs Hn. apply sprintf_key_Some. unfold MAX_MSG_ID in Hn.
  destruct (pretty_length n 5 ltac:(lia) ltac:(lia)) as [Hl _]. specialize (Hl ltac:(lia)).
  unfold MAX_KEY_LENGTH. lia.
Qed.

Lemma quiets_put w c x buf0 bufs htype msgId scr :
  ready w c x -> 0 <= msgId <= MAX_MSG_ID ->
  scr = 1 \/ scr = 0 /\ (htype = PUBREL \/ htype = PUBLISH) ->
  quiets w (MQTTPersistence_put (nh_socket (c_net x)) buf0 bufs htype msgId scr).
Proof.
  intros R Hid Hs. unfold MQTTPersistence_put.
  destruct (quiets_find_client w _ c x (r_wf _ _ _ R) (r_at _ _ _ R)) as (w1 & E & Q & _).
  apply (quiets_step _ _ _ _ _ E Q). destruct (quiet_ready _ _ _ _ Q R) as (x1 & R1 & C1).
  apply (quiets_client _ _ x1); [by apply ready_client|].
  destruct (c_persistence x1) as [per|]; [|apply quiets_ret].
  assert (exists key, (if scr =? 1 then sprintf_key PERSISTENCE_PUBLISH_RECEIVED msgId
        else if scr =? 0 then
          if htype =? PUBREL then sprintf_key PERSISTENCE_PUBREL msgId
          else if htype =? PUBLISH then sprintf_key PERSISTENCE_PUBLISH_SENT msgId
          else None
        else None) = Some key) as (key & Ek).
  { destruct Hs as [->|[-> [->| ->]]]; simpl; rewrite key_ok by (done || (vm_compute; lia)); eauto. }
  apply (quiets_load _ _ _ key); [done|]. apply quiets_ops.
Qed.

Lemma find_int_total (n : net K) get set v : exists a n', find_int get set v n = Some (a, n').
Proof. unfold find_int, sockets, zoom. destruct (LSpec.find_item _ _) as [r l]. eauto. Qed.

Lemma noPendingWrites_total (n : net K) s : exists a n', Socket_noPendingWrites s n = Some (a, n').
Proof.
  unfold Socket_noPendingWrites. destruct (find_int_total n write_pending set_write_pending s) as (a & n' & E).
  mstep E. by eexists _, _.
Qed.

Lemma putdatas_total (n : net K) s buf0 bufs frees :
  zlen bufs <= 4 -> exists a n', Socket_putdatas s buf0 bufs frees n = Some (a, n').
Proof.
  intros Hb. unfold Socket_putdatas. destruct (noPendingWrites_total n s) as (np & n1 & E). mstep E.
  destruct np; simpl; [|by eexists _, _].
  destruct (Z.ltb_spec 4 (zlen bufs)); [lia|]. unfold Socket_writev, sys.
  unfold mbind, M_bind. destruct (k_writev s (buf0 :: bufs) (n_k n1)) as [[errno|m] k].
  - repeat case_match; simplify_eq/=; eexists _, _; reflexivity.
  - repeat case_match; simplify_eq/=; eexists _, _; reflexivity.
Qed.

Lemma quiets_putdatas w s buf0 bufs frees :
  zlen bufs <= 4 -> quiets w (onet (Socket_putdatas s buf0 bufs frees)).
Proof. intros. by apply quiets_onet, putdatas_total. Qed.

(** The end of both send functions. *)
Lemma quiets_sending w c x buf0 bufs frees :
  ready w c x -> zlen bufs <= 4 ->
  quiets w (rc ← onet (Socket_putdatas (nh_socket (c_net x)) buf0 bufs frees);
            when (rc =? TCPSOCKET_COMPLETE) (stamp_sent c);; mret rc).
Proof.
  intros R Hb. apply quiets_bind; [by apply quiets_putdatas|]. intros rc w1 Q1.
  destruct (quiet_ready _ _ _ _ Q1 R) as (x1 & R1 & _).
  apply quiets_bind; [|intros; apply quiets_ret].
  apply quiets_when. eapply quiets_stamp_sent; [by apply ready_client|apply R1].
Qed.

Lemma quiets_send w c x header buffer free :
  ready w c x ->
  (hdr_type header = PUBREL -> exists msgid, readInt buffer 0 = Some (msgid, 2) /\ 0 <= msgid <= MAX_MSG_ID) ->
  quiets w (MQTTPacket_send c header buffer free).
Proof.
  intros R Hr. unfold MQTTPacket_send. apply (quiets_client _ _ x); [by apply ready_client|].
  assert (Hb : zlen [buffer] <= 4) by done.
  destruct (Z.eqb_spec (hdr_type header) PUBREL) as [E|E].
  - destruct (Hr E) as (msgid & Er & Hid). apply quiets_bind.
    + apply (quiets_load _ _ _ (msgid, 2)); [done|]. apply quiets_bind; [|intros; apply quiets_ret].
      apply (quiets_put _ c); [done|done|]. right. split; [done|by left].
    + intros _ w1 Q1. destruct (quiet_ready _ _ _ _ Q1 R) as (x1 & R1 & C1). rewrite <- (cs_socket _ _ C1).
      by apply quiets_sending.
  - apply quiets_bind; [apply quiets_ret|]. intros _ w1 Q1.
    destruct (quiet_ready _ _ _ _ Q1 R) as (x1 & R1 & C1). rewrite <- (cs_socket _ _ C1).
    by apply quiets_sending.
Qed.

Lemma quiets_sends w c x header buffers frees :
  ready w c x -> zlen buffers <= 4 ->
  (hdr_type header = PUBLISH -> hdr_qos header <> 0 -> exists b msgid,
     buffers !! 2%nat = Some b /\ readInt b 0 = Some (msgid, 2) /\ 0 <= msgid <= MAX_MSG_ID) ->
  quiets w (MQTTPacket_sends c header buffers frees).
Proof.
  intros R Hb Hr. unfold MQTTPacket_sends, putdatas, socket_transport. apply (quiets_client _ _ x); [by apply ready_client|].
  destruct ((hdr_type header =? PUBLISH) && negb (hdr_qos header =? 0)) eqn:E.
  - apply andb_true_iff in E as [E1%Z.eqb_eq E2%negb_true_iff%Z.eqb_neq].
    destruct (Hr E1 E2) as (b & msgid & Eb & Er & Hid). apply quiets_bind.
    + apply (quiets_load _ _ _ b); [done|]. apply (quiets_load _ _ _ (msgid, 2)); [done|].
      apply quiets_bind; [|intros; apply quiets_ret].
      apply (quiets_put _ c); [done|done|]. right. split; [done|by right].
    + intros _ w1 Q1. destruct (quiet_ready _ _ _ _ Q1 R) as (x1 & R1 & C1). rewrite <- (cs_socket _ _ C1).
      by apply quiets_sending.
  - apply quiets_bind; [apply quiets_ret|]. intros _ w1 Q1.
    destruct (quiet_ready _ _ _ _ Q1 R) as (x1 & R1 & C1). rewrite <- (cs_socket _ _ C1).
    by apply quiets_sending.
Qed.

Lemma run_write_int n : run_write 2 (writeInt n) = Some (int_bytes n).
Proof. by apply (writes_run _ _ _ (writes_int n)). Qed.

Lemma readInt_int_bytes n : 0 <= n <= MAX_MSG_ID -> readInt (int_bytes n) 0 = Some (n, 2).
Proof.
  unfold MAX_MSG_ID. intros. rewrite int_bytes_u16 by lia. unfold readInt. simpl. do 2 f_equal. zdm.
Qed.

Lemma ack_header_type type dup : 0 <= type < 16 -> hdr_type (ack_header_byte type dup) = type.
Proof.
  intros Ht. unfold ack_header_byte, hdr_type, set_qos, set_dup, set_type.
  case_match; rewrite ?get_set_bits_other, get_set_bits by lia; rewrite Z.mod_small; lia.
Qed.

Lemma quiets_ack w c x type msgid dup :
  ready w c x -> 0 <= type < 16 -> 0 <= msgid <= MAX_MSG_ID ->
  quiets w (MQTTPacket_send_ack type msgid dup c).
Proof.
  intros R Ht Hid. unfold MQTTPacket_send_ack. apply (quiets_load _ _ _ (int_bytes msgid)); [apply run_write_int|].
  apply (quiets_send _ _ x); [done|]. intros _. exists msgid. split; [by apply readInt_int_bytes|done].
Qed.

Lemma quiets_header_only w c x header :
  ready w c x -> hdr_type header <> PUBREL -> quiets w (MQTTPacket_send c header [] 0).
Proof. intros R Hh. by apply (quiets_send _ _ x). Qed.

Lemma quiets_publish w c x pack dup qos retained topic :
  ready w c x -> pb_topic pack = Some topic -> 0 <= pb_payloadlen pack <= zlen (pb_payload pack) ->
  0 <= qos < 4 -> (0 < qos -> 0 <= pb_msgId pack <= MAX_MSG_ID) ->
  quiets w (MQTTPacket_send_publish pack dup qos retained c).
Proof.
  intros R Ht Hp Hq Hid. unfold MQTTPacket_send_publish. apply (quiets_load _ _ _ topic); [done|].
  set (payload := take (Z.to_nat (pb_payloadlen pack)) (pb_payload pack)).
  apply (quiets_load _ _ _ payload).
  { unfold subz. rewrite bool_decide_true by lia. done. }
  unfold publish_buffers. rewrite run_write_int. cbn [mbind option_bind].
  destruct (Z.ltb_spec 0 qos) as [Hpos|Hz].
  - rewrite run_write_int. cbn [mbind option_bind]. eapply quiets_load; [reflexivity|].
    apply (quiets_sends _ _ x); [done|done|]. intros _ _. exists (int_bytes (pb_msgId pack)), (pb_msgId pack).
    split; [done|]. split; [by apply readInt_int_bytes, Hid|by apply Hid].
  - eapply quiets_load; [reflexivity|]. apply (quiets_sends _ _ x); [done|done|].
    intros _ Hh. exfalso. apply Hh. assert (qos = 0) as -> by lia.
    unfold publish_header, hdr_qos, set_retain, set_qos. rewrite get_set_bits_other, get_set_bits by lia. done.
Qed.
End sending.
End Sending.
