(* ===== verification/Steps.v ===== *)
(** The changes of sessions that the protocol is made of: each primitive
    sequence of the code (dropping a message with its publication, adding one,
    delivering one) preserves the ownership invariant and changes one session
    in the expected way. *)
From stdpp Require Import gmultiset.
From S2P Require Import Prelude ListSpec Packet SocketBuffer Socket World Persistence Send Store Session Protocol Memory Sending.

Module Steps.
Import Packet SocketBuffer Socket World Persistence Send Store Session Protocol Memory Sending.

#[local] Arguments zlen : simpl never.

(** The two lists of messages in flight. *)
Inductive side := Inbound | Outbound.

(** * Operations on sessions *)

Definition has_id (id : Z) (a : amsg) : bool := am_id a =? id.
Definition without (id : Z) (l : list amsg) : list amsg := filter (fun a => am_id a <> id) l.
Definition find_id (id : Z) (l : list amsg) : option amsg := snd <$> list_find (fun a => am_id a = id) l.

Definition s_side (d : side) (s : session) : list amsg := match d with Inbound => s_in s | Outbound => s_out s end.
Definition s_with (d : side) (l : list amsg) (s : session) : session :=
  match d with Inbound => Sess l (s_out s) (s_queue s) | Outbound => Sess (s_in s) l (s_queue s) end.
Definition s_drop (d : side) (id : Z) (s : session) : session := s_with d (without id (s_side d s)) s.

Definition am_with_next (n : Z) (a : amsg) : amsg :=
  AMsg (am_id a) (am_qos a) (am_retain a) n (am_topic a) (am_topiclen a) (am_payload a) (am_payloadlen a).
Definition retag (id n : Z) (l : list amsg) : list amsg :=
  (fun b => if am_id b =? id then am_with_next n b else b) <$> l.
Definition s_retag (d : side) (id n : Z) (s : session) : session := s_with d (retag id n (s_side d s)) s.

Section steps.
Context {K PS : Type} `{Kernel K}.
Implicit Types (w : world K PS) (x : Clients PS).
Abbreviation P := (M (world K PS)).

Definition getl (d : side) (x : Clients PS) : clist loc :=
  match d with Inbound => c_inboundMsgs x | Outbound => c_outboundMsgs x end.
Definition setl (d : side) (l : clist loc) (x : Clients PS) : Clients PS :=
  match d with Inbound => set_inbound l x | Outbound => set_outbound l x end.

(** From [w] to [w'], the session of [c] changes by [f] and the others do not. *)
Definition steps (c : loc) (f : session -> session) w w' : Prop :=
  forall c', session_of w' c' = (if decide (c' = c) then f <$> session_of w c else session_of w c').

Lemma quiet_steps c w w' : quiet w w' -> steps c id w w'.
Proof.
  intros Q c'. rewrite (quiet_session _ _ _ Q). case_decide; [subst|done]. by destruct (session_of w c).
Qed.

Lemma steps_trans c f g w1 w2 w3 : steps c f w1 w2 -> steps c g w2 w3 -> steps c (g ∘ f) w1 w3.
Proof.
  intros H1 H2 c'. rewrite (H2 c'). case_decide as E; [|by rewrite (H1 c'), decide_False].
  rewrite (H1 c), decide_True by done. by destruct (session_of w1 c).
Qed.

Lemma steps_ext c f g w w' : (forall s, f s = g s) -> steps c f w w' -> steps c g w w'.
Proof.
  intros E H1 c'. rewrite (H1 c'). case_decide; [|done]. destruct (session_of w c); simpl; [|done]. by rewrite E.
Qed.

Lemma steps_quiet_l c f w w1 w2 : quiet w w1 -> steps c f w1 w2 -> steps c f w w2.
Proof. intros Q S c'. rewrite (S c'). case_decide; by rewrite (quiet_session _ _ _ Q). Qed.
Lemma steps_quiet_r c f w w1 w2 : steps c f w w1 -> quiet w1 w2 -> steps c f w w2.
Proof. intros S Q c'. rewrite (quiet_session _ _ _ Q). apply S. Qed.

(** On a session that is known. *)
Lemma steps_eval c f g s w w' : session_of w c = Some s -> f s = g s -> steps c f w w' -> steps c g w w'.
Proof. intros Hs E S c'. rewrite (S c'). case_decide; [|done]. rewrite Hs. simpl. by rewrite E. Qed.

(** * Facts from the invariant *)

Section facts.
Context (Em Ep Eq : gmultiset loc) (w : world K PS) (I : inv Em Ep ∅ Eq w).

Lemma client_msgs_nodup c x : w_cl w !! c = Some x -> NoDup (client_msgs x).
Proof.
  intros Hx. pose proof (i_msgs _ _ _ _ _ I) as E. rewrite (collect_delete _ _ _ _ Hx) in E.
  rewrite <- (assoc_L (⊎)) in E. by apply lsd_NoDup in E.
Qed.

Lemma client_msgs_alloc c x m : w_cl w !! c = Some x -> m ∈ client_msgs x -> exists v, w_msgs w !! m = Some v.
Proof.
  intros Hx Hm. apply elem_of_keys. rewrite <- (i_msgs _ _ _ _ _ I), (collect_delete _ _ _ _ Hx).
  apply elem_of_lsd in Hm. multiset_solver.
Qed.

Lemma owner_unique c c' x x' m :
  w_cl w !! c = Some x -> w_cl w !! c' = Some x' -> m ∈ client_msgs x -> m ∈ client_msgs x' -> c = c'.
Proof.
  intros Hx Hx' Hm Hm'. destruct (decide (c = c')) as [|Hne]; [done|exfalso].
  pose proof (i_msgs _ _ _ _ _ I) as E. rewrite (collect_delete _ _ _ _ Hx) in E.
  rewrite (collect_delete _ (delete c (w_cl w)) c' x') in E by (by rewrite lookup_delete_ne).
  pose proof (keys_multiplicity (w_msgs w) m) as Hk. rewrite <- E, !multiplicity_disj_union in Hk.
  apply elem_of_lsd in Hm, Hm'. rewrite elem_of_multiplicity in Hm, Hm'. simpl in *. lia.
Qed.

Lemma queue_alloc c x q :
  w_cl w !! c = Some x -> q ∈ LSpec.contents (c_messageQueue x) -> is_Some (w_qes w !! q).
Proof.
  intros Hx Hq. apply elem_of_keys. rewrite <- (i_qes _ _ _ _ _ I), (collect_delete _ _ _ _ Hx).
  apply elem_of_lsd in Hq. multiset_solver.
Qed.

Lemma msg_pub m v : w_msgs w !! m = Some v -> exists p, w_pubs w !! m_publish v = Some p.
Proof.
  intros Hv. apply elem_of_keys. pose proof (i_pubs _ _ _ _ _ I) as E.
  rewrite (collect_delete _ _ _ _ Hv) in E. simpl in E. multiset_solver.
Qed.

Lemma pub_unique m m' v v' :
  w_msgs w !! m = Some v -> w_msgs w !! m' = Some v' -> m_publish v = m_publish v' -> m = m'.
Proof.
  intros Hv Hv' Ep'. destruct (decide (m = m')) as [|Hne]; [done|exfalso].
  pose proof (i_pubs _ _ _ _ _ I) as E. rewrite (collect_delete _ _ _ _ Hv) in E.
  rewrite (collect_delete _ (delete m (w_msgs w)) m' v') in E by (by rewrite lookup_delete_ne).
  pose proof (keys_multiplicity (w_pubs w) (m_publish v)) as Hk. simpl in E. rewrite <- Ep' in E.
  rewrite !(right_id_L ∅ (⊎)) in E. rewrite <- E, !multiplicity_disj_union in Hk.
  rewrite multiplicity_singleton in Hk. case_decide; [|done]. lia.
Qed.

Lemma msg_view_alloc m v : w_msgs w !! m = Some v -> exists a, msg_view w m = Some a /\ am_id a = m_msgid v.
Proof.
  intros Hv. destruct (msg_pub m v Hv) as [p Hp]. unfold msg_view. rewrite Hv. simpl. rewrite Hp. simpl. eauto.
Qed.

Lemma view_list c x (l : list loc) :
  w_cl w !! c = Some x -> l ⊆ client_msgs x -> exists al, mapM (msg_view w) l = Some al.
Proof.
  intros Hx Hl. apply mapM_is_Some_2. apply Forall_forall. intros m Hm.
  destruct (client_msgs_alloc c x m Hx (Hl m Hm)) as [v Hv].
  destruct (msg_view_alloc m v Hv) as (a & E & _). by exists a.
Qed.

(** Sessions are always there. *)
Lemma session_total c x : w_cl w !! c = Some x -> exists s, session_of w c = Some s.
Proof.
  intros Hx. unfold session_of. rewrite Hx. cbn [mbind option_bind].
  destruct (view_list c x (LSpec.contents (c_inboundMsgs x)) Hx) as [i Ei]; [unfold client_msgs; set_solver|].
  destruct (view_list c x (LSpec.contents (c_outboundMsgs x)) Hx) as [o Eo]; [unfold client_msgs; set_solver|].
  destruct (mapM_is_Some_2 (entry_view w) (LSpec.contents (c_messageQueue x))) as [q Eq'].
  { apply Forall_forall. intros q Hq. destruct (queue_alloc c x q Hx Hq) as [e He].
    exists (qe_msg e, qe_topicName e, qe_topicLen e). unfold compose, entry_view. by rewrite He. }
  rewrite Ei, Eo, Eq'. by eexists.
Qed.
End facts.

(** The ids of the messages viewed. *)
Lemma view_ids w l al : mapM (msg_view w) l = Some al -> ids w l = Some <$> (am_id <$> al).
Proof.
  rewrite mapM_Some. induction 1 as [|m a l al Hm _ IH]; [done|]. simpl. f_equal; [|done].
  unfold msg_view in Hm. destruct (w_msgs w !! m) as [v|]; simplify_eq/=.
  destruct (w_pubs w !! _); by simplify_eq/=.
Qed.

Lemma mapM_app_Some {A B} (f : A -> option B) l1 l2 k :
  mapM f (l1 ++ l2) = Some k <-> exists k1 k2, mapM f l1 = Some k1 /\ mapM f l2 = Some k2 /\ k = k1 ++ k2.
Proof.
  setoid_rewrite mapM_Some. split.
  - intros (k1 & k2 & H1 & H2 & ->)%Forall2_app_inv_l. eauto 10.
  - intros (k1 & k2 & H1 & H2 & ->). by apply Forall2_app.
Qed.

Lemma mapM_cons_Some {A B} (f : A -> option B) a l k :
  mapM f (a :: l) = Some k <-> exists b k', f a = Some b /\ mapM f l = Some k' /\ k = b :: k'.
Proof.
  setoid_rewrite mapM_Some. split.
  - intros Hk. inversion Hk; subst. eauto 10.
  - intros (b & k' & ? & ? & ->). by constructor.
Qed.

Lemma without_mid a1 a a2 :
  NoDup (am_id <$> (a1 ++ a :: a2)) -> without (am_id a) (a1 ++ a :: a2) = a1 ++ a2.
Proof.
  rewrite fmap_app, fmap_cons, NoDup_app, NoDup_cons. intros (_ & Hn & Ha & _).
  assert (Hk : forall l, (am_id a ∉ am_id <$> l) -> without (am_id a) l = l).
  { intros l. induction l as [|b l IH]; [done|]. rewrite fmap_cons, not_elem_of_cons. intros [Hb Hl].
    unfold without. rewrite filter_cons_True by done. f_equal. by apply IH. }
  unfold without. rewrite filter_app, filter_cons_False by (by intros []). f_equal.
  - apply Hk. intros Hin. apply (Hn _ Hin). constructor.
  - by apply Hk.
Qed.

Lemma retag_mid n a1 a a2 :
  NoDup (am_id <$> (a1 ++ a :: a2)) -> retag (am_id a) n (a1 ++ a :: a2) = a1 ++ am_with_next n a :: a2.
Proof.
  rewrite fmap_app, fmap_cons, NoDup_app, NoDup_cons. intros (_ & Hn & Ha & _).
  assert (Hk : forall l, (am_id a ∉ am_id <$> l) -> retag (am_id a) n l = l).
  { intros l. induction l as [|b l IH]; [done|]. rewrite fmap_cons, not_elem_of_cons. intros [Hb Hl].
    unfold retag in *. rewrite fmap_cons. destruct (Z.eqb_spec (am_id b) (am_id a)); [congruence|]. by rewrite IH. }
  unfold retag in *. rewrite fmap_app, fmap_cons, Z.eqb_refl, !Hk; [done|done|].
  intros Hin. apply (Hn _ Hin). constructor.
Qed.

Lemma find_id_mid a1 a a2 :
  NoDup (am_id <$> (a1 ++ a :: a2)) -> find_id (am_id a) (a1 ++ a :: a2) = Some a.
Proof.
  rewrite fmap_app, fmap_cons, NoDup_app, NoDup_cons. intros (_ & Hn & _ & _). unfold find_id.
  assert (list_find (fun b => am_id b = am_id a) (a1 ++ a :: a2) = Some (length a1, a)) as ->; [|done].
  apply list_find_app_Some. right. split; [lia|]. split.
  - apply list_find_None, Forall_forall. intros b Hb E. apply (Hn (am_id b)); [by apply list_elem_of_fmap_2|].
    rewrite E. constructor.
  - rewrite Nat.sub_diag. simpl. by rewrite decide_True.
Qed.

(** * Dropping a message with its publication *)

Lemma unlink_loc (l : clist loc) (m : loc) :
  LSpec.wf l -> m ∈ LSpec.contents l ->
  exists l' k1 k2, LSpec.unlink (fun y => bool_decide (y = m)) l = (Some m, l') /\ LSpec.wf l' /\
    LSpec.contents l = k1 ++ m :: k2 /\ LSpec.contents l' = k1 ++ k2.
Proof.
  intros W Hm. pose proof (LSpec.unlink_wf (fun y => bool_decide (y = m)) l W) as W'.
  destruct (LSpec.unlink_cases (fun y => bool_decide (y = m)) l W) as [[_ Hn]|(k1 & a & y & k2 & Ei & Hy & E)].
  - exfalso. rewrite Forall_forall in Hn. specialize (Hn m Hm). by rewrite bool_decide_true in Hn.
  - apply bool_decide_eq_true in Hy. subst y. rewrite E in *. simpl in W'.
    eexists _, k1.*2, k2.*2. split; [reflexivity|]. split; [done|].
    split; [by apply LSpec.contents_mid in Ei|]. unfold LSpec.contents. simpl. by rewrite fmap_app.
Qed.

Definition without_pub (p : loc) (l : clist loc) w : world K PS :=
  set_pubs (delete p (w_pubs w)) (set_publications l w).

Lemma remove_from_publications_eq w p :
  is_Some (w_pubs w !! p) -> LSpec.wf (w_publications w) -> p ∈ LSpec.contents (w_publications w) ->
  exists l, remove_from_publications p w = Some (tt, without_pub p l w) /\ LSpec.wf l /\
    lsd (LSpec.contents (w_publications w)) = {[+ p +]} ⊎ lsd (LSpec.contents l).
Proof.
  intros [v Hv] W Hp. destruct (unlink_loc _ _ W Hp) as (l & k1 & k2 & E & W' & E1 & E2).
  exists l. unfold remove_from_publications. rewrite E. split; [|split; [done|]].
  - unfold free_publication. simpl. by rewrite Hv.
  - rewrite E1, E2, !lsd_app, lsd_cons. multiset_solver.
Qed.

Lemma removePublication_eq w p v :
  w_pubs w !! p = Some v -> pub_ok v -> LSpec.wf (w_publications w) -> p ∈ LSpec.contents (w_publications w) ->
  exists l, MQTTProtocol_removePublication p w = Some (tt, without_pub p l w) /\ LSpec.wf l /\
    lsd (LSpec.contents (w_publications w)) = {[+ p +]} ⊎ lsd (LSpec.contents l).
Proof.
  intros Hv [Hr _] W Hp. unfold MQTTProtocol_removePublication, publication, load, mbind at 1, M_bind.
  rewrite Hv. unfold upd_publication, mbind at 1, M_bind. rewrite Hr. simpl. rewrite Hv. simpl.
  set (w1 := set_pubs _ w).
  destruct (remove_from_publications_eq w1 p) as (l & E & W' & El); [simpl; by rewrite lookup_insert_eq|done|done|].
  exists l. rewrite E. split; [|done]. do 2 f_equal. unfold without_pub. simpl.
  by rewrite delete_insert_eq.
Qed.

Definition without_msg (d : side) (c m : loc) (l : clist loc) x w : world K PS :=
  set_msgs (delete m (w_msgs w)) (set_cl (<[c := setl d l x]> (w_cl w)) w).

Lemma remove_message_eq d c m x w :
  w_cl w !! c = Some x -> is_Some (w_msgs w !! m) -> LSpec.wf (getl d x) -> m ∈ LSpec.contents (getl d x) ->
  exists l k1 k2, remove_message (getl d) (setl d) c m w = Some (tt, without_msg d c m l x w) /\ LSpec.wf l /\
    LSpec.contents (getl d x) = k1 ++ m :: k2 /\ LSpec.contents l = k1 ++ k2.
Proof.
  intros Hx [v Hv] W Hm. destruct (unlink_loc _ _ W Hm) as (l & k1 & k2 & E & W' & E1 & E2).
  exists l, k1, k2. unfold remove_message. rewrite Hx. cbn [mbind option_bind]. rewrite E.
  split; [|done]. unfold free_message. simpl. by rewrite Hv.
Qed.

(** The state after a message and its publication are dropped. *)
Definition dropped (d : side) (c m p : loc) (lp l : clist loc) x w : world K PS :=
  without_msg d c m l x (without_pub p lp w).

Lemma setl_other (d : side) (y : Clients PS) (k : clist loc) :
  (forall d', d' <> d -> getl d' (setl d k y) = getl d' y) /\ getl d (setl d k y) = k /\
  c_messageQueue (setl d k y) = c_messageQueue y.
Proof. destruct d; split_and!; try done; intros [] ?; done. Qed.

Lemma update_wf (c : loc) w (get : Clients PS -> clist loc) (y : Clients PS) :
  LSpec.wf (get y) -> (forall c1 x, w_cl w !! c1 = Some x -> LSpec.wf (get x)) ->
  forall c0 x0, <[c := y]> (w_cl w) !! c0 = Some x0 -> LSpec.wf (get x0).
Proof. intros Hy Hall c0 x0. rewrite lookup_insert_Some. intros [[_ <-]|[_ H0]]; [done|by apply (Hall c0)]. Qed.

Section drop.
Context (d : side) (c m : loc) (Em Ep Eq : gmultiset loc) (w : world K PS) (x : Clients PS) (v : Messages)
  (lp l : clist loc) (k1 k2 : list loc).
Context (I : inv Em Ep ∅ Eq w) (Hx : w_cl w !! c = Some x) (Hv : w_msgs w !! m = Some v)
  (Hlp : lsd (LSpec.contents (w_publications w)) = {[+ m_publish v +]} ⊎ lsd (LSpec.contents lp)) (Wlp : LSpec.wf lp)
  (Hl : LSpec.contents (getl d x) = k1 ++ m :: k2) (Hl' : LSpec.contents l = k1 ++ k2) (Wl : LSpec.wf l).

Let w' := dropped d c m (m_publish v) lp l x w.

(** The messages of the other lists, and of the same list. *)
Lemma drop_view m' : is_Some (w_msgs w !! m') -> m' <> m -> msg_view w' m' = msg_view w m'.
Proof.
  intros [v' Hv'] Hne. unfold msg_view, w'. simpl. rewrite lookup_delete_ne by done. rewrite Hv'. simpl.
  rewrite lookup_delete_ne; [done|]. intros E. apply Hne. symmetry. by apply (pub_unique _ _ _ _ I m m' v v').
Qed.

Lemma drop_in_msgs : m ∈ client_msgs x.
Proof. unfold client_msgs. destruct d; simpl in Hl; rewrite Hl; set_solver. Qed.

Lemma drop_not_rest : (m ∉ k1 ++ k2) /\ (forall d', d' <> d -> m ∉ LSpec.contents (getl d' x)).
Proof.
  pose proof (client_msgs_nodup _ _ _ _ I c x Hx) as Hn. unfold client_msgs in Hn.
  assert (Hm : m ∈ LSpec.contents (getl d x)) by (rewrite Hl; set_solver).
  apply NoDup_app in Hn as (N1 & N2 & N3). split.
  - assert (NoDup (k1 ++ m :: k2)) as Hk by (rewrite <- Hl; by destruct d).
    apply NoDup_app in Hk as (_ & Hk & [Hk' _]%NoDup_cons). rewrite elem_of_app. intros [Hin|Hin]; [|done].
    apply (Hk m Hin). constructor.
  - intros d' Hd Hm'. destruct d, d'; simpl in *; try done; by apply (N2 m).
Qed.

Lemma drop_session : steps c (s_drop d (m_msgid v)) w w'.
Proof.
  intros c'. case_decide as E.
  - subst c'. destruct (session_total _ _ _ _ I c x Hx) as [s Hs]. rewrite Hs. simpl.
    unfold session_of in Hs |- *. rewrite Hx in Hs. cbn [mbind option_bind] in Hs.
    assert (Hc : w_cl w' !! c = Some (setl d l x)) by apply lookup_insert_eq. rewrite Hc. cbn [mbind option_bind].
    pose proof drop_in_msgs as Hin. destruct drop_not_rest as [Hr Ho].
    assert (Hview : forall k, (m ∉ k) -> k ⊆ client_msgs x -> mapM (msg_view w') k = mapM (msg_view w) k).
    { intros k Hk Hsub. apply Forall_mapM_ext, Forall_forall. intros m' Hm'. apply drop_view; [|by intros ->].
      destruct (client_msgs_alloc _ _ _ _ I c x m' Hx (Hsub m' Hm')) as [v' ->]. done. }
    assert (Hk : LSpec.contents (getl d x) ⊆ client_msgs x) by (unfold client_msgs; destruct d; set_solver).
    assert (Hside : forall al, mapM (msg_view w) (LSpec.contents (getl d x)) = Some al ->
              NoDup (ids w (LSpec.contents (getl d x))) ->
              mapM (msg_view w') (LSpec.contents l) = Some (without (m_msgid v) al)).
    { intros al Hal Hnd. rewrite (view_ids _ _ _ Hal) in Hnd.
      apply NoDup_fmap_1 in Hnd. rewrite Hl in Hal.
      apply mapM_app_Some in Hal as (a1 & a2' & A1 & A2 & ->).
      apply mapM_cons_Some in A2 as (a & a2 & Aa & A2 & ->).
      assert (am_id a = m_msgid v) as <-.
      { destruct (msg_view_alloc _ _ _ _ I m v Hv) as (b & Eb & <-). congruence. }
      rewrite without_mid by done. rewrite Hl'. rewrite Hview; [|done|rewrite Hl in Hk; set_solver].
      apply mapM_app_Some. eauto. }
    destruct (setl_other d x l) as (S1 & S2 & S3). rewrite S3. change (entry_view w') with (entry_view w).
    apply option.bind_Some in Hs as (i & Ei & Hs). apply option.bind_Some in Hs as (o & Eo & Hs).
    apply option.bind_Some in Hs as (q & Eq' & [= <-]). rewrite Eq'.
    destruct d; simpl in S1, S2 |- *.
    + rewrite (Hside i Ei (i_ids_in _ _ _ _ _ I c x Hx)). cbn [mbind option_bind].
      rewrite (Hview (LSpec.contents (c_outboundMsgs x))); [by rewrite Eo|by apply (Ho Outbound)|].
      unfold client_msgs. set_solver.
    + rewrite (Hview (LSpec.contents (c_inboundMsgs x))); [rewrite Ei|by apply (Ho Inbound)|unfold client_msgs; set_solver].
      cbn [mbind option_bind]. rewrite (Hside o Eo (i_ids_out _ _ _ _ _ I c x Hx)). done.
  - unfold session_of. assert (Hc : w_cl w' !! c' = w_cl w !! c') by (by apply lookup_insert_ne). rewrite Hc.
    destruct (w_cl w !! c') as [y|] eqn:Ey; [|done]. cbn [mbind option_bind].
    assert (Hview : forall k, k ⊆ client_msgs y -> mapM (msg_view w') k = mapM (msg_view w) k).
    { intros k Hsub. apply Forall_mapM_ext, Forall_forall. intros m' Hm'. apply drop_view.
      - destruct (client_msgs_alloc _ _ _ _ I c' y m' Ey (Hsub m' Hm')) as [v' ->]. done.
      - intros ->. apply E. symmetry. apply (owner_unique _ _ _ _ I c c' x y m Hx Ey drop_in_msgs). by apply Hsub. }
    rewrite !Hview by (unfold client_msgs; set_solver). done.
Qed.

Lemma drop_client_msgs : lsd (client_msgs x) = {[+ m +]} ⊎ lsd (client_msgs (setl d l x)).
Proof.
  unfold client_msgs. destruct d; simpl in *; rewrite Hl, Hl', !lsd_app, lsd_cons; multiset_solver.
Qed.

Lemma drop_ids k : m ∉ k -> ids w' k = ids w k.
Proof.
  intros Hk. unfold ids. apply list_fmap_ext. intros i m' Hm'. simpl. rewrite lookup_delete_ne; [done|].
  intros <-. apply Hk. by apply list_elem_of_lookup_2 in Hm'.
Qed.

Lemma drop_ids_client (side : side) c0 x0 :
  w_cl w' !! c0 = Some x0 -> NoDup (ids w' (LSpec.contents (getl side x0))).
Proof.
  simpl. intros H0.
  assert (Hids : forall c1 x1, w_cl w !! c1 = Some x1 -> NoDup (ids w (LSpec.contents (getl side x1)))).
  { destruct side; [apply (i_ids_in _ _ _ _ _ I)|apply (i_ids_out _ _ _ _ _ I)]. }
  destruct drop_not_rest as [Hr Ho]. destruct (setl_other d x l) as (S1 & S2 & _).
  destruct (decide (c0 = c)) as [->|Hne].
  - rewrite lookup_insert_eq in H0. injection H0 as <-. specialize (Hids c x Hx).
    assert (side = d \/ side <> d) as [->|Hs] by (destruct side, d; auto).
    + rewrite S2, Hl', drop_ids by done. rewrite Hl in Hids. unfold ids in *.
      rewrite fmap_app, fmap_cons in Hids. rewrite fmap_app.
      apply NoDup_app in Hids as (N1 & N2 & [_ N3]%NoDup_cons). apply NoDup_app. split_and!; [done| |done].
      intros i Hi Hi'. apply (N2 i Hi). by constructor.
    + rewrite S1, drop_ids by auto. done.
  - rewrite lookup_insert_ne in H0 by done. rewrite drop_ids; [by apply (Hids c0)|].
    intros Hin. apply Hne. symmetry. apply (owner_unique _ _ _ _ I c c0 x x0 m Hx H0 drop_in_msgs).
    unfold client_msgs. destruct side; simpl in Hin; set_solver.
Qed.

Lemma drop_inv : inv Em Ep ∅ Eq w'.
Proof.
  pose proof I as [[W1 W2 W3 W4 W5 W6 W7] J1 J2 J3 J4 J5 J6 J7 J8 [J9 J10]].
  destruct (setl_other d x l) as (S1 & S2 & S3).
  split.
  - split; simpl; try done; apply update_wf; try done.
    + destruct d; [done|exact (W5 c x Hx)].
    + destruct d; [exact (W6 c x Hx)|done].
    + rewrite S3. exact (W7 c x Hx).
  - simpl. rewrite (collect_insert _ _ _ _ _ Hx). rewrite (collect_delete _ _ _ _ Hx), (keys_delete _ _ _ Hv) in J1.
    rewrite drop_client_msgs in J1. multiset_solver.
  - simpl. rewrite (collect_delete _ _ _ _ Hv) in J2. destruct (msg_pub _ _ _ _ I m v Hv) as [p Hp].
    rewrite (keys_delete _ _ _ Hp) in J2. simpl in J2. multiset_solver.
  - simpl. destruct (msg_pub _ _ _ _ I m v Hv) as [p Hp].
    rewrite (keys_delete _ _ _ Hp), Hlp in J3. multiset_solver.
  - simpl. rewrite (collect_same _ _ _ x) by (done || by rewrite S3). done.
  - by apply map_Forall_delete.
  - by apply map_Forall_delete.
  - apply (drop_ids_client Inbound).
  - apply (drop_ids_client Outbound).
  - split; [done|]. intros c0 Hc0. simpl. destruct (decide (c0 = c)) as [->|Hne].
    + by rewrite lookup_insert_eq.
    + rewrite lookup_insert_ne by done. by apply J10.
Qed.
End drop.

(** * What stays besides sessions *)

(** A client without its lists. *)
Definition cshell x : Clients PS :=
  set_inbound LSpec.empty (set_outbound LSpec.empty (set_queue LSpec.empty (set_seqno 0 (cnorm x)))).

Record shell w w' : Prop := {
  sh_clients : items (w_clients w') = items (w_clients w);
  sh_cl : cshell <$> w_cl w' = cshell <$> w_cl w;
  sh_handles : items (w_handles w') = items (w_handles w);
  sh_ms : w_ms w' = w_ms w;
  sh_pending : w_pending w' = w_pending w;
  sh_last : w_last w' = w_last w;
  sh_events : w_events w' = w_events w }.

#[export] Instance shell_refl : Reflexive shell.
Proof. intros w. by split. Qed.
#[export] Instance shell_trans : Transitive shell.
Proof. intros w1 w2 w3 H1 H2. destruct H1, H2. by split; etrans. Qed.

Lemma quiet_shell w w' : quiet w w' -> shell w w'.
Proof.
  intros Q. split; try apply Q.
  assert (E : forall w, cshell <$> w_cl w = (fun y => cshell y) <$> (cnorm <$> w_cl w)).
  { intros w0. by rewrite <- map_fmap_compose. }
  by rewrite !E, (q_cl _ _ Q).
Qed.

(** The fields kept. *)
Record cframe x x' : Prop := {
  cf_data : c_data x' = c_data x;
  cf_connected : c_connected x' = c_connected x;
  cf_good : c_good x' = c_good x;
  cf_ping : c_ping_outstanding x' = c_ping_outstanding x;
  cf_state : c_connect_state x' = c_connect_state x;
  cf_inflight : c_maxInflightMessages x' = c_maxInflightMessages x;
  cf_socket : nh_socket (c_net x') = nh_socket (c_net x);
  cf_msgID : c_msgID x' = c_msgID x;
  cf_retry : c_retryInterval x' = c_retryInterval x;
  cf_handle : c_phandle x' = c_phandle x;
  cf_per : c_persistence x' = c_persistence x }.

Lemma cshell_cframe x x' : cshell x' = cshell x -> cframe x x'.
Proof.
  destruct x as [? ? ? ? ? [? ? ?] ? ? ? [? ? ? ?] [? ? ? ?] [? ? ? ?] ? ? ?],
    x' as [? ? ? ? ? [? ? ?] ? ? ? [? ? ? ?] [? ? ? ?] [? ? ? ?] ? ? ?].
  cbv. intros E. injection E; intros; subst. by split.
Qed.

Lemma shell_client w w' c x :
  shell w w' -> w_cl w !! c = Some x -> exists x', w_cl w' !! c = Some x' /\ cframe x x'.
Proof.
  intros S Hx. pose proof (f_equal (fun m => m !! c) (sh_cl _ _ S)) as E.
  simpl in E. rewrite !lookup_fmap, Hx in E. destruct (w_cl w' !! c) as [x'|]; [|done].
  exists x'. split; [done|]. apply cshell_cframe. exact (inj Some _ _ E).
Qed.

Lemma shell_compare w w' sock c : shell w w' -> clientSocketCompare w' sock c = clientSocketCompare w sock c.
Proof.
  intros S. unfold clientSocketCompare. destruct (w_cl w !! c) as [x|] eqn:Ex.
  - destruct (shell_client w w' c x S Ex) as (x' & -> & F). by rewrite (cf_socket _ _ F).
  - pose proof (f_equal (fun m => m !! c) (sh_cl _ _ S)) as E. simpl in E. rewrite !lookup_fmap, Ex in E.
    by destruct (w_cl w' !! c).
Qed.

Lemma shell_at w w' sock c x : shell w w' -> at_socket w sock c x -> exists x', at_socket w' sock c x' /\ cframe x x'.
Proof.
  intros S [H1 H2 H3 H4]. destruct (shell_client w w' c x S H2) as (x' & E & F).
  assert (Hc : LSpec.contents (w_clients w') = LSpec.contents (w_clients w)).
  { unfold LSpec.contents. by rewrite (sh_clients _ _ S). }
  exists x'. split; [|done]. split; [by rewrite Hc|done|by rewrite (cf_socket _ _ F)|].
  intros c' Hc'. rewrite (shell_compare w w') by done. rewrite Hc in Hc'. by apply H4.
Qed.

(** Replacing a client's lists. *)
Lemma shell_cl w c x x' :
  w_cl w !! c = Some x -> cshell x' = cshell x -> shell w (set_cl (<[c := x']> (w_cl w)) w).
Proof.
  intros Hx E. split; try done. simpl. rewrite fmap_insert, E. apply insert_id. by rewrite lookup_fmap, Hx.
Qed.

(** * The drop, as the code does it *)

Lemma publications_elem Em Ep Eq w p : inv Em Ep ∅ Eq w -> is_Some (w_pubs w !! p) -> p ∈ LSpec.contents (w_publications w).
Proof. intros I Hp. apply elem_of_lsd. rewrite (i_publist _ _ _ _ _ I). by apply elem_of_keys. Qed.

(** Any way of removing the publication that has this effect. *)
Definition removes_pub (rm : loc -> P unit) : Prop :=
  forall w p v, w_pubs w !! p = Some v -> pub_ok v -> LSpec.wf (w_publications w) ->
    p ∈ LSpec.contents (w_publications w) ->
    exists l, rm p w = Some (tt, without_pub p l w) /\ LSpec.wf l /\
      lsd (LSpec.contents (w_publications w)) = {[+ p +]} ⊎ lsd (LSpec.contents l).

Lemma removePublication_removes : removes_pub MQTTProtocol_removePublication.
Proof. intros w p v. apply removePublication_eq. Qed.
Lemma remove_from_publications_removes : removes_pub remove_from_publications.
Proof. intros w p v Hv _. apply remove_from_publications_eq. by exists v. Qed.

Lemma drop_step (rm : loc -> P unit) d c m Em Ep Eq w x v :
  removes_pub rm -> inv Em Ep ∅ Eq w -> w_cl w !! c = Some x -> m ∈ LSpec.contents (getl d x) ->
  w_msgs w !! m = Some v ->
  exists w', (rm (m_publish v);; remove_message (getl d) (setl d) c m) w = Some (tt, w') /\
    inv Em Ep ∅ Eq w' /\ steps c (s_drop d (m_msgid v)) w w' /\ shell w w' /\
    w_net w' = w_net w /\ w_ps w' = w_ps w /\
    w_msgs_sent w' = w_msgs_sent w /\ w_msgs_received w' = w_msgs_received w.
Proof.
  intros Hrm I Hx Hm Hv. destruct (msg_pub _ _ _ _ I m v Hv) as [p Hp].
  destruct (Hrm w (m_publish v) p Hp) as (lp & E1 & Wlp & Hlp).
  { by apply (i_pub_ok _ _ _ _ _ I _ _ Hp). }
  { apply (wfs_publications _ (i_wf _ _ _ _ _ I)). }
  { eapply publications_elem; [done|by exists p]. }
  destruct (remove_message_eq d c m x (without_pub (m_publish v) lp w)) as (l & k1 & k2 & E2 & Wl & Hl & Hl').
  { done. } { by exists v. }
  { destruct d; [by apply (wfs_in _ (i_wf _ _ _ _ _ I) c)|by apply (wfs_out _ (i_wf _ _ _ _ _ I) c)]. }
  { done. }
  exists (dropped d c m (m_publish v) lp l x w). mstep E1. split; [exact E2|].
  split; [by eapply drop_inv|]. split; [by eapply drop_session|]. split; [|done].
  etrans; [apply (shell_cl w c x (setl d l x)); [done|by destruct d]|]. by split.
Qed.

(** * Changing a message in place *)

(** The owner, the id and the publication stay. *)
Definition keeps_msg (f : Messages -> Messages) : Prop :=
  forall v, m_msgid (f v) = m_msgid v /\ m_publish (f v) = m_publish v /\
    m_qos (f v) = m_qos v /\ m_retain (f v) = m_retain v.

Definition updated (m : loc) (v : Messages) w : world K PS := set_msgs (<[m := v]> (w_msgs w)) w.

Lemma upd_message_eq m f w v : w_msgs w !! m = Some v -> upd_message m f w = Some (tt, updated m (f v) w).
Proof. intros Hv. unfold upd_message. by rewrite Hv. Qed.

Lemma updated_inv Em Ep Dp Eq m f w v :
  keeps_msg f -> w_msgs w !! m = Some v -> inv Em Ep Dp Eq w -> inv Em Ep Dp Eq (updated m (f v) w).
Proof.
  intros Kf Hv [J0 J1 J2 J3 J4 J5 J6 J7 J8 [J9 J10]]. destruct (Kf v) as (F1 & F2 & F3 & F4).
  assert (Hids : forall k, ids (updated m (f v) w) k = ids w k).
  { intros k. unfold ids. apply list_fmap_ext. intros i m' _. simpl.
    destruct (decide (m' = m)) as [->|Hne]; [by rewrite lookup_insert_eq, Hv; simpl; rewrite F1|].
    by rewrite lookup_insert_ne. }
  split; simpl; try done.
  - by destruct J0.
  - by rewrite (keys_insert _ _ v).
  - by rewrite (collect_same _ _ _ v) by (done || by rewrite F2).
  - apply map_Forall_insert_2; [|done]. unfold msg_ok. rewrite F1. by apply (J6 m).
  - intros c x Hx. rewrite Hids. by apply (J7 c).
  - intros c x Hx. rewrite Hids. by apply (J8 c).
Qed.

Lemma updated_view m f w v m' :
  keeps_msg f -> w_msgs w !! m = Some v ->
  msg_view (updated m (f v) w) m' =
    if decide (m' = m) then am_with_next (m_nextMessageType (f v)) <$> msg_view w m else msg_view w m'.
Proof.
  intros Kf Hv. destruct (Kf v) as (F1 & F2 & F3 & F4). unfold msg_view. simpl.
  case_decide as E; [subst|by rewrite lookup_insert_ne].
  rewrite lookup_insert_eq, Hv. cbn [mbind option_bind]. rewrite F2. destruct (w_pubs w !! m_publish v); [|done].
  simpl. by rewrite F1, F3, F4.
Qed.

(** The step of one message of a list. *)
Lemma updated_steps d c m f Em Ep Eq w x v :
  keeps_msg f -> inv Em Ep ∅ Eq w -> w_cl w !! c = Some x -> m ∈ LSpec.contents (getl d x) ->
  w_msgs w !! m = Some v ->
  steps c (s_retag d (m_msgid v) (m_nextMessageType (f v))) w (updated m (f v) w).
Proof.
  intros Kf I Hx Hm Hv c'.
  set (n := m_nextMessageType (f v)). set (w' := updated m (f v) w).
  assert (Hsame : forall k, (m ∉ k) -> mapM (msg_view w') k = mapM (msg_view w) k).
  { intros k Hk. apply Forall_mapM_ext, Forall_forall. intros m' Hm'. unfold w'. rewrite updated_view by done.
    rewrite decide_False; [done|]. by intros ->. }
  assert (Hin : m ∈ client_msgs x) by (unfold client_msgs; destruct d; simpl in Hm; set_solver).
  case_decide as E.
  - subst c'. destruct (session_total _ _ _ _ I c x Hx) as [s Hs]. rewrite Hs. simpl.
    unfold session_of in Hs |- *. change (w_cl w') with (w_cl w). rewrite Hx in Hs |- *. cbn [mbind option_bind] in Hs |- *.
    change (entry_view w') with (entry_view w).
    apply option.bind_Some in Hs as (i & Ei & Hs). apply option.bind_Some in Hs as (o & Eo & Hs).
    apply option.bind_Some in Hs as (q & Eq' & [= <-]). rewrite Eq'.
    pose proof (client_msgs_nodup _ _ _ _ I c x Hx) as Hn. unfold client_msgs in Hn. apply NoDup_app in Hn as (N1 & N2 & N3).
    assert (Htag : forall al, mapM (msg_view w) (LSpec.contents (getl d x)) = Some al ->
        NoDup (LSpec.contents (getl d x)) -> NoDup (am_id <$> al) ->
        mapM (msg_view w') (LSpec.contents (getl d x)) = Some (retag (m_msgid v) n al)).
    { intros al Hal Hnd Hndi. apply list_elem_of_split in Hm as (k1 & k2 & Hk). rewrite Hk in Hal, Hnd |- *.
      apply NoDup_app in Hnd as (_ & D2 & [D3 _]%NoDup_cons).
      apply mapM_app_Some in Hal as (a1 & a2' & A1 & A2 & ->). apply mapM_cons_Some in A2 as (a & a2 & Aa & A2 & ->).
      assert (am_id a = m_msgid v) as Ea.
      { destruct (msg_view_alloc _ _ _ _ I m v Hv) as (b & Eb & <-). congruence. }
      rewrite <- Ea, retag_mid by done. apply mapM_app_Some. exists a1, (am_with_next n a :: a2).
      rewrite Hsame by (intros Hk1; apply (D2 m Hk1); constructor).
      split_and!; [done| |done]. apply mapM_cons_Some. exists (am_with_next n a), a2. rewrite Hsame by done.
      split_and!; [|done..]. unfold w'. rewrite updated_view, decide_True by done. by rewrite Aa. }
    assert (Hids : forall k al, mapM (msg_view w) k = Some al -> NoDup (ids w k) -> NoDup (am_id <$> al)).
    { intros k al Hal Hnd. rewrite (view_ids _ _ _ Hal) in Hnd. by apply NoDup_fmap_1 in Hnd. }
    destruct d; simpl in Hm, Htag |- *.
    + rewrite (Htag i Ei N1 (Hids _ _ Ei (i_ids_in _ _ _ _ _ I c x Hx))). cbn [mbind option_bind].
      rewrite (Hsame (LSpec.contents (c_outboundMsgs x))) by (by apply N2). by rewrite Eo.
    + rewrite (Hsame (LSpec.contents (c_inboundMsgs x))) by (intros Hi; exact (N2 m Hi Hm)). rewrite Ei. cbn [mbind option_bind].
      by rewrite (Htag o Eo N3 (Hids _ _ Eo (i_ids_out _ _ _ _ _ I c x Hx))).
  - unfold session_of. change (w_cl w') with (w_cl w). destruct (w_cl w !! c') as [y|] eqn:Ey; [|done].
    cbn [mbind option_bind]. change (entry_view w') with (entry_view w).
    assert (Hni : m ∉ client_msgs y).
    { intros Hi. apply E. symmetry. by apply (owner_unique _ _ _ _ I c c' x y m). }
    unfold client_msgs in Hni. rewrite !Hsame by set_solver. done.
Qed.

(** Searching a list of messages. *)
Lemma find_msg_eq d c msgid w x :
  wfs w -> w_cl w !! c = Some x ->
  exists r w', find_msg (getl d) (setl d) c msgid w = Some (r, w') /\ quiet w w' /\
    w_net w' = w_net w /\ w_ps w' = w_ps w /\ w_clients w' = w_clients w /\
    match r with
    | Some m => m ∈ LSpec.contents (getl d x) /\ messageIDCompare w msgid m = true
    | None => Forall (fun m => messageIDCompare w msgid m = false) (LSpec.contents (getl d x))
    end.
Proof.
  intros W Hx. unfold find_msg. rewrite Hx. cbn [mbind option_bind].
  assert (Wl : LSpec.wf (getl d x)) by (destruct d; [by apply (wfs_in _ W c)|by apply (wfs_out _ W c)]).
  pose proof (LSpec.find_item_wf (messageIDCompare w msgid) (getl d x) Wl) as Wf.
  destruct (LSpec.find_item_cases (messageIDCompare w msgid) (getl d x) Wl) as [[E Hn]|(k1 & a & m & k2 & Ei & Hm & E & Ec)];
    rewrite E in Wf |- *; simpl in Wf.
  - exists None. eexists. split; [reflexivity|]. split; [|done].
    apply (quiet_cl w c x); [done|by destruct d, x as [? ? ? ? ? ? ? ? ? [] [] [] ? ? ?]|..].
    all: destruct d; try done; first [exact (wfs_in _ W c x Hx)|exact (wfs_out _ W c x Hx)|exact (wfs_queue _ W c x Hx)].
  - eexists _, _. split; [reflexivity|].
    change (LSpec.elem_content (LSpec.with_cur (Some a) (getl d x)) a) with (LSpec.elem_content (getl d x) a).
    rewrite Ec. split; [|split_and!; try done].
    + apply (quiet_cl w c x); [done|by destruct d, x as [? ? ? ? ? ? ? ? ? [] [] [] ? ? ?]|..].
      all: destruct d; try done; first [exact (wfs_in _ W c x Hx)|exact (wfs_out _ W c x Hx)|exact (wfs_queue _ W c x Hx)].
    + rewrite (LSpec.contents_mid _ _ _ _ _ Ei). set_solver.
Qed.
End steps.
End Steps.
