(* ===== verification/Ids.v ===== *)
(** Message ids: [MQTTProtocol_assignMsgId] gives the next free id in cyclic order,
    and when it does not. *)
From S2P Require Import Prelude ListSpec Packet SocketBuffer Socket World Persistence Send Store Session Protocol Memory Sending Steps.

Module Ids.
Import Packet SocketBuffer Socket World Persistence Send Store Session Protocol Memory Sending Steps.

(** The [k]-th id tried after [start]. *)
Definition candidate (start k : Z) : Z := (start + k - 1) mod MAX_MSG_ID + 1.
(** The number of ids that are tried: [start] itself is not. *)
Definition tries (start : Z) : Z := if start =? 0 then MAX_MSG_ID else MAX_MSG_ID - 1.

Lemma candidate_range s k : 1 <= candidate s k <= MAX_MSG_ID.
Proof. unfold candidate, MAX_MSG_ID. zdm. Qed.

Lemma candidate_1 s : 0 <= s <= MAX_MSG_ID -> candidate s 1 = next_msgid s.
Proof.
  unfold candidate, next_msgid, MAX_MSG_ID. intros. destruct (Z.eqb_spec s 65535); [subst; done|].
  rewrite Z.mod_small by lia. lia.
Qed.

Lemma candidate_succ s k : candidate s (k + 1) = next_msgid (candidate s k).
Proof.
  unfold candidate, next_msgid, MAX_MSG_ID. replace (s + (k + 1) - 1) with ((s + k - 1) + 1) by lia.
  destruct (Z.eqb_spec ((s + k - 1) mod 65535 + 1) 65535); zdm.
Qed.

Lemma candidate_start s k :
  0 <= s <= MAX_MSG_ID -> 1 <= k <= MAX_MSG_ID -> candidate s k = s <-> s <> 0 /\ k = MAX_MSG_ID.
Proof.
  unfold candidate, MAX_MSG_ID. intros Hs Hk. split.
  - intros E. assert (s <> 0) by zdm. split; [done|].
    pose proof (Z.div_mod (s + k - 1) 65535 ltac:(lia)) as D. rewrite (proj1 (Z.add_move_r _ _ _) E) in D.
    assert ((s + k - 1) / 65535 < 2) by (apply Z.div_lt_upper_bound; lia).
    assert (0 <= (s + k - 1) / 65535) by (apply Z.div_pos; lia). nia.
  - intros [? ->]. replace (s + 65535 - 1) with ((s - 1) + 1 * 65535) by lia. rewrite Z.mod_add, Z.mod_small by lia. lia.
Qed.

(** Every id but [start] is tried. *)
Lemma candidate_complete s id :
  0 <= s <= MAX_MSG_ID -> 1 <= id <= MAX_MSG_ID -> id <> s -> exists k, 1 <= k <= tries s /\ candidate s k = id.
Proof.
  unfold candidate, tries, MAX_MSG_ID. intros Hs Hid Hne.
  exists (if s <? id then id - s else id - s + 65535). destruct (Z.ltb_spec s id), (Z.eqb_spec s 0); split; try lia.
  - rewrite Z.mod_small; lia.
  - rewrite Z.mod_small; lia.
  - replace (s + (id - s + 65535) - 1) with ((id - 1) + 1 * 65535) by lia. rewrite Z.mod_add, Z.mod_small; lia.
Qed.

(** The first position with a property. *)
Lemma first_position (f : Z -> bool) (n : nat) :
  (exists k, 1 <= k <= Z.of_nat n /\ f k = false) ->
  exists k, 1 <= k <= Z.of_nat n /\ f k = false /\ forall i, 1 <= i < k -> f i = true.
Proof.
  induction n as [|n IH]; intros (k & Hk & Hf); [lia|].
  destruct (forallb (fun i => f (Z.of_nat i)) (seq 1 n)) eqn:E.
  - exists k. split; [done|]. split; [done|]. intros i Hi. rewrite forallb_forall in E.
    rewrite <- (Z2Nat.id i) by lia. apply E. apply in_seq. lia.
  - destruct IH as (j & Hj & Hfj & Hall).
    + destruct (decide (k = Z.of_nat (S n))) as [->|]; [|exists k; split; [lia|done]].
      apply not_true_iff_false in E. destruct (existsb (fun i => negb (f (Z.of_nat i))) (seq 1 n)) eqn:Ex.
      * apply existsb_exists in Ex as (i & Hi%in_seq & Hfi%negb_true_iff). exists (Z.of_nat i). split; [lia|done].
      * exfalso. apply E, forallb_forall. intros i Hi. destruct (f (Z.of_nat i)) eqn:Hfi; [done|].
        assert (existsb (fun i => negb (f (Z.of_nat i))) (seq 1 n) = true); [|congruence].
        apply existsb_exists. exists i. by rewrite Hfi.
    + exists j. split; [lia|done].
Qed.

Section ids.
Context {K PS : Type} `{Kernel K}.
Implicit Types (w : world K PS) (x : Clients PS).
Abbreviation P := (M (world K PS)).

(** An id of a message in flight. *)
Definition id_used w x (id : Z) : bool := existsb (messageIDCompare w id) (LSpec.contents (c_outboundMsgs x)).

Lemma find_used w c x id :
  wfs w -> w_cl w !! c = Some x ->
  exists r w', find_msg c_outboundMsgs set_outbound c id w = Some (r, w') /\ quiet w w' /\
    match r with Some _ => id_used w x id = true | None => id_used w x id = false end.
Proof.
  intros W Hx. destruct (find_msg_eq Outbound c id w x W Hx) as (r & w' & E & Q & _ & _ & _ & Hr).
  exists r, w'. split; [exact E|]. split; [done|]. unfold id_used. destruct r as [m|].
  - destruct Hr as [Hm Hc]. apply existsb_exists. exists m. split; [by apply list_elem_of_In|done].
  - rewrite Forall_forall in Hr. destruct (existsb _ _) eqn:Ex; [|done]. exfalso.
    apply existsb_exists in Ex as (m & Hm & Hc). apply list_elem_of_In in Hm. simpl in Hr. rewrite (Hr m Hm) in Hc. done.
Qed.

Lemma id_used_quiet w w' c x id :
  quiet w w' -> w_cl w !! c = Some x -> exists x', w_cl w' !! c = Some x' /\ csim x x' /\ id_used w' x' id = id_used w x id.
Proof.
  intros Q Hx. destruct (quiet_csim _ _ c x Q Hx) as (x' & Hx' & C). exists x'. split; [done|]. split; [done|].
  unfold id_used. apply csim_contents in C as (_ & -> & _).
  induction (LSpec.contents (c_outboundMsgs x)) as [|m l IH]; [done|]. simpl. rewrite IH. f_equal.
  unfold messageIDCompare. by rewrite (q_msgs _ _ Q).
Qed.

(** From the [k]-th candidate, with [fuel] left. *)
Lemma assign_loop_spec c s fuel : forall w x k,
  wfs w -> w_cl w !! c = Some x -> 0 <= s <= MAX_MSG_ID -> 1 <= k -> k + Z.of_nat fuel = MAX_MSG_ID + 1 ->
  (s <> 0 -> k < MAX_MSG_ID) ->
  (forall j, k <= j <= tries s -> id_used w x (candidate s j) = false ->
     (forall i, k <= i < j -> id_used w x (candidate s i) = true) ->
     exists w', assign_loop fuel c s (candidate s k) w = Some (candidate s j, w') /\ quiet w w') /\
  ((forall i, k <= i <= tries s -> id_used w x (candidate s i) = true) ->
     if s =? 0 then assign_loop fuel c s (candidate s k) w = None
     else exists w', assign_loop fuel c s (candidate s k) w = Some (0, w') /\ quiet w w').
Proof.
  induction fuel as [|fuel IH]; intros w x k W Hx Hs Hk Hf Hlim.
  { split.
    - intros j Hj. unfold tries in Hj. destruct (Z.eqb_spec s 0); lia.
    - intros _. destruct (Z.eqb_spec s 0) as [|Hne]; [done|]. specialize (Hlim Hne). lia. }
  destruct (find_used w c x (candidate s k) W Hx) as (r & w1 & E1 & Q1 & Hr).
  assert (Hrun : assign_loop (S fuel) c s (candidate s k) w =
    match r with
    | None => Some (candidate s k, w1)
    | Some _ => if candidate s (k + 1) =? s then Some (0, w1) else assign_loop fuel c s (candidate s (k + 1)) w1
    end).
  { cbn [assign_loop]. mstep E1. rewrite candidate_succ. by repeat case_match. }
  rewrite Hrun. destruct r as [m|]; cycle 1.
  { split.
    - intros j Hj Hu Hall. destruct (decide (j = k)) as [->|]; [by exists w1|]. rewrite Hall in Hr by lia. done.
    - intros Hall. rewrite Hall in Hr; [done|]. unfold tries. destruct (Z.eqb_spec s 0) as [|Hne]; [lia|]. specialize (Hlim Hne). lia. }
  destruct (id_used_quiet w w1 c x 0 Q1 Hx) as (x1 & Hx1 & _ & _).
  assert (Hu1 : forall id, id_used w1 x1 id = id_used w x id).
  { intros id. destruct (id_used_quiet w w1 c x id Q1 Hx) as (x2 & Hx2 & _ & <-). congruence. }
  destruct (Z.eqb_spec (candidate s (k + 1)) s) as [Es|Es].
  - assert (Hb : k + 1 <= MAX_MSG_ID).
    { destruct (decide (s = 0)) as [->|Hne]; [pose proof (candidate_range 0 (k + 1)); lia|]. specialize (Hlim Hne). lia. }
    apply candidate_start in Es as [Hs0 Hk1]; [|done|lia]. unfold tries. rewrite (proj2 (Z.eqb_neq _ _) Hs0). split.
    + intros j Hj Hu Hall. assert (j = k) as -> by lia. rewrite Hu in Hr. done.
    + intros _. by exists w1.
  - assert (Hlim' : s <> 0 -> k + 1 < MAX_MSG_ID).
    { intros Hne. specialize (Hlim Hne). destruct (decide (k + 1 = MAX_MSG_ID)) as [E|]; [|lia].
      exfalso. apply Es. apply candidate_start; lia. }
    destruct (IH w1 x1 (k + 1) (q_wf _ _ Q1 W) Hx1 Hs ltac:(lia) ltac:(lia) Hlim') as [IHa IHb]. split.
    + intros j Hj Hu Hall. destruct (decide (j = k)) as [->|]; [congruence|].
      destruct (IHa j) as (w' & E & Q); [lia|by rewrite Hu1|intros i Hi; rewrite Hu1; apply Hall; lia|].
      exists w'. split; [done|by etrans].
    + intros Hall. assert (Hall1 : forall i, k + 1 <= i <= tries s -> id_used w1 x1 (candidate s i) = true).
      { intros i Hi. rewrite Hu1. apply Hall. lia. }
      specialize (IHb Hall1). destruct (s =? 0); [done|]. destruct IHb as (w' & E & Q). exists w'. split; [done|by etrans].
Qed.

Lemma assignMsgId_step w c x :
  wfs w -> w_cl w !! c = Some x -> 0 <= c_msgID x <= MAX_MSG_ID ->
  let start := c_msgID x in
  ((exists id, 1 <= id <= MAX_MSG_ID /\ id <> start /\ id_used w x id = false) ->
     exists k w1 x1, let id := candidate start k in
       1 <= id <= MAX_MSG_ID /\ id_used w x id = false /\ (forall i, 1 <= i < k -> id_used w x (candidate start i) = true) /\
       quiet w w1 /\ w_cl w1 !! c = Some x1 /\
       MQTTProtocol_assignMsgId c w = Some (id, set_cl (<[c := set_msgID id x1]> (w_cl w1)) w1)) /\
  ((forall id, 1 <= id <= MAX_MSG_ID -> id <> start -> id_used w x id = true) ->
     if start =? 0 then MQTTProtocol_assignMsgId c w = None
     else exists w1, quiet w w1 /\ MQTTProtocol_assignMsgId c w = Some (0, w1)).
Proof.
  intros W Hx Hs start. unfold MQTTProtocol_assignMsgId. mstep (client_eq w c x Hx). fold start in Hs |- *.
  rewrite <- candidate_1 by done.
  destruct (assign_loop_spec c start (Z.to_nat MAX_MSG_ID) w x 1 W Hx Hs ltac:(lia)) as [Ha Hb].
  { unfold MAX_MSG_ID. rewrite Z2Nat.id; lia. } { unfold MAX_MSG_ID. lia. }
  assert (Ht : 0 <= tries start) by (unfold tries, MAX_MSG_ID; destruct (_ =? _); lia).
  split.
  - intros (id & Hid & Hne & Hu). destruct (candidate_complete start id Hs Hid Hne) as (k0 & Hk0 & <-).
    destruct (first_position (fun k => id_used w x (candidate start k)) (Z.to_nat (tries start)))
      as (k & Hk & Huk & Hall); [exists k0; rewrite Z2Nat.id; done|]. rewrite Z2Nat.id in Hk by done.
    destruct (Ha k Hk Huk Hall) as (w1 & E & Q).
    destruct (quiet_csim _ _ c x Q Hx) as (x1 & Hx1 & _). exists k, w1, x1.
    pose proof (candidate_range start k) as Hr. split_and!; [apply Hr|apply Hr|done..|]. mstep E.
    rewrite (proj2 (Z.eqb_neq (candidate _ _) 0)) by lia. simpl. unfold upd_client, mbind, M_bind. by rewrite Hx1.
  - intros Hall. assert (Hall' : forall i, 1 <= i <= tries start -> id_used w x (candidate start i) = true).
    { intros i Hi. apply Hall; [apply candidate_range|]. intros E. unfold tries in Hi.
      apply candidate_start in E; [|done|destruct (_ =? 0); lia]. destruct E as [E1 E2].
      rewrite (proj2 (Z.eqb_neq _ _) E1) in Hi. lia. }
    specialize (Hb Hall'). destruct (start =? 0).
    + unfold mbind, M_bind. by rewrite Hb.
    + destruct Hb as (w1 & E & Q). exists w1. split; [done|]. by mstep E.
Qed.

(** [C22] Assigning a message id tries every id from 1 to 65535 but the last one
    assigned, in cyclic order.  If one of them is not used by a message in
    flight, the first such id is returned and remembered, and nothing else
    changes.  If all of them are in use, the result is 0 and nothing is
    remembered - except before the first assignment, when the search does not
    end. *)
Theorem assignMsgId_spec w c x :
  wfs w -> w_cl w !! c = Some x -> 0 <= c_msgID x <= MAX_MSG_ID ->
  let start := c_msgID x in
  ((exists id, 1 <= id <= MAX_MSG_ID /\ id <> start /\ id_used w x id = false) ->
     exists k w1 x1, let id := candidate start k in
       1 <= id <= MAX_MSG_ID /\ id_used w x id = false /\ (forall i, 1 <= i < k -> id_used w x (candidate start i) = true) /\
       quiet w w1 /\ w_cl w1 !! c = Some x1 /\
       MQTTProtocol_assignMsgId c w = Some (id, set_cl (<[c := set_msgID id x1]> (w_cl w1)) w1)) /\
  ((forall id, 1 <= id <= MAX_MSG_ID -> id <> start -> id_used w x id = true) ->
     if start =? 0 then MQTTProtocol_assignMsgId c w = None
     else exists w1, quiet w w1 /\ MQTTProtocol_assignMsgId c w = Some (0, w1)).
Proof. apply assignMsgId_step. Qed.
End ids.
End Ids.
