(* ===== verification/Handlers.v ===== *)
(** The sender's side of the QoS 1 and QoS 2 exchanges: the handlers of PUBACK,
    PUBREC and PUBCOMP implement the abstract transitions of a session, do not
    go wrong, and keep the ownership invariant. *)
From stdpp Require Import gmultiset.
From S2P Require Import Prelude ListSpec Packet SocketBuffer Socket World Persistence Send Store Session Protocol Memory Sending Steps.

Module Handlers.
Import Packet SocketBuffer Socket World Persistence Send Store Session Protocol Memory Sending Steps.

#[local] Arguments zlen : simpl never.

(** * The abstract sender *)

(** The message with an id is in the given phase. *)
Definition in_phase (phase : amsg -> bool) (id : Z) (l : list amsg) : bool :=
  match find_id id l with Some a => phase a | None => false end.
Definition qos1 (a : amsg) : bool := am_qos a =? 1.
Definition expects (n : Z) (a : amsg) : bool := (am_qos a =? 2) && (am_next a =? n).

(** PUBACK ends a QoS 1 exchange; PUBCOMP ends a QoS 2 exchange that has been
    released; any other is ignored. *)
Definition recv_puback (id : Z) (s : session) : session :=
  if in_phase qos1 id (s_out s) then s_drop Outbound id s else s.
Definition recv_pubcomp (id : Z) (s : session) : session :=
  if in_phase (expects PUBCOMP) id (s_out s) then s_drop Outbound id s else s.

(** PUBREC: the message is released, and waits for PUBCOMP. *)
Definition recv_pubrec (id : Z) (s : session) : session :=
  if in_phase (expects PUBREC) id (s_out s)
  then s_retag Outbound id PUBCOMP s else s.

Section handlers.
Context {K PS : Type} `{Kernel K}.
Implicit Types (w : world K PS) (x : Clients PS).
Abbreviation P := (M (world K PS)).

(** * Forgetting records *)

Definition forget (per : option (MQTTClient_persistence PS)) (h : Z) (ks : list string) (ps : PS) : PS :=
  match per with
  | None => ps
  | Some p => foldl (fun s k => (premove p h k s).2) ps ks
  end.

Definition removed_keys (stem : string) (qos id : Z) : list string :=
  if bool_decide (stem = PERSISTENCE_PUBLISH_SENT) && (qos =? 2)
  then [(PERSISTENCE_PUBLISH_SENT +:+ pretty id)%string; (PERSISTENCE_PUBREL +:+ pretty id)%string]
  else [(stem +:+ pretty id)%string].

Lemma persistence_remove_eq w c x stem qos id :
  w_cl w !! c = Some x -> (String.length stem <= 3)%nat -> 0 <= id <= MAX_MSG_ID ->
  exists rc, MQTTPersistence_remove c stem qos id w =
    Some (rc, set_ps (forget (c_persistence x) (c_phandle x) (removed_keys stem qos id) (w_ps w)) w).
Proof.
  intros Hx Hs Hid. unfold MQTTPersistence_remove, client, load, mbind, M_bind. rewrite Hx. simpl.
  destruct (c_persistence x) as [per|]; simpl; [|by exists 0; destruct w].
  unfold removed_keys.
  destruct (bool_decide (stem = PERSISTENCE_PUBLISH_SENT) && (qos =? 2)) eqn:E; simpl.
  - rewrite !key_ok by (done || (vm_compute; lia)). unfold ops.
    destruct (premove per _ _ (w_ps w)) as [rc1 s1]. simpl.
    destruct (premove per _ _ s1) as [rc2 s2]. by exists rc2.
  - rewrite !key_ok by done. unfold ops. destruct (premove per _ _ (w_ps w)) as [rc1 s1]. by exists rc1.
Qed.

(** * Searches and sessions *)

Lemma session_side w c x s d :
  w_cl w !! c = Some x -> session_of w c = Some s ->
  mapM (msg_view w) (LSpec.contents (getl d x)) = Some (s_side d s).
Proof.
  intros Hx Hs. unfold session_of in Hs. rewrite Hx in Hs. cbn [mbind option_bind] in Hs.
  apply option.bind_Some in Hs as (i & Ei & Hs). apply option.bind_Some in Hs as (o & Eo & Hs).
  apply option.bind_Some in Hs as (q & Eq' & [= <-]). by destruct d.
Qed.

Lemma side_ids Em Ep Eq w c x s d :
  inv Em Ep ∅ Eq w -> w_cl w !! c = Some x -> session_of w c = Some s -> NoDup (am_id <$> s_side d s).
Proof.
  intros I Hx Hs. pose proof (session_side w c x s d Hx Hs) as Hv. apply view_ids in Hv.
  assert (Hn : NoDup (ids w (LSpec.contents (getl d x)))).
  { destruct d; [by apply (i_ids_in _ _ _ _ _ I c)|by apply (i_ids_out _ _ _ _ _ I c)]. }
  rewrite Hv in Hn. by apply NoDup_fmap_1 in Hn.
Qed.

Lemma find_view Em Ep Eq w c x s d m id :
  inv Em Ep ∅ Eq w -> w_cl w !! c = Some x -> session_of w c = Some s ->
  m ∈ LSpec.contents (getl d x) -> messageIDCompare w id m = true ->
  exists v a, w_msgs w !! m = Some v /\ m_msgid v = id /\ msg_view w m = Some a /\
    find_id id (s_side d s) = Some a /\ am_qos a = m_qos v /\ am_next a = m_nextMessageType v.
Proof.
  intros I Hx Hs Hm Hid. unfold messageIDCompare in Hid. destruct (w_msgs w !! m) as [v|] eqn:Hv; [|done].
  apply Z.eqb_eq in Hid. destruct (msg_view_alloc _ _ _ _ I m v Hv) as (a & Ha & Eid).
  exists v, a. split_and!; [done..| | |].
  - pose proof (session_side w c x s d Hx Hs) as Hal. pose proof (side_ids _ _ _ w c x s d I Hx Hs) as Hn.
    apply list_elem_of_split in Hm as (k1 & k2 & Hk). rewrite Hk in Hal.
    apply mapM_app_Some in Hal as (a1 & a2' & _ & A2 & Es). apply mapM_cons_Some in A2 as (b & a2 & Eb & _ & ->).
    assert (b = a) as -> by congruence. rewrite Es in Hn |- *. rewrite <- Hid, <- Eid. by apply find_id_mid.
  - unfold msg_view in Ha. rewrite Hv in Ha. simpl in Ha. destruct (w_pubs w !! _); by simplify_eq/=.
  - unfold msg_view in Ha. rewrite Hv in Ha. simpl in Ha. destruct (w_pubs w !! _); by simplify_eq/=.
Qed.

Lemma find_view_none Em Ep Eq w c x s d id :
  inv Em Ep ∅ Eq w -> w_cl w !! c = Some x -> session_of w c = Some s ->
  Forall (fun m => messageIDCompare w id m = false) (LSpec.contents (getl d x)) ->
  find_id id (s_side d s) = None.
Proof.
  intros I Hx Hs Hn. pose proof (session_side w c x s d Hx Hs) as Hal. apply mapM_Some in Hal.
  unfold find_id. destruct (list_find _ (s_side d s)) as [[i a]|] eqn:E; [|done].
  apply list_find_Some in E as (Hi & Ha & _). exfalso.
  destruct (Forall2_lookup_r _ _ _ _ _ Hal Hi) as (m & Hm & Hv). rewrite Forall_forall in Hn.
  specialize (Hn m ltac:(by eapply list_elem_of_lookup_2)). unfold messageIDCompare in Hn. unfold msg_view in Hv.
  destruct (w_msgs w !! m) as [v|]; [|done]. simpl in Hv. destruct (w_pubs w !! _); [|done].
  injection Hv as <-. simpl in Ha. apply Z.eqb_neq in Hn. done.
Qed.

(** An id that is not found is not the id of a message of the list. *)
Lemma unused_id w (l : list loc) al id :
  mapM (msg_view w) l = Some al -> find_id id al = None -> Some id ∉ ids w l.
Proof.
  intros Hal Hf. rewrite (view_ids _ _ _ Hal). intros Hin. apply list_elem_of_fmap in Hin as (i & [= <-] & Hin).
  apply list_elem_of_fmap in Hin as (b & Eb & Hb). unfold find_id in Hf.
  destruct (list_find_elem_of (fun a0 => am_id a0 = id) al b Hb (eq_sym Eb)) as [[i b'] Ef]. by rewrite Ef in Hf.
Qed.

(** The searches that start every handler. *)
Lemma handler_start Em Ep Eq w sock c x s d id :
  inv Em Ep ∅ Eq w -> at_socket w sock c x -> session_of w c = Some s ->
  exists w1, find_client sock w = Some (c, w1) /\
  exists r w2 x2, find_msg (getl d) (setl d) c id w1 = Some (r, w2) /\ quiet w w2 /\ inv Em Ep ∅ Eq w2 /\
    at_socket w2 sock c x2 /\ csim x x2 /\ session_of w2 c = Some s /\ w_net w2 = w_net w /\ w_ps w2 = w_ps w /\
    match r with
    | Some m => m ∈ LSpec.contents (getl d x2) /\ exists v a, w_msgs w2 !! m = Some v /\ m_msgid v = id /\
        msg_view w2 m = Some a /\ find_id id (s_side d s) = Some a /\
        am_qos a = m_qos v /\ am_next a = m_nextMessageType v
    | None => find_id id (s_side d s) = None
    end.
Proof.
  intros I A Hs. destruct (quiets_find_client w sock c x (i_wf _ _ _ _ _ I) A) as (w1 & E1 & Q1 & N1 & P1 & C1).
  exists w1. split; [done|].
  assert (Hx1 : w_cl w1 !! c = Some x) by (rewrite C1; apply A).
  pose proof (quiet_inv _ _ _ _ _ _ Q1 I) as I1.
  destruct (find_msg_eq d c id w1 x (i_wf _ _ _ _ _ I1) Hx1) as (r & w2 & E2 & Q2 & N2 & P2 & _ & Hr).
  assert (Q : quiet w w2) by (by etrans).
  destruct (quiet_at_socket _ _ _ _ _ Q A) as (x2 & A2 & S2).
  pose proof (quiet_inv _ _ _ _ _ _ Q I) as I2.
  assert (Hs2 : session_of w2 c = Some s) by (by rewrite (quiet_session _ _ _ Q)).
  exists r, w2, x2. split_and!; [done..|congruence|congruence|].
  assert (Hc : LSpec.contents (getl d x2) = LSpec.contents (getl d x)).
  { apply csim_contents in S2 as (S2 & S3 & _). by destruct d. }
  assert (Hcmp : forall m, messageIDCompare w2 id m = messageIDCompare w1 id m).
  { intros m. unfold messageIDCompare. by rewrite (q_msgs _ _ Q2). }
  destruct r as [m|].
  - destruct Hr as [Hm Hid]. rewrite <- Hcmp in Hid. rewrite <- Hc in Hm. split; [done|].
    apply (find_view _ _ _ w2 c x2 s d m id I2 (as_client _ _ _ _ A2) Hs2 Hm Hid).
  - apply (find_view_none _ _ _ w2 c x2 s d id I2 (as_client _ _ _ _ A2) Hs2).
    rewrite Hc. eapply Forall_impl; [exact Hr|]. intros m. simpl. by rewrite Hcmp.
Qed.

Lemma steps_same c f s w w' :
  session_of w c = Some s -> f s = s -> quiet w w' -> steps c f w w'.
Proof. intros Hs Hf Q. apply (steps_eval c id f s); [done|by rewrite Hf|by apply quiet_steps]. Qed.

(** The end of an outbound exchange: the record is forgotten, the message and
    its publication are dropped. *)
Lemma finish_outbound w c x m v s qos id :
  winv w -> w_cl w !! c = Some x -> session_of w c = Some s ->
  m ∈ LSpec.contents (c_outboundMsgs x) -> w_msgs w !! m = Some v -> m_msgid v = id -> 0 <= id <= MAX_MSG_ID ->
  exists rc w1 w2, MQTTPersistence_remove c PERSISTENCE_PUBLISH_SENT qos id w = Some (rc, w1) /\
    (MQTTProtocol_removePublication (m_publish v);; remove_message c_outboundMsgs set_outbound c m) w1 = Some (tt, w2) /\
    winv w2 /\ steps c (s_drop Outbound id) w w2 /\ shell w w2 /\ w_net w2 = w_net w /\
    w_ps w2 = forget (c_persistence x) (c_phandle x) (removed_keys PERSISTENCE_PUBLISH_SENT qos id) (w_ps w) /\
    w_msgs_sent w2 = w_msgs_sent w.
Proof.
  intros I Hx Hs Hm Hv Hid Hr.
  destruct (persistence_remove_eq w c x PERSISTENCE_PUBLISH_SENT qos id Hx ltac:(vm_compute; lia) Hr) as (rc & E1).
  set (w1 := set_ps _ w) in E1. pose proof (quiet_ps w _ : quiet w w1) as Q1.
  pose proof (quiet_inv _ _ _ _ _ _ Q1 I) as I1.
  destruct (drop_step MQTTProtocol_removePublication Outbound c m _ _ _ w1 x v removePublication_removes I1 Hx Hm Hv)
    as (w2 & E2 & I2 & S2 & Sh2 & N2 & P2 & Sent & _).
  exists rc, w1, w2. split; [done|]. split; [done|]. split; [done|]. split; [|split].
  - rewrite <- Hid. by apply (steps_quiet_l _ _ _ _ _ Q1).
  - etrans; [by apply quiet_shell|done].
  - by rewrite N2, P2, Sent.
Qed.

(** A handler does not go wrong, keeps memory ownership, changes the session of
    [c] by [f] and no other, and its final state satisfies [Q]. *)
Definition outcome (c : loc) (f : session -> session) w (r : option (Z * world K PS)) (Q : world K PS -> Prop) : Prop :=
  exists rc w', r = Some (rc, w') /\ winv w' /\ steps c f w w' /\ shell w w' /\ Q w'.

Lemma outcome_ignored c f s w w' rc (Q : world K PS -> Prop) :
  quiet w w' -> winv w' -> session_of w c = Some s -> f s = s -> Q w' -> outcome c f w (Some (rc, w')) Q.
Proof.
  intros Qt I Hs Hf HQ. exists rc, w'. split_and!; [done|done| |by apply quiet_shell|done].
  by apply (steps_same c f s).
Qed.

Lemma handlePubacks_step w sock c x s puback :
  winv w -> at_socket w sock c x -> session_of w c = Some s -> 0 <= ack_msgId puback <= MAX_MSG_ID ->
  outcome c (recv_puback (ack_msgId puback)) w (MQTTProtocol_handlePubacks puback sock w) (fun w' =>
    w_net w' = w_net w /\
    w_ps w' = if in_phase qos1 (ack_msgId puback) (s_out s)
              then forget (c_persistence x) (c_phandle x)
                     [(PERSISTENCE_PUBLISH_SENT +:+ pretty (ack_msgId puback))%string] (w_ps w)
              else w_ps w).
Proof.
  intros I A Hs Hid. unfold MQTTProtocol_handlePubacks.
  destruct (handler_start _ _ _ w sock c x s Outbound (ack_msgId puback) I A Hs)
    as (w1 & E1 & r & w2 & x2 & E2 & Q & I2 & A2 & C2 & Hs2 & N2 & P2 & Hr). simpl in E2, Hr.
  mstep E1. mstep E2.
  destruct (in_phase qos1 (ack_msgId puback) (s_out s)) eqn:Ph; unfold in_phase in Ph.
  - destruct r as [m|]; [|by rewrite Hr in Ph]. destruct Hr as (Hm & v & a & Hv & Hvid & Ha & Hf & Hq & Hn).
    rewrite Hf in Ph. unfold qos1 in Ph. rewrite Hq in Ph. mstep (message_eq w2 m v Hv). rewrite Ph. cbv iota beta delta [negb].
    destruct (finish_outbound w2 c x2 m v s (m_qos v) (ack_msgId puback) I2 (as_client _ _ _ _ A2) Hs2 Hm Hv Hvid Hid)
      as (rc & w3 & w4 & E3 & E4 & I4 & S4 & Sh4 & N4 & P4 & _).
    mstep E3. rewrite <- bind_assoc. mstep E4. exists rc, w4. split_and!; [done|done| | |congruence|].
    + apply (steps_quiet_l _ _ _ _ _ Q). eapply (steps_eval _ _ _ s); [done| |exact S4].
      unfold recv_puback, in_phase. rewrite Hf. unfold qos1. by rewrite Hq, Ph.
    + etrans; [by apply quiet_shell|done].
    + rewrite P4, P2, (cs_per _ _ C2), (cs_handle _ _ C2). apply Z.eqb_eq in Ph. by rewrite Ph.
  - assert (recv_puback (ack_msgId puback) s = s) by (unfold recv_puback, in_phase; by rewrite Ph).
    destruct r as [m|]; [|by apply (outcome_ignored _ _ s)].
    destruct Hr as (Hm & v & a & Hv & Hvid & Ha & Hf & Hq & Hn). rewrite Hf in Ph. unfold qos1 in Ph. rewrite Hq in Ph.
    mstep (message_eq w2 m v Hv). rewrite Ph. by apply (outcome_ignored _ _ s).
Qed.

(** Counting changes no session. *)
Lemma sent_winv n w : winv w -> winv (add_sent n w).
Proof. intros [[] ? ? ? ? ? ? ? ? ?]. by split. Qed.
Lemma received_winv n w : winv w -> winv (add_received n w).
Proof. intros [[] ? ? ? ? ? ? ? ? ?]. by split. Qed.

Lemma handlePubcomps_step w sock c x s pubcomp :
  winv w -> at_socket w sock c x -> session_of w c = Some s -> 0 <= ack_msgId pubcomp <= MAX_MSG_ID ->
  let id := ack_msgId pubcomp in
  let completes := in_phase (expects PUBCOMP) id (s_out s) in
  outcome c (recv_pubcomp id) w (MQTTProtocol_handlePubcomps pubcomp sock w) (fun w' =>
    w_net w' = w_net w /\
    w_ps w' = (if completes
               then forget (c_persistence x) (c_phandle x)
                 [(PERSISTENCE_PUBLISH_SENT +:+ pretty id)%string; (PERSISTENCE_PUBREL +:+ pretty id)%string] (w_ps w)
               else w_ps w) /\
    w_msgs_sent w' = if completes then uint_wrap (w_msgs_sent w + 1) else w_msgs_sent w).
Proof.
  intros I A Hs Hid id completes. unfold MQTTProtocol_handlePubcomps.
  destruct (handler_start _ _ _ w sock c x s Outbound id I A Hs)
    as (w1 & E1 & r & w2 & x2 & E2 & Q & I2 & A2 & C2 & Hs2 & N2 & P2 & Hr). simpl in E2, Hr.
  mstep E1. mstep E2.
  destruct completes eqn:Ph; unfold completes, in_phase in Ph.
  - destruct r as [m|]; [|by rewrite Hr in Ph]. destruct Hr as (Hm & v & a & Hv & Hvid & Ha & Hf & Hq & Hn).
    rewrite Hf in Ph. unfold expects in Ph. rewrite Hq, Hn in Ph.
    apply andb_true_iff in Ph as [Ph1 Ph2]. mstep (message_eq w2 m v Hv). rewrite Ph1, Ph2.
    cbv iota beta delta [negb].
    destruct (finish_outbound w2 c x2 m v s (m_qos v) id I2 (as_client _ _ _ _ A2) Hs2 Hm Hv Hvid Hid)
      as (rc & w3 & w4 & E3 & E4 & I4 & S4 & Sh4 & N4 & P4 & Sent).
    mstep E3. rewrite <- bind_assoc. mstep E4. exists rc, (add_sent 1 w4).
    split_and!; [done|by apply sent_winv| | | | |].
    + apply (steps_quiet_l _ _ _ _ _ Q). eapply (steps_eval _ _ _ s); [done| |exact S4].
      unfold recv_pubcomp, in_phase. rewrite Hf. unfold expects. by rewrite Hq, Hn, Ph1, Ph2.
    + etrans; [by apply quiet_shell|]. etrans; [done|]. by split.
    + simpl. congruence.
    + simpl. rewrite P4, P2, (cs_per _ _ C2), (cs_handle _ _ C2). apply Z.eqb_eq in Ph1. by rewrite Ph1.
    + simpl. by rewrite Sent, (q_sent _ _ Q).
  - assert (recv_pubcomp id s = s) by (unfold recv_pubcomp, in_phase; by rewrite Ph).
    pose proof (q_sent _ _ Q).
    destruct r as [m|]; [|by apply (outcome_ignored _ _ s)].
    destruct Hr as (Hm & v & a & Hv & Hvid & Ha & Hf & Hq & Hn). rewrite Hf in Ph. unfold expects in Ph.
    rewrite Hq, Hn in Ph. mstep (message_eq w2 m v Hv).
    destruct (m_qos v =? 2); simpl in Ph |- *; [rewrite Ph; simpl|]; by apply (outcome_ignored _ _ s).
Qed.

Lemma keeps_lastTouch t : keeps_msg (set_lastTouch t).
Proof. done. Qed.
Lemma keeps_nextType n : keeps_msg (set_nextMessageType n).
Proof. done. Qed.

Lemma updated_shell m v w : shell w (updated m v w).
Proof. by split. Qed.

(** Touching a message changes its time only. *)
Lemma touch_step w m v :
  w_msgs w !! m = Some v -> winv w ->
  exists w', touch m w = Some (tt, w') /\ winv w' /\ (forall c, session_of w' c = session_of w c) /\ shell w w' /\
    w_ps w' = w_ps w /\ w_cl w' = w_cl w.
Proof.
  intros Hv I. unfold touch, time, onet, zoom, sys, mbind, M_bind.
  destruct (k_time (n_k (w_net w))) as [t k]. set (n := Net _ _ k). set (w1 := set_net n w).
  pose proof (quiet_net w n : quiet w w1) as Q. assert (Hv1 : w_msgs w1 !! m = Some v) by done.
  exists (updated m (set_lastTouch t v) w1). split_and!; [by apply upd_message_eq| | | |done|done].
  - apply updated_inv; [done|done|by apply (quiet_inv _ _ _ _ _ _ Q)].
  - intros c. rewrite <- (quiet_session _ _ c Q). unfold session_of.
    change (entry_view (updated m (set_lastTouch t v) w1)) with (entry_view w1). simpl.
    destruct (w_cl w !! c); [|done]. cbn [mbind option_bind].
    assert (He : forall m', msg_view (updated m (set_lastTouch t v) w1) m' = msg_view w1 m').
    { intros m'. rewrite updated_view by done. case_decide; [subst|done]. unfold msg_view. rewrite Hv1. simpl.
      by destruct (w_pubs w !! _). }
    by rewrite !(mapM_ext _ _ _ He).
  - etrans; [by apply quiet_shell|apply updated_shell].
Qed.

(** Moving a message of an outbound list to the next phase. *)
Lemma release_step w c x m v n :
  winv w -> w_cl w !! c = Some x -> m ∈ LSpec.contents (c_outboundMsgs x) -> w_msgs w !! m = Some v ->
  exists w', (upd_message m (set_nextMessageType n);; touch m) w = Some (tt, w') /\ winv w' /\
    steps c (s_retag Outbound (m_msgid v) n) w w' /\ shell w w' /\ w_ps w' = w_ps w.
Proof.
  intros I Hx Hm Hv. rewrite (bind_step _ _ _ _ _ (upd_message_eq m (set_nextMessageType n) w v Hv)).
  set (w1 := updated m (set_nextMessageType n v) w).
  pose proof (updated_inv _ _ _ _ m _ w v (keeps_nextType n) Hv I : winv w1) as I1.
  assert (Hv1 : w_msgs w1 !! m = Some (set_nextMessageType n v)) by apply lookup_insert_eq.
  destruct (touch_step w1 m _ Hv1 I1) as (w2 & E2 & I2 & S2 & Sh2 & P2 & _).
  exists w2. split_and!; [done..| | |done].
  - pose proof (updated_steps Outbound c m _ _ _ _ w x v (keeps_nextType n) I Hx Hm Hv) as St.
    intros c'. rewrite S2. apply St.
  - etrans; [apply updated_shell|exact Sh2].
Qed.

(** Clearing the current element before the search changes nothing else. *)
Lemma clear_current w c x :
  wfs w -> w_cl w !! c = Some x ->
  exists w', upd_client c (fun x => set_outbound (LSpec.with_cur None (c_outboundMsgs x)) x) w = Some (tt, w') /\
    quiet w w' /\ w_net w' = w_net w /\ w_ps w' = w_ps w.
Proof.
  intros W Hx. eexists. split; [unfold upd_client; by rewrite Hx|]. split; [|done].
  apply (quiet_cl _ _ x); [done|done|exact (wfs_in _ W c x Hx)| |exact (wfs_queue _ W c x Hx)].
  destruct (wfs_out _ W c x Hx). by split.
Qed.

(** The searches of the PUBREC handler. *)
Lemma pubrec_start w sock c x s id :
  winv w -> at_socket w sock c x -> session_of w c = Some s ->
  exists r w2 x2,
    (c ← find_client sock;
     upd_client c (fun x => set_outbound (LSpec.with_cur None (c_outboundMsgs x)) x);;
     f ← find_msg c_outboundMsgs set_outbound c id; mret (c, f)) w = Some ((c, r), w2) /\
    quiet w w2 /\ at_socket w2 sock c x2 /\ w_net w2 = w_net w /\ w_ps w2 = w_ps w /\
    match r with
    | Some m => m ∈ LSpec.contents (c_outboundMsgs x2) /\ exists v a, w_msgs w2 !! m = Some v /\ m_msgid v = id /\
        find_id id (s_out s) = Some a /\ am_qos a = m_qos v /\ am_next a = m_nextMessageType v
    | None => find_id id (s_out s) = None
    end.
Proof.
  intros I A Hs. destruct (quiets_find_client w sock c x (i_wf _ _ _ _ _ I) A) as (w0 & E0 & Q0 & N0 & P0 & C0).
  mstep E0. assert (Hx0 : w_cl w0 !! c = Some x) by (rewrite C0; apply A).
  destruct (clear_current w0 c x (q_wf _ _ Q0 (i_wf _ _ _ _ _ I)) Hx0) as (w1 & E1 & Q1 & N1 & P1). mstep E1.
  assert (Qa : quiet w w1) by (by etrans). pose proof (quiet_inv _ _ _ _ _ _ Qa I) as I1.
  destruct (quiet_at_socket _ _ _ _ _ Qa A) as (x1 & A1 & S1).
  destruct (find_msg_eq Outbound c id w1 x1 (i_wf _ _ _ _ _ I1) (as_client _ _ _ _ A1))
    as (r & w2 & E2 & Q2 & N2 & P2 & _ & Hr). simpl in E2, Hr. mstep E2.
  assert (Q : quiet w w2) by (by etrans). destruct (quiet_at_socket _ _ _ _ _ Q2 A1) as (x2 & A2 & S2).
  exists r, w2, x2. split_and!; [done..|congruence|congruence|].
  assert (Hs1 : session_of w1 c = Some s) by (by rewrite (quiet_session _ _ _ Qa)).
  destruct r as [m|]; [|exact (find_view_none _ _ _ w1 c x1 s Outbound id I1 (as_client _ _ _ _ A1) Hs1 Hr)].
  destruct Hr as [Hm Hcmp]. apply csim_contents in S2 as (_ & -> & _). split; [done|].
  destruct (find_view _ _ _ w1 c x1 s Outbound m id I1 (as_client _ _ _ _ A1) Hs1 Hm Hcmp)
    as (v & a & Hv1 & Hvid & Ha & Hf & Hq & Hn). exists v, a. by rewrite (q_msgs _ _ Q2).
Qed.

Lemma handlePubrecs_step w sock c x s pubrec :
  winv w -> at_socket w sock c x -> session_of w c = Some s -> 0 <= ack_msgId pubrec <= MAX_MSG_ID ->
  let id := ack_msgId pubrec in
  outcome c (recv_pubrec id) w (MQTTProtocol_handlePubrecs pubrec sock w) (fun w' =>
    if in_phase (expects PUBREC) id (s_out s) then
      exists w1 w2 rc, quiet w w1 /\ w_net w1 = w_net w /\ w_ps w1 = w_ps w /\
        MQTTPacket_send_pubrel id 0 c w1 = Some (rc, w2) /\ w_ps w' = w_ps w2
    else w_net w' = w_net w /\ w_ps w' = w_ps w).
Proof.
  intros I A Hs Hid id. unfold MQTTProtocol_handlePubrecs.
  destruct (pubrec_start w sock c x s id I A Hs) as (r & w2 & x2 & E & Q & A2 & N2 & P2 & Hr).
  assert (Hrun : forall B (k : loc -> option loc -> P B),
    (c ← find_client sock;
     upd_client c (fun x => set_outbound (LSpec.with_cur None (c_outboundMsgs x)) x);;
     f ← find_msg c_outboundMsgs set_outbound c id; k c f) w = k c r w2).
  { intros B k. unfold mbind, M_bind, mret, M_ret in E |- *. by repeat case_match; simplify_eq/=. }
  rewrite Hrun. pose proof (quiet_inv _ _ _ _ _ _ Q I) as I2.
  assert (Hs2 : session_of w2 c = Some s) by (by rewrite (quiet_session _ _ _ Q)).
  destruct (in_phase (expects PUBREC) id (s_out s)) eqn:Ph; pose proof Ph as Ph'; unfold in_phase in Ph; cycle 1.
  { assert (recv_pubrec id s = s) by (unfold recv_pubrec; by rewrite Ph').
    destruct r as [m|]; [|by apply (outcome_ignored _ _ s)].
    destruct Hr as (Hm & v & a & Hv & Hvid & Hf & Hq & Hn). rewrite Hf in Ph. unfold expects in Ph.
    rewrite Hq, Hn in Ph. mstep (message_eq w2 m v Hv).
    destruct (m_qos v =? 2); simpl in Ph |- *; [rewrite Ph; simpl|]; by apply (outcome_ignored _ _ s). }
  destruct r as [m|]; [|by rewrite Hr in Ph]. destruct Hr as (Hm & v & a & Hv & Hvid & Hf & Hq & Hn).
  rewrite Hf in Ph. unfold expects in Ph. rewrite Hq, Hn in Ph. apply andb_true_iff in Ph as [Ph1 Ph2].
  mstep (message_eq w2 m v Hv). rewrite Ph1, Ph2. cbv iota beta delta [negb].
  assert (R2 : ready w2 c x2) by (split; [apply I2|by rewrite (as_socket _ _ _ _ A2)]).
  destruct (quiets_ack w2 c x2 PUBREL id 0 R2 ltac:(done) Hid) as (rc & w3 & E3 & Q3).
  unfold MQTTPacket_send_pubrel. mstep E3. destruct (quiet_csim _ _ c x2 Q3 (as_client _ _ _ _ A2)) as (x3 & Hx3 & C3).
  destruct (release_step w3 c x3 m v PUBCOMP) as (w4 & E4 & I4 & S4 & Sh4 & P4).
  { exact (quiet_inv _ _ _ _ _ _ Q3 I2). } { done. }
  { by apply csim_contents in C3 as (_ & -> & _). } { by rewrite (q_msgs _ _ Q3). }
  rewrite <- bind_assoc. mstep E4. exists rc, w4. split_and!; [done|done| | |].
  - apply (steps_quiet_l _ _ _ w2); [done|]. apply (steps_quiet_l _ _ _ w3); [done|].
    apply (steps_eval _ (s_retag Outbound (m_msgid v) PUBCOMP) _ s); [by rewrite (quiet_session _ _ _ Q3)| |done].
    unfold recv_pubrec. by rewrite Ph', Hvid.
  - etrans; [apply quiet_shell, Q|]. etrans; [apply quiet_shell, Q3|done].
  - by exists w2, w3, rc.
Qed.
(** [C11] An arriving PUBACK implements the abstract transition [recv_puback]: if a
    QoS 1 message with its id is in flight, exactly that message disappears from
    the client's session, its publication is freed and its record is removed
    from the persistent store; otherwise nothing changes.  Nothing is sent, no
    other session changes, and memory ownership is preserved. *)
Theorem handlePubacks_refines w sock c x s puback :
  winv w -> at_socket w sock c x -> session_of w c = Some s -> 0 <= ack_msgId puback <= MAX_MSG_ID ->
  outcome c (recv_puback (ack_msgId puback)) w (MQTTProtocol_handlePubacks puback sock w) (fun w' =>
    w_net w' = w_net w /\
    w_ps w' = if in_phase qos1 (ack_msgId puback) (s_out s)
              then forget (c_persistence x) (c_phandle x)
                     [(PERSISTENCE_PUBLISH_SENT +:+ pretty (ack_msgId puback))%string] (w_ps w)
              else w_ps w).
Proof. apply handlePubacks_step. Qed.

(** [C13] An arriving PUBCOMP implements [recv_pubcomp]: if the message with its id
    is a QoS 2 message that has been released, that message disappears from the
    session with its publication and both of its records (the PUBLISH and the
    PUBREL), and one more message counts as sent; otherwise nothing changes. *)
Theorem handlePubcomps_refines w sock c x s pubcomp :
  winv w -> at_socket w sock c x -> session_of w c = Some s -> 0 <= ack_msgId pubcomp <= MAX_MSG_ID ->
  let id := ack_msgId pubcomp in
  let completes := in_phase (expects PUBCOMP) id (s_out s) in
  outcome c (recv_pubcomp id) w (MQTTProtocol_handlePubcomps pubcomp sock w) (fun w' =>
    w_net w' = w_net w /\
    w_ps w' = (if completes
               then forget (c_persistence x) (c_phandle x)
                 [(PERSISTENCE_PUBLISH_SENT +:+ pretty id)%string; (PERSISTENCE_PUBREL +:+ pretty id)%string] (w_ps w)
               else w_ps w) /\
    w_msgs_sent w' = if completes then uint_wrap (w_msgs_sent w + 1) else w_msgs_sent w).
Proof. apply handlePubcomps_step. Qed.

(** [C12] An arriving PUBREC implements [recv_pubrec]: if the message with its id is
    a QoS 2 message that waits for it, a PUBREL is sent and the message waits for
    PUBCOMP from now on; otherwise nothing changes (in particular a second
    PUBREC is ignored). *)
Theorem handlePubrecs_refines w sock c x s pubrec :
  winv w -> at_socket w sock c x -> session_of w c = Some s -> 0 <= ack_msgId pubrec <= MAX_MSG_ID ->
  let id := ack_msgId pubrec in
  outcome c (recv_pubrec id) w (MQTTProtocol_handlePubrecs pubrec sock w) (fun w' =>
    if in_phase (expects PUBREC) id (s_out s) then
      exists w1 w2 rc, quiet w w1 /\ w_net w1 = w_net w /\ w_ps w1 = w_ps w /\
        MQTTPacket_send_pubrel id 0 c w1 = Some (rc, w2) /\ w_ps w' = w_ps w2
    else w_net w' = w_net w /\ w_ps w' = w_ps w).
Proof. apply handlePubrecs_step. Qed.

End handlers.
End Handlers.
