(* ===== verification/Receiver.v ===== *)
(** The receiver's side: the handlers of PUBLISH and PUBREL implement the abstract
    receiver of a session, with memory ownership kept.  A message of QoS 2 is
    delivered to the application's queue once, however often it is sent. *)
From stdpp Require Import gmultiset.
From S2P Require Import Prelude ListSpec Packet SocketBuffer Socket World Persistence Send Store Session Protocol Memory Sending Steps Handlers.

Module Receiver.
Import Packet SocketBuffer Socket World Persistence Send Store Session Protocol Memory Sending Steps Handlers.

#[local] Arguments zlen : simpl never.

(** * The abstract receiver *)

Abbreviation delivery := (MQTTClient_message * list byte * Z)%type.

Definition s_enqueue (e : delivery) (s : session) : session := Sess (s_in s) (s_out s) (s_queue s ++ [e]).

(** A message replaces the one with its id, or is added at the end. *)
Definition put_msg (a : amsg) (l : list amsg) : list amsg :=
  match find_id (am_id a) l with
  | Some _ => (fun b => if am_id b =? am_id a then a else b) <$> l
  | None => l ++ [a]
  end.

(** The message of a QoS 2 PUBLISH, and what a PUBLISH of QoS 0 or 1 delivers. *)
Definition publish_payload (p : Publish) : list byte := take (Z.to_nat (pb_payloadlen p)) (pb_payload p).
Definition inbound_msg (p : Publish) : amsg :=
  AMsg (pb_msgId p) 2 (hdr_retain (pb_header p)) PUBREL (default [] (pb_topic p)) (pb_topiclen p)
       (publish_payload p) (pb_payloadlen p).
Definition publish_delivery (p : Publish) : delivery :=
  (MkMessage (pb_payloadlen p) (publish_payload p) (hdr_qos (pb_header p)) (hdr_retain (pb_header p))
     (hdr_dup (pb_header p)) (pb_msgId p), default [] (pb_topic p), pb_topiclen p).

Definition recv_publish (p : Publish) (s : session) : session :=
  let qos := hdr_qos (pb_header p) in
  if (qos =? 0) || (qos =? 1) then s_enqueue (publish_delivery p) s
  else if qos =? 2 then s_with Inbound (put_msg (inbound_msg p) (s_in s)) s
  else s.

(** PUBREL hands the message over to the application, without the DUP flag. *)
Definition released (a : amsg) : delivery :=
  (MkMessage (am_payloadlen a) (am_payload a) 2 (am_retain a mod 2) 0 (am_id a), am_topic a, am_topiclen a).

Definition recv_pubrel (id : Z) (s : session) : session :=
  match find_id id (s_in s) with
  | Some a => if expects PUBREL a then s_drop Inbound id (s_enqueue (released a) s) else s
  | None => s
  end.

(** Insertion at a position. *)
Definition s_insert (d : side) (n : nat) (a : amsg) (s : session) : session :=
  s_with d (take n (s_side d s) ++ a :: drop n (s_side d s)) s.

Section receiver.
Context {K PS : Type} `{Kernel K}.
Variable uninit : Z.
Implicit Types (w : world K PS) (x : Clients PS).
Abbreviation P := (M (world K PS)).

(** * New publications and messages *)

Lemma views_same w w' c :
  w_cl w' = w_cl w ->
  (forall m, is_Some (w_msgs w !! m) -> msg_view w' m = msg_view w m) ->
  (forall q, is_Some (w_qes w !! q) -> entry_view w' q = entry_view w q) ->
  (forall x, w_cl w !! c = Some x ->
     (forall m, m ∈ client_msgs x -> is_Some (w_msgs w !! m)) /\
     (forall q, q ∈ LSpec.contents (c_messageQueue x) -> is_Some (w_qes w !! q))) ->
  session_of w' c = session_of w c.
Proof.
  intros Hc Hm He Hx. unfold session_of. rewrite Hc. destruct (w_cl w !! c) as [x|] eqn:E; [|done].
  destruct (Hx x eq_refl) as [H1 H2]. cbn [mbind option_bind].
  assert (Hv : forall k, k ⊆ client_msgs x -> mapM (msg_view w') k = mapM (msg_view w) k).
  { intros k Hk. apply Forall_mapM_ext, Forall_forall. intros m Hin. apply Hm, H1, Hk, Hin. }
  assert (Hq : mapM (entry_view w') (LSpec.contents (c_messageQueue x)) = mapM (entry_view w) (LSpec.contents (c_messageQueue x))).
  { apply Forall_mapM_ext, Forall_forall. intros q Hin. apply He, H2, Hin. }
  by rewrite !Hv, Hq by (unfold client_msgs; set_solver).
Qed.

Lemma inv_alloc Em Ep Eq w c x :
  inv Em Ep ∅ Eq w -> w_cl w !! c = Some x ->
  (forall m, m ∈ client_msgs x -> is_Some (w_msgs w !! m)) /\
  (forall q, q ∈ LSpec.contents (c_messageQueue x) -> is_Some (w_qes w !! q)).
Proof.
  intros I Hx. split.
  - intros m Hm. destruct (client_msgs_alloc _ _ _ _ I c x m Hx Hm) as [v ->]. done.
  - intros q Hq. by apply (queue_alloc _ _ _ _ I c x).
Qed.

(** A publication is stored, and held. *)
Lemma store_step heap publish topic Em Ep Eq w :
  inv Em Ep ∅ Eq w -> pb_topic publish = Some topic ->
  0 <= pb_payloadlen publish <= zlen (pb_payload publish) ->
  exists p len w', MQTTProtocol_storePublication heap publish w = Some ((p, len), w') /\
    inv Em ({[+ p +]} ⊎ Ep) ∅ Eq w' /\ (forall c, session_of w' c = session_of w c) /\ shell w w' /\
    w_cl w' = w_cl w /\ w_msgs w' = w_msgs w /\ w_net w' = w_net w /\ w_ps w' = w_ps w /\
    w_pubs w' !! p = Some (MkPub (if heap then topic else c_str topic) (pb_topiclen publish)
                                 (publish_payload publish) (pb_payloadlen publish) 1).
Proof.
  intros I Ht Hp. unfold MQTTProtocol_storePublication.
  rewrite (bind_step _ _ w topic w) by (unfold load; by rewrite Ht).
  rewrite (bind_step _ _ w (publish_payload publish) w).
  2: { unfold load, subz. by rewrite bool_decide_true by lia. }
  set (pub := MkPub _ _ _ _ _). set (len := int_wrap _). unfold new_publication.
  set (p := fresh (dom (w_pubs w))).
  assert (Hf : w_pubs w !! p = None).
  { apply not_elem_of_dom. unfold p. apply is_fresh. }
  set (w' := set_publications (LSpec.append p len (w_publications w)) (set_pubs (<[p := pub]> (w_pubs w)) w)).
  exists p, len, w'. split; [done|].
  pose proof I as [[W1 W2 W3 W4 W5 W6 W7] J1 J2 J3 J4 J5 J6 J7 J8 J9]. split; [|split].
  - split; simpl; try done.
    + split; simpl; try done. by apply LSpec.append_wf.
    + rewrite keys_new by done. multiset_solver.
    + rewrite LSpec.contents_append, lsd_app, keys_new by done. simpl. multiset_solver.
    + apply map_Forall_insert_2; [|done]. split; [done|]. simpl. unfold publish_payload, zlen.
      rewrite length_take. unfold zlen in Hp. lia.
  - intros c. apply views_same; try done; [|intros x Hx; by apply (inv_alloc _ _ _ w c x I)].
    intros m [v Hv]. unfold msg_view. simpl. rewrite Hv. simpl. rewrite lookup_insert_ne; [done|].
    intros E. destruct (msg_pub _ _ _ _ I m v Hv) as [pv Hpv]. congruence.
  - split; [by split|]. split_and!; try done. apply lookup_insert_eq.
Qed.

(** A message is made of a publication that is held. *)
Lemma new_message_step v Em Ep Eq w :
  inv Em ({[+ m_publish v +]} ⊎ Ep) ∅ Eq w -> msg_ok v ->
  exists m w', new_message v w = Some (m, w') /\ inv ({[+ m +]} ⊎ Em) Ep ∅ Eq w' /\
    (forall c, session_of w' c = session_of w c) /\ shell w w' /\ w_cl w' = w_cl w /\ w_pubs w' = w_pubs w /\
    w_net w' = w_net w /\ w_ps w' = w_ps w /\ w_msgs w' = <[m := v]> (w_msgs w) /\ w_msgs w !! m = None.
Proof.
  intros I Hok. unfold new_message. set (m := fresh (dom (w_msgs w))).
  assert (Hf : w_msgs w !! m = None) by (apply not_elem_of_dom; unfold m; apply is_fresh).
  exists m. eexists. split; [reflexivity|].
  pose proof I as [J0 J1 J2 J3 J4 J5 J6 J7 J8 J9].
  assert (Hids : forall c x d, w_cl w !! c = Some x ->
    ids (set_msgs (<[m := v]> (w_msgs w)) w) (LSpec.contents (getl d x)) = ids w (LSpec.contents (getl d x))).
  { intros c x d Hx. unfold ids. apply list_fmap_ext. intros i m' Hm'. simpl. rewrite lookup_insert_ne; [done|].
    intros <-. apply list_elem_of_lookup_2 in Hm'.
    assert (Hin : m ∈ client_msgs x) by (unfold client_msgs; destruct d; simpl in Hm'; set_solver).
    destruct (client_msgs_alloc _ _ _ _ I c x m Hx Hin) as [v' Hv']. congruence. }
  split; [|split].
  - split; simpl; try done.
    + by destruct J0.
    + rewrite keys_new by done. multiset_solver.
    + rewrite (collect_new _ _ m v Hf). simpl. multiset_solver.
    + by apply map_Forall_insert_2.
    + intros c x Hx. pose proof (Hids c x Inbound Hx) as E. simpl in E. rewrite E. by apply (J7 c).
    + intros c x Hx. pose proof (Hids c x Outbound Hx) as E. simpl in E. rewrite E. by apply (J8 c).
  - intros c. apply views_same; try done; [|intros x Hx; by apply (inv_alloc _ _ _ w c x I)].
    intros m' [v' Hv']. unfold msg_view. simpl. rewrite lookup_insert_ne by congruence. done.
  - by split.
Qed.

(** A held message is placed in a list. *)
Lemma place_step d c m k1 k2 l' Em Ep Eq w x v a :
  inv ({[+ m +]} ⊎ Em) Ep ∅ Eq w -> w_cl w !! c = Some x -> w_msgs w !! m = Some v ->
  LSpec.contents (getl d x) = k1 ++ k2 -> LSpec.contents l' = k1 ++ m :: k2 -> LSpec.wf l' ->
  msg_view w m = Some a -> (Some (am_id a) ∉ ids w (k1 ++ k2)) ->
  let w' := set_cl (<[c := setl d l' x]> (w_cl w)) w in
  inv Em Ep ∅ Eq w' /\ steps c (s_insert d (length k1) a) w w' /\ shell w w'.
Proof.
  intros I Hx Hv Hl Hl' Wl Ha Hid w'.
  pose proof I as [[W1 W2 W3 W4 W5 W6 W7] J1 J2 J3 J4 J5 J6 J7 J8 [J9 J10]].
  destruct (setl_other d x l') as (S1 & S2 & S3).
  assert (Hids : forall k, ids w' k = ids w k) by done.
  assert (Hidm : forall d' c0 x0, w_cl w' !! c0 = Some x0 -> NoDup (ids w (LSpec.contents (getl d' x0)))).
  { intros d' c0 x0 H0. assert (Hall : forall c1 x1, w_cl w !! c1 = Some x1 -> NoDup (ids w (LSpec.contents (getl d' x1)))).
    { destruct d'; [exact J7|exact J8]. }
    simpl in H0. apply lookup_insert_Some in H0 as [[-> <-]|[Hne H0]]; [|by apply (Hall c0)].
    assert (d' = d \/ d' <> d) as [->|Hd] by (destruct d, d'; auto).
    - rewrite S2, Hl'. specialize (Hall c0 x Hx). rewrite Hl in Hall. unfold ids in *.
      rewrite !fmap_app in *. rewrite fmap_cons. apply NoDup_app in Hall as (N1 & N2 & N3).
      assert (Hmid : m_msgid <$> w_msgs w !! m = Some (am_id a)).
      { destruct (msg_view_alloc _ _ _ _ I m v Hv) as (b & Eb & Eid). rewrite Hv. simpl. congruence. }
      rewrite Hmid. apply NoDup_app. split_and!; [done| |].
      + intros i Hi [->|Hi2]%elem_of_cons; [set_solver|]. by apply (N2 i).
      + constructor; [set_solver|done].
    - rewrite S1 by done. by apply (Hall c0). }
  split; [|split].
  - split; simpl; try done.
    + split; simpl; try done; apply update_wf; try done;
        first [by destruct d; first [done|exact (W5 c x Hx)|exact (W6 c x Hx)]|rewrite S3; exact (W7 c x Hx)].
    + rewrite (collect_insert _ _ _ _ _ Hx). rewrite (collect_delete _ _ _ _ Hx) in J1.
      assert (E : lsd (client_msgs (setl d l' x)) = {[+ m +]} ⊎ lsd (client_msgs x)).
      { unfold client_msgs. destruct d; simpl in *; rewrite Hl, Hl', !lsd_app, lsd_cons; multiset_solver. }
      rewrite E. multiset_solver.
    + rewrite (collect_same _ _ _ x) by (done || by rewrite S3). done.
    + apply (Hidm Inbound).
    + apply (Hidm Outbound).
    + split; [done|]. intros c0 Hc0. destruct (decide (c0 = c)) as [->|Hne]; [by rewrite lookup_insert_eq|].
      rewrite lookup_insert_ne by done. by apply J10.
  - intros c'. unfold session_of. change (msg_view w') with (msg_view w). change (entry_view w') with (entry_view w).
    case_decide as E; [subst c'|by simpl; rewrite lookup_insert_ne by done].
    simpl. rewrite lookup_insert_eq, Hx. cbn [mbind option_bind]. rewrite S3.
    destruct (session_total _ _ _ _ I c x Hx) as [s Hs]. unfold session_of in Hs. rewrite Hx in Hs.
    cbn [mbind option_bind] in Hs |- *.
    apply option.bind_Some in Hs as (i & Ei & Hs). apply option.bind_Some in Hs as (o & Eo & Hs).
    apply option.bind_Some in Hs as (q & Eq' & [= <-]). rewrite Ei, Eo, Eq'.
    assert (Hp : forall al, mapM (msg_view w) (k1 ++ k2) = Some al ->
      mapM (msg_view w) (k1 ++ m :: k2) = Some (take (length k1) al ++ a :: drop (length k1) al)).
    { intros al (a1 & a2 & A1 & A2 & ->)%mapM_app_Some. apply mapM_app_Some.
      assert (length k1 = length a1) as -> by (by eapply Forall2_length, mapM_Some).
      rewrite take_app_length, drop_app_length. exists a1, (a :: a2). split_and!; [done| |done].
      apply mapM_cons_Some. eauto. }
    destruct d; simpl in *.
    + rewrite Hl', Hp with (al := i) by (by rewrite <- Hl). rewrite Eo. done.
    + rewrite Ei. cbn [mbind option_bind]. rewrite Hl', Hp with (al := o) by (by rewrite <- Hl). done.
  - apply (shell_cl w c x); [done|by destruct d].
Qed.

(** * Delivering to the queue *)

(** The sequence number of the next record fits its key. *)
Definition queue_room x : Prop := c_persistence x = None \/ 0 <= c_qentry_seqno x < 999999.

Lemma place_entry q e c x Em Ep Eq w sz :
  inv Em Ep ∅ Eq w -> w_cl w !! c = Some x -> w_qes w !! q = None ->
  let w' := set_cl (<[c := set_queue (LSpec.append q sz (c_messageQueue x)) x]> (w_cl w))
              (set_qes (<[q := e]> (w_qes w)) w) in
  inv Em Ep ∅ Eq w' /\ steps c (s_enqueue (qe_msg e, qe_topicName e, qe_topicLen e)) w w' /\ shell w w'.
Proof.
  intros I Hx Hq w'. pose proof I as [[W1 W2 W3 W4 W5 W6 W7] J1 J2 J3 J4 J5 J6 J7 J8 [J9 J10]].
  set (x' := set_queue (LSpec.append q sz (c_messageQueue x)) x).
  split; [|split].
  - split; simpl; try done.
    + split; simpl; try done; apply (update_wf c w); try done.
      * exact (W5 c x Hx).
      * exact (W6 c x Hx).
      * apply LSpec.append_wf. exact (W7 c x Hx).
    + rewrite (collect_same _ _ _ x) by done. done.
    + rewrite keys_new by done. rewrite (collect_insert _ _ _ _ _ Hx). rewrite (collect_delete _ _ _ _ Hx) in J4.
      simpl. rewrite LSpec.contents_append, lsd_app. simpl. multiset_solver.
    + intros c0 x0 [[-> <-]|[_ H0]]%lookup_insert_Some; [exact (J7 c0 x Hx)|exact (J7 c0 x0 H0)].
    + intros c0 x0 [[-> <-]|[_ H0]]%lookup_insert_Some; [exact (J8 c0 x Hx)|exact (J8 c0 x0 H0)].
    + split; [done|]. intros c0 Hc0. destruct (decide (c0 = c)) as [->|Hne]; [by rewrite lookup_insert_eq|].
      rewrite lookup_insert_ne by done. by apply J10.
  - assert (Hold : forall c0 x0, w_cl w !! c0 = Some x0 ->
      mapM (entry_view w') (LSpec.contents (c_messageQueue x0)) = mapM (entry_view w) (LSpec.contents (c_messageQueue x0))).
    { intros c0 x0 H0. apply Forall_mapM_ext, Forall_forall. intros q' Hq'. unfold entry_view. simpl.
      rewrite lookup_insert_ne; [done|]. intros <-. destruct (queue_alloc _ _ _ _ I c0 x0 q H0 Hq'). congruence. }
    intros c'. unfold session_of. change (msg_view w') with (msg_view w).
    case_decide as E; [subst c'|].
    + destruct (session_total _ _ _ _ I c x Hx) as [s Hs]. unfold session_of in Hs.
      rewrite Hx in Hs. cbn [mbind option_bind] in Hs.
      apply option.bind_Some in Hs as (i & Ei & Hs). apply option.bind_Some in Hs as (o & Eo & Hs).
      apply option.bind_Some in Hs as (qs & Eq' & [= <-]).
      simpl. rewrite lookup_insert_eq, Hx. cbn [mbind option_bind].
      change (LSpec.contents (c_inboundMsgs (set_queue _ x))) with (LSpec.contents (c_inboundMsgs x)).
      change (LSpec.contents (c_outboundMsgs (set_queue _ x))) with (LSpec.contents (c_outboundMsgs x)).
      change (c_messageQueue (set_queue ?l x)) with l.
      rewrite Ei, Eo, Eq'. cbn [mbind option_bind]. rewrite LSpec.contents_append.
      assert (mapM (entry_view w') (LSpec.contents (c_messageQueue x) ++ [q]) =
        Some (qs ++ [(qe_msg e, qe_topicName e, qe_topicLen e)])) as ->; [|done].
      apply mapM_app_Some. exists qs, [(qe_msg e, qe_topicName e, qe_topicLen e)]. split_and!; [by rewrite (Hold c)| |done].
      simpl. unfold entry_view. simpl. by rewrite lookup_insert_eq.
    + simpl. rewrite lookup_insert_ne by done. destruct (w_cl w !! c') as [y|] eqn:Ey; [|done].
      cbn [mbind option_bind]. by rewrite (Hold c' y Ey).
  - etrans; [apply (shell_cl w c x x'); [done|done]|]. by split.
Qed.

(** The record of an entry of the delivery queue, under the next sequence number. *)
Definition put_entry x (d : delivery) (s : PS) : PS :=
  match c_persistence x, queue_buffers (MkEntry d.1.1 d.1.2 d.2 0) with
  | Some per, Some bufs =>
      (pput per (c_phandle x) (PERSISTENCE_QUEUE_KEY +:+ pretty (c_qentry_seqno x + 1))%string bufs s).2
  | _, _ => s
  end.

Lemma put_entry_csim x x' d s : csim x x' -> put_entry x' d s = put_entry x d s.
Proof. intros C. unfold put_entry. by rewrite (cs_per _ _ C), (cs_handle _ _ C), (cs_seqno _ _ C). Qed.

Lemma persist_step c q x e Em Ep Eq w per :
  inv Em Ep ∅ Eq w -> w_cl w !! c = Some x -> w_qes w !! q = Some e ->
  c_persistence x = Some per -> queue_room x -> 0 <= mm_payloadlen (qe_msg e) <= zlen (mm_payload (qe_msg e)) ->
  exists rc n w', MQTTPersistence_persistQueueEntry c q w = Some (rc, w') /\
    inv Em Ep ∅ Eq w' /\ (forall c', session_of w' c' = session_of w c') /\ shell w w' /\
    w_msgs w' = w_msgs w /\ w_pubs w' = w_pubs w /\ w_net w' = w_net w /\
    w_msgs_sent w' = w_msgs_sent w /\ w_msgs_received w' = w_msgs_received w /\
    w_cl w' = <[c := set_seqno n x]> (w_cl w) /\
    w_ps w' = put_entry x (qe_msg e, qe_topicName e, qe_topicLen e) (w_ps w).
Proof.
  intros I Hx Hq Hper [?|Hroom] Hlen; [congruence|]. unfold MQTTPersistence_persistQueueEntry.
  mstep (client_eq w c x Hx). unfold entry. rewrite (bind_step _ _ w e w) by (unfold load; by rewrite Hq).
  set (m := qe_msg e). unfold queue_buffers.
  assert (Hs : subz (mm_payload m) 0 (mm_payloadlen m) = Some (take (Z.to_nat (mm_payloadlen m)) (mm_payload m))).
  { unfold subz. by rewrite bool_decide_true by (unfold m; lia). }
  fold m. rewrite Hs. cbn [mbind option_bind]. set (bufs := [_; _; _; _; _; _; _; _]).
  rewrite (bind_step _ _ w bufs w) by done.
  set (n := uint_wrap (c_qentry_seqno x + 1)). set (w1 := set_cl (<[c := set_seqno n x]> (w_cl w)) w).
  rewrite (bind_step _ _ w tt w1) by (unfold upd_client; by rewrite Hx).
  assert (En : n = c_qentry_seqno x + 1) by (apply Z.mod_small; lia).
  assert (Ew : int_wrap n = n) by (apply int_wrap_id; unfold in_int; lia).
  rewrite (bind_step _ _ w1 (PERSISTENCE_QUEUE_KEY +:+ pretty (int_wrap n))%string w1).
  2: { unfold load. rewrite sprintf_key_Some; [done|]. rewrite Ew.
       destruct (pretty_length n 6 ltac:(lia) ltac:(lia)) as [Hl _]. specialize (Hl ltac:(lia)).
       unfold MAX_KEY_LENGTH. change (String.length PERSISTENCE_QUEUE_KEY) with 2%nat. lia. }
  set (e' := MkEntry _ _ _ n). set (w2 := set_qes (<[q := e']> (w_qes w1)) w1).
  rewrite (bind_step _ _ w1 tt w2) by done. rewrite Hper. unfold ops.
  destruct (pput per _ _ _ (w_ps w2)) as [rc s] eqn:Eput. exists rc, n, (set_ps s w2).
  split; [done|].
  pose proof I as [[W1 W2 W3 W4 W5 W6 W7] J1 J2 J3 J4 J5 J6 J7 J8 [J9 J10]].
  assert (Eps : s = put_entry x (qe_msg e, qe_topicName e, qe_topicLen e) (w_ps w)).
  { unfold put_entry. rewrite Hper. unfold queue_buffers. simpl. fold m. rewrite Hs. cbn [mbind option_bind].
    rewrite Ew, En in Eput. change (w_ps w2) with (w_ps w) in Eput. fold bufs. by rewrite Eput. }
  split; [|split; [|split; [|by split_and!]]].
  - split; simpl; try done.
    + split; simpl; try done; apply (update_wf c w); first [exact (W5 c x Hx)|exact (W6 c x Hx)|exact (W7 c x Hx)|done].
    + rewrite (collect_same _ _ _ x) by done. done.
    + rewrite (collect_same _ _ _ x) by done. by rewrite (keys_insert _ _ e).
    + intros c0 x0 [[-> <-]|[_ H0]]%lookup_insert_Some; [exact (J7 c0 x Hx)|exact (J7 c0 x0 H0)].
    + intros c0 x0 [[-> <-]|[_ H0]]%lookup_insert_Some; [exact (J8 c0 x Hx)|exact (J8 c0 x0 H0)].
    + split; [done|]. intros c0 Hc0. destruct (decide (c0 = c)) as [->|Hne]; [by rewrite lookup_insert_eq|].
      rewrite lookup_insert_ne by done. by apply J10.
  - intros c'. unfold session_of. change (msg_view (set_ps s w2)) with (msg_view w).
    assert (He : forall q', entry_view (set_ps s w2) q' = entry_view w q').
    { intros q'. unfold entry_view. simpl. destruct (decide (q' = q)) as [->|Hne].
      - by rewrite lookup_insert_eq, Hq.
      - by rewrite lookup_insert_ne. }
    simpl. destruct (decide (c' = c)) as [->|Hne].
    + rewrite lookup_insert_eq, Hx. cbn [mbind option_bind]. by rewrite (mapM_ext _ _ _ He).
    + rewrite lookup_insert_ne by done. destruct (w_cl w !! c'); [|done]. cbn [mbind option_bind].
      by rewrite (mapM_ext _ _ _ He).
  - etrans; [apply (shell_cl w c x (set_seqno n x)); [done|done]|]. by split.
Qed.

(** What [Protocol_processPublication] hands over. *)
Definition processed (p : Publish) (topic : list byte) : delivery :=
  let qos := hdr_qos (pb_header p) in
  (MkMessage (pb_payloadlen p) (if qos =? 2 then pb_payload p else publish_payload p) qos (hdr_retain (pb_header p))
     (if qos =? 2 then 0 else hdr_dup (pb_header p)) (pb_msgId p), topic, pb_topiclen p).

Lemma process_step p topic c x Em Ep Eq w :
  inv Em Ep ∅ Eq w -> w_cl w !! c = Some x -> pb_topic p = Some topic ->
  0 <= pb_payloadlen p <= zlen (pb_payload p) -> queue_room x ->
  exists x' w', Protocol_processPublication uninit p c w = Some (tt, w') /\
    inv Em Ep ∅ Eq w' /\ steps c (s_enqueue (processed p topic)) w w' /\ shell w w' /\
    w_msgs w' = w_msgs w /\ w_pubs w' = w_pubs w /\ w_net w' = w_net w /\
    w_msgs_sent w' = w_msgs_sent w /\ w_msgs_received w' = w_msgs_received w /\
    w_cl w' !! c = Some x' /\ c_inboundMsgs x' = c_inboundMsgs x /\ c_outboundMsgs x' = c_outboundMsgs x /\
    c_persistence x' = c_persistence x /\ c_phandle x' = c_phandle x /\ w_ps w' = put_entry x (processed p topic) (w_ps w).
Proof.
  intros I Hx Ht Hp Hroom. unfold Protocol_processPublication.
  rewrite (bind_step _ _ w topic w) by (unfold load; by rewrite Ht).
  set (payload := if hdr_qos (pb_header p) =? 2 then pb_payload p else publish_payload p).
  rewrite (bind_step _ _ w payload w).
  2: { unfold load, payload, subz. rewrite bool_decide_true by lia. by destruct (_ =? 2). }
  set (e := MkEntry _ topic _ uninit). set (q := fresh (dom (w_qes w))).
  assert (Hq : w_qes w !! q = None) by (apply not_elem_of_dom; unfold q; apply is_fresh).
  set (w1 := set_qes (<[q := e]> (w_qes w)) w).
  rewrite (bind_step _ _ w q w1) by done. set (sz := 16 + _ + _ + 1).
  set (x1 := set_queue (LSpec.append q sz (c_messageQueue x)) x). set (w2 := set_cl (<[c := x1]> (w_cl w1)) w1).
  rewrite (bind_step _ _ w1 tt w2) by (unfold append_elem, upd_client; simpl; by rewrite Hx).
  destruct (place_entry q e c x _ _ _ w sz I Hx Hq) as (I2 & S2 & Sh2). fold w1 x1 w2 in I2, S2, Sh2.
  assert (Hx2 : w_cl w2 !! c = Some x1) by apply lookup_insert_eq. mstep (client_eq w2 c x1 Hx2).
  destruct (c_persistence x1) as [per|] eqn:Eper; simpl.
  - destruct (persist_step c q x1 e _ _ _ w2 per I2 Hx2) as (rc & n & w3 & E3 & I3 & S3 & Sh3 & F1 & F2 & F3 & F4 & F5 & F6 & F7).
    { apply lookup_insert_eq. } { done. } { done. }
    { unfold e, payload. simpl. destruct (_ =? 2); [lia|]. unfold publish_payload, zlen in *. rewrite length_take. lia. }
    mstep E3. exists (set_seqno n x1), w3. split; [done|]. split; [done|]. split; [|split].
    + intros c'. rewrite S3. apply S2.
    + by etrans.
    + rewrite F1, F2, F3, F4, F5, F6. split_and!; try done. apply lookup_insert_eq.
  - exists x1, w2. split_and!; try done. change (w_ps w2) with (w_ps w). unfold put_entry.
    change (c_persistence x) with (c_persistence x1). by rewrite Eper.
Qed.

(** * PUBLISH *)

Lemma insert_eval a s :
  find_id (am_id a) (s_in s) = None ->
  s_insert Inbound (length (s_in s)) a s = s_with Inbound (put_msg a (s_in s)) s.
Proof. intros E. unfold s_insert, put_msg. simpl. by rewrite E, firstn_all, drop_all. Qed.

Lemma without_same id l : (id ∉ am_id <$> l) -> without id l = l.
Proof.
  induction l as [|b l IH]; [done|]. rewrite fmap_cons, not_elem_of_cons. intros [Hb Hl].
  unfold without. rewrite filter_cons_True by done. f_equal. by apply IH.
Qed.

(** Replacing in place is dropping and inserting. *)
Lemma replace_eval a1 b a2 a s :
  s_in s = a1 ++ b :: a2 -> am_id b = am_id a -> NoDup (am_id <$> s_in s) ->
  s_insert Inbound (length a1) a (s_drop Inbound (am_id a) s) = s_with Inbound (put_msg a (s_in s)) s.
Proof.
  intros E Eb Hn. rewrite E in Hn. unfold s_insert, s_drop, put_msg. simpl. rewrite E, <- Eb.
  rewrite without_mid, find_id_mid by done. rewrite take_app_length, drop_app_length.
  rewrite fmap_app, fmap_cons, NoDup_app, NoDup_cons in Hn. destruct Hn as (_ & Hn & Ha & _).
  assert (Hk : forall l : list amsg, (am_id b ∉ am_id <$> l) -> (fun b0 => if am_id b0 =? am_id b then a else b0) <$> l = l).
  { intros l. induction l as [|c l IH]; [done|]. rewrite fmap_cons, not_elem_of_cons. intros [Hb Hl].
    rewrite fmap_cons. destruct (Z.eqb_spec (am_id c) (am_id b)); [congruence|]. by rewrite IH. }
  rewrite fmap_app, fmap_cons, Z.eqb_refl, !Hk; [done|done|]. intros Hin. apply (Hn _ Hin). constructor.
Qed.

(** The code of the two cases of a QoS 2 PUBLISH. *)
Definition replace_inbound (c m msg : loc) (len : Z) : P unit :=
  y ← message msg;
  MQTTProtocol_removePublication (m_publish y);;
  x ← client c;
  l ← load (fun _ => LSpec.insert m len (cur (c_inboundMsgs x)) (c_inboundMsgs x));
  upd_client c (set_inbound l);;
  remove_message c_inboundMsgs set_inbound c msg.

Lemma insert_before (l : clist loc) m sz a k1 y k2 :
  LSpec.wf l -> cur l = Some a -> items l = k1 ++ (a, y) :: k2 ->
  exists l', LSpec.insert m sz (cur l) l = Some l' /\ LSpec.wf l' /\
    LSpec.contents l' = k1.*2 ++ m :: y :: k2.*2.
Proof.
  intros W Hc Ei. rewrite Hc. pose proof (LSpec.insert_between m sz l k1 ((a, y) :: k2) W Ei) as E.
  pose proof (LSpec.insert_between_wf m sz l k1 ((a, y) :: k2) W Ei) as W'. simpl in E.
  eexists. split; [exact E|]. split; [done|]. unfold LSpec.contents. simpl. by rewrite fmap_app.
Qed.

Lemma split_unique {A} (x : A) l1 l2 k1 k2 :
  NoDup (l1 ++ x :: l2) -> l1 ++ x :: l2 = k1 ++ x :: k2 -> l1 = k1 /\ l2 = k2.
Proof.
  revert k1. induction l1 as [|y l1 IH]; intros [|z k1] Hn E; simplify_eq/=; [done| | |].
  - apply NoDup_cons in Hn as [Hn _]. set_solver.
  - apply NoDup_cons in Hn as [Hn _]. set_solver.
  - apply NoDup_cons in Hn as [_ Hn]. destruct (IH k1 Hn) as [-> ->]; [done|done].
Qed.

Lemma held_not_listed Em Ep Dp Eq w c x m :
  inv ({[+ m +]} ⊎ Em) Ep Dp Eq w -> w_cl w !! c = Some x -> m ∉ client_msgs x.
Proof.
  intros I Hx Hin. pose proof (i_msgs _ _ _ _ _ I) as E. rewrite (collect_delete _ _ _ _ Hx) in E.
  pose proof (keys_multiplicity (w_msgs w) m) as Hk. rewrite <- E, !multiplicity_disj_union, multiplicity_singleton in Hk.
  apply elem_of_lsd in Hin. rewrite elem_of_multiplicity in Hin. case_decide; [|done]. lia.
Qed.

Lemma replace_step c m msg len addr k1 k2 Em Ep Eq w x v vo a :
  inv ({[+ m +]} ⊎ Em) Ep ∅ Eq w -> w_cl w !! c = Some x ->
  cur (c_inboundMsgs x) = Some addr -> items (c_inboundMsgs x) = k1 ++ (addr, msg) :: k2 ->
  w_msgs w !! m = Some v -> w_msgs w !! msg = Some vo -> m_msgid vo = m_msgid v -> msg_view w m = Some a ->
  exists w', replace_inbound c m msg len w = Some (tt, w') /\ inv Em Ep ∅ Eq w' /\
    steps c (s_insert Inbound (length k1) a ∘ s_drop Inbound (am_id a)) w w' /\ shell w w' /\
    w_net w' = w_net w /\ w_ps w' = w_ps w.
Proof.
  intros I Hx Hc Ei Hv Hvo Hid Ha. unfold replace_inbound. mstep (message_eq w msg vo Hvo).
  pose proof (LSpec.contents_mid _ _ _ _ _ Ei) as Ec. pose proof (wfs_in _ (i_wf _ _ _ _ _ I) c x Hx) as Wx.
  destruct (msg_pub _ _ _ _ I msg vo Hvo) as [p Hp].
  destruct (removePublication_eq w (m_publish vo) p Hp) as (lp & E1 & Wlp & Hlp).
  { by apply (i_pub_ok _ _ _ _ _ I _ _ Hp). } { apply (wfs_publications _ (i_wf _ _ _ _ _ I)). }
  { eapply publications_elem; [done|by exists p]. }
  mstep E1. set (w1 := without_pub (m_publish vo) lp w). assert (Hx1 : w_cl w1 !! c = Some x) by done.
  mstep (client_eq w1 c x Hx1). destruct (insert_before (c_inboundMsgs x) m len addr k1 msg k2 Wx Hc Ei) as (l1 & E2 & W1 & C1).
  rewrite (bind_step _ _ w1 l1 w1) by (unfold load; by rewrite E2).
  set (w2 := set_cl (<[c := set_inbound l1 x]> (w_cl w1)) w1).
  rewrite (bind_step _ _ w1 tt w2) by (unfold upd_client; by rewrite Hx1).
  pose proof (held_not_listed _ _ _ _ w c x m I Hx) as Hnl. unfold client_msgs in Hnl. rewrite Ec in Hnl.
  pose proof (client_msgs_nodup _ _ _ _ I c x Hx) as Hnd. unfold client_msgs in Hnd. rewrite Ec in Hnd.
  apply NoDup_app in Hnd as (Hnd & _ & _).
  destruct (remove_message_eq Inbound c msg (set_inbound l1 x) w2) as (l2 & j1 & j2 & E3 & W2 & C2 & C3).
  { apply lookup_insert_eq. } { by exists vo. } { done. } { simpl. rewrite C1. set_solver. }
  simpl in C2. rewrite C1 in C2. change (k1.*2 ++ m :: msg :: k2.*2) with (k1.*2 ++ [m] ++ msg :: k2.*2) in C2.
  rewrite (app_assoc k1.*2 [m]) in C2.
  assert (j1 = k1.*2 ++ [m] /\ j2 = k2.*2) as [-> ->].
  { symmetry in C2. apply split_unique in C2; [done|]. rewrite C2, <- app_assoc. simpl.
    apply NoDup_app in Hnd as (N1 & N2 & N3). apply NoDup_app. split_and!; [done|set_solver|]. constructor; [set_solver|done]. }
  destruct (unlink_loc (c_inboundMsgs x) msg Wx) as (ld & i1 & i2 & _ & Wd & D1 & D2); [rewrite Ec; set_solver|].
  assert (i1 = k1.*2 /\ i2 = k2.*2) as [-> ->].
  { rewrite Ec in D1. destruct (split_unique _ _ _ _ _ Hnd D1). by subst. }
  set (wd := dropped Inbound c msg (m_publish vo) lp ld x w).
  pose proof (drop_inv Inbound c msg _ _ _ w x vo lp ld _ _ I Hx Hvo Hlp Wlp D1 D2 Wd) as Id.
  pose proof (drop_session Inbound c msg _ _ _ w x vo lp ld _ _ I Hx Hvo Hlp Wlp D1 D2 Wd) as Sd.
  pose proof (fun m' => drop_view Inbound c msg _ _ _ w x vo lp ld I Hvo m') as Vd. fold wd in Id, Sd, Vd.
  assert (Hmn : m <> msg) by set_solver.
  assert (Ea : am_id a = m_msgid v).
  { destruct (msg_view_alloc _ _ _ _ I m v Hv) as (b & Eb & <-). congruence. }
  destruct (place_step Inbound c m k1.*2 k2.*2 l2 Em Ep Eq wd (set_inbound ld x) v a) as (I3 & S3 & Sh3).
  { done. } { apply lookup_insert_eq. } { simpl. by rewrite lookup_delete_ne. } { done. }
  { by rewrite C3, <- app_assoc. } { done. } { rewrite Vd; [done|by exists v|done]. }
  { pose proof (i_ids_in _ _ _ _ _ I c x Hx) as Hids. unfold ids in Hids |- *. rewrite Ec in Hids.
    rewrite fmap_app, fmap_cons, Hvo in Hids. simpl in Hids. rewrite Hid, <- Ea in Hids.
    apply NoDup_app in Hids as (_ & N2 & [N3 _]%NoDup_cons). rewrite fmap_app, elem_of_app.
    assert (Hsame : forall k : list loc, (msg ∉ k) ->
      (fun m0 => m_msgid <$> w_msgs wd !! m0) <$> k = (fun m0 => m_msgid <$> w_msgs w !! m0) <$> k).
    { intros k Hk. apply list_fmap_ext. intros i m' Hm'. simpl. rewrite lookup_delete_ne; [done|].
      intros <-. by apply list_elem_of_lookup_2 in Hm'. }
    apply NoDup_app in Hnd as (_ & M2 & [M3 _]%NoDup_cons).
    rewrite !Hsame by (done || (intros Hk; apply (M2 msg Hk); constructor)).
    intros [Hk|Hk]; [|done]. apply (N2 _ Hk). constructor. }
  eexists. split; [exact E3|].
  assert (Ew : without_msg Inbound c msg l2 (set_inbound l1 x) w2 =
    set_cl (<[c := setl Inbound l2 (set_inbound ld x)]> (w_cl wd)) wd).
  { unfold without_msg, wd, dropped, w2, w1, without_msg. simpl. by rewrite !insert_insert_eq. }
  rewrite Ew. split; [done|]. split; [|split; [|done]].
  - apply (steps_trans _ _ _ _ wd); [by rewrite Ea, <- Hid|]. by rewrite length_fmap in S3.
  - etrans; [|exact Sh3]. etrans; [apply (shell_cl w c x (set_inbound ld x)); [done|done]|]. by split.
Qed.

(** The element found becomes current. *)
Lemma find_msg_cur c msgid w x m w' :
  wfs w -> w_cl w !! c = Some x -> find_msg c_inboundMsgs set_inbound c msgid w = Some (Some m, w') ->
  exists x' addr k1 k2, w_cl w' !! c = Some x' /\ cur (c_inboundMsgs x') = Some addr /\
    items (c_inboundMsgs x') = k1 ++ (addr, m) :: k2.
Proof.
  intros W Hx. unfold find_msg. rewrite Hx. cbn [mbind option_bind].
  destruct (LSpec.find_item_cases (messageIDCompare w msgid) (c_inboundMsgs x) (wfs_in _ W c x Hx))
    as [[-> _]|(k1 & a & y & k2 & Ei & _ & -> & Ec)]; [by intros [= E]|].
  change (LSpec.elem_content (LSpec.with_cur (Some a) (c_inboundMsgs x)) a) with (LSpec.elem_content (c_inboundMsgs x) a).
  rewrite Ec. intros [= -> <-]. eexists _, a, k1, k2. split; [apply lookup_insert_eq|]. split; [done|exact Ei].
Qed.

(** The acknowledgement that a handler sends. *)
Definition sends_ack (send : P Z) w w' : Prop :=
  exists w1 rc w2, w_net w1 = w_net w /\ send w1 = Some (rc, w2) /\ w_net w' = w_net w2.

Lemma shell_ready w w' c x : shell w w' -> wfs w' -> ready w c x -> exists x', ready w' c x' /\ cframe x x'.
Proof.
  intros S W [_ A]. destruct (shell_at _ _ _ _ _ S A) as (x' & A' & F). exists x'. split; [|done].
  split; [done|]. by rewrite (cf_socket _ _ F).
Qed.

(** The new message is put into the list, whichever case applies. *)
Lemma put_step c m id f len Em Ep Eq w0 w x0 s v a :
  inv ({[+ m +]} ⊎ Em) Ep ∅ Eq w0 -> w_cl w0 !! c = Some x0 -> session_of w0 c = Some s ->
  w_msgs w0 !! m = Some v -> m_msgid v = id -> msg_view w0 m = Some a -> am_id a = id ->
  find_msg c_inboundMsgs set_inbound c id w0 = Some (f, w) ->
  exists w', (match f with
     | Some msg => replace_inbound c m msg len
     | None => append_elem c_inboundMsgs set_inbound c m len
     end) w = Some (tt, w') /\ inv Em Ep ∅ Eq w' /\
    steps c (fun s => s_with Inbound (put_msg a (s_in s)) s) w0 w' /\ shell w0 w' /\ w_net w' = w_net w0.
Proof.
  intros I Hx0 Hs Hv Hid Ha Eid E. pose proof (i_wf _ _ _ _ _ I) as W0.
  destruct (find_msg_eq Inbound c id w0 x0 W0 Hx0) as (r & w1 & E1 & Q & N & _ & _ & Hr). simpl in E1, Hr.
  pose proof (eq_trans (eq_sym E) E1) as E'. injection E' as <- <-. pose proof (quiet_inv _ _ _ _ _ _ Q I) as I1.
  destruct (quiet_csim _ _ c x0 Q Hx0) as (x & Hx & C). apply csim_contents in C as (C & _ & _).
  assert (Hs1 : session_of w c = Some s) by (by rewrite (quiet_session _ _ _ Q)).
  assert (Hv1 : w_msgs w !! m = Some v) by (by rewrite (q_msgs _ _ Q)).
  assert (Ha1 : msg_view w m = Some a).
  { unfold msg_view in *. by rewrite (q_msgs _ _ Q), (q_pubs _ _ Q). }
  pose proof (side_ids _ _ _ w c x s Inbound I1 Hx Hs1) as Hn. simpl in Hn.
  pose proof (session_side w c x s Inbound Hx Hs1) as Hal. simpl in Hal.
  destruct f as [msg|].
  - destruct (find_msg_cur c id w0 x0 msg w W0 Hx0 E) as (x' & addr & k1 & k2 & Hx' & Hc & Ei).
    rewrite Hx in Hx'. injection Hx' as <-. pose proof (LSpec.contents_mid _ _ _ _ _ Ei) as Ec.
    destruct Hr as [Hin Hcmp]. unfold messageIDCompare in Hcmp. destruct (w_msgs w0 !! msg) as [vo|] eqn:Hvo; [|done].
    apply Z.eqb_eq in Hcmp. assert (Hvo1 : w_msgs w !! msg = Some vo) by (by rewrite (q_msgs _ _ Q)).
    destruct (replace_step c m msg len addr k1 k2 _ _ _ w x v vo a I1 Hx Hc Ei Hv1 Hvo1) as (w' & E2 & I2 & S2 & Sh2 & N2 & _);
      [congruence|done|].
    exists w'. split; [done|]. split; [done|]. split; [|split; [|congruence]].
    + apply (steps_quiet_l _ _ _ _ _ Q). eapply (steps_eval _ _ _ s); [done| |exact S2]. simpl.
      rewrite Ec in Hal. apply mapM_app_Some in Hal as (a1 & a2' & A1 & A2 & Es).
      apply mapM_cons_Some in A2 as (b & a2 & Ab & A2 & ->).
      assert (length k1 = length a1) as -> by (apply mapM_Some, Forall2_length in A1; by rewrite length_fmap in A1).
      eapply replace_eval; [exact Es| |done]. rewrite Eid, <- Hcmp.
      destruct (msg_view_alloc _ _ _ _ I1 msg vo Hvo1) as (b' & Eb & <-). congruence.
    + etrans; [apply quiet_shell, Q|done].
  - unfold append_elem.
    set (l' := LSpec.append m len (c_inboundMsgs x)).
    pose proof (find_view_none _ _ _ w0 c x0 s Inbound id I Hx0 Hs Hr) as Hf. simpl in Hf.
    assert (Hni : Some (am_id a) ∉ ids w (LSpec.contents (c_inboundMsgs x) ++ [])).
    { rewrite app_nil_r, Eid. by apply (unused_id _ _ (s_in s)). }
    destruct (place_step Inbound c m (LSpec.contents (c_inboundMsgs x)) [] l' Em Ep Eq w x v a) as (I2 & S2 & Sh2);
      [done|done|done|by rewrite app_nil_r|apply LSpec.contents_append| |done|done|].
    { apply LSpec.append_wf, (wfs_in _ (i_wf _ _ _ _ _ I1) c x Hx). }
    eexists. split; [unfold upd_client; by rewrite Hx|]. split; [done|]. split; [|split].
    + apply (steps_quiet_l _ _ _ _ _ Q). eapply (steps_eval _ _ _ s); [done| |exact S2].
      assert (length (LSpec.contents (c_inboundMsgs x)) = length (s_in s)) as -> by (by eapply Forall2_length, mapM_Some).
      apply insert_eval. by rewrite Eid.
    + etrans; [apply quiet_shell, Q|done].
    + done.
Qed.

(** Storing a QoS 2 PUBLISH, up to the acknowledgement. *)
Definition store_inbound (c : loc) (publish : Publish) : P unit :=
  r ← MQTTProtocol_storePublication true publish;
  m ← new_message (MkMsg (hdr_qos (pb_header publish)) (hdr_retain (pb_header publish)) (pb_msgId publish)
                     (r : loc * Z).1 uninit PUBREL uninit);
  f ← find_msg c_inboundMsgs set_inbound c (pb_msgId publish);
  match f with
  | Some msg => replace_inbound c m msg (sizeof_Messages + r.2)
  | None => append_elem c_inboundMsgs set_inbound c m (sizeof_Messages + r.2)
  end.

Lemma handlePublishes_qos2 p sock :
  hdr_qos (pb_header p) = 2 ->
  forall w, MQTTProtocol_handlePublishes uninit p sock w =
    (c ← find_client sock; store_inbound c p;; MQTTPacket_send_pubrec (pb_msgId p) c) w.
Proof.
  intros Hq w. unfold MQTTProtocol_handlePublishes, store_inbound, replace_inbound, mbind, M_bind. rewrite Hq. simpl.
  destruct (find_client sock w) as [[c w1]|]; [|done].
  destruct (MQTTProtocol_storePublication true p w1) as [[[pp len] w2]|]; [|done]. simpl.
  destruct (find_msg _ _ _ _ _) as [[[msg|] w3]|]; [| |done].
  - repeat (case_match; simplify_eq/=; try done).
  - repeat (case_match; simplify_eq/=; try done).
Qed.

Lemma store_inbound_step c p topic w x s :
  winv w -> w_cl w !! c = Some x -> session_of w c = Some s -> pb_topic p = Some topic ->
  0 <= pb_payloadlen p <= zlen (pb_payload p) -> 0 <= pb_msgId p <= MAX_MSG_ID -> hdr_qos (pb_header p) = 2 ->
  exists w', store_inbound c p w = Some (tt, w') /\ winv w' /\
    steps c (fun s => s_with Inbound (put_msg (inbound_msg p) (s_in s)) s) w w' /\ shell w w' /\ w_net w' = w_net w.
Proof.
  intros I Hx Hs Ht Hp Hid Hq. unfold store_inbound.
  destruct (store_step true p topic _ _ _ w I Ht Hp) as (pl & len & w1 & E1 & I1 & S1 & Sh1 & C1 & M1 & N1 & _ & P1).
  mstep E1. simpl. set (v := MkMsg _ _ _ _ _ _ _).
  destruct (new_message_step v _ _ _ w1 I1 Hid) as (m & w2 & E2 & I2 & S2 & Sh2 & C2 & P2 & N2 & _ & M2 & _). mstep E2.
  assert (Hx2 : w_cl w2 !! c = Some x) by congruence.
  assert (Hv2 : w_msgs w2 !! m = Some v) by (rewrite M2; apply lookup_insert_eq).
  assert (Ha2 : msg_view w2 m = Some (inbound_msg p)).
  { unfold msg_view. rewrite Hv2. simpl. rewrite P2, P1. simpl. unfold inbound_msg. by rewrite Ht, Hq. }
  destruct (find_msg_eq Inbound c (pb_msgId p) w2 x (i_wf _ _ _ _ _ I2) Hx2) as (f & w3 & E3 & _).
  rewrite (bind_step _ _ _ _ _ E3).
  assert (Hs2 : session_of w2 c = Some s) by (by rewrite S2, S1).
  destruct (put_step c m (pb_msgId p) f (sizeof_Messages + len) _ _ _ w2 w3 x s v (inbound_msg p) I2 Hx2 Hs2 Hv2
    eq_refl Ha2 eq_refl E3) as (w4 & E4 & I4 & S4 & Sh4 & N4).
  exists w4. split; [exact E4|]. split; [done|]. split; [|split; [by etrans; [|etrans]|congruence]].
  intros c'. rewrite (S4 c'). by rewrite !S2, !S1.
Qed.

Lemma handlePublishes_step w sock c x s p topic :
  winv w -> at_socket w sock c x -> session_of w c = Some s -> pb_topic p = Some topic ->
  0 <= pb_payloadlen p <= zlen (pb_payload p) -> 0 <= pb_msgId p <= MAX_MSG_ID -> queue_room x ->
  outcome c (recv_publish p) w (MQTTProtocol_handlePublishes uninit p sock w) (fun w' =>
    if hdr_qos (pb_header p) =? 1 then sends_ack (MQTTPacket_send_puback (pb_msgId p) c) w w'
    else if hdr_qos (pb_header p) =? 2 then sends_ack (MQTTPacket_send_pubrec (pb_msgId p) c) w w'
    else w_net w' = w_net w).
Proof.
  intros I A Hs Ht Hp Hid Hroom.
  destruct (quiets_find_client w sock c x (i_wf _ _ _ _ _ I) A) as (w1 & E1 & Q1 & N1 & _ & C1).
  pose proof (quiet_inv _ _ _ _ _ _ Q1 I) as I1. assert (Hx1 : w_cl w1 !! c = Some x) by (rewrite C1; apply A).
  assert (Hs1 : session_of w1 c = Some s) by (by rewrite (quiet_session _ _ _ Q1)).
  assert (R : ready w c x) by (split; [apply I|by rewrite (as_socket _ _ _ _ A)]).
  assert (Hpr : hdr_qos (pb_header p) = 0 \/ hdr_qos (pb_header p) = 1 ->
    processed p topic = publish_delivery p).
  { intros Hq. unfold processed, publish_delivery. rewrite Ht. by destruct Hq as [-> | ->]. }
  pose proof (get_bits_range 1 2 (pb_header p) ltac:(lia)) as Hrange. fold (hdr_qos (pb_header p)) in Hrange.
  destruct (decide (hdr_qos (pb_header p) = 2)) as [Hq|Hq2].
  - rewrite handlePublishes_qos2 by done. mstep E1.
    destruct (store_inbound_step c p topic w1 x s I1 Hx1 Hs1 Ht Hp Hid Hq) as (w2 & E2 & I2 & S2 & Sh2 & N2). mstep E2.
    assert (Sh : shell w w2) by (etrans; [apply quiet_shell, Q1|done]).
    destruct (shell_ready _ _ _ _ Sh (i_wf _ _ _ _ _ I2) R) as (x2 & R2 & _).
    destruct (quiets_ack w2 c x2 PUBREC (pb_msgId p) 0 R2 ltac:(done) Hid) as (rc & w3 & E3 & Q3).
    exists rc, w3. split; [exact E3|]. split; [exact (quiet_inv _ _ _ _ _ _ Q3 I2)|]. split; [|split].
    + apply (steps_quiet_l _ _ _ _ _ Q1). apply (steps_quiet_r _ _ _ w2); [|done].
      eapply steps_ext; [|exact S2]. intros s0. unfold recv_publish. by rewrite Hq.
    + etrans; [exact Sh|apply quiet_shell, Q3].
    + rewrite Hq. simpl. exists w2, rc, w3. split_and!; [congruence|exact E3|done].
  - unfold MQTTProtocol_handlePublishes. mstep E1.
    destruct (decide (hdr_qos (pb_header p) = 0)) as [Hq|Hq0]; [|destruct (decide (hdr_qos (pb_header p) = 1)) as [Hq|Hq1]].
    + rewrite Hq. destruct (process_step p topic c x _ _ _ w1 I1 Hx1 Ht Hp Hroom)
        as (x2 & w2 & E2 & I2 & S2 & Sh2 & _ & _ & N2 & _). simpl. mstep E2.
      exists TCPSOCKET_COMPLETE, w2. split_and!; [done|done| |etrans; [apply quiet_shell, Q1|done]|congruence].
      apply (steps_quiet_l _ _ _ _ _ Q1). eapply steps_ext; [|exact S2]. intros s0. unfold recv_publish.
      rewrite Hq, Hpr by auto. done.
    + rewrite Hq. simpl. destruct (quiet_ready _ _ _ _ Q1 R) as (x1 & R1 & _).
      destruct (quiets_ack w1 c x1 PUBACK (pb_msgId p) 0 R1 ltac:(done) Hid) as (rc & w2 & E2 & Q2).
      unfold MQTTPacket_send_puback. mstep E2. pose proof (quiet_inv _ _ _ _ _ _ Q2 I1) as I2.
      destruct (quiet_csim _ _ c x Q2 Hx1) as (x2 & Hx2 & C2).
      assert (Hroom2 : queue_room x2) by (unfold queue_room; by rewrite (cs_per _ _ C2), (cs_seqno _ _ C2)).
      destruct (process_step p topic c x2 _ _ _ w2 I2 Hx2 Ht Hp Hroom2)
        as (x3 & w3 & E3 & I3 & S3 & Sh3 & _ & _ & N3 & _). mstep E3.
      exists rc, w3. split_and!; [done|done| | |by exists w1, rc, w2].
      * apply (steps_quiet_l _ _ _ _ _ Q1), (steps_quiet_l _ _ _ _ _ Q2). eapply steps_ext; [|exact S3].
        intros s0. unfold recv_publish. rewrite Hq, Hpr by auto. done.
      * etrans; [apply quiet_shell, Q1|]. etrans; [apply quiet_shell, Q2|done].
    + rewrite !(proj2 (Z.eqb_neq _ _)) by done.
      apply (outcome_ignored _ _ s); [done|done|done| |done]. unfold recv_publish. by rewrite !(proj2 (Z.eqb_neq _ _)) by done.
Qed.

(** * What sending does to the store *)

Lemma onet_ps {A} (m : M (net K) A) w a w' : onet m w = Some (a, w') -> w_ps w' = w_ps w.
Proof. unfold onet, zoom. destruct (m (w_net w)) as [[b n]|]; [|done]. by intros [= _ <-]. Qed.

Lemma stamp_ps c w a w' : stamp_sent c w = Some (a, w') -> w_ps w' = w_ps w.
Proof.
  unfold stamp_sent, time, onet, zoom, sys, upd_client, mbind, M_bind. destruct (k_time _) as [t k]. simpl.
  destruct (w_cl w !! c); [|done]. by intros [= _ <-].
Qed.

Lemma sending_ps c sock buf0 bufs frees w rc w' :
  (rc ← onet (Socket_putdatas sock buf0 bufs frees);
   when (rc =? TCPSOCKET_COMPLETE) (stamp_sent c);; mret rc) w = Some (rc, w') -> w_ps w' = w_ps w.
Proof.
  intros E. apply bind_Some in E as (rc1 & w1 & E1 & E). apply onet_ps in E1 as <-.
  apply bind_Some in E as ([] & w2 & E2 & [= <- <-]). destruct (rc1 =? TCPSOCKET_COMPLETE); [|by injection E2 as <-].
  by apply stamp_ps in E2.
Qed.

(** Only PUBREL is stored. *)
Lemma ack_ps type id dup c w rc w' :
  MQTTPacket_send_ack type id dup c w = Some (rc, w') -> type mod 16 <> PUBREL -> w_ps w' = w_ps w.
Proof.
  intros E Ht. unfold MQTTPacket_send_ack, MQTTPacket_send in E.
  apply bind_Some in E as (b & w1 & E1 & E). assert (w1 = w) as ->.
  { unfold load in E1. destruct (run_write _ _); [|done]. by injection E1 as _ <-. }
  apply bind_Some in E as (x & w2 & E2 & E). assert (w2 = w) as ->.
  { unfold client, load in E2. destruct (w_cl w !! c); [|done]. by injection E2 as _ <-. }
  cbv zeta in E. rewrite hdr_type_ack, (proj2 (Z.eqb_neq _ _) Ht) in E. rewrite ret_bind in E. by apply sending_ps in E.
Qed.

(** * PUBREL *)

(** The publication that PUBREL hands over. *)
Definition pubrel_publish (v : Messages) (pub : Publications) : Publish :=
  MkPublish (set_retain (m_retain v) (set_qos (m_qos v) (to_char uninit))) (Some (p_topic pub))
    (p_topiclen pub) (m_msgid v) (p_payload pub) (p_payloadlen pub).

Lemma processed_pubrel v pub :
  m_qos v = 2 ->
  processed (pubrel_publish v pub) (p_topic pub) =
    released (AMsg (m_msgid v) 2 (m_retain v) (m_nextMessageType v) (p_topic pub) (p_topiclen pub)
                   (p_payload pub) (p_payloadlen pub)).
Proof.
  intros Hq. unfold processed, pubrel_publish, released. simpl. rewrite Hq.
  assert (E1 : forall r h, hdr_qos (set_retain r (set_qos 2 h)) = 2).
  { intros. unfold hdr_qos, set_retain, set_qos. by rewrite get_set_bits_other, get_set_bits by lia. }
  assert (E2 : forall r h, hdr_retain (set_retain r h) = r mod 2).
  { intros. unfold hdr_retain, set_retain. by rewrite get_set_bits by lia. }
  by rewrite !E1, E2.
Qed.

(** Delivering the message and ending the exchange. *)
Lemma release_inbound w c x m v pub id :
  winv w -> w_cl w !! c = Some x -> m ∈ LSpec.contents (c_inboundMsgs x) -> w_msgs w !! m = Some v ->
  w_pubs w !! m_publish v = Some pub -> m_qos v = 2 -> m_msgid v = id -> 0 <= id <= MAX_MSG_ID -> queue_room x ->
  exists rc w1 w2 w3, Protocol_processPublication uninit (pubrel_publish v pub) c w = Some (tt, w1) /\
    MQTTPersistence_remove c PERSISTENCE_PUBLISH_RECEIVED (m_qos v) id w1 = Some (rc, w2) /\
    (remove_from_publications (m_publish v);; remove_message c_inboundMsgs set_inbound c m) w2 = Some (tt, w3) /\
    winv w3 /\ shell w w3 /\ w_net w3 = w_net w /\ w_msgs_received w3 = w_msgs_received w /\
    steps c (s_drop Inbound id ∘ s_enqueue (processed (pubrel_publish v pub) (p_topic pub))) w w3 /\
    w_ps w3 = forget (c_persistence x) (c_phandle x) [(PERSISTENCE_PUBLISH_RECEIVED +:+ pretty id)%string]
                (put_entry x (processed (pubrel_publish v pub) (p_topic pub)) (w_ps w)).
Proof.
  intros I Hx Hm Hv Hpub Hq Hvid Hid Hroom.
  destruct (i_pub_ok _ _ _ _ _ I _ _ Hpub) as [_ Hlen].
  destruct (process_step (pubrel_publish v pub) (p_topic pub) c x _ _ _ w I Hx eq_refl)
    as (x1 & w1 & E1 & I1 & S1 & Sh1 & M1 & P1 & N1 & _ & R1 & Hx1 & L1 & _ & Hper & Hh & Ps1).
  { simpl. pose proof (zlen_nonneg (p_payload pub)). lia. } { done. }
  destruct (persistence_remove_eq w1 c x1 PERSISTENCE_PUBLISH_RECEIVED (m_qos v) id Hx1 ltac:(vm_compute; lia) Hid) as (rc & E2).
  set (w2 := set_ps _ w1) in E2. pose proof (quiet_ps w1 _ : quiet w1 w2) as Q2.
  pose proof (quiet_inv _ _ _ _ _ _ Q2 I1) as I2.
  destruct (drop_step remove_from_publications Inbound c m _ _ _ w2 x1 v remove_from_publications_removes I2 Hx1)
    as (w3 & E3 & I3 & S3 & Sh3 & N3 & Ps3 & _ & R3).
  { simpl. by rewrite L1. } { simpl. by rewrite M1. }
  exists rc, w1, w2, w3. split_and!; [done..| |by rewrite N3|by rewrite R3| |by rewrite Ps3; simpl; rewrite Hper, Hh, Ps1].
  - etrans; [exact Sh1|]. etrans; [apply quiet_shell, Q2|done].
  - rewrite <- Hvid. apply (steps_trans _ _ _ _ w1); [done|]. by apply (steps_quiet_l _ _ _ _ _ Q2).
Qed.

(** The store after PUBREL: the entry of the message handed over is recorded, and
    the record of the message received is removed. *)
Definition released_store x (id : Z) (l : list amsg) (s : PS) : PS :=
  match find_id id l with
  | Some a => if expects PUBREL a
      then forget (c_persistence x) (c_phandle x) [(PERSISTENCE_PUBLISH_RECEIVED +:+ pretty id)%string] (put_entry x (released a) s)
      else s
  | None => s
  end.

Lemma handlePubrels_step w sock c x s pubrel :
  winv w -> at_socket w sock c x -> session_of w c = Some s -> 0 <= ack_msgId pubrel <= MAX_MSG_ID -> queue_room x ->
  let id := ack_msgId pubrel in
  let releases := in_phase (expects PUBREL) id (s_in s) in
  outcome c (recv_pubrel id) w (MQTTProtocol_handlePubrels uninit pubrel sock w) (fun w' =>
    (if releases || bool_decide (find_id id (s_in s) = None) && negb (hdr_dup (ack_header pubrel) =? 0)
     then sends_ack (MQTTPacket_send_pubcomp id c) w w' else w_net w' = w_net w) /\
    w_msgs_received w' = (if releases then uint_wrap (w_msgs_received w + 1) else w_msgs_received w) /\
    w_ps w' = released_store x id (s_in s) (w_ps w)).
Proof.
  intros I A Hs Hid Hroom id releases. unfold MQTTProtocol_handlePubrels.
  destruct (handler_start _ _ _ w sock c x s Inbound id I A Hs)
    as (w1 & E1 & r & w2 & x2 & E2 & Q & I2 & A2 & C2 & Hs2 & N2 & P2 & Hr). simpl in E2, Hr.
  mstep E1. mstep E2.
  assert (R2 : ready w2 c x2) by (split; [apply I2|by rewrite (as_socket _ _ _ _ A2)]).
  destruct (quiets_ack w2 c x2 PUBCOMP id 0 R2 ltac:(done) Hid) as (rc & w3 & E3 & Q3).
  assert (Hack : sends_ack (MQTTPacket_send_pubcomp id c) w w3) by (exists w2, rc, w3; split_and!; done).
  assert (P3 : w_ps w3 = w_ps w) by (rewrite <- P2; by eapply ack_ps).
  assert (Q' : quiet w w3) by (by etrans). pose proof (quiet_inv _ _ _ _ _ _ Q3 I2) as I3.
  destruct r as [m|]; cycle 1.
  { assert (Hrec : recv_pubrel id s = s) by (unfold recv_pubrel; by rewrite Hr). unfold released_store. rewrite Hr.
    unfold releases, in_phase. rewrite Hr, bool_decide_true by done. simpl.
    destruct (hdr_dup (ack_header pubrel) =? 0); simpl.
    - apply (outcome_ignored _ _ s); [done..|]. split_and!; [done|apply (q_received _ _ Q)|done].
    - unfold MQTTPacket_send_pubcomp. fold id. rewrite E3. apply (outcome_ignored _ _ s); [done..|].
      split_and!; [done|apply (q_received _ _ Q')|done]. }
  destruct Hr as (Hm & v & a & Hv & Hvid & Ha & Hf & Hq & Hn). mstep (message_eq w2 m v Hv).
  assert (Hrel : releases = (m_qos v =? 2) && (m_nextMessageType v =? PUBREL)).
  { unfold releases, in_phase, expects. by rewrite Hf, Hq, Hn. }
  unfold released_store. rewrite Hf. change (expects PUBREL a) with ((am_qos a =? 2) && (am_next a =? PUBREL)). rewrite Hq, Hn.
  rewrite bool_decide_false by done. rewrite andb_false_l, orb_false_r. clearbody releases. subst releases.
  destruct ((m_qos v =? 2) && (m_nextMessageType v =? PUBREL)) eqn:Ph; cycle 1.
  { assert (Hrec : recv_pubrel id s = s) by (unfold recv_pubrel, expects; by rewrite Hf, Hq, Hn, Ph).
    pose proof (q_received _ _ Q).
    destruct (m_qos v =? 2); simpl in Ph |- *; [rewrite Ph; simpl|]; by apply (outcome_ignored _ _ s). }
  pose proof Ph as Ph'. apply andb_true_iff in Ph' as [Ph1 Ph2]. rewrite Ph1, Ph2. cbv iota beta delta [negb].
  apply Z.eqb_eq in Ph1. unfold MQTTPacket_send_pubcomp. fold id. mstep E3.
  destruct (quiet_csim _ _ c x2 Q3 (as_client _ _ _ _ A2)) as (x3 & Hx3 & C3).
  destruct (msg_pub _ _ _ _ I3 m v) as [pub Hpub]; [by rewrite (q_msgs _ _ Q3)|].
  destruct (release_inbound w3 c x3 m v pub id I3 Hx3) as (rc2 & w4 & w5 & w6 & F1 & F2 & F3 & I6 & Sh & Nf & Rf & Sf & Pf).
  { by apply csim_contents in C3 as (-> & _ & _). } { by rewrite (q_msgs _ _ Q3). } { done. } { done. } { done. } { done. }
  { unfold queue_room. by rewrite (cs_per _ _ C3), (cs_seqno _ _ C3), (cs_per _ _ C2), (cs_seqno _ _ C2). }
  assert (Erel : processed (pubrel_publish v pub) (p_topic pub) = released a).
  { rewrite processed_pubrel by done. unfold msg_view in Ha. rewrite Hv in Ha. simpl in Ha.
    rewrite <- (q_pubs _ _ Q3), Hpub in Ha. simpl in Ha. rewrite Ph1 in Ha. by injection Ha as <-. }
  mstep (publication_eq w3 _ pub Hpub). fold (pubrel_publish v pub). mstep F1. mstep F2. rewrite <- bind_assoc. mstep F3.
  exists (rc + rc2), (add_received 1 w6). split; [done|]. split; [by apply received_winv|]. split; [|split; [|split; [|split]]].
  - apply (steps_quiet_l _ _ _ _ _ Q'). eapply (steps_eval _ _ _ s); [by rewrite (quiet_session _ _ _ Q')| |exact Sf].
    simpl. unfold recv_pubrel. rewrite Hf. unfold expects. rewrite Hq, Hn, Ph.
    by rewrite Erel.
  - etrans; [apply quiet_shell, Q'|]. etrans; [exact Sh|]. by split.
  - destruct Hack as (u1 & u2 & u3 & U1 & U2 & U3). exists u1, u2, u3. split_and!; [done..|simpl; congruence].
  - simpl. by rewrite Rf, (q_received _ _ Q').
  - simpl. by rewrite Pf, Erel, P3, (cs_per _ _ C3), (cs_per _ _ C2), (cs_handle _ _ C3), (cs_handle _ _ C2),
      (put_entry_csim _ _ _ _ C3), (put_entry_csim _ _ _ _ C2).
Qed.
(** [C9] An arriving PUBLISH implements the abstract receiver [recv_publish].
    With QoS 0 or 1 it is put at the end of the application's queue; with QoS 2
    it is stored under its id, in place of a message with the same id if there is
    one, and is not delivered yet.  The acknowledgement belonging to the QoS is
    sent, no other session changes, and no structure is leaked or freed twice. *)
Theorem handlePublishes_refines w sock c x s p topic :
  winv w -> at_socket w sock c x -> session_of w c = Some s -> pb_topic p = Some topic ->
  0 <= pb_payloadlen p <= zlen (pb_payload p) -> 0 <= pb_msgId p <= MAX_MSG_ID -> queue_room x ->
  outcome c (recv_publish p) w (MQTTProtocol_handlePublishes uninit p sock w) (fun w' =>
    if hdr_qos (pb_header p) =? 1 then sends_ack (MQTTPacket_send_puback (pb_msgId p) c) w w'
    else if hdr_qos (pb_header p) =? 2 then sends_ack (MQTTPacket_send_pubrec (pb_msgId p) c) w w'
    else w_net w' = w_net w).
Proof. apply handlePublishes_step. Qed.

(** [C10] An arriving PUBREL implements [recv_pubrel]: the QoS 2 message stored
    under its id is put at the end of the application's queue (never marked as a
    duplicate) and leaves the session, PUBCOMP is sent, and one more message
    counts as received.  In the persistent store the entry of the queue is
    recorded first and then the record of the received message is removed, so
    that a restart does not lose the message.  When there is no such message
    nothing changes, and PUBCOMP is sent only if the PUBREL has the DUP flag. *)
Theorem handlePubrels_refines w sock c x s pubrel :
  winv w -> at_socket w sock c x -> session_of w c = Some s -> 0 <= ack_msgId pubrel <= MAX_MSG_ID -> queue_room x ->
  let id := ack_msgId pubrel in
  let releases := in_phase (expects PUBREL) id (s_in s) in
  outcome c (recv_pubrel id) w (MQTTProtocol_handlePubrels uninit pubrel sock w) (fun w' =>
    (if releases || bool_decide (find_id id (s_in s) = None) && negb (hdr_dup (ack_header pubrel) =? 0)
     then sends_ack (MQTTPacket_send_pubcomp id c) w w' else w_net w' = w_net w) /\
    w_msgs_received w' = (if releases then uint_wrap (w_msgs_received w + 1) else w_msgs_received w) /\
    w_ps w' = released_store x id (s_in s) (w_ps w)).
Proof. apply handlePubrels_step. Qed.

End receiver.
End Receiver.
