(* ===== verification/Sender.v ===== *)
(** Starting to publish: the message is in the session and in the persistent
    store before it is sent, so that no failure loses it. *)
From stdpp Require Import gmultiset.
From S2P Require Import Prelude ListSpec Packet SocketBuffer Socket World Persistence Send Store Session Protocol Memory Sending Steps Handlers Receiver.

Module Sender.
Import Packet SocketBuffer Socket World Persistence Send Store Session Protocol Memory Sending Steps Handlers Receiver.

#[local] Arguments zlen : simpl never.

(** The message that a publish adds at the end of the outbound list. *)
Definition outbound_msg (uninit : Z) (heap : bool) (p : Publish) (topic : list byte) (qos retained : Z) : amsg :=
  AMsg (pb_msgId p) qos retained (if qos =? 2 then PUBREC else uninit) (if heap then topic else c_str topic)
       (pb_topiclen p) (publish_payload p) (pb_payloadlen p).
Definition s_add (a : amsg) (s : session) : session := s_with Outbound (s_out s ++ [a]) s.

Section sender.
Context {K PS : Type} `{Kernel K}.
Variable uninit : Z.
Implicit Types (w : world K PS) (x : Clients PS).
Abbreviation P := (M (world K PS)).

(** * What sending a PUBLISH puts in the store *)

Lemma sum_concat (bufs : list (list byte)) : foldr (fun b n => zlen b + n) 0 bufs = zlen (concat bufs).
Proof. induction bufs as [|b bufs IH]; [done|]. simpl. by rewrite IH, zlen_app. Qed.

(** The record of a QoS 1 or 2 PUBLISH. *)
Definition put_record (per : option (MQTTClient_persistence PS)) (h : Z) (key : string) (bufs : list (list byte)) (s : PS) : PS :=
  match per with None => s | Some p => (pput p h key bufs s).2 end.

(** Storing a packet that is being sent. *)
Lemma put_sent_eq w c x buf0 bufs ty msgid :
  ready w c x -> ty = PUBLISH \/ ty = PUBREL -> 0 <= msgid <= MAX_MSG_ID ->
  exists rc w', MQTTPersistence_put (nh_socket (c_net x)) buf0 bufs ty msgid 0 w = Some (rc, w') /\ quiet w w' /\
    w_ps w' = put_record (c_persistence x) (c_phandle x)
                ((if (ty =? PUBREL)%Z then PERSISTENCE_PUBREL else PERSISTENCE_PUBLISH_SENT) +:+ pretty msgid)%string
                (buf0 :: bufs) (w_ps w).
Proof.
  intros R Hty Hid.
  destruct (quiets_find_client w _ c x (r_wf _ _ _ R) (r_at _ _ _ R)) as (w1 & E1 & Q1 & N1 & P1 & C1).
  unfold MQTTPersistence_put. mstep E1. assert (Hx1 : w_cl w1 !! c = Some x) by (rewrite C1; by apply ready_client).
  mstep (client_eq w1 c x Hx1). destruct (c_persistence x) as [per|]; [|by exists 0, w1].
  assert (Ek : (if ty =? PUBREL then sprintf_key PERSISTENCE_PUBREL msgid
     else if ty =? PUBLISH then sprintf_key PERSISTENCE_PUBLISH_SENT msgid else None) =
     Some ((if (ty =? PUBREL)%Z then PERSISTENCE_PUBREL else PERSISTENCE_PUBLISH_SENT) +:+ pretty msgid)%string).
  { destruct Hty as [-> | ->]; simpl; apply key_ok; (done || (vm_compute; lia)). }
  change (0 =? 1) with false. change (0 =? 0) with true. cbv iota. rewrite Ek. set (key := (_ +:+ _)%string).
  rewrite (bind_step _ _ w1 key w1) by done. unfold ops, put_record. rewrite <- P1.
  destruct (pput per _ _ _ (w_ps w1)) as [rc1 s1]. exists rc1, (set_ps s1 w1). split; [done|]. split; [|done].
  etrans; [exact Q1|apply quiet_ps].
Qed.

(** A PUBREL is stored before it is sent. *)
Lemma pubrel_persists w c x id dup :
  ready w c x -> 0 <= id <= MAX_MSG_ID ->
  exists rc w', MQTTPacket_send_pubrel id dup c w = Some (rc, w') /\ quiet w w' /\
    w_ps w' = put_record (c_persistence x) (c_phandle x) (PERSISTENCE_PUBREL +:+ pretty id)%string
                [ack_header_byte PUBREL dup :: MQTTPacket_encode (zlen (int_bytes id)); int_bytes id] (w_ps w).
Proof.
  intros R Hid. destruct (quiets_ack w c x PUBREL id dup R ltac:(done) Hid) as (rc & w' & E & Q).
  exists rc, w'. split; [done|]. split; [done|]. unfold MQTTPacket_send_ack in E.
  rewrite (bind_step _ _ w (int_bytes id) w) in E by (unfold load; by rewrite run_write_int).
  unfold MQTTPacket_send in E. rewrite (bind_step _ _ _ _ _ (client_eq w c x (ready_client _ _ _ R))) in E.
  rewrite hdr_type_ack in E by done. change (PUBREL mod 16) with PUBREL in E. change (PUBREL =? PUBREL) with true in E. cbv beta zeta iota in E.
  rewrite bind_assoc in E.
  rewrite (bind_step _ _ w (id, 2) w) in E by (unfold load; by rewrite readInt_int_bytes).
  destruct (put_sent_eq w c x (ack_header_byte PUBREL dup :: MQTTPacket_encode (zlen (int_bytes id))) [int_bytes id] PUBREL id
    R (or_intror eq_refl) Hid) as (rc1 & w2 & E2 & _ & P2). change (PUBREL =? PUBREL) with true in P2. simpl in E.
  rewrite bind_assoc, (bind_step _ _ _ _ _ E2) in E. simpl in E. rewrite (bind_step _ _ w2 tt w2) in E by done.
  rewrite <- P2. by apply sending_ps in E.
Qed.

(** The end of sending: the packet is handed to the network. *)
Definition transmit `{T : Transport K PS} (c : loc) (sock : Z) (buf0 : list byte) (bufs : list (list byte)) (frees : list Z) : P Z :=
  rc ← putdatas sock buf0 bufs frees;
  when (rc =? TCPSOCKET_COMPLETE) (stamp_sent c);;
  mret rc.

Lemma quiets_transmit w c x sock buf0 bufs frees :
  ready w c x -> nh_socket (c_net x) = sock -> zlen bufs <= 4 -> quiets w (transmit c sock buf0 bufs frees).
Proof. intros R <-. by apply quiets_sending. Qed.

(** Whatever the network does, the record is in the store when the packet is handed to it. *)
Lemma sends_prepares w c x header bufs frees b msgid :
  ready w c x -> hdr_type header = PUBLISH -> hdr_qos header <> 0 ->
  bufs !! 2%nat = Some b -> readInt b 0 = Some (msgid, 2) -> 0 <= msgid <= MAX_MSG_ID ->
  let buf0 := header :: MQTTPacket_encode (zlen (concat bufs)) in
  exists w1, quiet w w1 /\
    w_ps w1 = put_record (c_persistence x) (c_phandle x) (PERSISTENCE_PUBLISH_SENT +:+ pretty msgid)%string (buf0 :: bufs) (w_ps w) /\
    forall T : Transport K PS, MQTTPacket_sends c header bufs frees w = transmit c (nh_socket (c_net x)) buf0 bufs frees w1.
Proof.
  intros R Ht Hq Eb Er Hid buf0.
  destruct (put_sent_eq w c x buf0 bufs PUBLISH msgid R (or_introl eq_refl) Hid) as (rc1 & w1 & E1 & Q1 & P1).
  exists w1. split; [done|]. split; [done|]. intros T. unfold MQTTPacket_sends.
  rewrite (bind_step _ _ _ _ _ (client_eq w c x (ready_client _ _ _ R))).
  rewrite Ht, sum_concat. change (PUBLISH =? PUBLISH) with true. rewrite (proj2 (Z.eqb_neq _ _) Hq).
  cbv iota beta delta [andb negb]. rewrite bind_assoc.
  rewrite (bind_step _ _ w b w) by (unfold load; by rewrite Eb). cbv beta. rewrite bind_assoc.
  rewrite (bind_step _ _ w (msgid, 2) w) by (unfold load; by rewrite Er). cbv beta. rewrite bind_assoc.
  simpl. rewrite (bind_step _ _ _ _ _ E1). reflexivity.
Qed.

Lemma publish_prepares w c x pack dup qos retained topic :
  ready w c x -> pb_topic pack = Some topic -> 0 <= pb_payloadlen pack <= zlen (pb_payload pack) ->
  1 <= qos <= 2 -> 0 <= pb_msgId pack <= MAX_MSG_ID ->
  exists w1 bufs frees, publish_buffers (c_str topic) (pb_msgId pack) qos (publish_payload pack) = Some (bufs, frees) /\
    zlen bufs <= 4 /\ quiet w w1 /\
    let buf0 := publish_header dup qos retained :: MQTTPacket_encode (zlen (concat bufs)) in
    w_ps w1 = put_record (c_persistence x) (c_phandle x) (PERSISTENCE_PUBLISH_SENT +:+ pretty (pb_msgId pack))%string
                (buf0 :: bufs) (w_ps w) /\
    forall T : Transport K PS,
      MQTTPacket_send_publish pack dup qos retained c w = transmit c (nh_socket (c_net x)) buf0 bufs frees w1.
Proof.
  intros R Ht Hp Hq Hid. unfold publish_buffers. rewrite !run_write_int. cbn [mbind option_bind].
  destruct (Z.ltb_spec 0 qos); [|lia]. set (bufs := [_; _; _; _]).
  destruct (sends_prepares w c x (publish_header dup qos retained) bufs [1; 0; 1; 0] (int_bytes (pb_msgId pack)) (pb_msgId pack))
    as (w1 & Q & P' & Hrun); try done.
  - apply hdr_type_publish.
  - rewrite hdr_qos_publish. rewrite Z.mod_small; lia.
  - by apply readInt_int_bytes.
  - exists w1, bufs, [1; 0; 1; 0]. do 4 (split; [done|]). intros T. rewrite <- Hrun. unfold MQTTPacket_send_publish.
    rewrite (bind_step _ _ w topic w) by (unfold load; by rewrite Ht).
    rewrite (bind_step _ _ w (publish_payload pack) w).
    2: { unfold load, subz. by rewrite bool_decide_true by lia. }
    unfold publish_buffers. rewrite !run_write_int. cbn [mbind option_bind]. destruct (Z.ltb_spec 0 qos); [|lia].
    by rewrite (bind_step _ _ w (bufs, [1; 0; 1; 0]) w) by done.
Qed.

Lemma time_quiet w : exists t w', time w = Some (t, w') /\ quiet w w' /\ w_ps w' = w_ps w /\ w_cl w' = w_cl w /\
  w_msgs w' = w_msgs w /\ w_pubs w' = w_pubs w.
Proof.
  unfold time, onet, zoom, sys. destruct (k_time _) as [t k]. set (n := Net _ _ k).
  exists t, (set_net n w). split; [done|]. split; [apply quiet_net|done].
Qed.

(** The message is created. *)
Lemma create_step heap p topic qos retained Em Ep Eq w :
  inv Em Ep ∅ Eq w -> pb_topic p = Some topic -> 0 <= pb_payloadlen p <= zlen (pb_payload p) -> 0 <= pb_msgId p <= MAX_MSG_ID ->
  exists m v pub w', MQTTProtocol_createMessage uninit heap p None qos retained w = Some (m, w') /\
    inv ({[+ m +]} ⊎ Em) Ep ∅ Eq w' /\ (forall c, session_of w' c = session_of w c) /\ shell w w' /\
    w_ps w' = w_ps w /\ w_cl w' = w_cl w /\ w_msgs w' !! m = Some v /\ w_pubs w' !! m_publish v = Some pub /\
    msg_view w' m = Some (outbound_msg uninit heap p topic qos retained) /\
    p_topic pub = (if heap then topic else c_str topic) /\ p_payload pub = publish_payload p.
Proof.
  intros I Ht Hp Hid. unfold MQTTProtocol_createMessage.
  destruct (store_step heap p topic _ _ _ w I Ht Hp) as (pl & len & w1 & E1 & I1 & S1 & Sh1 & C1 & M1 & N1 & P1 & Pub1).
  rewrite bind_assoc. mstep E1. cbv beta. rewrite ret_bind. cbv iota beta.
  destruct (time_quiet w1) as (t & w2 & E2 & Q2 & P2 & C2 & M2 & Pub2). simpl. mstep E2.
  set (v := MkMsg _ _ _ _ _ _ _). pose proof (quiet_inv _ _ _ _ _ _ Q2 I1) as I2.
  destruct (new_message_step v _ _ _ w2 I2 Hid) as (m & w3 & E3 & I3 & S3 & Sh3 & C3 & Pub3 & _ & P3 & M3 & _).
  eexists m, v, _, w3. split; [exact E3|]. split; [exact I3|].
  assert (Hv : w_msgs w3 !! m = Some v) by (rewrite M3; apply lookup_insert_eq).
  assert (Hpub : w_pubs w3 !! m_publish v = Some (MkPub (if heap then topic else c_str topic) (pb_topiclen p) (publish_payload p)
      (pb_payloadlen p) 1)) by (by rewrite Pub3, Pub2).
  split_and!; [| |congruence|congruence|done|exact Hpub| |done|done].
  - intros c. by rewrite S3, (quiet_session _ _ _ Q2), S1.
  - etrans; [exact Sh1|]. etrans; [apply quiet_shell, Q2|exact Sh3].
  - unfold msg_view. rewrite Hv. cbn [mbind option_bind]. by rewrite Hpub.
Qed.

(** The record of the packet of a publish restores to it. *)
Definition restores_to (bufs : list (list byte)) (p : Publish) : Prop :=
  MQTTPersistence_restorePacket (concat bufs) (zlen (concat bufs)) = Some (Some (PPublish p)).

(** The packet in the store. *)
Definition sent_publish (p : Publish) (topic : list byte) (qos retained : Z) : Publish :=
  MkPublish (publish_header 0 qos retained) (Some (c_str topic)) (zlen (c_str topic)) (pb_msgId p) (publish_payload p)
    (zlen (publish_payload p)).

Lemma startPublish_prepares heap w c x s p topic qos retained :
  winv w -> ready w c x -> session_of w c = Some s -> pb_topic p = Some topic ->
  0 <= pb_payloadlen p <= zlen (pb_payload p) -> 1 <= qos <= 2 -> 0 <= pb_msgId p <= MAX_MSG_ID ->
  find_id (pb_msgId p) (s_out s) = None ->
  zlen (c_str topic) < 65536 -> zlen (publish_body (c_str topic) (pb_msgId p) qos (publish_payload p)) < 128 ^ 4 ->
  exists m w1 x1 buf0 bufs frees, winv w1 /\ steps c (s_add (outbound_msg uninit heap p topic qos retained)) w w1 /\ shell w w1 /\
    ready w1 c x1 /\ nh_socket (c_net x1) = nh_socket (c_net x) /\ zlen bufs <= 4 /\
    m_msgid <$> w_msgs w1 !! m = Some (pb_msgId p) /\
    w_ps w1 = put_record (c_persistence x) (c_phandle x) (PERSISTENCE_PUBLISH_SENT +:+ pretty (pb_msgId p))%string (buf0 :: bufs) (w_ps w) /\
    restores_to (buf0 :: bufs) (sent_publish p topic qos retained) /\
    forall T : Transport K PS, MQTTProtocol_startPublish uninit heap c p qos retained None w =
      (rc ← transmit c (nh_socket (c_net x)) buf0 bufs frees; mret (rc, Some m)) w1.
Proof.
  intros I R Hs Ht Hp Hq Hid Hf Htl Hbl. unfold MQTTProtocol_startPublish. destruct (Z.ltb_spec 0 qos); [|lia].
  pose proof (ready_client _ _ _ R) as Hx.
  destruct (create_step heap p topic qos retained _ _ _ w I Ht Hp Hid)
    as (m & v & pub & w1 & E1 & I1 & S1 & Sh1 & P1 & C1 & Hv1 & Hpub1 & Ha1 & Htop & Hpay).
  assert (Hx1 : w_cl w1 !! c = Some x) by (by rewrite C1).
  assert (Hs1 : session_of w1 c = Some s) by (by rewrite S1).
  set (l' := LSpec.append m (m_len v) (c_outboundMsgs x)).
  pose proof (session_side w1 c x s Outbound Hx1 Hs1) as Hal. simpl in Hal.
  destruct (place_step Outbound c m (LSpec.contents (c_outboundMsgs x)) [] l' ∅ ∅ ∅ w1 x v
    (outbound_msg uninit heap p topic qos retained) I1 Hx1 Hv1)
    as (I2 & S2 & Sh2); [by rewrite app_nil_r|apply LSpec.contents_append| |exact Ha1| |].
  { apply LSpec.append_wf, (wfs_out _ (i_wf _ _ _ _ _ I1) c x Hx1). }
  { rewrite app_nil_r. by apply (unused_id _ _ (s_out s)). }
  set (w2 := set_cl _ w1) in I2, S2, Sh2. assert (Sh : shell w w2) by (by etrans).
  destruct (shell_ready _ _ _ _ Sh (i_wf _ _ _ _ _ I2) R) as (x2 & R2 & F2).
  set (pack := MkPublish (pb_header p) (Some (p_topic pub)) (pb_topiclen p) (pb_msgId p) (p_payload pub) (pb_payloadlen p)).
  assert (Hpl : zlen (p_payload pub) = pb_payloadlen p).
  { rewrite Hpay. unfold publish_payload, zlen. rewrite length_take. unfold zlen in Hp. lia. }
  destruct (publish_prepares w2 c x2 pack 0 qos retained (p_topic pub) R2 eq_refl) as (w3 & bufs & frees & B3 & Hb & Q3 & P3 & Hrun).
  { simpl. lia. } { done. } { done. }
  assert (Epay : publish_payload pack = publish_payload p).
  { unfold publish_payload, pack. simpl. rewrite Hpay. unfold publish_payload. by rewrite take_take, Nat.min_id. }
  assert (Etop : c_str (p_topic pub) = c_str topic).
  { rewrite Htop. destruct heap; [done|]. apply c_str_idem. }
  destruct (quiet_ready _ _ _ _ Q3 R2) as (x3 & R3 & C3).
  exists m, w3, x3, (publish_header 0 qos retained :: MQTTPacket_encode (zlen (concat bufs))), bufs, frees.
  split; [exact (quiet_inv _ _ _ _ _ _ Q3 I2)|]. split; [|split; [|split; [done|split; [|split; [done|split; [|split; [|split]]]]]]].
  - apply (steps_quiet_r _ _ _ w2); [|done]. intros c'. rewrite (S2 c'), !S1. case_decide; [|done]. rewrite Hs. simpl.
    unfold s_insert, s_add. simpl.
    assert (length (LSpec.contents (c_outboundMsgs x)) = length (s_out s)) as -> by (by eapply Forall2_length, mapM_Some).
    by rewrite firstn_all, drop_all.
  - etrans; [exact Sh|apply quiet_shell, Q3].
  - by rewrite (cs_socket _ _ C3), (cf_socket _ _ F2).
  - rewrite (q_msgs _ _ Q3). change (w_msgs w2) with (w_msgs w1). rewrite Hv1. simpl. f_equal.
    unfold msg_view in Ha1. rewrite Hv1 in Ha1. cbn [mbind option_bind] in Ha1. rewrite Hpub1 in Ha1. by injection Ha1.
  - rewrite P3. simpl. change (w_ps w2) with (w_ps w1). by rewrite P1, (cf_per _ _ F2), (cf_handle _ _ F2).
  - destruct (publish_record_restores (c_str topic) (pb_msgId p) 0 qos retained (publish_payload p))
      as (bufs' & frees' & B' & Hrest); [done|unfold MAX_MSG_ID in Hid; lia|done|done|].
    rewrite Epay, Etop in B3. change (pb_msgId pack) with (pb_msgId p) in B3. rewrite B3 in B'. injection B' as <- <-.
    exact Hrest.
  - intros T. mstep E1. mstep (message_eq w1 m v Hv1).
    rewrite (bind_step _ _ w1 tt w2) by (unfold append_elem, upd_client; by rewrite Hx1).
    mstep (publication_eq w2 _ pub Hpub1). fold pack. unfold MQTTProtocol_startPublishCommon.
    rewrite (proj2 (Z.eqb_neq qos 0)) by lia. simpl. rewrite bind_assoc. unfold mbind at 1, M_bind at 1. rewrite (Hrun T).
    rewrite (cf_socket _ _ F2). reflexivity.
Qed.

Lemma startPublish_step heap w c x s p topic qos retained :
  winv w -> ready w c x -> session_of w c = Some s -> pb_topic p = Some topic ->
  0 <= pb_payloadlen p <= zlen (pb_payload p) -> 1 <= qos <= 2 -> 0 <= pb_msgId p <= MAX_MSG_ID ->
  find_id (pb_msgId p) (s_out s) = None ->
  zlen (c_str topic) < 65536 -> zlen (publish_body (c_str topic) (pb_msgId p) qos (publish_payload p)) < 128 ^ 4 ->
  exists rc m w' bufs, MQTTProtocol_startPublish uninit heap c p qos retained None w = Some ((rc, Some m), w') /\
    winv w' /\ steps c (s_add (outbound_msg uninit heap p topic qos retained)) w w' /\ shell w w' /\
    m_msgid <$> w_msgs w' !! m = Some (pb_msgId p) /\
    w_ps w' = put_record (c_persistence x) (c_phandle x) (PERSISTENCE_PUBLISH_SENT +:+ pretty (pb_msgId p))%string bufs (w_ps w) /\
    restores_to bufs (sent_publish p topic qos retained).
Proof.
  intros I R Hs Ht Hp Hq Hid Hf Htl Hbl.
  destruct (startPublish_prepares heap w c x s p topic qos retained I R Hs Ht Hp Hq Hid Hf Htl Hbl)
    as (m & w1 & x1 & buf0 & bufs & frees & I1 & S1 & Sh1 & R1 & Hso & Hb & Hm & P1 & Hrec & Hrun).
  destruct (quiets_transmit w1 c x1 _ buf0 bufs frees R1 Hso Hb) as (rc & w' & E & Q).
  exists rc, m, w', (buf0 :: bufs). rewrite Hrun. mstep E. split; [reflexivity|].
  split; [exact (quiet_inv _ _ _ _ _ _ Q I1)|]. split_and!; [by eapply steps_quiet_r|by etrans; [|apply quiet_shell]| | |done].
  - by rewrite (q_msgs _ _ Q).
  - rewrite <- P1. unfold transmit, putdatas, socket_transport in E. by apply sending_ps in E.
Qed.

(** [C2] Starting a publish of QoS 1 or 2 with an id that is not in flight puts
    the message at the end of the client's outbound list, waiting for PUBACK or
    PUBREC, and puts the PUBLISH packet in the persistent store under its id,
    before the packet is handed to the network: whatever takes the place of
    [Socket_putdatas] is called in a state in which the session has the message
    and the store has the record, with the very buffers that are in the record.
    The record restores to the message: the same topic, id and payload.  With
    [Socket_putdatas] the function returns, and the message and the record are
    there whatever became of the write. *)
Theorem startPublish_stores heap w c x s p topic qos retained :
  winv w -> ready w c x -> session_of w c = Some s -> pb_topic p = Some topic ->
  0 <= pb_payloadlen p <= zlen (pb_payload p) -> 1 <= qos <= 2 -> 0 <= pb_msgId p <= MAX_MSG_ID ->
  find_id (pb_msgId p) (s_out s) = None ->
  zlen (c_str topic) < 65536 -> zlen (publish_body (c_str topic) (pb_msgId p) qos (publish_payload p)) < 128 ^ 4 ->
  let adds := steps c (s_add (outbound_msg uninit heap p topic qos retained)) in
  let key := (PERSISTENCE_PUBLISH_SENT +:+ pretty (pb_msgId p))%string in
  exists m w1 buf0 bufs frees,
    (winv w1 /\ adds w w1 /\ shell w w1 /\
     w_ps w1 = put_record (c_persistence x) (c_phandle x) key (buf0 :: bufs) (w_ps w) /\
     restores_to (buf0 :: bufs) (sent_publish p topic qos retained)) /\
    (forall T : Transport K PS, MQTTProtocol_startPublish uninit heap c p qos retained None w =
       (rc ← putdatas (nh_socket (c_net x)) buf0 bufs frees;
        when (rc =? TCPSOCKET_COMPLETE) (stamp_sent c);;
        mret (rc, Some m)) w1) /\
    exists rc w', MQTTProtocol_startPublish uninit heap c p qos retained None w = Some ((rc, Some m), w') /\
      winv w' /\ adds w w' /\ shell w w' /\ w_ps w' = w_ps w1.
Proof.
  intros I R Hs Ht Hp Hq Hid Hf Htl Hbl adds key.
  destruct (startPublish_prepares heap w c x s p topic qos retained I R Hs Ht Hp Hq Hid Hf Htl Hbl)
    as (m & w1 & x1 & buf0 & bufs & frees & I1 & S1 & Sh1 & R1 & Hso & Hb & Hm & P1 & Hrec & Hrun).
  destruct (quiets_transmit w1 c x1 _ buf0 bufs frees R1 Hso Hb) as (rc & w' & E & Q).
  exists m, w1, buf0, bufs, frees. split; [done|]. split.
  - intros T. rewrite Hrun. unfold transmit. rewrite bind_assoc. apply bind_ext. intros a u. by rewrite bind_assoc.
  - exists rc, w'. rewrite Hrun. mstep E. split; [reflexivity|]. split; [exact (quiet_inv _ _ _ _ _ _ Q I1)|].
    split_and!; [by eapply steps_quiet_r|by etrans; [|apply quiet_shell]|].
    unfold transmit, putdatas, socket_transport in E. by apply sending_ps in E.
Qed.

End sender.
End Sender.
