(* ===== verification/Closing.v ===== *)
(** Closing sessions: emptying the lists of a client, cleaning its session and
    disconnecting it keep the ownership of memory, and do to the session of the
    client exactly what they should. *)
From stdpp Require Import gmultiset.
From S2P Require Import Prelude ListSpec Packet SocketBuffer Socket Wire World Persistence Send Store Session Protocol Memory Sending Steps Handlers Receiver Sender.

Module Closing.
Import Packet SocketBuffer Socket Wire World Persistence Send Store Session Protocol Memory Sending Steps Handlers Receiver Sender.

#[local] Arguments zlen : simpl never.

Section closing.
Context {K PS : Type} `{Kernel K}.
Implicit Types (w wb : world K PS) (x : Clients PS).
Abbreviation P := (M (world K PS)).

(** * What closing a client does not touch *)

Record apart (c : loc) w w' : Prop := {
  ap_clients : items (w_clients w') = items (w_clients w);
  ap_cl c' : c' <> c -> cshell <$> w_cl w' !! c' = cshell <$> w_cl w !! c';
  ap_handles : items (w_handles w') = items (w_handles w);
  ap_ms : w_ms w' = w_ms w;
  ap_pending : w_pending w' = w_pending w;
  ap_last : w_last w' = w_last w }.

#[export] Instance apart_refl c : Reflexive (apart c).
Proof. intros w. by split. Qed.
#[export] Instance apart_trans c : Transitive (apart c).
Proof.
  intros w1 w2 w3 A B. split.
  - by rewrite (ap_clients _ _ _ B), (ap_clients _ _ _ A).
  - intros c' Hc. by rewrite (ap_cl _ _ _ B c' Hc), (ap_cl _ _ _ A c' Hc).
  - by rewrite (ap_handles _ _ _ B), (ap_handles _ _ _ A).
  - by rewrite (ap_ms _ _ _ B), (ap_ms _ _ _ A).
  - by rewrite (ap_pending _ _ _ B), (ap_pending _ _ _ A).
  - by rewrite (ap_last _ _ _ B), (ap_last _ _ _ A).
Qed.

Lemma shell_apart c w w' : shell w w' -> apart c w w'.
Proof.
  intros S. split; try apply S. intros c' _. pose proof (f_equal (fun m => m !! c') (sh_cl _ _ S)) as E. simpl in E.
  by rewrite !lookup_fmap in E.
Qed.

(** * Replacing a client *)

(** The elements of the lists stay. *)
Record same_lists x x' : Prop := {
  sl_in : LSpec.contents (c_inboundMsgs x') = LSpec.contents (c_inboundMsgs x);
  sl_out : LSpec.contents (c_outboundMsgs x') = LSpec.contents (c_outboundMsgs x);
  sl_queue : LSpec.contents (c_messageQueue x') = LSpec.contents (c_messageQueue x);
  sl_wf : LSpec.wf (c_inboundMsgs x') /\ LSpec.wf (c_outboundMsgs x') /\ LSpec.wf (c_messageQueue x') }.

Lemma replace_client Em Ep Dp Eq w c x x' :
  inv Em Ep Dp Eq w -> w_cl w !! c = Some x -> same_lists x x' ->
  let w' := set_cl (<[c := x']> (w_cl w)) w in
  inv Em Ep Dp Eq w' /\ (forall c', session_of w' c' = session_of w c') /\ apart c w w'.
Proof.
  intros [[W1 W2 W3 W4 W5 W6 W7] J1 J2 J3 J4 J5 J6 J7 J8 [J9 J10]] Hx [S1 S2 S3 (S4 & S5 & S6)] w'.
  assert (Hm : client_msgs x' = client_msgs x) by (unfold client_msgs; by rewrite S1, S2).
  split; [split|split].
  - split; try done; by apply update_wf.
  - simpl. rewrite (collect_same _ _ _ x); [done..|exact Hm].
  - done.
  - done.
  - simpl. rewrite (collect_same _ _ _ x); [done..|exact S3].
  - done.
  - done.
  - intros c0 x0. simpl. rewrite lookup_insert_Some. intros [[_ <-]|[_ H0]]; [|by apply (J7 c0)].
    rewrite S1. exact (J7 c x Hx).
  - intros c0 x0. simpl. rewrite lookup_insert_Some. intros [[_ <-]|[_ H0]]; [|by apply (J8 c0)].
    rewrite S2. exact (J8 c x Hx).
  - split; [done|]. intros c0 Hc0. simpl. destruct (decide (c0 = c)) as [->|Hne]; [by rewrite lookup_insert_eq|].
    rewrite lookup_insert_ne by done. by apply J10.
  - intros c'. unfold session_of. simpl. destruct (decide (c' = c)) as [->|Hne].
    + rewrite lookup_insert_eq, Hx. cbn [mbind option_bind]. by rewrite S1, S2, S3.
    + by rewrite lookup_insert_ne.
  - split; try done. intros c' Hc'. simpl. by rewrite lookup_insert_ne.
Qed.

(** Fields that are not lists. *)
Definition keeps_lists (f : Clients PS -> Clients PS) : Prop :=
  forall x, c_inboundMsgs (f x) = c_inboundMsgs x /\ c_outboundMsgs (f x) = c_outboundMsgs x /\
    c_messageQueue (f x) = c_messageQueue x.

Lemma field_step f Em Ep Dp Eq w c x :
  inv Em Ep Dp Eq w -> w_cl w !! c = Some x -> keeps_lists f ->
  let w' := set_cl (<[c := f x]> (w_cl w)) w in
  upd_client c f w = Some (tt, w') /\ inv Em Ep Dp Eq w' /\ (forall c', session_of w' c' = session_of w c') /\ apart c w w'.
Proof.
  intros I Hx Hf w'. split; [unfold upd_client; by rewrite Hx|]. destruct (Hf x) as (E1 & E2 & E3).
  apply replace_client with x; [done|done|]. split; rewrite ?E1, ?E2, ?E3; try done.
  pose proof (i_wf _ _ _ _ _ I) as W. split_and!.
  - exact (wfs_in _ W c x Hx).
  - exact (wfs_out _ W c x Hx).
  - exact (wfs_queue _ W c x Hx).
Qed.

(** * Emptying a list of messages *)

Definition deletes {A} (ks : list loc) (m : gmap loc A) : gmap loc A := foldl (fun m k => delete k m) m ks.

Lemma free_messages_eq ms : forall w,
  NoDup ms -> (forall m, m ∈ ms -> is_Some (w_msgs w !! m)) ->
  free_messages ms w = Some (tt, set_msgs (deletes ms (w_msgs w)) w).
Proof.
  induction ms as [|m ms IH]; intros w Hn Ha; [by destruct w|]. apply NoDup_cons in Hn as [Hm Hn].
  simpl. destruct (Ha m ltac:(left)) as [v Hv].
  rewrite (bind_step _ _ w tt (set_msgs (delete m (w_msgs w)) w)) by (unfold free_message; by rewrite Hv).
  rewrite IH; [done|done|]. intros m' Hm'. simpl. rewrite lookup_delete_ne by (by intros ->). apply Ha. by right.
Qed.

Lemma free_entries_eq qs : forall w,
  NoDup qs -> (forall q, q ∈ qs -> is_Some (w_qes w !! q)) ->
  free_entries qs w = Some (tt, set_qes (deletes qs (w_qes w)) w).
Proof.
  induction qs as [|q qs IH]; intros w Hn Ha; [by destruct w|]. apply NoDup_cons in Hn as [Hq Hn].
  simpl. destruct (Ha q ltac:(left)) as [v Hv].
  rewrite (bind_step _ _ w tt (set_qes (delete q (w_qes w)) w)) by (unfold free_entry; by rewrite Hv).
  rewrite IH; [done|done|]. intros q' Hq'. simpl. rewrite lookup_delete_ne by (by intros ->). apply Ha. by right.
Qed.

Lemma setl_same d x : setl d (getl d x) x = x.
Proof. by destruct d, x. Qed.
Lemma setl_twice d l k x : setl d l (setl d k x) = setl d l x.
Proof. by destruct d, x. Qed.
Lemma s_with_drop d id s : s_with d [] (s_drop d id s) = s_with d [] s.
Proof. by destruct d, s. Qed.

(** The publications of the messages of a list are removed; in [wb] the messages
    are dropped at the same time. *)
Lemma remove_publications_step d c ms : forall wb x cl0 msgs0,
  winv wb -> w_cl wb !! c = Some x -> LSpec.contents (getl d x) = ms ->
  (forall m, m ∈ ms -> msgs0 !! m = w_msgs wb !! m) ->
  exists wb' l', remove_publications ms (set_cl cl0 (set_msgs msgs0 wb)) = Some (tt, set_cl cl0 (set_msgs msgs0 wb')) /\
    winv wb' /\ w_cl wb' = <[c := setl d l' x]> (w_cl wb) /\ LSpec.contents l' = [] /\ LSpec.wf l' /\
    steps c (s_with d []) wb wb' /\ shell wb wb' /\ w_msgs wb' = deletes ms (w_msgs wb) /\
    w_net wb' = w_net wb /\ w_ps wb' = w_ps wb.
Proof.
  induction ms as [|m ms IH]; intros wb x cl0 msgs0 I Hx Hl Hms.
  { exists wb, (getl d x). rewrite setl_same, insert_id by done. split_and!; try done.
    - destruct d; [exact (wfs_in _ (i_wf _ _ _ _ _ I) c x Hx)|exact (wfs_out _ (i_wf _ _ _ _ _ I) c x Hx)].
    - intros c'. case_decide as E; [|done]. subst c'. destruct (session_of wb c) as [s|] eqn:Hs; [|done]. simpl. f_equal.
      unfold session_of in Hs. rewrite Hx in Hs. cbn [mbind option_bind] in Hs.
      destruct d; simpl in Hl; rewrite Hl in Hs; simpl in Hs; repeat (apply option.bind_Some in Hs as (? & ? & Hs));
        injection Hs as <-; by simplify_eq/=. }
  assert (Hin : m ∈ LSpec.contents (getl d x)) by (rewrite Hl; left).
  assert (Hsub : LSpec.contents (getl d x) ⊆ client_msgs x) by (unfold client_msgs; destruct d; set_solver).
  destruct (client_msgs_alloc _ _ _ _ I c x m Hx (Hsub m Hin)) as [v Hv].
  destruct (msg_pub _ _ _ _ I m v Hv) as [p Hp]. set (wa := set_cl cl0 (set_msgs msgs0 wb)).
  simpl. rewrite (bind_step _ _ wa v wa) by (apply message_eq; simpl; rewrite Hms by left; done).
  destruct (removePublication_eq wa (m_publish v) p) as (lp & E1 & Wlp & Hlp).
  { done. } { by apply (i_pub_ok _ _ _ _ _ I _ _ Hp). } { apply (wfs_publications _ (i_wf _ _ _ _ _ I)). }
  { exact (publications_elem _ _ _ wb (m_publish v) I (ex_intro _ p Hp)). }
  mstep E1. change (LSpec.contents (w_publications wa)) with (LSpec.contents (w_publications wb)) in Hlp.
  assert (W : LSpec.wf (getl d x)).
  { destruct d; [exact (wfs_in _ (i_wf _ _ _ _ _ I) c x Hx)|exact (wfs_out _ (i_wf _ _ _ _ _ I) c x Hx)]. }
  destruct (unlink_loc _ _ W Hin) as (l1 & k1 & k2 & _ & W1 & Hk & Hk1).
  set (wb1 := dropped d c m (m_publish v) lp l1 x wb).
  pose proof (drop_inv d c m _ _ _ wb x v lp l1 k1 k2 I Hx Hv Hlp Wlp Hk Hk1 W1) as I1.
  assert (S1 : steps c (s_drop d (m_msgid v)) wb wb1) by (by eapply drop_session). fold wb1 in I1.
  pose proof (client_msgs_nodup _ _ _ _ I c x Hx) as Hnd.
  assert (Hn : NoDup (LSpec.contents (getl d x))).
  { unfold client_msgs in Hnd. apply NoDup_app in Hnd as (N1 & _ & N2). by destruct d. }
  assert (Hl1 : LSpec.contents l1 = ms /\ (m ∉ ms)).
  { rewrite Hl in Hn, Hk. apply NoDup_cons in Hn as [Hm Hn]. split; [|done]. rewrite Hk1.
    destruct k1 as [|y k1]; [by injection Hk|]. injection Hk as -> Hk. exfalso. apply Hm. rewrite Hk. set_solver. }
  destruct Hl1 as [Hl1 Hm].
  assert (Hx1 : w_cl wb1 !! c = Some (setl d l1 x)) by apply lookup_insert_eq.
  destruct (IH wb1 (setl d l1 x) cl0 msgs0 I1 Hx1) as (wb' & l' & E2 & I2 & C2 & L2 & W2 & S2 & Sh2 & M2 & N2 & P2).
  { by destruct d. }
  { intros m' Hm'. rewrite Hms by (by right). simpl. by rewrite lookup_delete_ne by (by intros ->). }
  exists wb', l'. split; [exact E2|]. split; [done|]. split; [rewrite C2; simpl; by rewrite setl_twice, insert_insert_eq|].
  do 2 (split; [done|]). split.
  { eapply steps_ext; [|eapply steps_trans; [exact S1|exact S2]]. intros s. apply s_with_drop. }
  split.
  { etrans; [|exact Sh2]. etrans; [apply (shell_cl wb c x (setl d l1 x)); [done|by destruct d]|]. by split. }
  by rewrite M2, N2, P2.
Qed.

Lemma list_wf d w c x : wfs w -> w_cl w !! c = Some x -> LSpec.wf (getl d x).
Proof. intros W Hx. destruct d; [exact (wfs_in _ W c x Hx)|exact (wfs_out _ W c x Hx)]. Qed.

Lemma same_lists_setl d l k w c x :
  wfs w -> w_cl w !! c = Some x -> LSpec.contents k = LSpec.contents l -> LSpec.wf k -> same_lists (setl d l x) (setl d k x).
Proof.
  intros W Hx E Wk. pose proof (list_wf Inbound w c x W Hx). pose proof (list_wf Outbound w c x W Hx).
  pose proof (wfs_queue _ W c x Hx). destruct d; by split.
Qed.

Lemma emptyMessageList_step d w c x :
  winv w -> w_cl w !! c = Some x ->
  exists w', MQTTProtocol_emptyMessageList (getl d) (setl d) c w = Some (tt, w') /\ winv w' /\
    w_cl w' = <[c := setl d LSpec.empty x]> (w_cl w) /\ steps c (s_with d []) w w' /\ apart c w w' /\
    w_net w' = w_net w /\ w_ps w' = w_ps w /\ w_events w' = w_events w.
Proof.
  intros I Hx. unfold MQTTProtocol_emptyMessageList. mstep (client_eq w c x Hx).
  destruct (remove_publications_step d c _ w x (w_cl w) (w_msgs w) I Hx eq_refl ltac:(done))
    as (wb & l & E1 & I1 & C1 & L1 & W1 & S1 & Sh1 & M1 & N1 & P1).
  assert (Ew : set_cl (w_cl w) (set_msgs (w_msgs w) w) = w) by (by destruct w). rewrite Ew in E1. mstep E1.
  pose proof (client_msgs_nodup _ _ _ _ I c x Hx) as Hnd.
  assert (Hn : NoDup (LSpec.contents (getl d x))).
  { unfold client_msgs in Hnd. apply NoDup_app in Hnd as (N & _ & N'). by destruct d. }
  set (w1 := set_cl (w_cl w) (set_msgs (w_msgs w) wb)).
  assert (E2 : free_messages (LSpec.contents (getl d x)) w1 = Some (tt, set_cl (w_cl w) wb)).
  { rewrite free_messages_eq; [|done|].
    - do 2 f_equal. unfold w1. simpl. rewrite <- M1. by destruct wb.
    - intros m Hm. destruct (client_msgs_alloc _ _ _ _ I c x m Hx) as [v Hv]; [|by exists v].
      unfold client_msgs. destruct d; set_solver. }
  mstep E2. unfold upd_client. simpl. rewrite Hx. cbn [mbind option_bind].
  assert (Hxb : w_cl wb !! c = Some (setl d l x)) by (rewrite C1; apply lookup_insert_eq).
  destruct (replace_client _ _ _ _ wb c (setl d l x) (setl d LSpec.empty x) I1 Hxb) as (I2 & S2 & A2).
  { apply (same_lists_setl d l LSpec.empty w c x (i_wf _ _ _ _ _ I) Hx); [by rewrite L1|apply LSpec.wf_empty]. }
  assert (Ec : <[c := setl d LSpec.empty x]> (w_cl wb) = <[c := setl d LSpec.empty x]> (w_cl w)).
  { by rewrite C1, insert_insert_eq. }
  rewrite Ec in I2, S2, A2. eexists. split; [reflexivity|].
  split; [exact I2|]. split; [done|]. split; [intros c'; etrans; [exact (S2 c')|exact (S1 c')]|].
  split; [etrans; [apply shell_apart, Sh1|exact A2]|]. split; [done|]. split; [done|]. apply (sh_events _ _ Sh1).
Qed.

(** * Emptying the delivery queue *)

Lemma lookup_deletes {A} ks (m : gmap loc A) k : (k ∉ ks) -> deletes ks m !! k = m !! k.
Proof.
  revert m. induction ks as [|k' ks IH]; intros m Hk; [done|]. apply not_elem_of_cons in Hk as [Hne Hk].
  simpl. rewrite IH by done. by rewrite lookup_delete_ne.
Qed.

Lemma keys_deletes {A} ks : forall (m : gmap loc A),
  NoDup ks -> (forall k, k ∈ ks -> is_Some (m !! k)) -> keys m = lsd ks ⊎ keys (deletes ks m).
Proof.
  induction ks as [|k ks IH]; intros m Hn Ha; [simpl; multiset_solver|]. apply NoDup_cons in Hn as [Hk Hn].
  destruct (Ha k ltac:(left)) as [v Hv]. rewrite (keys_delete _ _ _ Hv), (IH (delete k m) Hn).
  - rewrite lsd_cons. simpl. multiset_solver.
  - intros k' Hk'. rewrite lookup_delete_ne by (by intros ->). apply Ha. by right.
Qed.

Lemma queue_nodup w c x : winv w -> w_cl w !! c = Some x -> NoDup (LSpec.contents (c_messageQueue x)).
Proof.
  intros I Hx. pose proof (i_qes _ _ _ _ _ I) as E. rewrite (collect_delete _ _ _ _ Hx) in E.
  rewrite <- (assoc_L (⊎)) in E. by apply lsd_NoDup in E.
Qed.

Lemma queue_owner w c c' x y q :
  winv w -> w_cl w !! c = Some x -> w_cl w !! c' = Some y -> c' <> c ->
  q ∈ LSpec.contents (c_messageQueue x) -> q ∈ LSpec.contents (c_messageQueue y) -> False.
Proof.
  intros I Hx Hy Hne Hq Hq'. pose proof (i_qes _ _ _ _ _ I) as E. rewrite (collect_delete _ _ _ _ Hx) in E.
  rewrite (collect_delete _ (delete c (w_cl w)) c' y) in E by (by rewrite lookup_delete_ne).
  pose proof (keys_multiplicity (w_qes w) q) as Hk. rewrite <- E, !multiplicity_disj_union in Hk.
  apply elem_of_lsd in Hq, Hq'. rewrite elem_of_multiplicity in Hq, Hq'. simpl in *. lia.
Qed.

Definition s_unqueue (s : session) : session := Sess (s_in s) (s_out s) [].

Lemma entry_view_deletes w qs l q :
  (q ∉ qs) -> entry_view (set_cl l (set_qes (deletes qs (w_qes w)) w)) q = entry_view w q.
Proof. intros Hq. unfold entry_view. simpl. by rewrite lookup_deletes. Qed.

(** The first entries are freed. *)
Definition s_dequeue (n : nat) (s : session) : session := Sess (s_in s) (s_out s) (drop n (s_queue s)).

Lemma drop_entries w c x qs k l :
  winv w -> w_cl w !! c = Some x -> LSpec.contents (c_messageQueue x) = qs ++ k -> LSpec.contents l = k -> LSpec.wf l ->
  let w' := set_cl (<[c := set_queue l x]> (w_cl w)) (set_qes (deletes qs (w_qes w)) w) in
  winv w' /\ steps c (s_dequeue (length qs)) w w' /\ shell w w'.
Proof.
  intros I Hx Hq Hl Wl w'. pose proof (queue_nodup w c x I Hx) as Hn. rewrite Hq in Hn.
  assert (Ha : forall q, q ∈ qs -> is_Some (w_qes w !! q)).
  { intros q Hin. apply (queue_alloc _ _ _ _ I c x); [done|]. rewrite Hq. set_solver. }
  apply NoDup_app in Hn as (Hn & Hdis & _).
  pose proof I as [[W1 W2 W3 W4 W5 W6 W7] J1 J2 J3 J4 J5 J6 J7 J8 [J9 J10]]. split; [split|split].
  - split; try done; simpl; apply update_wf; try done; [exact (W5 c x Hx)|exact (W6 c x Hx)].
  - simpl. by rewrite (collect_same _ _ _ x).
  - done.
  - done.
  - simpl. rewrite (collect_insert _ _ _ _ _ Hx). rewrite (collect_delete _ _ _ _ Hx), (keys_deletes qs) in J4 by done.
    rewrite Hq, lsd_app in J4. simpl. rewrite Hl. multiset_solver.
  - done.
  - done.
  - intros c0 x0. simpl. rewrite lookup_insert_Some. intros [[_ <-]|[_ H0]]; [exact (J7 c x Hx)|by apply (J7 c0)].
  - intros c0 x0. simpl. rewrite lookup_insert_Some. intros [[_ <-]|[_ H0]]; [exact (J8 c x Hx)|by apply (J8 c0)].
  - split; [done|]. intros c0 Hc0. simpl. destruct (decide (c0 = c)) as [->|Hne]; [by rewrite lookup_insert_eq|].
    rewrite lookup_insert_ne by done. by apply J10.
  - assert (Hview : forall q, (q ∉ qs) -> entry_view w' q = entry_view w q) by (intros q Hin; by apply entry_view_deletes).
    intros c'. unfold session_of at 1. simpl. case_decide as E.
    + subst c'. rewrite lookup_insert_eq. cbn [mbind option_bind]. simpl.
      destruct (session_total _ _ _ _ I c x Hx) as [s Hs]. rewrite Hs. unfold session_of in Hs. rewrite Hx in Hs.
      cbn [mbind option_bind] in Hs. apply option.bind_Some in Hs as (i & Ei & Hs). apply option.bind_Some in Hs as (o & Eo & Hs).
      apply option.bind_Some in Hs as (q & Eq & [= <-]). change (msg_view w') with (msg_view w). rewrite Ei, Eo.
      cbn [mbind option_bind]. rewrite Hq in Eq. apply mapM_app_Some in Eq as (q1 & q2 & E1 & E2 & ->).
      assert (mapM (entry_view w') (LSpec.contents l) = Some q2) as ->.
      { rewrite Hl, <- E2. apply Forall_mapM_ext, Forall_forall. intros q Hin. apply Hview. intros Hin'. by apply (Hdis q). }
      cbn [mbind option_bind fmap option_fmap option_map]. unfold s_dequeue. simpl.
      assert (length qs = length q1) as -> by (by eapply Forall2_length, mapM_Some). by rewrite drop_app_length.
    + rewrite lookup_insert_ne by done. unfold session_of. destruct (w_cl w !! c') as [y|] eqn:Hy; [|done].
      cbn [mbind option_bind]. change (msg_view w') with (msg_view w).
      assert (Hqy : mapM (entry_view w') (LSpec.contents (c_messageQueue y)) = mapM (entry_view w) (LSpec.contents (c_messageQueue y))).
      { apply Forall_mapM_ext, Forall_forall. intros q Hin. apply Hview. intros Hin'.
        apply (queue_owner w c c' x y q I Hx Hy E); [rewrite Hq; set_solver|done]. }
      by rewrite Hqy.
  - etrans; [apply (shell_cl w c x (set_queue l x)); [done|done]|]. by split.
Qed.

Lemma emptyMessageQueue_step w c x :
  winv w -> w_cl w !! c = Some x ->
  exists w' x', MQTTClient_emptyMessageQueue c w = Some (tt, w') /\ winv w' /\ w_cl w' = <[c := x']> (w_cl w) /\
    (exists l, x' = set_queue l x) /\ steps c s_unqueue w w' /\ apart c w w' /\
    w_net w' = w_net w /\ w_ps w' = w_ps w /\ w_events w' = w_events w.
Proof.
  intros I Hx. unfold MQTTClient_emptyMessageQueue. mstep (client_eq w c x Hx).
  pose proof (i_wf _ _ _ _ _ I) as W. pose proof (wfs_queue _ W c x Hx) as Wq.
  destruct (session_total _ _ _ _ I c x Hx) as [s Hs].
  assert (Hlen : length (s_queue s) = length (LSpec.contents (c_messageQueue x))).
  { unfold session_of in Hs. rewrite Hx in Hs. cbn [mbind option_bind] in Hs. apply option.bind_Some in Hs as (i & _ & Hs).
    apply option.bind_Some in Hs as (o & _ & Hs). apply option.bind_Some in Hs as (q & Eq & [= <-]).
    symmetry. by eapply Forall2_length, mapM_Some. }
  destruct (Z.ltb_spec 0 (cnt (c_messageQueue x))) as [Hc|Hc]; simpl.
  - set (qs := LSpec.contents (c_messageQueue x)) in *.
    rewrite (bind_step _ _ _ _ _ (free_entries_eq qs w (queue_nodup w c x I Hx) (fun q => queue_alloc _ _ _ _ I c x q Hx))).
    unfold upd_client. simpl. rewrite Hx. cbn [mbind option_bind].
    destruct (drop_entries w c x qs [] LSpec.empty I Hx) as (I1 & S1 & Sh1); [by rewrite app_nil_r|done|apply LSpec.wf_empty|].
    eexists _, (set_queue LSpec.empty x). split; [reflexivity|]. split; [exact I1|]. split; [done|]. split; [by eexists|].
    split; [|split; [by apply shell_apart|done]]. apply (steps_eval _ (s_dequeue (length qs)) _ s); [done| |exact S1].
    unfold s_dequeue, s_unqueue. by rewrite drop_ge by lia.
  - exists w, x. split; [done|]. split; [done|]. rewrite insert_id by done. split; [done|].
    split; [exists (c_messageQueue x); by destruct x|]. split; [|by split_and!].
    assert (Hnil : s_queue s = []).
    { apply nil_length_inv. rewrite Hlen. rewrite (LSpec.wf_count _ Wq) in Hc. unfold LSpec.contents, zlen in *.
      rewrite length_fmap. lia. }
    apply (steps_eval _ id _ s); [done| |apply quiet_steps; done]. unfold s_unqueue, id. rewrite <- Hnil. by destruct s.
Qed.

(** * Cleaning a session *)

Definition cleared (per : option (MQTTClient_persistence PS)) (h : Z) (ps : PS) : PS :=
  match per with None => ps | Some p => (pclear p h ps).2 end.

Lemma persistence_clear_eq w c x :
  w_cl w !! c = Some x ->
  exists rc, MQTTPersistence_clear c w = Some (rc, set_ps (cleared (c_persistence x) (c_phandle x) (w_ps w)) w).
Proof.
  intros Hx. unfold MQTTPersistence_clear. mstep (client_eq w c x Hx). unfold cleared.
  destruct (c_persistence x) as [per|]; [|exists 0; by destruct w]. unfold ops.
  destruct (pclear per _ (w_ps w)) as [rc s]. by exists rc.
Qed.

(** A client with its messages gone, and its next id reset. *)
Record emptied x x' : Prop := {
  em_data : c_data x' = c_data x; em_connected : c_connected x' = c_connected x; em_good : c_good x' = c_good x;
  em_ping : c_ping_outstanding x' = c_ping_outstanding x; em_state : c_connect_state x' = c_connect_state x;
  em_net : c_net x' = c_net x; em_per : c_persistence x' = c_persistence x; em_handle : c_phandle x' = c_phandle x;
  em_msgID : c_msgID x' = 0 }.

Lemma cleanSession_step w c x :
  winv w -> w_cl w !! c = Some x ->
  exists rc w' x', MQTTClient_cleanSession c w = Some (rc, w') /\ winv w' /\
    w_cl w' !! c = Some x' /\ emptied x x' /\ steps c (fun _ => Sess [] [] []) w w' /\ apart c w w' /\
    w_net w' = w_net w /\ w_ps w' = cleared (c_persistence x) (c_phandle x) (w_ps w) /\ w_events w' = w_events w.
Proof.
  intros I Hx. destruct (persistence_clear_eq w c x Hx) as (rc & E0).
  set (w0 := set_ps _ w) in E0. pose proof (quiet_ps w _ : quiet w w0) as Q0. pose proof (quiet_inv _ _ _ _ _ _ Q0 I) as I0.
  assert (Hx0 : w_cl w0 !! c = Some x) by done.
  destruct (emptyMessageList_step Inbound w0 c x I0 Hx0) as (w1 & E1 & I1 & C1 & S1 & A1 & N1 & P1 & V1).
  assert (Hx1 : w_cl w1 !! c = Some (setl Inbound LSpec.empty x)) by (rewrite C1; apply lookup_insert_eq).
  destruct (emptyMessageList_step Outbound w1 c _ I1 Hx1) as (w2 & E2 & I2 & C2 & S2 & A2 & N2 & P2 & V2).
  assert (Hx2 : w_cl w2 !! c = Some (setl Outbound LSpec.empty (setl Inbound LSpec.empty x))) by (rewrite C2; apply lookup_insert_eq).
  destruct (emptyMessageQueue_step w2 c _ I2 Hx2) as (w3 & x3 & E3 & I3 & C3 & [l Hl] & S3 & A3 & N3 & P3 & V3).
  assert (Hx3 : w_cl w3 !! c = Some x3) by (rewrite C3; apply lookup_insert_eq).
  destruct (field_step (set_msgID 0) _ _ _ _ w3 c x3 I3 Hx3 ltac:(by intros x0)) as (E4 & I4 & S4 & A4).
  eexists rc, _, (set_msgID 0 x3). split; [|split; [exact I4|split; [apply lookup_insert_eq|split; [by rewrite Hl|split; [|split; [|split; [|split]]]]]]].
  - unfold MQTTClient_cleanSession. mstep E0. simpl in E1, E2. mstep E1. mstep E2. mstep E3. mstep E4. done.
  - intros c'. rewrite (S4 c').
    rewrite (steps_trans _ _ _ _ _ _ (steps_trans _ _ _ _ _ _ (steps_quiet_l _ _ _ _ _ Q0 S1) S2) S3 c').
    case_decide; [|done]. by destruct (session_of w c) as [[]|].
  - etrans; [|exact A4]. etrans; [|exact A3]. etrans; [|exact A2]. etrans; [|exact A1]. apply shell_apart, quiet_shell, Q0.
  - simpl. by rewrite N3, N2, N1.
  - simpl. by rewrite P3, P2, P1.
  - simpl. by rewrite V3, V2, V1.
Qed.

(** * Closing *)

Lemma onet_net {A} (m : M (net K) A) w a w' : onet m w = Some (a, w') -> exists n, m (w_net w) = Some (a, n) /\ w_net w' = n.
Proof. unfold onet, zoom. destruct (m (w_net w)) as [[b n]|]; [|done]. intros [= <- <-]. by exists n. Qed.

Lemma disconnect_net c w rc w' :
  MQTTPacket_send_disconnect c w = Some (rc, w') -> writes_only (w_net w) (w_net w') /\ w_ps w' = w_ps w /\ w_events w' = w_events w.
Proof.
  unfold MQTTPacket_send_disconnect, MQTTPacket_send. intros (x & w1 & E1 & E)%bind_Some.
  assert (w1 = w) as ->. { unfold client, load in E1. destruct (w_cl w !! c); [|done]. by injection E1. }
  cbv zeta in E. change (hdr_type (set_type DISCONNECT 0) =? PUBREL) with false in E. cbv iota in E.
  rewrite ret_bind in E. pose proof E as Hps. apply sending_ps in Hps.
  apply bind_Some in E as (rc1 & w2 & E2 & E). pose proof E2 as Hev. apply onet_net in E2 as (n & En & N2).
  assert (Ev : w_events w2 = w_events w).
  { unfold onet, zoom in Hev. destruct (Socket_putdatas _ _ _ _ _) as [[? ?]|]; [|done]. by injection Hev as _ <-. }
  apply writes_only_putdatas in En. rewrite <- N2 in En.
  apply bind_Some in E as ([] & w3 & E3 & [= <- <-]). unfold when in E3.
  destruct (rc1 =? TCPSOCKET_COMPLETE); [|injection E3 as <-; done].
  unfold stamp_sent, time in E3. apply bind_Some in E3 as (t & w4 & E4 & E3).
  assert (Ev4 : w_events w4 = w_events w2).
  { unfold onet, zoom, sys in E4. destruct (k_time _) as [? ?]. by injection E4 as _ <-. }
  apply onet_net in E4 as (n4 & En4 & N4). apply writes_only_sys in En4.
  unfold upd_client in E3. destruct (w_cl w4 !! c); [|done]. injection E3 as <-. simpl in *. rewrite N4.
  split; [by etrans|]. split; [done|]. by rewrite Ev4.
Qed.

(** The closed client. *)
Record closed x x' : Prop := {
  cl_data : c_data x' = c_data x; cl_connected : c_connected x' = false; cl_good : c_good x' = false;
  cl_ping : c_ping_outstanding x' = false; cl_state : c_connect_state x' = 0;
  cl_socket : nh_socket (c_net x') = Z.min 0 (nh_socket (c_net x));
  cl_per : c_persistence x' = c_persistence x; cl_handle : c_phandle x' = c_phandle x }.

Lemma at_field f w sock c x :
  at_socket w sock c x -> nh_socket (c_net (f x)) = nh_socket (c_net x) ->
  at_socket (set_cl (<[c := f x]> (w_cl w)) w) sock c (f x).
Proof.
  intros [H1 H2 H3 H4] E. split; [done|apply lookup_insert_eq|by rewrite E|].
  intros c' Hc' Hs. destruct (decide (c' = c)) as [|Hne]; [done|]. apply H4; [done|].
  unfold clientSocketCompare in *. simpl in Hs. by rewrite lookup_insert_ne in Hs.
Qed.

(** The socket of a client is shut, after a DISCONNECT packet when it is
    connected. *)
Lemma shut_step w c x :
  winv w -> w_cl w !! c = Some x -> net_ok (w_net w) -> (0 < nh_socket (c_net x) -> at_socket w (nh_socket (c_net x)) c x) ->
  exists w' x',
    when (0 <? nh_socket (c_net x))
      (when (c_connected x) (_ ← MQTTPacket_send_disconnect c; mret tt);;
       onet (Socket_close (nh_socket (c_net x)));;
       upd_client c (fun x => set_cnet (set_socket 0 (c_net x)) x)) w = Some (tt, w') /\
    winv w' /\ w_cl w' !! c = Some x' /\ nh_socket (c_net x') = Z.min 0 (nh_socket (c_net x)) /\
    (c_data x' = c_data x /\ c_good x' = c_good x /\ c_ping_outstanding x' = c_ping_outstanding x /\
     c_persistence x' = c_persistence x /\ c_phandle x' = c_phandle x) /\
    (forall c', session_of w' c' = session_of w c') /\ apart c w w' /\ w_ps w' = w_ps w /\ w_events w' = w_events w.
Proof.
  intros I Hx Hn Hat. destruct (Z.ltb_spec 0 (nh_socket (c_net x))) as [Hs|Hs]; simpl.
  2: { exists w, x. split_and!; try done. lia. }
  specialize (Hat Hs). assert (R : ready w c x) by (split; [apply I|done]).
  assert (Hsend : exists w1, when (c_connected x) (_ ← MQTTPacket_send_disconnect c; mret tt) w = Some (tt, w1) /\
    quiet w w1 /\ net_ok (w_net w1) /\ w_ps w1 = w_ps w /\ w_events w1 = w_events w).
  { destruct (c_connected x); simpl; [|by exists w].
    destruct (quiets_header_only w c x (set_type DISCONNECT 0) R ltac:(done)) as (rc & w1 & E & Q).
    exists w1. assert (E' : MQTTPacket_send_disconnect c w = Some (rc, w1)) by exact E. mstep E'.
    apply disconnect_net in E' as (Hw & Hp & He). split_and!; try done. by eapply writes_only_ok. }
  destruct Hsend as (w1 & E1 & Q1 & Hn1 & P1 & V1). mstep E1.
  destruct (Socket_close_total (nh_socket (c_net x)) (w_net w1) Hn1) as (n2 & E2).
  assert (E2' : onet (Socket_close (nh_socket (c_net x))) w1 = Some (tt, set_net n2 w1)) by (unfold onet, zoom; by rewrite E2).
  mstep E2'. set (w2 := set_net n2 w1). assert (Q2 : quiet w w2) by (etrans; [exact Q1|apply quiet_net]).
  pose proof (quiet_inv _ _ _ _ _ _ Q2 I) as I2. destruct (quiet_csim _ _ c x Q2 Hx) as (x2 & Hx2 & C2).
  destruct (field_step (fun x => set_cnet (set_socket 0 (c_net x)) x) _ _ _ _ w2 c x2 I2 Hx2 ltac:(by intros x0))
    as (E3 & I3 & S3 & A3).
  eexists _, _. split; [exact E3|]. split; [exact I3|]. split; [apply lookup_insert_eq|]. simpl.
  split; [lia|]. split; [by destruct C2|]. split; [intros c'; etrans; [exact (S3 c')|apply quiet_session, Q2]|].
  split; [etrans; [apply shell_apart, quiet_shell, Q2|exact A3]|]. done.
Qed.

Definition s_closed (cleansession : Z) (s : session) : session := if cleansession =? 0 then s else Sess [] [] [].

Lemma closeSession_step w c x s :
  winv w -> w_cl w !! c = Some x -> session_of w c = Some s -> net_ok (w_net w) ->
  (0 < nh_socket (c_net x) -> at_socket w (nh_socket (c_net x)) c x) ->
  let clean := cd_cleansession (c_data x) in
  exists w' x', MQTTClient_closeSession c w = Some (tt, w') /\ winv w' /\ w_cl w' !! c = Some x' /\ closed x x' /\
    steps c (s_closed clean) w w' /\ apart c w w' /\ w_events w' = w_events w /\
    w_ps w' = (if clean =? 0 then w_ps w else cleared (c_persistence x) (c_phandle x) (w_ps w)).
Proof.
  intros I Hx Hs Hn Hat clean. unfold MQTTClient_closeSession.
  destruct (field_step (set_good false) _ _ _ _ w c x I Hx ltac:(by intros x0)) as (E1 & I1 & S1 & A1). mstep E1.
  set (w1 := set_cl _ w) in *. assert (Hx1 : w_cl w1 !! c = Some (set_good false x)) by apply lookup_insert_eq.
  destruct (field_step (set_ping false) _ _ _ _ w1 c _ I1 Hx1 ltac:(by intros x0)) as (E2 & I2 & S2 & A2). mstep E2.
  set (w2 := set_cl _ w1) in *. set (x2 := set_ping false (set_good false x)) in *.
  assert (Hx2 : w_cl w2 !! c = Some x2) by apply lookup_insert_eq. mstep (client_eq w2 c x2 Hx2).
  destruct (shut_step w2 c x2 I2 Hx2) as (w3 & x3 & E3 & I3 & Hx3 & Hso & (D3 & G3 & Pi3 & Pe3 & Ha3) & S3 & A3 & P3 & V3).
  { done. }
  { intros Hpos. apply (at_field (set_ping false) w1 _ c (set_good false x)); [|done].
    apply (at_field (set_good false) w _ c x); [by apply Hat|done]. }
  mstep E3.
  destruct (field_step (set_connected false) _ _ _ _ w3 c x3 I3 Hx3 ltac:(by intros x0)) as (E4 & I4 & S4 & A4). mstep E4.
  set (w4 := set_cl _ w3) in *. assert (Hx4 : w_cl w4 !! c = Some (set_connected false x3)) by apply lookup_insert_eq.
  destruct (field_step (set_connect_state 0) _ _ _ _ w4 c _ I4 Hx4 ltac:(by intros x0)) as (E5 & I5 & S5 & A5). mstep E5.
  set (w5 := set_cl _ w4) in *. set (x5 := set_connect_state 0 (set_connected false x3)) in *.
  assert (Hx5 : w_cl w5 !! c = Some x5) by apply lookup_insert_eq. mstep (client_eq w5 c x5 Hx5).
  assert (S : forall c', session_of w5 c' = session_of w c').
  { intros c'. etrans; [exact (S5 c')|]. etrans; [exact (S4 c')|]. etrans; [exact (S3 c')|]. etrans; [exact (S2 c')|]. exact (S1 c'). }
  assert (A : apart c w w5).
  { etrans; [exact A1|]. etrans; [exact A2|]. etrans; [exact A3|]. etrans; [exact A4|]. exact A5. }
  assert (Cl : closed x x5) by (split; [exact D3|done|exact G3|exact Pi3|done|exact Hso|exact Pe3|exact Ha3]).
  assert (Ev : w_events w5 = w_events w) by exact V3. assert (Ep : w_ps w5 = w_ps w) by exact P3.
  assert (Ed : cd_cleansession (c_data x5) = clean) by (unfold clean, x5; simpl; by rewrite D3). rewrite Ed.
  unfold s_closed. destruct (clean =? 0) eqn:Ec; simpl.
  - exists w5, x5. split_and!; try done. intros c'. rewrite S. case_decide; [subst|done]. by rewrite Hs.
  - destruct (cleanSession_step w5 c x5 I5 Hx5) as (rc & w6 & x6 & E6 & I6 & Hx6 & Em & S6 & A6 & N6 & P6 & V6).
    mstep E6. exists w6, x6. split_and!; try done.
    + destruct Cl, Em. split; congruence.
    + intros c'. rewrite (S6 c'), !S. done.
    + etrans; [exact A|exact A6].
    + by rewrite V6.
    + rewrite P6, Ep. f_equal; unfold x5; simpl; by rewrite ?Pe3, ?Ha3.
Qed.

(** * Disconnecting *)

Lemma notify_lost_eq cl was w c m :
  w_ms w !! c = Some m ->
  notify_lost cl was c w = Some (tt, if cl && m_cl m && was then add_event (ConnectionLost c) w else w).
Proof. intros Hm. unfold notify_lost, load, mbind, M_bind. rewrite Hm. simpl. by destruct (cl && m_cl m && was). Qed.

Lemma add_event_winv e w : winv w -> winv (add_event e w).
Proof. intros [[] ? ? ? ? ? ? ? ? ?]. by split. Qed.

Lemma disconnect_internal_step w c x s m :
  winv w -> w_cl w !! c = Some x -> session_of w c = Some s -> w_ms w !! c = Some m -> net_ok (w_net w) ->
  (0 < nh_socket (c_net x) -> at_socket w (nh_socket (c_net x)) c x) ->
  c_connected x || negb (c_connect_state x =? 0) = true ->
  let clean := cd_cleansession (c_data x) in
  exists w' x', MQTTClient_disconnect_internal c w = Some (MQTTCLIENT_SUCCESS, w') /\ winv w' /\ w_cl w' !! c = Some x' /\
    closed x x' /\ steps c (s_closed clean) w w' /\ apart c w w' /\
    w_events w' = w_events w ++ (if m_cl m && c_connected x then [ConnectionLost c] else []) /\
    w_ps w' = (if clean =? 0 then w_ps w else cleared (c_persistence x) (c_phandle x) (w_ps w)).
Proof.
  intros I Hx Hs Hm Hn Hat Hon clean. unfold MQTTClient_disconnect_internal, MQTTClient_disconnect1.
  mstep (client_eq w c x Hx). assert (Hoff : negb (c_connected x) && (c_connect_state x =? 0) = false).
  { by destruct (c_connected x), (c_connect_state x =? 0). }
  rewrite Hoff. set (pre := when (c_connected x) (upd_client c (set_connect_state (-2));; mret tt)).
  assert (Hpre : exists w1 x1, pre w = Some (tt, w1) /\ winv w1 /\ w_cl w1 !! c = Some x1 /\
    (c_data x1 = c_data x /\ c_net x1 = c_net x /\ c_persistence x1 = c_persistence x /\ c_phandle x1 = c_phandle x) /\
    (forall c', session_of w1 c' = session_of w c') /\ apart c w w1 /\ w_net w1 = w_net w /\ w_ps w1 = w_ps w /\
    w_events w1 = w_events w /\ (0 < nh_socket (c_net x1) -> at_socket w1 (nh_socket (c_net x1)) c x1)).
  { unfold pre. destruct (c_connected x); simpl; [|by exists w, x].
    destruct (field_step (set_connect_state (-2)) _ _ _ _ w c x I Hx ltac:(by intros x0)) as (E1 & I1 & S1 & A1).
    mstep E1. eexists _, _. split; [reflexivity|]. split; [exact I1|]. split; [apply lookup_insert_eq|].
    split_and!; try done. intros Hpos.
    apply (at_field (set_connect_state (-2)) w _ c x); [exact (Hat Hpos)|done]. }
  destruct Hpre as (w1 & x1 & E1 & I1 & Hx1 & (D1 & Ne1 & Pe1 & Ha1) & S1 & A1 & N1 & P1 & V1 & At1). mstep E1.
  destruct (closeSession_step w1 c x1 s I1 Hx1) as (w2 & x2 & E2 & I2 & Hx2 & C2 & S2 & A2 & V2 & P2).
  { by rewrite S1. } { by rewrite N1. } { done. }
  mstep E2. assert (Hm2 : w_ms w2 !! c = Some m) by (by rewrite (ap_ms _ _ _ A2), (ap_ms _ _ _ A1)).
  mstep (notify_lost_eq true (c_connected x) w2 c m Hm2). rewrite D1 in S2, P2. fold clean in S2, P2.
  assert (Cl : closed x x2) by (destruct C2; split; congruence).
  assert (S : steps c (s_closed clean) w w2) by (intros c'; rewrite (S2 c'); case_decide; by rewrite S1).
  assert (A : apart c w w2) by (etrans; [exact A1|exact A2]).
  rewrite Pe1, Ha1, P1 in P2. rewrite V1 in V2. simpl. destruct (m_cl m && c_connected x).
  - exists (add_event (ConnectionLost c) w2), x2. split; [done|]. split; [by apply add_event_winv|].
    do 3 (split; [done|]). split; [by destruct A; split|]. simpl. by rewrite V2.
  - exists w2, x2. split_and!; try done. by rewrite V2, app_nil_r.
Qed.

(** [C15] Disconnecting a client (after an error, a failed ping or a failed retry)
    does not go wrong: its socket is shut, it is neither connected nor
    connecting any more, and the application is told when it asked for it and
    the client was connected.  The messages in flight stay for the next
    connection - or, when the client asked for clean sessions, they and the
    store are emptied; every message, publication and queue entry is freed
    exactly once, and no other client changes. *)
Theorem disconnect_internal_spec w c x s m :
  winv w -> w_cl w !! c = Some x -> session_of w c = Some s -> w_ms w !! c = Some m -> net_ok (w_net w) ->
  (0 < nh_socket (c_net x) -> at_socket w (nh_socket (c_net x)) c x) ->
  c_connected x || negb (c_connect_state x =? 0) = true ->
  let clean := cd_cleansession (c_data x) in
  exists w' x', MQTTClient_disconnect_internal c w = Some (MQTTCLIENT_SUCCESS, w') /\ winv w' /\ w_cl w' !! c = Some x' /\
    closed x x' /\ steps c (s_closed clean) w w' /\ apart c w w' /\
    w_events w' = w_events w ++ (if m_cl m && c_connected x then [ConnectionLost c] else []) /\
    w_ps w' = (if clean =? 0 then w_ps w else cleared (c_persistence x) (c_phandle x) (w_ps w)).
Proof. apply disconnect_internal_step. Qed.
End closing.
End Closing.
