(* ===== verification/Restore.v ===== *)
(** Restoring sessions from the persistent store: [MQTTPersistence_create],
    [MQTTPersistence_initialize] and [MQTTPersistence_restore] of
    [lib/MQTTPersistence.c]. *)
From Stdlib Require Import Sorted.
From stdpp Require Import gmultiset.
From S2P Require Import Prelude ListSpec Packet SocketBuffer Socket World Persistence Send Store Session Protocol Memory Sending Steps Handlers Receiver Sender.

Module Restore.
Import Packet SocketBuffer Socket World Persistence Send Store Session Protocol Memory Sending Steps Handlers Receiver Sender.

#[local] Arguments zlen : simpl never.

Definition MQTTCLIENT_PERSISTENCE_DEFAULT : Z := 0.
Definition MQTTCLIENT_PERSISTENCE_NONE : Z := 1.
Definition MQTTCLIENT_PERSISTENCE_USER : Z := 2.

(** [strstr(key, stem) != NULL]. *)
Definition contains (stem key : string) : bool := bool_decide (is_Some (String.index 0 stem key)).

Section code.
Context {K PS : Type} `{Kernel K}.
Variable uninit : Z.
Abbreviation P := (M (world K PS)).

(** The code and the implementation: [files] is the default one, and the user's
    is complete (no null function) or missing. *)
Definition MQTTPersistence_create (files : MQTTClient_persistence PS) (type : Z)
    (pcontext : option (MQTTClient_persistence PS)) : Z * option (MQTTClient_persistence PS) :=
  if type =? MQTTCLIENT_PERSISTENCE_NONE then (0, None)
  else if type =? MQTTCLIENT_PERSISTENCE_DEFAULT then (0, Some files)
  else if type =? MQTTCLIENT_PERSISTENCE_USER then
    match pcontext with
    | None => (MQTTCLIENT_PERSISTENCE_ERROR, None)
    | Some per => (0, Some per)
    end
  else (MQTTCLIENT_PERSISTENCE_ERROR, None).

(** A record of a received message.  A record that is not a PUBLISH would be
    read as one: undefined. *)
Definition restore_received (c : loc) (pack : packet) : P unit :=
  match pack with
  | PPublish publish =>
      msg ← MQTTProtocol_createMessage uninit true publish None (hdr_qos (pb_header publish)) (hdr_retain (pb_header publish));
      upd_message msg (set_nextMessageType PUBREL);;
      x ← message msg;
      append_elem c_inboundMsgs set_inbound c msg (m_len x)
  | _ => undefined
  end.

(** A record of a sent message, and of a PUBREL sent for it. *)
Definition restore_sent (per : MQTTClient_persistence PS) (handle : Z) (c : loc) (pack : packet) : P unit :=
  match pack with
  | PPublish publish =>
      key ← load (fun _ => sprintf_key PERSISTENCE_PUBREL (pb_msgId publish));
      msg ← MQTTProtocol_createMessage uninit true publish None (hdr_qos (pb_header publish)) (hdr_retain (pb_header publish));
      k ← ops (pcontainskey per handle key);
      when (k =? 0) (upd_message msg (set_nextMessageType PUBCOMP));;
      upd_message msg (set_lastTouch 0);;
      x ← message msg;
      y ← client c;
      l ← load (fun w => MQTTPersistence_insertInOrder (w_msgs w) (c_outboundMsgs y) msg (m_len x));
      upd_client c (set_outbound l)
  | _ => undefined
  end.

(** A PUBREL whose PUBLISH is not there is removed. *)
Definition restore_pubrel (per : MQTTClient_persistence PS) (handle : Z) (name : string) (pack : packet) : P Z :=
  match pack with
  | PAck pubrel =>
      key ← load (fun _ => sprintf_key PERSISTENCE_PUBLISH_SENT (ack_msgId pubrel));
      k ← ops (pcontainskey per handle key);
      if negb (k =? 0) then ops (premove per handle name) else mret 0
  | _ => undefined
  end.

(** One key of the loop. *)
Definition restore_key (per : MQTTClient_persistence PS) (handle : Z) (c : loc) (key : string) : P Z :=
  if String.prefix PERSISTENCE_COMMAND_KEY key then mret 0
  else if String.prefix PERSISTENCE_QUEUE_KEY key then mret 0
  else
    r ← ops (pget per handle key);
    let '(rc, buffer) := (r : Z * list byte) in
    if negb (rc =? 0) then mret rc
    else
      pack ← load (fun _ => MQTTPersistence_restorePacket buffer (zlen buffer));
      match pack with
      | None => ops (premove per handle key)
      | Some pack =>
          if contains PERSISTENCE_PUBLISH_RECEIVED key then restore_received c pack;; mret 0
          else if contains PERSISTENCE_PUBLISH_SENT key then restore_sent per handle c pack;; mret 0
          else if contains PERSISTENCE_PUBREL key then restore_pubrel per handle key pack
          else mret 0
      end.

Fixpoint restore_loop (per : MQTTClient_persistence PS) (handle : Z) (c : loc) (keys : list string) : P Z :=
  match keys with
  | [] => mret 0
  | key :: keys' =>
      rc ← restore_key per handle c key;
      if rc =? 0 then restore_loop per handle c keys' else mret rc
  end.

Definition MQTTPersistence_restore (c : loc) : P Z :=
  x ← client c;
  rc ← (match c_persistence x with
        | None => mret 0
        | Some per =>
            r ← ops (pkeys per (c_phandle x));
            let '(rc, msgkeys) := (r : Z * list string) in
            if rc =? 0 then restore_loop per (c_phandle x) c msgkeys else mret rc
        end);
  MQTTPersistence_wrapMsgID c;;
  mret rc.

Definition MQTTPersistence_initialize (c : loc) (serverURI : list byte) : P Z :=
  x ← client c;
  match c_persistence x with
  | None => mret 0
  | Some per =>
      r ← ops (popen per (cd_clientID (c_data x)) serverURI);
      let '(rc, handle) := (r : Z * Z) in
      upd_client c (set_persistence handle (Some per));;
      if rc =? 0 then MQTTPersistence_restore c else mret rc
  end.
End code.
End Restore.
