(* ===== verification/Client.v ===== *)
(** Model of the application interface of [lib/MQTTClient.c], in the synchronous
    mode: creating and destroying clients, connecting, subscribing, publishing,
    receiving, and the cycle that reads packets and drives the protocol.

    The background thread [MQTTClient_run] is not modelled: [running] is 0, and
    connecting a client with a messageArrived callback (which would start the
    thread) is outside the model.  A null handle is [None].  Loops that wait for
    the network or the clock take fuel; running out of it is not a result of the
    code.  Clock values are in microseconds. *)
From S2P Require Import Prelude ListSpec Utf8 Packet SocketBuffer Socket World Persistence Send Store Session Protocol Restore.

Module Client.
Import Utf8 Packet SocketBuffer Socket World Persistence Send Store Session Protocol Restore.

Definition MQTTCLIENT_MAX_MESSAGES_INFLIGHT : Z := -4.
Definition MQTTCLIENT_BAD_UTF8_STRING : Z := -5.
Definition MQTTCLIENT_NULL_PARAMETER : Z := -6.
Definition MQTTCLIENT_TOPICNAME_TRUNCATED : Z := -7.
Definition MQTTCLIENT_BAD_STRUCTURE : Z := -8.
Definition MQTTCLIENT_BAD_QOS : Z := -9.
Definition MQTT_BAD_SUBSCRIBE : Z := 0x80.
Definition MQTTVERSION_DEFAULT : Z := 0.
Definition URI_TCP : list byte := [116; 99; 112; 58; 47; 47].

(** The options of the application. *)
Record MQTTClient_willOptions := WillOptions {
  wo_struct_id : list byte; wo_struct_version : Z;
  wo_topicName : list byte; wo_message : list byte; wo_retained : Z; wo_qos : Z }.
Record MQTTClient_connectOptions := ConnectOptions {
  co_struct_id : list byte; co_struct_version : Z;
  co_keepAliveInterval : Z; co_cleansession : Z; co_reliable : Z;
  co_will : option MQTTClient_willOptions;
  co_username : option (list byte); co_password : option (list byte);
  co_connectTimeout : Z; co_retryInterval : Z;
  co_serverURIs : list (list byte); co_MQTTVersion : Z }.
(** [options->returned]: server, version and session present. *)
Definition returned : Type := list byte * Z * Z.

(** The message of the application, with its structure's mark. *)
Record app_message := AppMessage {
  ap_struct_id : list byte; ap_struct_version : Z; ap_payload : list byte; ap_payloadlen : Z;
  ap_qos : Z; ap_retained : Z }.

(** [UTF8_validateString] as a condition. *)
Definition valid_utf8 (s : list byte) : option bool :=
  v ← UTF8_validateString s; Some (negb (v =? 0)).
(** [strncmp(s, mark, strlen(mark)) == 0]. *)
Definition starts_with (mark s : list byte) : bool := bool_decide (take (length mark) s = mark).
Definition strip_tcp (uri : list byte) : list byte :=
  if starts_with URI_TCP uri then drop (length URI_TCP) uri else uri.

Section code.
Context {K PS : Type} `{Kernel K}.
Variable junk : socket_queue.
Variable uninit : Z.
Abbreviation P := (M (world K PS)).

(** * The clock *)

Definition MQTTClient_start_clock : P Z := onet (sys k_gettimeofday).
(** Milliseconds; [timersub] normalizes the difference. *)
Definition MQTTClient_elapsed (start : Z) : P Z :=
  now ← onet (sys k_gettimeofday); mret ((now - start) / 1000).
(** Stored in an [unsigned long]. *)
Definition elapsed_ulong (start : Z) : P Z := e ← MQTTClient_elapsed start; mret (size_wrap e).

Definition handle (c : loc) : P MQTTClients := load (fun w => w_ms w !! c).
Definition upd_handle (c : loc) (f : MQTTClients -> MQTTClients) : P unit :=
  fun w => m ← w_ms w !! c; Some (tt, set_ms (<[c := f m]> (w_ms w)) w).

(** * Keep-alive and retries *)

Definition MQTTClient_retry : P unit :=
  now ← time;
  last ← gets w_last;
  if 5 <? now - last then
    t ← time;
    modify (set_last t);;
    MQTTProtocol_keepalive now;;
    MQTTProtocol_retry uninit now true false
  else MQTTProtocol_retry uninit now false false.

(** * One packet *)

(** The handlers, by the type of the packet: the code, and the packet unless a
    handler has freed it. *)
Definition dispatch (sock : Z) (c : loc) (pack : packet) (rc : Z) : P (Z * option packet) :=
  let type := hdr_type (packet_header pack) in
  if type =? PUBLISH then
    match pack with
    | PPublish p => rc ← MQTTProtocol_handlePublishes uninit p sock; mret (rc, None)
    | _ => undefined
    end
  else if (type =? PUBACK) || (type =? PUBCOMP) then
    match pack with
    | PAck ack =>
        rc ← (if type =? PUBCOMP then MQTTProtocol_handlePubcomps ack sock else MQTTProtocol_handlePubacks ack sock);
        m ← handle c;
        when (m_dc m) (modify (add_event (DeliveryComplete c (ack_msgId ack))));;
        mret (rc, None)
    | _ => undefined
    end
  else if type =? PUBREC then
    match pack with PAck a => rc ← MQTTProtocol_handlePubrecs a sock; mret (rc, None) | _ => undefined end
  else if type =? PUBREL then
    match pack with PAck a => rc ← MQTTProtocol_handlePubrels uninit a sock; mret (rc, None) | _ => undefined end
  else if type =? PINGRESP then
    rc ← MQTTProtocol_handlePingresps sock; mret (rc, None)
  else mret (rc, Some pack).

(** The socket, the code (the old one, when there is nothing to read) and the
    packet. *)
Definition MQTTClient_cycle (timeout rc : Z) : P (Z * Z * option packet) :=
  sock ← Socket_getReadySocket w_net set_net (Some MQTTClient_writeComplete) false
           (Some (if 0 <? timeout then 1000 * timeout else 0));
  r ← (if 0 <? sock then
         f ← find_handle sock;
         match f with
         | None => mret (rc, None)
         | Some c =>
             x ← client c;
             if (c_connect_state x =? 1) || (c_connect_state x =? 2) then mret (0, None)
             else
               r ← MQTTPacket_Factory junk c;
               let '(rc, pack) := (r : Z * option packet) in
               let rc := if rc =? TCPSOCKET_INTERRUPTED then 0 else rc in
               match pack with
               | None => mret (rc, None)
               | Some pack => dispatch sock c pack rc
               end
         end
       else mret (rc, None));
  let '(rc, pack) := (r : Z * option packet) in
  MQTTClient_retry;;
  mret (sock, rc, pack).

(** * Waiting *)

Definition so_error (sock : Z) : P (sysret Z) := onet (sys (k_getsockopt_error sock)).

Fixpoint waitfor_loop (fuel : nat) (c : loc) (packet_type timeout start rc : Z) : P (Z * option packet) :=
  match fuel with
  | O => undefined
  | S fuel' =>
      r ← MQTTClient_cycle 100 rc;
      let '(sock, rc, pack) := (r : Z * Z * option packet) in
      x ← client c;
      let again (rc : Z) : P (Z * option packet) :=
        e ← MQTTClient_elapsed start;
        if timeout <? e then mret (rc, None) else waitfor_loop fuel' c packet_type timeout start rc in
      if negb (sock =? nh_socket (c_net x)) then again rc
      else if rc =? SOCKET_ERROR then mret (rc, pack)
      else if match pack with Some p => hdr_type (packet_header p) =? packet_type | None => false end then mret (rc, pack)
      else if c_connect_state x =? 1 then
        e ← so_error (nh_socket (c_net x));
        mret (match e with SysOk error => error | SysErr _ => -1 end, pack)
      else if c_connect_state x =? 3 then
        e ← so_error (nh_socket (c_net x));
        match e with
        | SysOk error => if negb (error =? 0) then mret (error, pack) else again rc
        | SysErr _ => again rc
        end
      else again rc
  end.

Definition MQTTClient_waitfor (fuel : nat) (c : loc) (packet_type timeout : Z) : P (Z * option packet) :=
  start ← MQTTClient_start_clock;
  waitfor_loop fuel c packet_type timeout start TCPSOCKET_COMPLETE.

(** The loops [do ... while] run their body first. *)
Fixpoint yield_loop (fuel : nat) (start elapsed rc : Z) : P unit :=
  match fuel with
  | O => undefined
  | S fuel' =>
      r ← MQTTClient_cycle (if elapsed <? 100 then 100 - elapsed else 0) rc;
      let '(sock, rc, _) := (r : Z * Z * option packet) in
      (if rc =? SOCKET_ERROR then
         f ← find_handle sock;
         match f with
         | Some c =>
             x ← client c;
             when (negb (c_connect_state x =? -2)) (_ ← MQTTClient_disconnect_internal c; mret tt)
         | None => mret tt
         end
       else mret tt);;
      elapsed ← elapsed_ulong start;
      if elapsed <? 100 then yield_loop fuel' start elapsed rc else mret tt
  end.

Definition MQTTClient_yield (fuel : nat) : P unit :=
  start ← MQTTClient_start_clock;
  elapsed ← elapsed_ulong start;
  yield_loop fuel start elapsed 0.

(** * Receiving *)

(** [ListRemove(m->c->messageQueue, qe)], which frees the entry; its message and
    topic belong to the application from now on. *)
Definition remove_entry (c q : loc) : P unit := fun w =>
  x ← w_cl w !! c;
  let '(r, l) := LSpec.unlink (fun y => bool_decide (y = q)) (c_messageQueue x) in
  let w' := set_cl (<[c := set_queue l x]> (w_cl w)) w in
  match r with
  | Some _ => free_entry q w'
  | None => Some (tt, w')
  end.

(** The code, the topic with its length, and the message.  The topic's length is
    compared as unsigned. *)
Definition MQTTClient_deliverMessage (rc : Z) (c : loc) : P (Z * (list byte * Z * MQTTClient_message)) :=
  x ← client c;
  q ← load (fun _ => head (LSpec.contents (c_messageQueue x)));
  qe ← entry q;
  let rc := if negb (zlen (c_str (qe_topicName qe)) =? size_wrap (qe_topicLen qe)) then MQTTCLIENT_TOPICNAME_TRUNCATED else rc in
  when (bool_decide (is_Some (c_persistence x))) (_ ← MQTTPersistence_unpersistQueueEntry c qe; mret tt);;
  remove_entry c q;;
  mret (rc, (qe_topicName qe, qe_topicLen qe, qe_msg qe)).

Fixpoint receive_loop (fuel : nat) (c : loc) (start elapsed timeout rc : Z) : P Z :=
  match fuel with
  | O => undefined
  | S fuel' =>
      r ← MQTTClient_cycle (if elapsed <? timeout then timeout - elapsed else 0) rc;
      let '(sock, rc, _) := (r : Z * Z * option packet) in
      stop ← (if rc =? SOCKET_ERROR then f ← find_handle sock; mret (bool_decide (f = Some c)) else mret false);
      if (stop : bool) then mret rc
      else
        elapsed ← elapsed_ulong start;
        x ← client c;
        if (elapsed <? timeout) && (cnt (c_messageQueue x) =? 0) then receive_loop fuel' c start elapsed timeout rc
        else mret rc
  end.

(** The code, and the topic and the message when there is one. *)
Definition MQTTClient_receive (fuel : nat) (m : option loc) (timeout : Z) :
    P (Z * option (list byte * Z * MQTTClient_message)) :=
  start ← MQTTClient_start_clock;
  match m with
  | None => mret (MQTTCLIENT_FAILURE, None)
  | Some c =>
      x ← client c;
      if negb (c_connected x) then mret (MQTTCLIENT_DISCONNECTED, None)
      else
        let timeout := if 0 <? cnt (c_messageQueue x) then 0 else timeout in
        elapsed ← elapsed_ulong start;
        rc ← receive_loop fuel c start elapsed timeout TCPSOCKET_COMPLETE;
        x ← client c;
        r ← (if 0 <? cnt (c_messageQueue x) then
               r ← MQTTClient_deliverMessage rc c;
               mret (r.1, Some r.2)
             else mret (rc, None));
        when (r.1 =? SOCKET_ERROR) (_ ← MQTTClient_disconnect_internal c; mret tt);;
        mret (r : Z * option (list byte * Z * MQTTClient_message))
  end.

Fixpoint completion_loop (fuel yfuel : nat) (c : loc) (mdt start elapsed timeout : Z) : P Z :=
  if elapsed <? timeout then
    match fuel with
    | O => undefined
    | S fuel' =>
        MQTTClient_yield yfuel;;
        f ← find_msg c_outboundMsgs set_outbound c mdt;
        match f with
        | None => mret MQTTCLIENT_SUCCESS
        | Some _ =>
            elapsed ← elapsed_ulong start;
            completion_loop fuel' yfuel c mdt start elapsed timeout
        end
    end
  else mret MQTTCLIENT_FAILURE.

Definition MQTTClient_waitForCompletion (fuel yfuel : nat) (m : option loc) (mdt timeout : Z) : P Z :=
  start ← MQTTClient_start_clock;
  match m with
  | None => mret MQTTCLIENT_FAILURE
  | Some c =>
      x ← client c;
      if negb (c_connected x) then mret MQTTCLIENT_DISCONNECTED
      else
        f ← find_msg c_outboundMsgs set_outbound c mdt;
        match f with
        | None => mret MQTTCLIENT_SUCCESS
        | Some _ =>
            elapsed ← elapsed_ulong start;
            completion_loop fuel yfuel c mdt start elapsed timeout
        end
  end.

(** The ids of the messages. *)
Fixpoint token_loop (ms : list loc) : P (list Z) :=
  match ms with
  | [] => mret []
  | m :: ms' => x ← message m; ts ← token_loop ms'; mret (m_msgid x :: ts)
  end.

(** The code, and the array of tokens ([None] is [NULL]). *)
Definition MQTTClient_getPendingDeliveryTokens (m : option loc) : P (Z * option (list Z)) :=
  match m with
  | None => mret (MQTTCLIENT_FAILURE, None)
  | Some c =>
      x ← client c;
      if 0 <? cnt (c_outboundMsgs x) then
        ts ← token_loop (LSpec.contents (c_outboundMsgs x));
        mret (MQTTCLIENT_SUCCESS, Some (ts ++ [-1]))
      else mret (MQTTCLIENT_SUCCESS, None)
  end.

(** * Publishing *)

(** Waiting until a message can be sent: [false] when the client is
    disconnected meanwhile. *)
Fixpoint blocked_loop (fuel yfuel : nat) (c : loc) : P bool :=
  match fuel with
  | O => undefined
  | S fuel' =>
      x ← client c;
      wait ← (if c_maxInflightMessages x <=? cnt (c_outboundMsgs x) then mret true
              else np ← onet (Socket_noPendingWrites (nh_socket (c_net x))); mret (negb np));
      if (wait : bool) then
        MQTTClient_yield yfuel;;
        x ← client c;
        if negb (c_connected x) then mret false else blocked_loop fuel' yfuel c
      else mret true
  end.

(** Waiting for the end of a partial write. *)
Fixpoint writing_loop (fuel yfuel : nat) (c : loc) : P unit :=
  match fuel with
  | O => undefined
  | S fuel' =>
      x ← client c;
      writing ← (if c_connected x then onet (buf (SocketBuffer_getWrite (nh_socket (c_net x)))) else mret None);
      match writing with
      | Some _ => MQTTClient_yield yfuel;; writing_loop fuel' yfuel c
      | None => mret tt
      end
  end.

(** The code, and the token when it is stored.  The structure that describes the
    message is allocated without being cleared. *)
Definition MQTTClient_publish (fuel yfuel : nat) (heap : bool) (m : option loc) (topicName : list byte)
    (payloadlen : Z) (payload : list byte) (qos retained : Z) (deliveryToken : bool) : P (Z * option Z) :=
  match m with
  | None => mret (MQTTCLIENT_FAILURE, None)
  | Some c =>
      x ← client c;
      if negb (c_connected x) then mret (MQTTCLIENT_DISCONNECTED, None)
      else
        v ← load (fun _ => valid_utf8 topicName);
        if negb v then mret (MQTTCLIENT_BAD_UTF8_STRING, None)
        else
          go ← blocked_loop fuel yfuel c;
          if negb (go : bool) then mret (MQTTCLIENT_FAILURE, None)
          else
            msgid ← (if 0 <? qos then MQTTProtocol_assignMsgId c else mret 0);
            if (0 <? qos) && (msgid =? 0) then mret (MQTTCLIENT_MAX_MESSAGES_INFLIGHT, None)
            else
              let p := MkPublish (to_char uninit) (Some topicName) uninit msgid payload payloadlen in
              r ← MQTTProtocol_startPublish uninit heap c p qos retained None;
              let '(rc, msg) := (r : Z * option loc) in
              rc ← (if rc =? TCPSOCKET_INTERRUPTED then
                      writing_loop fuel yfuel c;;
                      x ← client c;
                      mret (if (0 <? qos) || c_connected x then MQTTCLIENT_SUCCESS else MQTTCLIENT_FAILURE)
                    else mret rc);
              token ← (if deliveryToken && (0 <? qos) then
                         msg ← load (fun _ => msg);
                         y ← message msg;
                         mret (Some (m_msgid y))
                       else mret None);
              if rc =? SOCKET_ERROR then
                _ ← MQTTClient_disconnect_internal c;
                mret (if 0 <? qos then MQTTCLIENT_SUCCESS else MQTTCLIENT_FAILURE, token)
              else mret (rc, token)
  end.

Definition MQTTClient_publishMessage (fuel yfuel : nat) (heap : bool) (m : option loc) (topicName : list byte)
    (message : option app_message) (deliveryToken : bool) : P (Z * option Z) :=
  match message with
  | None => mret (MQTTCLIENT_NULL_PARAMETER, None)
  | Some a =>
      if negb (starts_with [77; 81; 84; 77] (ap_struct_id a)) || negb (ap_struct_version a =? 0)
      then mret (MQTTCLIENT_BAD_STRUCTURE, None)
      else MQTTClient_publish fuel yfuel heap m topicName (ap_payloadlen a) (ap_payload a) (ap_qos a) (ap_retained a)
             deliveryToken
  end.

(** * Subscribing *)

(** The first topic or quality of service that is refused. *)
Fixpoint check_topics (topics : list (list byte)) (qoss : option (list Z)) : option Z :=
  match topics with
  | [] => Some MQTTCLIENT_SUCCESS
  | t :: topics' =>
      v ← valid_utf8 t;
      if negb v then Some MQTTCLIENT_BAD_UTF8_STRING
      else match qoss with
      | None => check_topics topics' None
      | Some [] => None
      | Some (q :: qoss') =>
          if (q <? 0) || (2 <? q) then Some MQTTCLIENT_BAD_QOS else check_topics topics' (Some qoss')
      end
  end.

(** The granted qualities of service are stored over the requested ones; more of
    them than requested are stored outside the array. *)
Fixpoint store_granted (granted : list Z) (i : nat) (qos : list Z) : option (list Z) :=
  match granted with
  | [] => Some qos
  | g :: granted' =>
      if bool_decide (i < length qos)%nat then store_granted granted' (S i) (<[i := g]> qos) else None
  end.

(** The code and the array [qos] afterwards; [count] is the number of topics. *)
Definition MQTTClient_subscribeMany (fuel : nat) (m : option loc) (topic : list (list byte)) (qos : list Z) :
    P (Z * list Z) :=
  match m with
  | None => mret (MQTTCLIENT_FAILURE, qos)
  | Some c =>
      x ← client c;
      if negb (c_connected x) then mret (MQTTCLIENT_DISCONNECTED, qos)
      else
        bad ← load (fun _ => check_topics topic (Some qos));
        if negb (bad =? MQTTCLIENT_SUCCESS) then mret (bad, qos)
        else
          msgid ← MQTTProtocol_assignMsgId c;
          if msgid =? 0 then mret (MQTTCLIENT_MAX_MESSAGES_INFLIGHT, qos)
          else
            rc ← MQTTProtocol_subscribe c (c_str <$> topic) qos msgid;
            r ← (if rc =? TCPSOCKET_COMPLETE then
                   r ← MQTTClient_waitfor fuel c SUBACK 10000;
                   match (r : Z * option packet).2 with
                   | Some (PSuback sub) =>
                       qos' ← load (fun _ => store_granted (LSpec.contents (sa_qoss sub)) 0 qos);
                       x ← client c;
                       rc ← MQTTProtocol_handleSubacks sub (nh_socket (c_net x));
                       mret (rc, qos')
                   | Some _ => undefined
                   | None => mret (SOCKET_ERROR, qos)
                   end
                 else mret (rc, qos));
            let '(rc, qos) := (r : Z * list Z) in
            if rc =? SOCKET_ERROR then _ ← MQTTClient_disconnect_internal c; mret (rc, qos)
            else if rc =? TCPSOCKET_COMPLETE then mret (MQTTCLIENT_SUCCESS, qos)
            else mret (rc, qos)
  end.

Definition MQTTClient_subscribe (fuel : nat) (m : option loc) (topic : list byte) (qos : Z) : P Z :=
  r ← MQTTClient_subscribeMany fuel m [topic] [qos];
  mret (if bool_decide (r.2 = [MQTT_BAD_SUBSCRIBE]) then MQTT_BAD_SUBSCRIBE else r.1).

Definition MQTTClient_unsubscribeMany (fuel : nat) (m : option loc) (topic : list (list byte)) : P Z :=
  match m with
  | None => mret MQTTCLIENT_FAILURE
  | Some c =>
      x ← client c;
      if negb (c_connected x) then mret MQTTCLIENT_DISCONNECTED
      else
        bad ← load (fun _ => check_topics topic None);
        if negb (bad =? MQTTCLIENT_SUCCESS) then mret bad
        else
          msgid ← MQTTProtocol_assignMsgId c;
          if msgid =? 0 then mret MQTTCLIENT_MAX_MESSAGES_INFLIGHT
          else
            rc ← MQTTProtocol_unsubscribe c (c_str <$> topic) msgid;
            rc ← (if rc =? TCPSOCKET_COMPLETE then
                    r ← MQTTClient_waitfor fuel c UNSUBACK 10000;
                    match (r : Z * option packet).2 with
                    | Some (PAck ack) =>
                        x ← client c;
                        MQTTProtocol_handleUnsubacks ack (nh_socket (c_net x))
                    | Some _ => undefined
                    | None => mret SOCKET_ERROR
                    end
                  else mret rc);
            when (rc =? SOCKET_ERROR) (_ ← MQTTClient_disconnect_internal c; mret tt);;
            mret rc
  end.

Definition MQTTClient_unsubscribe (fuel : nat) (m : option loc) (topic : list byte) : P Z :=
  MQTTClient_unsubscribeMany fuel m [topic].

(** * Connecting *)

Definition MQTTClient_isConnected (m : option loc) : P bool :=
  match m with None => mret false | Some c => x ← client c; mret (c_connected x) end.

(** Setting the time of the messages, before they are all sent again. *)
Fixpoint untouch_loop (ms : list loc) : P unit :=
  match ms with
  | [] => mret tt
  | m :: ms' => upd_message m (set_lastTouch 0);; untouch_loop ms'
  end.

(** After CONNACK: the code and session present. *)
Definition connected_step (c : loc) (connack : Connack) (MQTTVersion : Z) : P (Z * Z) :=
  if negb (ca_rc connack =? MQTTCLIENT_SUCCESS) then mret (ca_rc connack, 0)
  else
    upd_client c (set_connected true);;
    upd_client c (set_good true);;
    upd_client c (set_connect_state 0);;
    let sessionPresent := if MQTTVersion =? 4 then get_bits 0 1 (ca_flags connack) else 0 in
    x ← client c;
    rc ← (if negb (cd_cleansession (c_data x) =? 0) then MQTTClient_cleanSession c else mret (ca_rc connack));
    x ← client c;
    if 0 <? cnt (c_outboundMsgs x) then
      untouch_loop (LSpec.contents (c_outboundMsgs x));;
      MQTTProtocol_retry uninit 0 true true;;
      x ← client c;
      mret (if negb (c_connected x) then MQTTCLIENT_DISCONNECTED else rc, sessionPresent)
    else mret (rc, sessionPresent).

(** From the code of [MQTTProtocol_connect] to the label [exit]. *)
Definition connect_steps (fuel : nat) (c : loc) (MQTTVersion rc start millisecsTimeout : Z) : P (Z * Z) :=
  if rc =? SOCKET_ERROR then mret (rc, 0)
  else
    x ← client c;
    if c_connect_state x =? 0 then mret (SOCKET_ERROR, 0)
    else
      rc ← (if c_connect_state x =? 1 then
              e ← MQTTClient_elapsed start;
              r ← MQTTClient_waitfor fuel c CONNECT (millisecsTimeout - e);
              if negb ((r : Z * option packet).1 =? 0) then mret SOCKET_ERROR
              else
                upd_client c (set_connect_state 3);;
                rc ← MQTTPacket_send_connect c MQTTVersion;
                mret (if rc =? SOCKET_ERROR then SOCKET_ERROR else r.1)
            else mret rc);
      if rc =? SOCKET_ERROR then mret (rc, 0)
      else
        x ← client c;
        if c_connect_state x =? 3 then
          e ← MQTTClient_elapsed start;
          r ← MQTTClient_waitfor fuel c CONNACK (millisecsTimeout - e);
          match (r : Z * option packet).2 with
          | None => mret (SOCKET_ERROR, 0)
          | Some (PConnack connack) => connected_step c connack MQTTVersion
          | Some _ => undefined
          end
        else mret (rc, 0).

(** The code, the return values for the options, and the string at [serverURI]
    afterwards.  A client with a messageArrived callback would start the
    background thread. *)
Definition MQTTClient_connectURIVersion (fuel : nat) (c : loc) (options : MQTTClient_connectOptions)
    (serverURI : list byte) (MQTTVersion start millisecsTimeout : Z) : P (Z * option returned * list byte) :=
  m ← handle c;
  if m_ma m then undefined
  else
    r ← MQTTProtocol_connect serverURI c MQTTVersion;
    let '(rc, uri) := (r : Z * list byte) in
    r ← connect_steps fuel c MQTTVersion rc start millisecsTimeout;
    let '(rc, sessionPresent) := (r : Z * Z) in
    if rc =? MQTTCLIENT_SUCCESS then
      mret (rc, if co_struct_version options =? 4 then Some (uri, MQTTVersion, sessionPresent) else None, uri)
    else
      _ ← MQTTClient_disconnect1 (mret tt) c false;
      mret (rc, None, uri).

Definition will_of (o : MQTTClient_willOptions) : willMessages :=
  Will (c_str (wo_topicName o)) (c_str (wo_message o)) (wo_retained o) (wo_qos o).

(** The clean session flag is a bit. *)
Definition MQTTClient_connectURI (fuel : nat) (c : loc) (options : MQTTClient_connectOptions) (serverURI : list byte) :
    P (Z * option returned * list byte) :=
  let millisecsTimeout := int_wrap (co_connectTimeout options * 1000) in
  start ← MQTTClient_start_clock;
  let will := match co_will options with
              | Some o => if wo_struct_version o =? 0 then Some (will_of o) else None
              | None => None
              end in
  upd_client c (fun x => set_limits (co_retryInterval options) (if co_reliable options =? 0 then 10 else 1)
    (set_data (ConnectData (cd_clientID (c_data x)) (c_str <$> co_username options) (c_str <$> co_password options)
                 (co_cleansession options mod 2) (co_keepAliveInterval options) will) x));;
  let MQTTVersion := if 3 <=? co_struct_version options then co_MQTTVersion options else MQTTVERSION_DEFAULT in
  if MQTTVersion =? MQTTVERSION_DEFAULT then
    r ← MQTTClient_connectURIVersion fuel c options serverURI 4 start millisecsTimeout;
    if (r : Z * option returned * list byte).1.1 =? MQTTCLIENT_SUCCESS then mret r
    else MQTTClient_connectURIVersion fuel c options r.2 3 start millisecsTimeout
  else MQTTClient_connectURIVersion fuel c options serverURI MQTTVersion start millisecsTimeout.

(** The servers of the options, until a connection succeeds. *)
Fixpoint connect_uris (fuel : nat) (c : loc) (options : MQTTClient_connectOptions) (uris : list (list byte)) (rc : Z) :
    P (Z * option returned) :=
  match uris with
  | [] => mret (rc, None)
  | uri :: uris' =>
      r ← MQTTClient_connectURI fuel c options (strip_tcp (c_str uri));
      if (r : Z * option returned * list byte).1.1 =? MQTTCLIENT_SUCCESS then mret r.1
      else connect_uris fuel c options uris' r.1.1
  end.

Definition valid_opt (s : option (list byte)) : option bool :=
  match s with Some s => valid_utf8 s | None => Some true end.

(** The checks of the options. *)
Definition check_options (options : MQTTClient_connectOptions) : option Z :=
  if negb (starts_with [77; 81; 84; 67] (co_struct_id options)) ||
     negb ((0 <=? co_struct_version options) && (co_struct_version options <=? 4))
  then Some MQTTCLIENT_BAD_STRUCTURE
  else if match co_will options with
          | Some w => negb (starts_with [77; 81; 84; 87] (wo_struct_id w)) || negb (wo_struct_version w =? 0)
          | None => false
          end then Some MQTTCLIENT_BAD_STRUCTURE
  else
    u ← valid_opt (co_username options);
    if negb u then Some MQTTCLIENT_BAD_UTF8_STRING
    else
      p ← valid_opt (co_password options);
      Some (if negb p then MQTTCLIENT_BAD_UTF8_STRING else MQTTCLIENT_SUCCESS).

(** The address of the handle is used on every path, so it is not null.  The will
    belongs to the call. *)
Definition MQTTClient_connect (fuel : nat) (c : loc) (options : option MQTTClient_connectOptions) :
    P (Z * option returned) :=
  r ← (match options with
       | None => mret (MQTTCLIENT_NULL_PARAMETER, None)
       | Some options =>
           bad ← load (fun _ => check_options options);
           if negb (bad =? MQTTCLIENT_SUCCESS) then mret (bad, None)
           else if (co_struct_version options <? 2) || (zlen (co_serverURIs options) =? 0) then
             m ← handle c;
             r ← MQTTClient_connectURI fuel c options (m_serverURI m);
             upd_handle c (fun m => MkHandle (m_cl m) (m_ma m) (m_dc m) (r : Z * option returned * list byte).2);;
             mret r.1
           else connect_uris fuel c options (co_serverURIs options) SOCKET_ERROR
       end);
  upd_client c (fun x => set_data (ConnectData (cd_clientID (c_data x)) (cd_username (c_data x)) (cd_password (c_data x))
    (cd_cleansession (c_data x)) (cd_keepAliveInterval (c_data x)) None) x);;
  mret r.

(** The waiting for messages in flight, up to the timeout. *)
Fixpoint disconnect_wait (fuel yfuel : nat) (c : loc) (start timeout : Z) : P unit :=
  x ← client c;
  if (0 <? cnt (c_inboundMsgs x)) || (0 <? cnt (c_outboundMsgs x)) then
    e ← MQTTClient_elapsed start;
    if timeout <=? e then mret tt
    else match fuel with
         | O => undefined
         | S fuel' => MQTTClient_yield yfuel;; disconnect_wait fuel' yfuel c start timeout
         end
  else mret tt.

Definition MQTTClient_disconnect (fuel yfuel : nat) (m : option loc) (timeout : Z) : P Z :=
  match m with
  | None => mret MQTTCLIENT_FAILURE
  | Some c =>
      MQTTClient_disconnect1
        (start ← MQTTClient_start_clock; disconnect_wait fuel yfuel c start timeout) c false
  end.

(** * Handles *)

(** The callback [ma] is required. *)
Definition MQTTClient_setCallbacks (m : option loc) (cl ma dc : bool) : P Z :=
  match m with
  | None => mret MQTTCLIENT_FAILURE
  | Some c =>
      if negb ma then mret MQTTCLIENT_FAILURE
      else
        x ← client c;
        if negb (c_connect_state x =? 0) then mret MQTTCLIENT_FAILURE
        else upd_handle c (fun m => MkHandle cl ma dc (m_serverURI m));; mret MQTTCLIENT_SUCCESS
  end.

(** A new structure, filled with zeros, with empty lists. *)
Definition new_client (clientID : list byte) : Clients PS :=
  MkClient (ConnectData clientID None None 0 0 None) false false false 0 (MkNet 0 0 0) 0 0 0
    LSpec.empty LSpec.empty LSpec.empty 0 0 None.

Definition sizeof_MQTTClients : Z := 96.
Definition sizeof_Clients_lists : Z := 264.

(** The code and the handle; [files] is the default persistence. *)
Definition MQTTClient_create (files : MQTTClient_persistence PS) (serverURI clientId : option (list byte))
    (persistence_type : Z) (persistence_context : option (MQTTClient_persistence PS)) : P (Z * option loc) :=
  match serverURI, clientId with
  | Some serverURI, Some clientId =>
      v ← load (fun _ => valid_utf8 clientId);
      if negb v then mret (MQTTCLIENT_BAD_UTF8_STRING, None)
      else
        i ← gets w_initialized;
        when (negb i)
          (modify (set_clients LSpec.empty);;
           onet (Socket_outInitialize junk);;
           modify (set_handles LSpec.empty);;
           modify (set_initialized true));;
        w ← gets id;
        let c := fresh (dom (w_cl w)) in
        modify (fun w => set_ms (<[c := MkHandle false false false (strip_tcp (c_str serverURI))]> (w_ms w)) w);;
        modify (fun w => set_handles (LSpec.append c sizeof_MQTTClients (w_handles w)) w);;
        modify (fun w => set_cl (<[c := new_client (c_str clientId)]> (w_cl w)) w);;
        rc ← (let '(rc, per) := MQTTPersistence_create files persistence_type persistence_context in
              upd_client c (set_persistence 0 per);;
              if rc =? 0 then
                rc ← MQTTPersistence_initialize uninit c (strip_tcp (c_str serverURI));
                when (rc =? 0) (_ ← MQTTPersistence_restoreMessageQueue c; mret tt);;
                mret rc
              else mret rc);
        modify (fun w => set_clients (LSpec.append c sizeof_Clients_lists (w_clients w)) w);;
        mret (rc, Some c)
  | _, _ => mret (MQTTCLIENT_NULL_PARAMETER, None)
  end.

(** The lists are freed with their elements. *)
Definition MQTTClient_terminate : P unit :=
  i ← gets w_initialized;
  when i
    (modify (fun w => set_cl (foldr delete (w_cl w) (LSpec.contents (w_clients w))) w);;
     modify (set_clients LSpec.empty);;
     modify (fun w => set_ms (foldr delete (w_ms w) (LSpec.contents (w_handles w))) w);;
     modify (set_handles LSpec.empty);;
     onet Socket_outTerminate;;
     modify (set_initialized false)).

(** The client and its handle are freed. *)
Definition MQTTClient_destroy (m : option loc) : P unit :=
  match m with
  | None => mret tt
  | Some c =>
      _ ← MQTTPersistence_close c;
      MQTTClient_emptyMessageQueue c;;
      MQTTProtocol_freeClient c;;
      modify (fun w => let '(r, l) := LSpec.unlink (fun y => bool_decide (y = c)) (w_clients w) in
                       set_clients l (match r with Some _ => set_cl (delete c (w_cl w)) w | None => w end));;
      modify (fun w => let '(r, l) := LSpec.unlink (fun y => bool_decide (y = c)) (w_handles w) in
                       set_handles l (match r with Some _ => set_ms (delete c (w_ms w)) w | None => w end));;
      l ← gets w_clients;
      when (cnt l =? 0) MQTTClient_terminate
  end.
End code.
End Client.
