(* ===== verification/Live.v ===== *)
(** The running library: the invariant that holds between two calls of the
    network loop, and what a turn of the loop does to the clients.  Every client
    is left as it is, or is hung up: its socket is closed and its session is
    kept or cleared, as it asked for. *)
From stdpp Require Import gmultiset.
From S2P Require Import Prelude ListSpec Packet SocketBuffer Socket Reader Writer Wire World Persistence Send Store Session Protocol Footprint Memory Sending Steps Handlers Receiver Closing.

Module Live.
Import Packet SocketBuffer Socket Writer Wire World Persistence Send Store Session Protocol Footprint Memory Sending Steps Handlers Receiver Closing.

#[local] Arguments zlen : simpl never.

Section live.
Context {K PS : Type} `{KL : KernelLaws K}.
Implicit Types (w : world K PS) (x : Clients PS).
Abbreviation P := (M (world K PS)).

(** * The invariant *)

(** Connected, or connecting. *)
Definition online x : bool := c_connected x || negb (c_connect_state x =? 0).
Definition client_in w (c : loc) : Prop := c ∈ LSpec.contents (w_clients w).

Record live w : Prop := {
  lv_inv : winv w;
  lv_net : net_safe (w_net w);
  lv_pending : NoDup (LSpec.contents (w_pending w)).*1;
  lv_handles c : c ∈ LSpec.contents (w_handles w) <-> client_in w c;
  lv_ms c : client_in w c -> is_Some (w_ms w !! c);
  lv_online c x : client_in w c -> w_cl w !! c = Some x -> online x = bool_decide (0 < nh_socket (c_net x)) /\ c_connect_state x <> -2;
  lv_unique c c' x x' : client_in w c -> client_in w c' -> w_cl w !! c = Some x -> w_cl w !! c' = Some x' ->
    0 < nh_socket (c_net x) -> nh_socket (c_net x') = nh_socket (c_net x) -> c' = c }.

Lemma live_at w c x : live w -> client_in w c -> w_cl w !! c = Some x -> 0 < nh_socket (c_net x) -> at_socket w (nh_socket (c_net x)) c x.
Proof.
  intros L Hc Hx Hs. split; [done..|]. intros c' Hc' Hcmp. unfold clientSocketCompare in Hcmp.
  destruct (w_cl w !! c') as [x'|] eqn:Hx'; [|done]. apply Z.eqb_eq in Hcmp. by eapply (lv_unique w L c c').
Qed.

Lemma live_client w c : live w -> client_in w c -> exists x s m, w_cl w !! c = Some x /\ session_of w c = Some s /\ w_ms w !! c = Some m.
Proof.
  intros L Hc. destruct (i_clients _ _ _ _ _ (lv_inv _ L)) as [_ Ha]. destruct (Ha c Hc) as [x Hx].
  destruct (session_total _ _ _ _ (lv_inv _ L) c x Hx) as [s Hs]. destruct (lv_ms _ L c Hc) as [m Hm]. by exists x, s, m.
Qed.

(** * Steps that leave the clients as they are *)

(** The connection of a client, which pings and errors of sending leave alone. *)
Definition cconn x : Clients PS :=
  MkClient (c_data x) (c_connected x) false false (c_connect_state x) (MkNet (nh_socket (c_net x)) 0 0) (c_msgID x)
    (c_retryInterval x) (c_maxInflightMessages x) LSpec.empty LSpec.empty LSpec.empty 0 (c_phandle x) (c_persistence x).

Lemma cconn_cshell x : cconn (cshell x) = cconn x.
Proof. by destruct x as [? ? ? ? ? [? ? ?] ? ? ? [? ? ? ?] [? ? ? ?] [? ? ? ?] ? ? ?]. Qed.

Record cbase x x' : Prop := {
  cb_data : c_data x' = c_data x;
  cb_connected : c_connected x' = c_connected x;
  cb_state : c_connect_state x' = c_connect_state x;
  cb_socket : nh_socket (c_net x') = nh_socket (c_net x);
  cb_per : c_persistence x' = c_persistence x;
  cb_handle : c_phandle x' = c_phandle x }.

Lemma cconn_cbase x x' : cconn x' = cconn x -> cbase x x'.
Proof.
  unfold cconn. intros [=]. by split.
Qed.

Record links w w' : Prop := {
  lk_clients : items (w_clients w') = items (w_clients w);
  lk_cl : cconn <$> w_cl w' = cconn <$> w_cl w;
  lk_handles : items (w_handles w') = items (w_handles w);
  lk_ms : w_ms w' = w_ms w }.

Lemma shell_links w w' : shell w w' -> links w w'.
Proof.
  intros [H1 H2 H3 H4 _ _ _]. split; try done.
  assert (E : forall w, cconn <$> w_cl w = cconn <$> (cshell <$> w_cl w)).
  { intros w0. rewrite <- map_fmap_compose. apply map_fmap_ext. intros i x _. symmetry. apply cconn_cshell. }
  by rewrite !E, H2.
Qed.

Lemma links_client c w w' : links w w' -> cconn <$> w_cl w' !! c = cconn <$> w_cl w !! c.
Proof. intros [_ E _ _]. by rewrite <- !lookup_fmap, E. Qed.

Lemma cconn_lookup c w w' x' :
  cconn <$> w_cl w' !! c = cconn <$> w_cl w !! c -> w_cl w' !! c = Some x' -> exists x, w_cl w !! c = Some x /\ cbase x x'.
Proof.
  intros E Hx'. rewrite Hx' in E. destruct (w_cl w !! c) as [x|]; [|done]. exists x. split; [done|].
  apply cconn_cbase. exact (inj Some _ _ E).
Qed.

Lemma cbase_online x x' : cbase x x' -> online x' = online x.
Proof. intros F. unfold online. by rewrite (cb_connected _ _ F), (cb_state _ _ F). Qed.

Lemma live_links w w' :
  live w -> links w w' -> winv w' -> net_safe (w_net w') -> NoDup (LSpec.contents (w_pending w')).*1 -> live w'.
Proof.
  intros L Lk I N Hp. assert (Hc : LSpec.contents (w_clients w') = LSpec.contents (w_clients w)).
  { unfold LSpec.contents. by rewrite (lk_clients _ _ Lk). }
  split; try done; unfold client_in; rewrite ?Hc.
  - intros c. unfold LSpec.contents at 1. rewrite (lk_handles _ _ Lk). apply L.
  - intros c. rewrite (lk_ms _ _ Lk). apply L.
  - intros c x' Hin Hx'. destruct (cconn_lookup _ _ _ _ (links_client c _ _ Lk) Hx') as (x & Hx & F).
    rewrite (cbase_online _ _ F), (cb_socket _ _ F), (cb_state _ _ F). by apply (lv_online _ L c).
  - intros c c' x1 x1' H1 H2 E1 E2.
    destruct (cconn_lookup _ _ _ _ (links_client c _ _ Lk) E1) as (x & Hx & F).
    destruct (cconn_lookup _ _ _ _ (links_client c' _ _ Lk) E2) as (x' & Hx' & F').
    rewrite (cb_socket _ _ F), (cb_socket _ _ F'). by eapply (lv_unique _ L c c').
Qed.

(** * A turn *)

(** What is kept for a socket, and what is to come. *)
Definition keeps_input (s : Z) (n n' : net K) : Prop :=
  (forall hs dat, kept (n_buf n) s hs dat -> kept (n_buf n') s hs dat) /\ k_in s (n_k n') = k_in s (n_k n).

Record same_client (c : loc) w w' : Prop := {
  sc_conn : cconn <$> w_cl w' !! c = cconn <$> w_cl w !! c;
  sc_session : session_of w' c = session_of w c;
  sc_input x : w_cl w !! c = Some x -> 0 < nh_socket (c_net x) -> keeps_input (nh_socket (c_net x)) (w_net w) (w_net w') }.

Record hung x x' : Prop := {
  hg_data : c_data x' = c_data x;
  hg_connected : c_connected x' = false;
  hg_state : c_connect_state x' = 0;
  hg_socket : nh_socket (c_net x') = Z.min 0 (nh_socket (c_net x));
  hg_per : c_persistence x' = c_persistence x;
  hg_handle : c_phandle x' = c_phandle x }.

Lemma closed_hung x x' : closed x x' -> hung x x'.
Proof. intros []. by split. Qed.

Definition hungup (c : loc) w w' : Prop := exists x x',
  w_cl w !! c = Some x /\ w_cl w' !! c = Some x' /\ online x = true /\ hung x x' /\
  session_of w' c = s_closed (cd_cleansession (c_data x)) <$> session_of w c /\
  (free_for (n_buf (w_net w)) (nh_socket (c_net x)) -> idle (n_buf (w_net w'))).

Record turn w w' : Prop := {
  tn_live : live w';
  tn_clients : LSpec.contents (w_clients w') = LSpec.contents (w_clients w);
  tn_each c : client_in w c -> same_client c w w' \/ hungup c w w';
  tn_seqno : seqnos w' = seqnos w;
  tn_idle : idle (n_buf (w_net w)) -> idle (n_buf (w_net w'));
  tn_free s : free_for (n_buf (w_net w)) s -> free_for (n_buf (w_net w')) s }.

Lemma same_client_trans c w1 w2 w3 : same_client c w1 w2 -> same_client c w2 w3 -> same_client c w1 w3.
Proof.
  intros [A1 A2 A4] [B1 B2 B4]. split; [by rewrite B1|by rewrite B2|].
  intros x Hx Hs. destruct (A4 x Hx Hs) as [A5 A6]. rewrite Hx in A1. destruct (w_cl w2 !! c) as [x2|] eqn:Hx2; [|done].
  assert (F : cbase x x2) by (apply cconn_cbase; exact (inj Some _ _ A1)).
  destruct (B4 x2 eq_refl) as [B5 B6]; [by rewrite (cb_socket _ _ F)|]. rewrite (cb_socket _ _ F) in B5, B6.
  split; [auto|by rewrite B6].
Qed.

Lemma hung_online x x' : hung x x' -> online x' = false.
Proof. intros C. unfold online. by rewrite (hg_connected _ _ C), (hg_state _ _ C). Qed.

Lemma turn_refl w : live w -> turn w w.
Proof. intros L. split; try done. intros c Hc. left. by split. Qed.

Lemma turn_trans w1 w2 w3 : turn w1 w2 -> turn w2 w3 -> turn w1 w3.
Proof.
  intros A B. split; [apply B|by rewrite (tn_clients _ _ B), (tn_clients _ _ A)| |by rewrite (tn_seqno _ _ B), (tn_seqno _ _ A)|intros; by apply B, A|intros; by apply B, A].
  intros c Hc. assert (Hc2 : client_in w2 c) by (unfold client_in; by rewrite (tn_clients _ _ A)).
  destruct (tn_each _ _ A c Hc) as [SA|(x & x2 & Hx & Hx2 & O & C & S & Fr)]; destruct (tn_each _ _ B c Hc2) as [SB|HB].
  - left. by eapply same_client_trans.
  - right. destruct HB as (x2 & x3 & Hx2 & Hx3 & O & C & S & Fr).
    destruct (cconn_lookup _ _ _ _ (sc_conn _ _ _ SA) Hx2) as (x & Hx & F). exists x, x3.
    rewrite (cbase_online _ _ F) in O. rewrite (sc_session _ _ _ SA), (cb_data _ _ F) in S. split_and!; try done.
    + destruct C, F. split; congruence.
    + rewrite (cb_socket _ _ F) in Fr. intros Hf. by apply Fr, A.
  - right. destruct (w_cl w3 !! c) as [x3|] eqn:Hx3.
    2: { pose proof (sc_conn _ _ _ SB) as E. by rewrite Hx2, Hx3 in E. }
    destruct (cconn_lookup _ _ _ _ (sc_conn _ _ _ SB) Hx3) as (y & Hy & F). rewrite Hx2 in Hy. injection Hy as <-.
    exists x, x3. split_and!; try done; [destruct C, F; split; congruence|by rewrite (sc_session _ _ _ SB)|intros Hf; by apply B, Fr].
  - destruct HB as (y & _ & Hy & _ & Oy & _). rewrite Hx2 in Hy. injection Hy as <-. by rewrite (hung_online _ _ C) in Oy.
Qed.

(** The clients stay as they are. *)
Lemma turn_links w w' :
  live w -> links w w' -> winv w' -> NoDup (LSpec.contents (w_pending w')).*1 ->
  (forall c, session_of w' c = session_of w c) -> seqnos w' = seqnos w -> net_moves (w_net w) (w_net w') -> turn w w'.
Proof.
  intros L Lk I Hp Hs Hq M. split; [|unfold LSpec.contents; by rewrite (lk_clients _ _ Lk)| |done| |].
  - eapply live_links; try done. apply M, L.
  - intros c Hc. left. split; [by apply links_client|done|].
    intros x Hx Hpos. split; [intros hs dat; by apply net_moves_kept|apply M].
  - by apply net_moves_idle.
  - intros s. by apply net_moves_free.
Qed.

Lemma turn_net w n : live w -> net_moves (w_net w) n -> turn w (set_net n w).
Proof. intros L M. apply turn_links; try done; [by apply (quiet_inv _ _ _ _ w), L; apply quiet_net|by apply L]. Qed.

Lemma quiet_seqnos w w' : quiet w w' -> seqnos w' = seqnos w.
Proof.
  intros Q. unfold seqnos. transitivity (c_qentry_seqno <$> (cnorm <$> w_cl w')); [|rewrite (q_cl _ _ Q)];
    rewrite <- map_fmap_compose; by apply map_fmap_ext.
Qed.

Lemma turn_quiet w w' : live w -> quiet w w' -> net_step (w_net w) (w_net w') -> turn w w'.
Proof.
  intros L Q St. apply turn_links; try done.
  - apply shell_links, quiet_shell, Q.
  - apply (quiet_inv _ _ _ _ w); [done|apply L].
  - rewrite (q_pending _ _ Q). apply L.
  - intros c. by apply quiet_session.
  - by apply quiet_seqnos.
  - by apply net_step_moves.
Qed.
End live.
End Live.
