(* ===== verification/Pending.v ===== *)
(** Publications of unfinished writes: when the network has finished a write, the
    publication of a QoS 0 message is freed, and nothing else is touched. *)
From stdpp Require Import gmultiset.
From S2P Require Import Prelude ListSpec Packet SocketBuffer Socket Reader Writer Wire World Persistence Send Store Session Protocol Footprint Memory Sending Steps Handlers Receiver Closing Live.

Module Pending.
Import Packet SocketBuffer Socket Writer Wire World Persistence Send Store Session Protocol Footprint Memory Sending Steps Handlers Receiver Closing Live.

#[local] Arguments zlen : simpl never.

Section pending.
Context {K PS : Type} `{KL : KernelLaws K}.
Implicit Types (w : world K PS) (x : Clients PS).
Abbreviation P := (M (world K PS)).

(** * One publication *)

Definition released_pub (p : loc) (lp : clist loc) (pend : clist (loc * pending_write)) w : world K PS :=
  set_pending pend (without_pub p lp w).

Section release.
Variables (w : world K PS) (k1 k2 : list (loc * (loc * pending_write))) (a : loc) (c : loc * pending_write) (l' : clist (loc * pending_write)).
Hypothesis I : winv w.
Hypothesis Ei : items (w_pending w) = k1 ++ (a, c) :: k2.
Hypothesis Ei' : items l' = k1 ++ k2.
Hypothesis Wl' : LSpec.wf l'.
Let p := pwr_p c.2.
Let rest : gmultiset loc := lsd ((fun y => pwr_p y.2) <$> LSpec.contents l').

Lemma pending_pubs : lsd ((fun y => pwr_p y.2) <$> LSpec.contents (w_pending w)) = {[+ p +]} ⊎ rest.
Proof.
  unfold rest, LSpec.contents. rewrite Ei, Ei', !fmap_app, !fmap_cons, !lsd_app, lsd_cons. unfold p. simpl. multiset_solver.
Qed.

Lemma pending_alloc : exists v, w_pubs w !! p = Some v.
Proof.
  pose proof (i_pubs _ _ _ _ _ I) as Hp. rewrite pending_pubs in Hp. apply elem_of_keys.
  assert (p ∈ keys (w_pubs w) ⊎ ∅) as Hin by (rewrite <- Hp; multiset_solver). multiset_solver.
Qed.

Lemma pending_apart m v : w_msgs w !! m = Some v -> m_publish v <> p.
Proof.
  intros Hv E. pose proof (i_pubs _ _ _ _ _ I) as Hp. rewrite pending_pubs in Hp.
  pose proof (keys_multiplicity (w_pubs w) p) as Hm. rewrite <- (gmultiset_disj_union_right_id (keys (w_pubs w))), <- Hp in Hm.
  rewrite (collect_delete _ _ _ _ Hv) in Hm. simpl in Hm. rewrite E in Hm. rewrite !multiplicity_disj_union, multiplicity_singleton in Hm. repeat (case_decide; [|done]). lia.
Qed.

Variable lp : clist loc.
Hypothesis Wlp : LSpec.wf lp.
Hypothesis Elp : lsd (LSpec.contents (w_publications w)) = {[+ p +]} ⊎ lsd (LSpec.contents lp).
Let w' := released_pub p lp l' w.

Lemma release_winv : winv w'.
Proof.
  destruct pending_alloc as [v Hv]. destruct I as [[W1 W2 W3 W4 W5 W6 W7] J1 J2 J3 J4 J5 J6 J7 J8 J9].
  pose proof (keys_delete _ _ _ Hv) as Hk. split; simpl; try done.
  - rewrite pending_pubs, Hk in J2. fold rest. multiset_solver.
  - rewrite Elp, Hk in J3. multiset_solver.
  - by apply map_Forall_delete.
Qed.

Lemma release_session d : session_of w' d = session_of w d.
Proof.
  apply views_same; [done| |done|].
  - intros m [v Hv]. unfold msg_view. simpl. rewrite Hv. cbn [mbind option_bind].
    by rewrite lookup_delete_ne by (intros E; by apply (pending_apart m v)).
  - intros x Hx. split; [|intros q; by eapply queue_alloc].
    intros m Hm. destruct (client_msgs_alloc _ _ _ _ I d x m Hx Hm) as [v Hv]. by exists v.
Qed.
End release.
(** * All publications whose write has finished *)

(** A finished write is unlinked; the position moves to the next element. *)
Lemma unlink_current (l : clist (loc * pending_write)) k1 a c k2 :
  LSpec.wf l -> items l = k1 ++ (a, c) :: k2 ->
  let l' := (LSpec.unlink (fun y => bool_decide (y.1 = c.1)) (LSpec.with_cur (Some a) l)).2 in
  items l' = k1 ++ k2 /\ cur l' = LSpec.hd_addr k2 None /\ LSpec.wf l'.
Proof.
  intros W Ei. assert (W1 : LSpec.wf (LSpec.with_cur (Some a) l)).
  { apply wf_with_cur; [done|]. unfold LSpec.addrs. rewrite Ei, fmap_app, fmap_cons. set_solver. }
  assert (Ec : LSpec.elem_content (LSpec.with_cur (Some a) l) a = Some c) by (by eapply LSpec.elem_content_mid).
  pose proof (LSpec.unlink_wf (fun y => bool_decide (y.1 = c.1)) _ W1) as Wu.
  rewrite (LSpec.unlink_mid _ _ k1 a c k2) in Wu |- * by
    (done || by unfold LSpec.find_item, LSpec.cur_content; simpl in *; rewrite Ec; simpl; rewrite bool_decide_true).
  simpl in *. by rewrite decide_True in Wu |- * by done.
Qed.

Lemma checkPending_step : forall fuel k1 k2 w,
  live w -> items (w_pending w) = k1 ++ k2 -> (length k2 < fuel)%nat ->
  exists w', checkPendingWrites_loop fuel (LSpec.hd_addr k2 None) w = Some (tt, w') /\ turn w w' /\
    items (write_pending (n_s (w_net w'))) = items (write_pending (n_s (w_net w))).
Proof.
  induction fuel as [|fuel IH]; intros k1 k2 w L Ei Hl; [lia|].
  destruct k2 as [|[a c] k2]; [exists w; split; [done|]; split; [by apply turn_refl|done]|]. simpl in Hl.
  assert (Wp : LSpec.wf (w_pending w)) by apply (i_wf _ _ _ _ _ (lv_inv _ L)).
  destruct (noPending_safe (w_net w) (pwr_socket c.2)) as (np & n1 & E1 & St1 & Es1 & _).
  set (w1 := set_net n1 w). assert (T1 : turn w w1) by (by apply turn_net, net_step_moves).
  assert (E1' : onet (Socket_noPendingWrites (pwr_socket c.2)) w = Some (np, w1)) by (unfold onet, zoom; by rewrite E1).
  cbn [checkPendingWrites_loop LSpec.hd_addr]. 
  erewrite bind_step; [|unfold load; by rewrite (LSpec.elem_content_mid _ _ _ _ _ Wp Ei)].
  mstep E1'. destruct np.
  - pose proof (lv_inv _ L) as I. destruct (unlink_current _ _ _ _ _ Wp Ei) as (El & Ec & Wl).
    set (l' := (LSpec.unlink _ _).2) in *. destruct (pending_alloc w k1 k2 a c l' I Ei El Wl) as [v Hv].
    destruct (removePublication_eq w1 (pwr_p c.2) v Hv) as (lp & E2 & Wlp & Elp).
    { by apply (i_pub_ok _ _ _ _ _ I _ _ Hv). }
    { apply (wfs_publications _ (i_wf _ _ _ _ _ I)). }
    { by apply (publications_elem _ _ _ w _ I); exists v. }
    mstep E2. erewrite bind_step by reflexivity. erewrite bind_step by reflexivity.
    fold l'. set (w2 := set_pending _ _). change (cur (w_pending w2)) with (cur l'). rewrite Ec.
    assert (T2 : turn w w2).
    { apply turn_links; [done|by split| | | |done|by apply net_step_moves].
      - exact (release_winv w1 k1 k2 a c l' (lv_inv _ (tn_live _ _ T1)) Ei El Wl lp Wlp Elp).
      - change (NoDup (LSpec.contents l').*1). pose proof (lv_pending _ L) as Hn. unfold LSpec.contents in *.
        rewrite Ei in Hn. rewrite El. rewrite !fmap_app, !fmap_cons in *. by apply NoDup_app_cons in Hn as (? & ? & ?).
      - intros d. exact (release_session w1 k1 k2 a c l' (lv_inv _ (tn_live _ _ T1)) Ei El Wl lp d). }
    destruct (IH k1 k2 w2 (tn_live _ _ T2) El ltac:(lia)) as (w3 & E3 & T3 & Es3).
    exists w3. split; [exact E3|]. split; [by eapply turn_trans|]. by rewrite Es3.
  - assert (En : load (fun w => LSpec.next_element (w_pending w) (Some a)) w1 = Some (LSpec.hd_addr k2 None, w1)).
    { unfold load. change (w_pending w1) with (w_pending w). by rewrite (LSpec.next_element_mid _ k1 a c k2 Wp Ei). }
    mstep En.
    destruct (IH (k1 ++ [(a, c)]) k2 w1 (tn_live _ _ T1)) as (w3 & E3 & T3 & Es3); [by rewrite <- app_assoc|lia|].
    exists w3. split; [exact E3|]. split; [by eapply turn_trans|]. by rewrite Es3.
Qed.

Lemma checkPendingWrites_turn w :
  live w -> exists w', MQTTProtocol_checkPendingWrites w = Some (tt, w') /\ turn w w' /\
    items (write_pending (n_s (w_net w'))) = items (write_pending (n_s (w_net w))).
Proof.
  intros L. unfold MQTTProtocol_checkPendingWrites. erewrite bind_step by reflexivity.
  destruct (0 <? cnt (w_pending w)); [|exists w; split; [done|]; split; [by apply turn_refl|done]].
  destruct (checkPending_step (S (length (items (w_pending w)))) [] (items (w_pending w)) w L eq_refl) as (w' & E & T); [lia|].
  exists w'. split; [|done]. rewrite <- E. simpl when. f_equal. by destruct (items (w_pending w)) as [|[? ?] ?].
Qed.

(** * Handles *)

Lemma find_handle_turn s w :
  live w -> exists r w', find_handle s w = Some (r, w') /\ turn w w' /\ w_net w' = w_net w /\
    match r with
    | Some c => client_in w c /\ exists x, w_cl w' !! c = Some x /\ nh_socket (c_net x) = s
    | None => forall c x, client_in w c -> w_cl w !! c = Some x -> nh_socket (c_net x) <> s
    end.
Proof.
  intros L. unfold find_handle. pose proof (wfs_handles _ (i_wf _ _ _ _ _ (lv_inv _ L))) as Wh.
  pose proof (LSpec.find_item_wf (clientSocketCompare w s) _ Wh) as Wl. pose proof (LSpec.find_item_items (clientSocketCompare w s) (w_handles w)) as El.
  assert (T : forall l, LSpec.wf l -> items l = items (w_handles w) -> turn w (set_handles l w)).
  { intros l Wl' El'. apply turn_quiet; [done| |done]. split; try done. by destruct 1. }
  destruct (LSpec.find_item_cases (clientSocketCompare w s) (w_handles w) Wh)
    as [[E Hf]|(k1 & a & c & k2 & Ei & Hc & E & Ec)]; rewrite E in *.
  - eexists None, _. split; [reflexivity|]. split; [by apply T|]. split; [done|]. intros c x Hc%(lv_handles _ L) Hx Hs.
    rewrite Forall_forall in Hf. specialize (Hf c Hc). unfold clientSocketCompare in Hf. rewrite Hx in Hf. lia.
  - eexists _, _. split; [reflexivity|]. split; [by apply T|]. split; [done|]. change (LSpec.elem_content (LSpec.with_cur (Some a) (w_handles w)) a) with (LSpec.elem_content (w_handles w) a). rewrite Ec.
    split; [apply (lv_handles _ L); rewrite (LSpec.contents_mid _ _ _ _ _ Ei); set_solver|].
    unfold clientSocketCompare in Hc. simpl. destruct (w_cl w !! c) as [x|]; [|done]. exists x. split; [done|lia].
Qed.

(** The callback of the network for a finished write. *)
Lemma writeComplete_turn s w :
  live w -> exists w', MQTTClient_writeComplete s w = Some (tt, w') /\ turn w w' /\
    items (write_pending (n_s (w_net w'))) = items (write_pending (n_s (w_net w))) /\
    clientsds (n_s (w_net w')) = clientsds (n_s (w_net w)).
Proof.
  intros L. unfold MQTTClient_writeComplete. destruct (checkPendingWrites_turn w L) as (w1 & E1 & T1 & Es1).
  pose proof (wo_sockets _ _ (st_only _ _ (within_checkPending _ step_footprint _ _ _ E1))) as Ed1.
  mstep E1. destruct (find_handle_turn s w1 (tn_live _ _ T1)) as (r & w2 & E2 & T2 & N2 & Hr). mstep E2.
  pose proof (turn_trans _ _ _ T1 T2) as T. destruct r as [c|]; [|exists w2; by rewrite N2].
  destruct Hr as (_ & x & Hx & _).
  destruct (quiets_stamp_sent w2 c x Hx (i_wf _ _ _ _ _ (lv_inv _ (tn_live _ _ T2)))) as ([] & w3 & E3 & Q3).
  exists w3. split; [done|]. pose proof E3 as E3'. unfold stamp_sent, time in E3'. apply bind_Some in E3' as (t & w4 & E4 & E5).
  apply onet_net in E4 as (n4 & E4 & N4). unfold upd_client in E5. destruct (w_cl w4 !! c); [|done]. injection E5 as <-.
  assert (St : net_step (w_net w2) n4) by (by eapply net_step_time). simpl. rewrite N4.
  split; [eapply turn_trans; [exact T|]; apply turn_quiet; [apply T2|done|simpl; by rewrite N4]|].
  unfold sys in E4. destruct (k_time _). injection E4 as _ <-. simpl. by rewrite N2.
Qed.
End pending.
End Pending.
