(* ===== verification/Retry.v ===== *)
(** Hanging up, keeping alive and retrying: [MQTTClient_disconnect_internal],
    [MQTTProtocol_keepalive] and [MQTTProtocol_retry] as turns of the running
    library. *)
From stdpp Require Import gmultiset.
From S2P Require Import Prelude ListSpec Packet SocketBuffer Socket Reader Writer Wire World Persistence Send Store Session Protocol Footprint Memory Sending Steps Handlers Receiver Closing Client Live.

Module Retry.
Import Packet SocketBuffer Socket Writer Wire World Persistence Send Store Session Protocol Footprint Memory Sending Steps Handlers Receiver Closing Client Live.

#[local] Arguments zlen : simpl never.

Section retry.
Context {K PS : Type} `{KL : KernelLaws K}.
Variable uninit : Z.
Implicit Types (w : world K PS) (x : Clients PS).
Abbreviation P := (M (world K PS)).

Abbreviation stepping := (within (fun w w' : world K PS => net_step (w_net w) (w_net w'))).
Abbreviation numbering := (within (fun w w' : world K PS => seqnos w' = seqnos w)).
Let F : footprint (fun w w' : world K PS => net_step (w_net w) (w_net w')) := step_footprint.
Let G : footprint (fun w w' : world K PS => seqnos w' = seqnos w) := seqno_footprint.

Lemma stepping_run {A} (m : P A) w a w' : m w = Some (a, w') -> stepping m -> net_step (w_net w) (w_net w').
Proof. intros E Hm. by eapply Hm. Qed.

(** * Hanging up *)

Lemma client_inv c w x w' : client c w = Some (x, w') -> w' = w /\ w_cl w !! c = Some x.
Proof. unfold client, load. destruct (w_cl w !! c) as [y|]; [|done]. by intros [= <- <-]. Qed.
Lemma upd_client_inv c f w u w' : upd_client c f w = Some (u, w') -> exists x, w_cl w !! c = Some x /\ w' = set_cl (<[c := f x]> (w_cl w)) w.
Proof. unfold upd_client. destruct (w_cl w !! c) as [x|]; [|done]. intros [= _ <-]. by exists x. Qed.

(** What [MQTTClient_closeSession] does to the network: it sends, then it closes
    the socket. *)
Lemma closeSession_net c w u w' x :
  MQTTClient_closeSession c w = Some (u, w') -> w_cl w !! c = Some x ->
  exists n1 n2, net_step (w_net w) n1 /\ net_step n2 (w_net w') /\
    (if 0 <? nh_socket (c_net x) then Socket_close (nh_socket (c_net x)) n1 = Some (tt, n2) else n2 = n1).
Proof.
  intros E Hx. unfold MQTTClient_closeSession in E.
  apply bind_Some in E as ([] & w1 & (y1 & Hy1 & ->)%upd_client_inv & E). rewrite Hx in Hy1. injection Hy1 as <-.
  apply bind_Some in E as ([] & w2 & (y2 & Hy2 & ->)%upd_client_inv & E). simpl in Hy2. rewrite lookup_insert_eq in Hy2. injection Hy2 as <-.
  apply bind_Some in E as (y3 & w3 & [-> Hy3]%client_inv & E). simpl in Hy3. rewrite lookup_insert_eq in Hy3. injection Hy3 as <-.
  apply bind_Some in E as ([] & w4 & Es & E). simpl in Es.
  assert (Er : net_step (w_net w4) (w_net w')).
  { apply (stepping_run _ _ _ _ E). pose proof F. pose proof (within_cleanSession _ F c). footprint. }
  destruct (0 <? nh_socket (c_net x)); cbn [when] in Es.
  - apply bind_Some in Es as ([] & w5 & Ed & Es). apply bind_Some in Es as ([] & w6 & Ec & Es).
    apply upd_client_inv in Es as (y & _ & ->). apply onet_net in Ec as (n & Ec & En). exists (w_net w5), n.
    split; [|split; [by rewrite <- En|done]].
    apply (stepping_run _ _ _ _ Ed). pose proof F. pose proof (within_disconnect _ F c). footprint.
  - injection Es as <-. by exists (w_net w), (w_net w).
Qed.

Lemma disconnect_internal_net c w rc w' x :
  MQTTClient_disconnect_internal c w = Some (rc, w') -> w_cl w !! c = Some x -> online x = true ->
  exists n1 n2, net_step (w_net w) n1 /\ net_step n2 (w_net w') /\
    (if 0 <? nh_socket (c_net x) then Socket_close (nh_socket (c_net x)) n1 = Some (tt, n2) else n2 = n1).
Proof.
  intros E Hx Ho. unfold MQTTClient_disconnect_internal, MQTTClient_disconnect1 in E.
  apply bind_Some in E as (y & w1 & [-> Hy]%client_inv & E). rewrite Hx in Hy. injection Hy as <-.
  assert (Hb : negb (c_connected x) && (c_connect_state x =? 0) = false).
  { unfold online in Ho. by destruct (c_connected x), (c_connect_state x =? 0). }
  rewrite Hb in E. apply bind_Some in E as ([] & w2 & E2 & E). apply bind_Some in E as ([] & w3 & E3 & E).
  assert (Hx2 : exists x2, w_cl w2 !! c = Some x2 /\ nh_socket (c_net x2) = nh_socket (c_net x) /\ w_net w2 = w_net w).
  { destruct (c_connected x); simpl in E2; [|injection E2 as <-; by exists x].
    apply bind_Some in E2 as ([] & w4 & (y & Hy & ->)%upd_client_inv & E2). injection E2 as <-. rewrite Hx in Hy. injection Hy as <-.
    eexists. split; [apply lookup_insert_eq|done]. }
  destruct Hx2 as (x2 & Hx2 & Es & En). destruct (closeSession_net c w2 tt w3 x2 E3 Hx2) as (n1 & n2 & S1 & S2 & Hc).
  rewrite Es in Hc. rewrite En in S1. exists n1, n2. split; [done|]. split; [|done]. etrans; [exact S2|].
  apply (stepping_run _ _ _ _ E). pose proof F. pose proof (within_notify _ F true (c_connected x) c). footprint.
Qed.

Lemma disconnect_seqnos c w rc w' : MQTTClient_disconnect_internal c w = Some (rc, w') -> seqnos w' = seqnos w.
Proof. apply (within_disconnect_internal _ G). intros s. by apply within_onet. Qed.

Lemma live_hung w w' c x x' :
  live w -> apart c w w' -> w_cl w' !! c = Some x' -> hung x x' -> winv w' -> net_safe (w_net w') -> live w'.
Proof.
  intros L A Hx' Hh I N. assert (Hc : LSpec.contents (w_clients w') = LSpec.contents (w_clients w)).
  { unfold LSpec.contents. by rewrite (ap_clients _ _ _ A). }
  assert (Hd : forall d y', d <> c -> w_cl w' !! d = Some y' -> exists y, w_cl w !! d = Some y /\ cframe y y').
  { intros d y' Hd Hy'. pose proof (ap_cl _ _ _ A d Hd) as E. rewrite Hy' in E. destruct (w_cl w !! d) as [y|]; [|done].
    exists y. split; [done|]. apply cshell_cframe. exact (inj Some _ _ E). }
  split; try done; unfold client_in; rewrite ?Hc.
  - rewrite (ap_pending _ _ _ A). apply L.
  - intros d. unfold LSpec.contents at 1. rewrite (ap_handles _ _ _ A). apply L.
  - intros d. rewrite (ap_ms _ _ _ A). apply L.
  - intros d y' Hin Hy'. destruct (decide (d = c)) as [->|Hne].
    + rewrite Hx' in Hy'. injection Hy' as <-. rewrite (hung_online _ _ Hh), (hg_state _ _ Hh), (hg_socket _ _ Hh).
      rewrite bool_decide_false by lia. done.
    + destruct (Hd d y' Hne Hy') as (y & Hy & Fy). destruct (lv_online _ L d y Hin Hy) as [Ho Hs].
      unfold online in *. by rewrite (cf_connected _ _ Fy), (cf_state _ _ Fy), (cf_socket _ _ Fy).
  - intros d d' y y' Hin Hin' Hy Hy' Hpos Es.
    assert (d <> c). { intros ->. rewrite Hx' in Hy. injection Hy as <-. rewrite (hg_socket _ _ Hh) in Hpos. lia. }
    assert (d' <> c). { intros ->. rewrite Hx' in Hy'. injection Hy' as <-. rewrite (hg_socket _ _ Hh) in Es. lia. }
    destruct (Hd d y) as (z & Hz & Fz); [done..|]. destruct (Hd d' y') as (z' & Hz' & Fz'); [done..|].
    rewrite (cf_socket _ _ Fz) in Hpos, Es. rewrite (cf_socket _ _ Fz') in Es. by eapply (lv_unique _ L d d' z z').
Qed.

(** Hanging up one client. *)
Lemma disconnect_turn w c x :
  live w -> client_in w c -> w_cl w !! c = Some x -> online x = true ->
  exists w', MQTTClient_disconnect_internal c w = Some (MQTTCLIENT_SUCCESS, w') /\ turn w w' /\ hungup c w w' /\
    (free_for (n_buf (w_net w)) (nh_socket (c_net x)) -> idle (n_buf (w_net w'))).
Proof.
  intros L Hc Hx Ho. destruct (live_client w c L Hc) as (x0 & s & m & Hx0 & Hs & Hm). rewrite Hx in Hx0. injection Hx0 as <-.
  pose proof (lv_net _ L) as N. destruct (lv_online _ L c x Hc Hx) as [Hso _]. rewrite Ho in Hso. symmetry in Hso.
  apply bool_decide_eq_true in Hso.
  destruct (disconnect_internal_step w c x s m) as (w' & x' & E & I' & Hx' & Cl & S & A & _); try done.
  { apply L. } { by apply net_safe_ok. } { intros Hpos. by apply live_at. }
  apply closed_hung in Cl. destruct (disconnect_internal_net c w _ w' x E Hx Ho) as (n1 & n2 & St1 & St2 & Hcl).
  rewrite (proj2 (Z.ltb_lt _ _) Hso) in Hcl. set (t := nh_socket (c_net x)) in *.
  destruct (Socket_close_safe t n1) as (n2' & Hcl' & N2 & C2 & Hfree); [lia|by eapply net_step_safe|].
  rewrite Hcl in Hcl'. injection Hcl' as <-. pose proof (net_step_moves _ _ St1) as M1. pose proof (net_step_moves _ _ St2) as M2.
  assert (Hin : forall s, s <> t -> keeps_input s (w_net w) (w_net w')).
  { intros s' Hs'. split; [intros hs dat Hk|].
    - eapply net_moves_kept; [exact M2|]. apply (cg_kept _ _ _ C2); [done|]. by eapply net_moves_kept.
    - by rewrite (mo_in _ _ M2), (cg_in _ _ _ C2), (mo_in _ _ M1). }
  assert (L' : live w') by (by eapply live_hung; [..|by eapply net_step_safe]).
  assert (Hre : free_for (n_buf (w_net w)) t -> idle (n_buf (w_net w'))).
  { intros Hf. eapply net_moves_idle; [exact M2|]. apply Hfree. by eapply net_moves_free. }
  assert (H1 : hungup c w w').
  { exists x, x'. split_and!; try done. rewrite (S c), decide_True by done. done. }
  exists w'. split; [done|]. split; [|split; [done|]].
  - split; [done|unfold LSpec.contents; by rewrite (ap_clients _ _ _ A)| |by eapply disconnect_seqnos| |].
    + intros d Hd. destruct (decide (d = c)) as [->|Hne]; [by right|left]. split.
      * pose proof (f_equal (fmap cconn) (ap_cl _ _ _ A d Hne)) as E1. rewrite <- !option_fmap_compose in E1.
        rewrite !(option_fmap_ext (cconn ∘ cshell) cconn) in E1 by (intros; apply cconn_cshell). done.
      * by rewrite (S d), decide_False.
      * intros y Hy Hpos. apply Hin. intros Es. apply Hne. by eapply (lv_unique _ L c d).
    + intros Hi. eapply net_moves_idle; [exact M2|]. apply C2. by eapply net_moves_idle.
    + intros s' Hf. eapply net_moves_free; [exact M2|]. apply C2. by eapply net_moves_free.
  - done.
Qed.

(** A client that is connected has a socket, and can send. *)
Lemma live_ready w c x :
  live w -> client_in w c -> w_cl w !! c = Some x -> c_connected x = true -> ready w c x /\ online x = true.
Proof.
  intros L Hc Hx Hon. assert (Ho : online x = true) by (unfold online; by rewrite Hon). split; [|done].
  destruct (lv_online _ L c x Hc Hx) as [Hs _]. rewrite Ho in Hs. symmetry in Hs. apply bool_decide_eq_true in Hs.
  split; [apply L|by apply live_at].
Qed.

(** Clients after a turn. *)
Lemma turn_in w w' c : turn w w' -> client_in w c -> client_in w' c.
Proof. intros T. unfold client_in. by rewrite (tn_clients _ _ T). Qed.

Lemma same_lookup c w w' x : same_client c w w' -> w_cl w !! c = Some x -> exists x', w_cl w' !! c = Some x' /\ cbase x x'.
Proof.
  intros S Hx. pose proof (sc_conn _ _ _ S) as E. rewrite Hx in E. destruct (w_cl w' !! c) as [x'|]; [|done].
  exists x'. split; [done|]. apply cconn_cbase. exact (inj Some _ _ E).
Qed.

(** Changing a client without its lists and its connection. *)
Lemma turn_field f w c x :
  live w -> w_cl w !! c = Some x -> keeps_lists f -> cconn (f x) = cconn x -> c_qentry_seqno (f x) = c_qentry_seqno x ->
  exists w', upd_client c f w = Some (tt, w') /\ turn w w' /\ w_cl w' !! c = Some (f x) /\ w_net w' = w_net w.
Proof.
  intros L Hx Hf Hco Hq. destruct (field_step f _ _ _ _ w c x (lv_inv _ L) Hx Hf) as (E & I & S & _).
  eexists. split; [exact E|]. split; [|split; [apply lookup_insert_eq|done]].
  apply turn_links; try done; [|apply L|by apply (seqnos_insert f)].
  split; try done. simpl. rewrite fmap_insert, Hco. apply insert_id. by rewrite lookup_fmap, Hx.
Qed.

Lemma noPending_turn w s : live w -> exists b w', onet (Socket_noPendingWrites s) w = Some (b, w') /\ turn w w' /\ quiet w w' /\ w_cl w' = w_cl w.
Proof.
  intros L. destruct (noPending_safe (w_net w) s) as (b & n & E & St & _). exists b, (set_net n w).
  unfold onet, zoom. rewrite E. split; [done|]. split; [by apply turn_net, net_step_moves|]. split; [apply quiet_net|done].
Qed.

(** * Keeping alive *)

Lemma closeSession_turn w c x :
  live w -> client_in w c -> w_cl w !! c = Some x -> online x = true ->
  exists w', MQTTProtocol_closeSession c w = Some (tt, w') /\ turn w w'.
Proof.
  intros L Hc Hx Ho. destruct (disconnect_turn w c x L Hc Hx Ho) as (w' & E & T & _). exists w'. split; [|done].
  unfold MQTTProtocol_closeSession. by mstep E.
Qed.

Lemma keepalive_client_turn now w c :
  live w -> client_in w c -> exists w', keepalive_client now c w = Some (tt, w') /\ turn w w'.
Proof.
  intros L Hc. destruct (live_client w c L Hc) as (x & _ & _ & Hx & _). unfold keepalive_client.
  mstep (client_eq w c x Hx). cbv zeta. set (due := _ && _ && _).
  destruct due eqn:Hdue; [|exists w; split; [done|by apply turn_refl]]. cbn [when].
  assert (Hon : c_connected x = true) by (unfold due in Hdue; by destruct (c_connected x)).
  destruct (live_ready w c x L Hc Hx Hon) as [R Ho].
  destruct (negb (c_ping_outstanding x)); [|by apply closeSession_turn with x].
  destruct (noPending_turn w (nh_socket (c_net x)) L) as (np & w1 & E1 & T1 & Q1 & C1). mstep E1.
  destruct np; [|by exists w1]. cbn [when]. destruct (quiet_ready _ _ _ _ Q1 R) as (x1 & R1 & Cs1).
  destruct (quiets_header_only w1 c x1 (set_type PINGREQ 0) R1 ltac:(done)) as (rc & w2 & E2 & Q2).
  assert (E2' : MQTTPacket_send_pingreq c w1 = Some (rc, w2)) by exact E2. mstep E2'.
  assert (T2 : turn w1 w2) by (apply turn_quiet; [apply T1|done|exact (within_send _ F _ _ _ _ _ _ _ E2)]).
  pose proof (turn_trans _ _ _ T1 T2) as T. destruct (quiet_ready _ _ _ _ Q2 R1) as (x2 & R2 & Cs2).
  pose proof (ready_client _ _ _ R2) as Hx2.
  destruct (negb (rc =? TCPSOCKET_COMPLETE)).
  - destruct (closeSession_turn w2 c x2 (tn_live _ _ T2) (turn_in _ _ _ T Hc) Hx2) as (w3 & E3 & T3).
    { unfold online. by rewrite (cs_connected _ _ Cs2), (cs_connected _ _ Cs1), Hon. }
    exists w3. split; [done|by eapply turn_trans].
  - destruct (turn_field (fun x => set_cnet (set_lastSent now (c_net x)) x) w2 c x2 (tn_live _ _ T2) Hx2)
      as (w3 & E3 & T3 & Hx3 & _); [by intros y|done|done|]. mstep E3.
    destruct (turn_field (set_ping true) w3 c _ (tn_live _ _ T3) Hx3) as (w4 & E4 & T4 & _); [by intros y|done|done|].
    exists w4. split; [done|]. eapply turn_trans; [exact T|]. by eapply turn_trans.
Qed.

(** A loop over the clients. *)
Lemma clients_loop (loop : list loc -> P unit) (body : loc -> P unit) :
  (forall w, loop [] w = Some (tt, w)) -> (forall c cs w, loop (c :: cs) w = (body c;; loop cs) w) ->
  (forall w c, live w -> client_in w c -> exists w', body c w = Some (tt, w') /\ turn w w') ->
  forall cs w, live w -> Forall (client_in w) cs -> exists w', loop cs w = Some (tt, w') /\ turn w w'.
Proof.
  intros Hnil Hcons Hbody. induction cs as [|c cs IH]; intros w L Hcs; [exists w; split; [apply Hnil|by apply turn_refl]|].
  inversion_clear Hcs as [|? ? Hc Hcs']. destruct (Hbody w c L Hc) as (w1 & E1 & T1).
  destruct (IH w1 (tn_live _ _ T1)) as (w2 & E2 & T2); [eapply Forall_impl; [exact Hcs'|intros d; by apply turn_in]|].
  exists w2. split; [rewrite Hcons; by mstep E1|by eapply turn_trans].
Qed.

Lemma all_clients w : Forall (client_in w) (LSpec.contents (w_clients w)).
Proof. by apply Forall_forall. Qed.

Lemma keepalive_turn now w : live w -> exists w', MQTTProtocol_keepalive now w = Some (tt, w') /\ turn w w'.
Proof.
  intros L. unfold MQTTProtocol_keepalive. erewrite bind_step by reflexivity.
  apply (clients_loop (keepalive_loop now) (keepalive_client now)); [done|done| |done|apply all_clients].
  intros u c. apply keepalive_client_turn.
Qed.

(** * Retrying *)

Lemma touch_turn w m v :
  live w -> w_msgs w !! m = Some v -> exists w', touch m w = Some (tt, w') /\ turn w w' /\ w_cl w' = w_cl w.
Proof.
  intros L Hv. destruct (touch_step w m v Hv (lv_inv _ L)) as (w' & E & I & S & Sh & _ & C). exists w'. split; [done|].
  split; [|done]. apply turn_links; try done; [by apply shell_links|rewrite (sh_pending _ _ Sh); apply L|unfold seqnos; by rewrite C|].
  apply net_step_moves. apply (stepping_run _ _ _ _ E). pose proof F. unfold touch. footprint.
Qed.

(** A session that cannot be written to is closed. *)
Lemma give_up_turn w c x :
  live w -> client_in w c -> w_cl w !! c = Some x -> online x = true ->
  exists w', (upd_client c (set_good false);; MQTTProtocol_closeSession c;; mret true) w = Some (true, w') /\ turn w w'.
Proof.
  intros L Hc Hx Ho.
  destruct (turn_field (set_good false) w c x L Hx) as (w1 & E1 & T1 & Hx1 & _); [by intros y|done|done|]. mstep E1.
  destruct (closeSession_turn w1 c _ (tn_live _ _ T1) (turn_in _ _ _ T1 Hc) Hx1 Ho) as (w2 & E2 & T2). mstep E2.
  exists w2. split; [done|by eapply turn_trans].
Qed.

Lemma retry_message_turn w c x m :
  live w -> client_in w c -> w_cl w !! c = Some x -> c_connected x = true -> m ∈ LSpec.contents (c_outboundMsgs x) ->
  exists b w', retry_message uninit c m w = Some (b, w') /\ turn w w' /\
    (b = false -> exists x', w_cl w' !! c = Some x' /\ LSpec.contents (c_outboundMsgs x') = LSpec.contents (c_outboundMsgs x)).
Proof.
  intros L Hc Hx Hon Hm. pose proof (lv_inv _ L) as I. destruct (live_ready w c x L Hc Hx Hon) as [R Ho].
  destruct (client_msgs_alloc _ _ _ _ I c x m Hx) as [v Hv]; [unfold client_msgs; set_solver|].
  destruct (msg_pub _ _ _ _ I m v Hv) as [p Hp]. pose proof (i_pub_ok _ _ _ _ _ I _ _ Hp) as [_ Hlen].
  pose proof (i_msg_ok _ _ _ _ _ I _ _ Hv) as Hid. unfold msg_ok in Hid.
  assert (Hsent : forall (send : P Z), quiets w send -> stepping send -> forall k : Z -> P bool,
    (forall rc w1 x1, turn w w1 -> quiet w w1 -> w_cl w1 !! c = Some x1 -> csim x x1 ->
       exists b w', k rc w1 = Some (b, w') /\ turn w1 w' /\
         (b = false -> exists x', w_cl w' !! c = Some x' /\ LSpec.contents (c_outboundMsgs x') = LSpec.contents (c_outboundMsgs x))) ->
    exists b w', (send ≫= k) w = Some (b, w') /\ turn w w' /\
      (b = false -> exists x', w_cl w' !! c = Some x' /\ LSpec.contents (c_outboundMsgs x') = LSpec.contents (c_outboundMsgs x))).
  { intros send (rc & w1 & E & Q) Hst k Hk. assert (T : turn w w1) by (apply turn_quiet; [done|done|by eapply Hst]).
    destruct (quiet_csim _ _ _ _ Q Hx) as (x1 & Hx1 & Cs). destruct (Hk rc w1 x1 T Q Hx1 Cs) as (b & w' & E' & T' & Hb).
    exists b, w'. split; [by mstep E|]. split; [by eapply turn_trans|done]. }
  assert (Hend : forall w1 x1, turn w w1 -> quiet w w1 -> w_cl w1 !! c = Some x1 -> csim x x1 ->
    (exists b w', (upd_client c (set_good false);; MQTTProtocol_closeSession c;; mret true) w1 = Some (b, w') /\ turn w1 w' /\
      (b = false -> exists x', w_cl w' !! c = Some x' /\ LSpec.contents (c_outboundMsgs x') = LSpec.contents (c_outboundMsgs x))) /\
    exists b w', (touch m;; mret false) w1 = Some (b, w') /\ turn w1 w' /\
      (b = false -> exists x', w_cl w' !! c = Some x' /\ LSpec.contents (c_outboundMsgs x') = LSpec.contents (c_outboundMsgs x))).
  { intros w1 x1 T1 Q1 Hx1 Cs. split.
    - destruct (give_up_turn w1 c x1 (tn_live _ _ T1) (turn_in _ _ _ T1 Hc) Hx1) as (w2 & E2 & T2); [|by exists true, w2].
      unfold online in *. by rewrite (cs_connected _ _ Cs), (cs_state _ _ Cs).
    - destruct (touch_turn w1 m v (tn_live _ _ T1)) as (w2 & E2 & T2 & C2); [by rewrite (q_msgs _ _ Q1)|]. mstep E2.
      exists false, w2. split; [done|]. split; [done|]. intros _. exists x1. rewrite C2. split; [done|].
      unfold LSpec.contents. by rewrite (cs_out _ _ Cs). }
  unfold retry_message. mstep (message_eq w m v Hv).
  destruct ((m_qos v =? 1) || (m_qos v =? 2) && (m_nextMessageType v =? PUBREC)) eqn:Eq.
  - mstep (publication_eq w _ p Hp). cbv zeta. apply Hsent.
    + eapply quiets_publish; [done|done|simpl; rewrite Hlen; pose proof (zlen_nonneg (p_payload p)); lia| |by intros _].
      destruct (Z.eqb_spec (m_qos v) 1), (Z.eqb_spec (m_qos v) 2); simpl in Eq; try done; lia.
    + by apply within_publish.
    + intros rc w1 x1 T1 Q1 Hx1 Cs. destruct (Hend w1 x1 T1 Q1 Hx1 Cs) as [H1 H2].
      destruct (rc =? SOCKET_ERROR); [exact H1|].
      assert (Hq0 : (m_qos v =? 0) = false) by (destruct (Z.eqb_spec (m_qos v) 1), (Z.eqb_spec (m_qos v) 2); simpl in Eq; try done; lia).
      rewrite Hq0. exact H2.
  - destruct (negb (m_qos v =? 0) && (m_nextMessageType v =? PUBCOMP)); [|exists false, w; split; [done|]; split; [by apply turn_refl|by exists x]].
    apply Hsent; [by eapply quiets_ack|by apply within_ack|]. intros rc w1 x1 T1 Q1 Hx1 Cs.
    destruct (Hend w1 x1 T1 Q1 Hx1 Cs) as [H1 H2]. by destruct (negb (rc =? TCPSOCKET_COMPLETE)).
Qed.

Lemma retries_turn now c regardless : forall ms w x,
  live w -> client_in w c -> w_cl w !! c = Some x -> ms ⊆ LSpec.contents (c_outboundMsgs x) ->
  exists w', retries_loop uninit now c regardless ms w = Some (tt, w') /\ turn w w'.
Proof.
  induction ms as [|m ms IH]; intros w x L Hc Hx Hms; [exists w; split; [done|by apply turn_refl]|]. cbn [retries_loop].
  mstep (client_eq w c x Hx). destruct (negb (c_connected x && c_good x)) eqn:Hg; [exists w; split; [done|by apply turn_refl]|].
  assert (Hon : c_connected x = true) by (by destruct (c_connected x)).
  destruct (noPending_turn w (nh_socket (c_net x)) L) as (np & w1 & E1 & T1 & Q1 & C1). mstep E1.
  destruct (negb np); [by exists w1|]. pose proof (turn_in _ _ _ T1 Hc) as Hc1. rewrite <- C1 in Hx.
  assert (Hm : m ∈ LSpec.contents (c_outboundMsgs x)) by (apply Hms; by left).
  destruct (client_msgs_alloc _ _ _ _ (lv_inv _ (tn_live _ _ T1)) c x m Hx) as [v Hv]; [unfold client_msgs; set_solver|].
  mstep (message_eq w1 m v Hv).
  assert (Hr : exists b w2, (if regardless || (Z.max (c_retryInterval x) 10 <? now - m_lastTouch v) then retry_message uninit c m else mret false) w1 = Some (b, w2) /\
    turn w1 w2 /\ (b = false -> exists x', w_cl w2 !! c = Some x' /\ LSpec.contents (c_outboundMsgs x') = LSpec.contents (c_outboundMsgs x))).
  { destruct (_ || _); [apply retry_message_turn; [apply T1|done..]|]. exists false, w1. split; [done|]. split; [apply turn_refl, T1|by exists x]. }
  destruct Hr as (b & w2 & E2 & T2 & Hb). mstep E2. pose proof (turn_trans _ _ _ T1 T2) as T. destruct b; [by exists w2|].
  destruct (Hb eq_refl) as (x2 & Hx2 & Eo).
  destruct (IH w2 x2 (tn_live _ _ T2) (turn_in _ _ _ T Hc) Hx2) as (w3 & E3 & T3); [rewrite Eo; set_solver|].
  exists w3. split; [done|by eapply turn_trans].
Qed.

Lemma retry_turn now doRetry regardless w :
  live w -> exists w', MQTTProtocol_retry uninit now doRetry regardless w = Some (tt, w') /\ turn w w'.
Proof.
  intros L. unfold MQTTProtocol_retry. erewrite bind_step by reflexivity.
  apply (clients_loop (retry_loop uninit now doRetry regardless) (fun c =>
    x ← client c;
    if negb (c_connected x) then mret tt
    else if negb (c_good x) then MQTTProtocol_closeSession c
    else np ← onet (Socket_noPendingWrites (nh_socket (c_net x)));
         when (np && doRetry) (MQTTProtocol_retries uninit now c regardless))); [done| | |done|apply all_clients].
  { intros c cs u. cbn [retry_loop]. by rewrite bind_assoc. }
  clear w L. intros w c L Hc. destruct (live_client w c L Hc) as (x & _ & _ & Hx & _). mstep (client_eq w c x Hx).
  destruct (c_connected x) eqn:Hon; [|exists w; split; [done|by apply turn_refl]]. cbn [negb].
  destruct (live_ready w c x L Hc Hx Hon) as [_ Ho]. destruct (negb (c_good x)); [by apply closeSession_turn with x|].
  destruct (noPending_turn w (nh_socket (c_net x)) L) as (np & w1 & E1 & T1 & _ & C1). mstep E1.
  destruct (np && doRetry); [|by exists w1]. cbn [when]. rewrite <- C1 in Hx. unfold MQTTProtocol_retries.
  mstep (client_eq w1 c x Hx). destruct (negb regardless && _); [by exists w1|].
  destruct (retries_turn now c regardless (LSpec.contents (c_outboundMsgs x)) w1 x (tn_live _ _ T1) (turn_in _ _ _ T1 Hc) Hx)
    as (w2 & E2 & T2); [done|]. exists w2. split; [done|by eapply turn_trans].
Qed.

Lemma time_turn w : live w -> exists t w', time w = Some (t, w') /\ turn w w'.
Proof.
  intros L. unfold time, onet, zoom, sys. destruct (k_time (n_k (w_net w))) as [t k] eqn:Ek. eexists _, _. split; [reflexivity|].
  apply turn_net; [done|]. apply net_step_moves, (net_step_time _ t). unfold sys. by rewrite Ek.
Qed.

(** Keep-alive and retries go through for all clients, whatever the network does. *)
Lemma MQTTClient_retry_turn w : live w -> exists w', MQTTClient_retry uninit w = Some (tt, w') /\ turn w w'.
Proof.
  intros L. unfold MQTTClient_retry. destruct (time_turn w L) as (now & w1 & E1 & T1). mstep E1. erewrite bind_step by reflexivity.
  destruct (5 <? now - w_last w1).
  - destruct (time_turn w1 (tn_live _ _ T1)) as (t & w2 & E2 & T2). mstep E2. erewrite bind_step by reflexivity.
    set (w3 := set_last t w2). assert (T3 : turn w2 w3).
    { pose proof (tn_live _ _ T2) as L2. apply turn_links; try done; [destruct (lv_inv _ L2) as [[] ? ? ? ? ? ? ? ? ?]; by split|apply L2]. }
    destruct (keepalive_turn now w3 (tn_live _ _ T3)) as (w4 & E4 & T4). mstep E4.
    destruct (retry_turn now true false w4 (tn_live _ _ T4)) as (w5 & E5 & T5). exists w5. split; [done|].
    eapply turn_trans; [exact T1|]. eapply turn_trans; [exact T2|]. eapply turn_trans; [exact T3|]. by eapply turn_trans.
  - destruct (retry_turn now false false w1 (tn_live _ _ T1)) as (w2 & E2 & T2). exists w2. split; [done|by eapply turn_trans].
Qed.
End retry.
End Retry.
