(* ===== verification/Dispatch.v ===== *)
(** The dispatch of packets: what [MQTTClient_cycle] does with a packet that was
    read, as one abstract transition of the client's session. *)
From stdpp Require Import gmultiset.
From S2P Require Import Prelude ListSpec Packet SocketBuffer Socket Wire World Persistence Send Store Session Protocol Memory Sending Steps Handlers Receiver Sender Closing Restore Client Footprint Live.

Module Dispatch.
Import Packet SocketBuffer Socket Wire World Persistence Send Store Session Protocol Memory Sending Steps Handlers Receiver Sender Closing Restore Client Footprint Live.

#[local] Arguments zlen : simpl never.

(** * Packets as they are built *)

(** The structure of a packet fits its type. *)
Definition typed (p : packet) : Prop :=
  let t := hdr_type (packet_header p) in
  match p with
  | PConnack _ => t = CONNACK
  | PPublish _ => t = PUBLISH
  | PAck _ => t = PUBACK \/ t = PUBREC \/ t = PUBREL \/ t = PUBCOMP \/ t = UNSUBACK
  | PSuback _ => t = SUBACK
  | PHeaderOnly _ => t = PINGREQ \/ t = PINGRESP \/ t = DISCONNECT
  end.

Lemma new_packets_typed header data len build p :
  new_packets (hdr_type header) = Some build -> build header data len = Some (Some p) -> typed p.
Proof.
  unfold new_packets, typed. intros Hb Hp.
  repeat match type of Hb with (if ?b then _ else _) = _ => destruct b eqn:?; [injection Hb as <-|] end; try done.
  - unfold MQTTPacket_connack in Hp. apply option.bind_Some in Hp as (f & _ & Hp).
    apply option.bind_Some in Hp as (r & _ & Hp). injection Hp as <-. simpl. lia.
  - unfold MQTTPacket_publish in Hp. apply option.bind_Some in Hp as ([[topic tl] pos] & _ & Hp).
    destruct topic; [|done]. apply option.bind_Some in Hp as ([id pos'] & _ & Hp). injection Hp as <-. simpl. lia.
  - unfold MQTTPacket_ack in Hp. apply option.bind_Some in Hp as (r & _ & Hp). injection Hp as <-. simpl. lia.
  - unfold MQTTPacket_suback in Hp. apply option.bind_Some in Hp as (r & _ & Hp).
    apply option.bind_Some in Hp as (q & _ & Hp). injection Hp as <-. simpl. lia.
  - injection Hp as <-. simpl. lia.
Qed.

(** Fields in range, as for packets that are not malformed. *)
Definition packet_ok (p : packet) : Prop :=
  match p with
  | PPublish p => is_Some (pb_topic p) /\ 0 <= pb_payloadlen p <= zlen (pb_payload p) /\ 0 <= pb_msgId p <= MAX_MSG_ID
  | PAck a => 0 <= ack_msgId a <= MAX_MSG_ID
  | _ => True
  end.

(** * The abstract transition *)

Definition recv_packet (p : packet) (s : session) : session :=
  match p with
  | PPublish p => recv_publish p s
  | PAck a =>
      let t := hdr_type (ack_header a) in
      if t =? PUBACK then recv_puback (ack_msgId a) s
      else if t =? PUBREC then recv_pubrec (ack_msgId a) s
      else if t =? PUBREL then recv_pubrel (ack_msgId a) s
      else if t =? PUBCOMP then recv_pubcomp (ack_msgId a) s
      else s
  | _ => s
  end.

(** The packets that are for a waiting call. *)
Definition for_caller (p : packet) : bool :=
  let t := hdr_type (packet_header p) in (t =? CONNACK) || (t =? SUBACK) || (t =? UNSUBACK) || (t =? PINGREQ) || (t =? DISCONNECT).

(** The notification of a completed delivery. *)
Definition completion (dc : bool) (c : loc) (p : packet) : list event :=
  match p with
  | PAck a => let t := hdr_type (ack_header a) in
      if dc && ((t =? PUBACK) || (t =? PUBCOMP)) then [DeliveryComplete c (ack_msgId a)] else []
  | _ => []
  end.

Section dispatch.
Context {K PS : Type} `{Kernel K}.
Variable uninit : Z.
Implicit Types (w : world K PS) (x : Clients PS).
Abbreviation P := (M (world K PS)).

Lemma handlePingresps_step w sock c x :
  winv w -> at_socket w sock c x ->
  exists w' x', MQTTProtocol_handlePingresps sock w = Some (TCPSOCKET_COMPLETE, w') /\ winv w' /\
    (forall c', session_of w' c' = session_of w c') /\ w_cl w' !! c = Some x' /\ c_ping_outstanding x' = false /\
    w_events w' = w_events w /\ links w w' /\ w_pending w' = w_pending w.
Proof.
  intros I A. destruct (quiets_find_client w sock c x (i_wf _ _ _ _ _ I) A) as (w1 & E1 & Q1 & N1 & P1 & C1).
  unfold MQTTProtocol_handlePingresps. mstep E1. assert (Hx1 : w_cl w1 !! c = Some x) by (rewrite C1; apply A).
  destruct (field_step (set_ping false) _ _ _ _ w1 c x (quiet_inv _ _ _ _ _ _ Q1 I) Hx1 ltac:(by intros x0)) as (E2 & I2 & S2 & _).
  mstep E2. eexists _, _. split; [reflexivity|]. split; [exact I2|]. split; [intros c'; etrans; [exact (S2 c')|by apply quiet_session]|].
  split; [apply lookup_insert_eq|]. split; [done|]. simpl. split; [by apply Q1|]. split; [|by apply Q1].
  destruct (shell_links _ _ (quiet_shell _ _ Q1)) as [L1 L2 L3 L4]. split; try done. simpl.
  rewrite fmap_insert, <- L2. apply insert_id. by rewrite lookup_fmap, Hx1.
Qed.

(** What a step of the cycle ensures. *)
Definition dispatched (c : loc) (dc : bool) (p : packet) (rc0 : Z) w (r : option (Z * option packet * world K PS)) : Prop :=
  exists rc p' w', r = Some ((rc, p'), w') /\ winv w' /\ steps c (recv_packet p) w w' /\
    p' = (if for_caller p then Some p else None) /\
    (for_caller p = true -> rc = rc0 /\ w' = w) /\
    (hdr_type (packet_header p) = PINGRESP -> exists x', w_cl w' !! c = Some x' /\ c_ping_outstanding x' = false) /\
    w_events w' = w_events w ++ completion dc c p /\ links w w' /\ w_pending w' = w_pending w.

Lemma steps_id c w : steps c (fun s => s) w w.
Proof. intros c'. case_decide; [subst|done]. by destruct (session_of w c). Qed.

(** A handler that keeps the shell of the state. *)
Lemma dispatched_handler c dc p rc0 w rc w' :
  winv w' -> steps c (recv_packet p) w w' -> shell w w' -> for_caller p = false -> hdr_type (packet_header p) <> PINGRESP ->
  completion dc c p = [] -> dispatched c dc p rc0 w (Some ((rc, None), w')).
Proof.
  intros I S Sh Hf Ht Hc. exists rc, None, w'. rewrite Hf, Hc, app_nil_r. split_and!; try done; [apply Sh|by apply shell_links|apply Sh].
Qed.

(** A known header decides the handler. *)
Ltac at_type t :=
  match goal with E : hdr_type ?h = t |- _ =>
    unfold dispatch; cbn [packet_header]; rewrite E;
    repeat match goal with |- context [?a =? ?b] =>
      let v := eval vm_compute in (a =? b) in change (a =? b) with v; cbv iota beta end;
    cbn [orb]; cbv iota
  end.

Lemma dispatch_publish w sock c x s m p rc :
  winv w -> at_socket w sock c x -> session_of w c = Some s -> queue_room x ->
  typed (PPublish p) -> packet_ok (PPublish p) ->
  dispatched c (m_dc m) (PPublish p) rc w (dispatch uninit sock c (PPublish p) rc w).
Proof.
  intros I A Hs Hroom Ht ([topic Htop] & Hp & Hid). simpl in Ht.
  destruct (handlePublishes_step uninit w sock c x s p topic) as (rc' & w' & E & I' & S & Sh & _); try done.
  at_type PUBLISH. mstep E. apply dispatched_handler; try done; unfold for_caller; simpl; by rewrite Ht.
Qed.

Lemma dispatch_completion w sock c x s m a rc :
  winv w -> at_socket w sock c x -> session_of w c = Some s -> w_ms w !! c = Some m ->
  hdr_type (ack_header a) = PUBACK \/ hdr_type (ack_header a) = PUBCOMP -> packet_ok (PAck a) ->
  dispatched c (m_dc m) (PAck a) rc w (dispatch uninit sock c (PAck a) rc w).
Proof.
  intros I A Hs Hm Ht Hid. simpl in Hid.
  assert (Hh : exists rc' w', (if hdr_type (ack_header a) =? PUBCOMP then MQTTProtocol_handlePubcomps a sock
      else MQTTProtocol_handlePubacks a sock) w = Some (rc', w') /\ winv w' /\ steps c (recv_packet (PAck a)) w w' /\ shell w w').
  { destruct Ht as [Ht|Ht]; rewrite Ht.
    - destruct (handlePubacks_step w sock c x s a) as (rc' & w' & E & I' & S & Sh & _); try done.
      exists rc', w'. split_and!; try done. eapply steps_ext; [|exact S]. intros s0. simpl. by rewrite Ht.
    - destruct (handlePubcomps_step w sock c x s a) as (rc' & w' & E & I' & S & Sh & _); try done.
      exists rc', w'. split_and!; try done. eapply steps_ext; [|exact S]. intros s0. simpl. by rewrite Ht. }
  destruct Hh as (rc' & w' & E & I' & S & Sh).
  assert (Hm' : w_ms w' !! c = Some m) by (by rewrite (sh_ms _ _ Sh)).
  assert (Hd : dispatch uninit sock c (PAck a) rc w =
    Some ((rc', None), if m_dc m then add_event (DeliveryComplete c (ack_msgId a)) w' else w')).
  { assert (Hk : (rc0 ← (if hdr_type (ack_header a) =? PUBCOMP then MQTTProtocol_handlePubcomps a sock
        else MQTTProtocol_handlePubacks a sock);
      m0 ← handle c; when (m_dc m0) (modify (add_event (DeliveryComplete c (ack_msgId a))));; mret (rc0, None : option packet)) w =
      Some ((rc', None), if m_dc m then add_event (DeliveryComplete c (ack_msgId a)) w' else w')).
    { mstep E. unfold handle, load. rewrite (bind_step _ _ w' m w') by (by rewrite Hm'). by destruct (m_dc m). }
    rewrite <- Hk. unfold dispatch. cbn [packet_header]. by destruct Ht as [-> | ->]. }
  rewrite Hd. assert (Hf : for_caller (PAck a) = false) by (unfold for_caller; simpl; by destruct Ht as [-> | ->]).
  assert (Hc : completion (m_dc m) c (PAck a) = if m_dc m then [DeliveryComplete c (ack_msgId a)] else []).
  { simpl. destruct Ht as [-> | ->]; simpl; by destruct (m_dc m). }
  eexists _, None, _. split; [reflexivity|]. rewrite Hf, Hc.
  destruct (m_dc m); (split; [try done; by apply add_event_winv|]); (split; [exact S|]); (split; [done|]); (split; [done|]);
    (split; [simpl; by destruct Ht as [-> | ->]|]); simpl; rewrite (sh_events _ _ Sh), ?app_nil_r; split_and!; try done;
    (apply Sh || by destruct (shell_links _ _ Sh)).
Qed.

Lemma dispatch_release w sock c x s m a rc :
  winv w -> at_socket w sock c x -> session_of w c = Some s -> queue_room x ->
  hdr_type (ack_header a) = PUBREC \/ hdr_type (ack_header a) = PUBREL -> packet_ok (PAck a) ->
  dispatched c (m_dc m) (PAck a) rc w (dispatch uninit sock c (PAck a) rc w).
Proof.
  intros I A Hs Hroom Ht Hid. simpl in Hid.
  assert (Hf : for_caller (PAck a) = false) by (unfold for_caller; simpl; by destruct Ht as [-> | ->]).
  assert (Hc : completion (m_dc m) c (PAck a) = []).
  { simpl. destruct Ht as [-> | ->]; simpl; by rewrite andb_false_r. }
  assert (Hp : hdr_type (packet_header (PAck a)) <> PINGRESP) by (simpl; by destruct Ht as [-> | ->]).
  destruct Ht as [Ht|Ht].
  - destruct (handlePubrecs_step w sock c x s a) as (rc' & w' & E & I' & S & Sh & _); try done.
    at_type PUBREC. mstep E. apply dispatched_handler; try done. eapply steps_ext; [|exact S]. intros s0. simpl. by rewrite Ht.
  - destruct (handlePubrels_step uninit w sock c x s a) as (rc' & w' & E & I' & S & Sh & _); try done.
    at_type PUBREL. mstep E. apply dispatched_handler; try done. eapply steps_ext; [|exact S]. intros s0. simpl. by rewrite Ht.
Qed.

Lemma dispatch_kept w sock c m p rc :
  winv w -> for_caller p = true -> (forall s, recv_packet p s = s) -> completion (m_dc m) c p = [] ->
  dispatched c (m_dc m) p rc w (dispatch uninit sock c p rc w).
Proof.
  intros I Hf Hr Hc. assert (Hd : dispatch uninit sock c p rc w = Some ((rc, Some p), w)).
  { unfold dispatch, for_caller in *. set (t := hdr_type (packet_header p)) in *.
    destruct (Z.eqb_spec t PUBLISH) as [->|]; [done|]. destruct (Z.eqb_spec t PUBACK) as [->|]; [done|].
    destruct (Z.eqb_spec t PUBCOMP) as [->|]; [done|]. destruct (Z.eqb_spec t PUBREC) as [->|]; [done|].
    destruct (Z.eqb_spec t PUBREL) as [->|]; [done|]. by destruct (Z.eqb_spec t PINGRESP) as [->|]. }
  rewrite Hd. exists rc, (Some p), w. rewrite Hf, Hc, app_nil_r. split; [done|]. split; [done|].
  split; [eapply steps_ext; [|apply steps_id]; done|]. do 2 (split; [done|]). split; [|by split].
  intros Ht. unfold for_caller in Hf. by rewrite Ht in Hf.
Qed.

Lemma dispatch_step w sock c x s m p header data len build rc :
  winv w -> at_socket w sock c x -> session_of w c = Some s -> w_ms w !! c = Some m -> queue_room x ->
  new_packets (hdr_type header) = Some build -> build header data len = Some (Some p) -> packet_ok p ->
  dispatched c (m_dc m) p rc w (dispatch uninit sock c p rc w).
Proof.
  intros I A Hs Hm Hroom Hb Hp Hok. pose proof (new_packets_typed _ _ _ _ _ Hb Hp) as Ht.
  destruct p as [p|p|a|p|h]; unfold typed in Ht; simpl in Ht.
  - apply dispatch_kept; try done. unfold for_caller. simpl. by rewrite Ht.
  - by eapply dispatch_publish.
  - destruct Ht as [Ht|[Ht|[Ht|[Ht|Ht]]]]; [eapply dispatch_completion|eapply dispatch_release|eapply dispatch_release|eapply dispatch_completion|];
      eauto. apply dispatch_kept; try done; unfold for_caller; simpl; rewrite Ht; try done; by rewrite andb_false_r.
  - apply dispatch_kept; try done. unfold for_caller. simpl. by rewrite Ht.
  - destruct (decide (hdr_type h = PINGRESP)) as [E|E].
    + destruct (handlePingresps_step w sock c x I A) as (w' & x' & E1 & I1 & S1 & Hx1 & Hping & V1 & Lk1 & Pn1).
      at_type PINGRESP. mstep E1. exists TCPSOCKET_COMPLETE, None, w'. unfold for_caller. simpl. rewrite E. simpl.
      split; [done|]. split; [done|]. split; [|split; [done|split; [done|split; [by exists x'|by rewrite app_nil_r]]]].
      intros c'. rewrite S1. case_decide; [subst|done]. by destruct (session_of w c).
    + apply dispatch_kept; try done. unfold for_caller. simpl. by destruct Ht as [Ht|[Ht|Ht]]; rewrite ?Ht.
Qed.

(** [C7] The dispatch of a packet of [MQTTClient_cycle] implements the abstract
    client: for every packet that the parser builds, with fields in range, the
    one handler for its type runs without going wrong and changes the session
    of the client by [recv_packet] and no other session; memory ownership is
    kept.  Packets that a call waits for are handed over unchanged, PINGRESP
    clears the outstanding ping, and deliveryComplete is called exactly for
    PUBACK and PUBCOMP. *)
Theorem dispatch_refines w sock c x s m p header data len build rc :
  winv w -> at_socket w sock c x -> session_of w c = Some s -> w_ms w !! c = Some m -> queue_room x ->
  new_packets (hdr_type header) = Some build -> build header data len = Some (Some p) -> packet_ok p ->
  dispatched c (m_dc m) p rc w (dispatch uninit sock c p rc w).
Proof. apply dispatch_step. Qed.
End dispatch.
End Dispatch.
