(* ===== verification/Incoming.v ===== *)
(** Incoming packets: what [MQTTPacket_Factory] makes of the bytes of a packet.
    The packet is determined by its own bytes, not by what the buffer holds
    behind them, and reading it does not touch the sessions. *)
From stdpp Require Import gmultiset.
From S2P Require Import Prelude ListSpec Packet SocketBuffer Socket Reader Writer Wire World Persistence Send Store Session Protocol Memory Sending Steps Handlers Receiver Sender Closing Restore Client Footprint Live Retry Dispatch.

Module Incoming.
Import Packet SocketBuffer Socket Writer Wire World Persistence Send Store Session Protocol Memory Sending Steps Handlers Receiver Sender Closing Restore Client Footprint Live Retry Dispatch.

#[local] Arguments zlen : simpl never.

(** * Parsing *)

(** Header byte and body, as on the wire. *)
Abbreviation wire := (byte * list byte)%type.

Definition parse (p : wire) : option packet :=
  build ← new_packets (hdr_type p.1); r ← build p.1 p.2 (zlen p.2); r.

(** Packets that are not malformed. *)
Definition good (p : wire) : Prop :=
  Reader.packet_ok p /\ exists pack, parse p = Some pack /\ packet_ok pack.

(** The same packet; the payload of a PUBLISH may be followed by other bytes. *)
Inductive followed (j : list byte) : packet -> packet -> Prop :=
  | followed_same p : followed j p p
  | followed_publish h t tl id pay k plen :
      followed j (PPublish (MkPublish h t tl id pay plen)) (PPublish (MkPublish h t tl id (pay ++ k) plen)).

Lemma nthz_app {A} (l j : list A) i x : nthz l i = Some x -> nthz (l ++ j) i = Some x.
Proof.
  unfold nthz. case_bool_decide; [|done]. apply lookup_app_l_Some.
Qed.
Lemma readChar_app l j i r : readChar l i = Some r -> readChar (l ++ j) i = Some r.
Proof. unfold readChar. intros (c & E & Er)%option.bind_Some. by rewrite (nthz_app _ _ _ _ E). Qed.
Lemma readInt_app l j i r : readInt l i = Some r -> readInt (l ++ j) i = Some r.
Proof.
  unfold readInt. intros (a & E & (b & E' & Er)%option.bind_Some)%option.bind_Some.
  by rewrite (nthz_app _ _ _ _ E), (nthz_app _ _ _ _ E').
Qed.
Lemma subz_app_l {A} (l j : list A) i n r : subz l i n = Some r -> subz (l ++ j) i n = Some r.
Proof.
  unfold subz. case_bool_decide as Hb; [|done]. intros [= <-]. rewrite bool_decide_true by (rewrite zlen_app; pose proof (zlen_nonneg j); lia).
  rewrite drop_app, take_app_le; [done|]. rewrite length_drop. unfold zlen in Hb. lia.
Qed.
Lemma readUTFlen_app l j i e n r : readUTFlen l i e n = Some r -> readUTFlen (l ++ j) i e n = Some r.
Proof.
  unfold readUTFlen. destruct (1 <? e - i); [|done]. intros ([len pos] & E & Er)%option.bind_Some.
  rewrite (readInt_app _ _ _ _ E). cbn [mbind option_bind]. destruct (pos + len <=? e); [|done].
  apply option.bind_Some in Er as (s & Es & Er). by rewrite (subz_app_l _ _ _ _ _ Es).
Qed.
Lemma suback_loop_app j e : forall fuel l i q r, suback_loop fuel l i e q = Some r -> suback_loop fuel (l ++ j) i e q = Some r.
Proof.
  induction fuel as [|fuel IH]; intros l i q r; simpl; destruct (i <? e); try done.
  intros (c & E & Er)%option.bind_Some. rewrite (readChar_app _ _ _ _ E). cbn [mbind option_bind]. by apply IH.
Qed.

Lemma build_followed t build h l len j p :
  new_packets t = Some build -> build h l len = Some (Some p) ->
  exists p', build h (l ++ j) len = Some (Some p') /\ followed j p p'.
Proof.
  unfold new_packets. intros Hb Hp.
  repeat match type of Hb with (if ?b then _ else _) = _ => destruct b; [injection Hb as <-|] end; try done.
  - exists p. split; [|constructor]. unfold MQTTPacket_connack in *. apply option.bind_Some in Hp as (f & E & Hp).
    apply option.bind_Some in Hp as (r & E' & Hp). rewrite (readChar_app _ _ _ _ E). cbn [mbind option_bind].
    by rewrite (readChar_app _ _ _ _ E').
  - unfold MQTTPacket_publish in *. apply option.bind_Some in Hp as ([[topic tl] pos] & E & Hp).
    rewrite (readUTFlen_app _ _ _ _ _ _ E). cbn [mbind option_bind]. destruct topic as [topic|]; [|done].
    apply option.bind_Some in Hp as ([id pos'] & E' & Hp). injection Hp as <-. eexists. split; [|apply followed_publish].
    assert (E2 : (if 0 <? hdr_qos h then readInt (l ++ j) pos else Some (0, pos)) = Some (id, pos')).
    { destruct (0 <? hdr_qos h); [by apply readInt_app|done]. }
    rewrite E2. cbn [mbind option_bind]. by rewrite drop_app.
  - exists p. split; [|constructor]. unfold MQTTPacket_ack in *. apply option.bind_Some in Hp as (r & E & Hp).
    by rewrite (readInt_app _ _ _ _ E).
  - exists p. split; [|constructor]. unfold MQTTPacket_suback in *. apply option.bind_Some in Hp as (r & E & Hp).
    apply option.bind_Some in Hp as (q & E' & Hp). rewrite (readInt_app _ _ _ _ E). cbn [mbind option_bind].
    by rewrite (suback_loop_app _ _ _ _ _ _ _ E').
  - exists p. split; [done|constructor].
Qed.

(** Bytes behind the packet do not matter. *)
Lemma followed_ok j p p' : followed j p p' -> packet_ok p -> packet_ok p'.
Proof. intros [|]; [done|]. simpl. rewrite zlen_app. pose proof (zlen_nonneg k). intros (? & ? & ?). split_and!; try done; lia. Qed.

Lemma followed_recv j p p' s : followed j p p' -> packet_ok p -> recv_packet p' s = recv_packet p s.
Proof.
  intros [|h t tl id pay k plen]; [done|]. simpl. intros (_ & Hp & _). unfold recv_publish, inbound_msg, publish_delivery, publish_payload. simpl.
  rewrite take_app_le; [done|]. unfold zlen in Hp. lia.
Qed.

(** What the packet does to the session. *)
Definition recv_wire (p : wire) (s : session) : session :=
  match parse p with Some pack => recv_packet pack s | None => s end.

Lemma good_build p j :
  good p -> exists build pack, new_packets (hdr_type p.1) = Some build /\ build p.1 (p.2 ++ j) (zlen p.2) = Some (Some pack) /\
    packet_ok pack /\ (forall s, recv_packet pack s = recv_wire p s).
Proof.
  intros [_ (pack & Hp & Hok)]. unfold recv_wire. rewrite Hp. unfold parse in Hp.
  apply option.bind_Some in Hp as (build & Hb & Hp). apply option.bind_Some in Hp as ([pk|] & Hr & Hp); [|done].
  injection Hp as ->. destruct (build_followed _ _ _ _ _ j _ Hb Hr) as (pack' & E & Hf).
  exists build, pack'. split; [done|]. split; [done|]. split; [by eapply followed_ok|]. intros s. by eapply followed_recv.
Qed.

(** * Reading one packet *)

Section factory.
Context {K PS : Type} `{KL : KernelLaws K}.
Variable junk : socket_queue.
Hypothesis junk_header : length (q_fixed_header junk) = 5%nat.
Implicit Types (w : world K PS) (x : Clients PS).
Abbreviation P := (M (world K PS)).
Abbreviation stepping := (within (fun w w' : world K PS => net_step (w_net w) (w_net w'))).
Let F : footprint (fun w w' : world K PS => net_step (w_net w) (w_net w')) := step_footprint.

(** The outcome: the packet, an interruption that can be resumed, or an error of
    the socket. *)
Definition received (s : Z) (p : wire) (rest : list byte) (rc : Z) (pack : option packet) w' : Prop :=
  match pack with
  | Some pk =>
      (exists build data, new_packets (hdr_type p.1) = Some build /\ build p.1 data (zlen p.2) = Some (Some pk)) /\
      packet_ok pk /\ (forall s, recv_packet pk s = recv_wire p s) /\ at_rest s rest (w_net w') /\ idle (n_buf (w_net w'))
  | None =>
      rc = TCPSOCKET_INTERRUPTED /\ waiting s p rest (w_net w') /\ idle (n_buf (w_net w')) \/
      rc = SOCKET_ERROR /\ free_for (n_buf (w_net w')) s
  end.

Lemma known_type t build : new_packets t = Some build -> (t <? CONNECT) || (DISCONNECT <? t) = false.
Proof.
  unfold new_packets, CONNECT, CONNACK, PUBLISH, PUBACK, PUBREC, PUBREL, PUBCOMP, UNSUBACK, SUBACK, PINGREQ, PINGRESP, DISCONNECT.
  intros Hb. repeat match type of Hb with (if ?b then _ else _) = _ => destruct b eqn:?; [lia|] end. done.
Qed.

(** The packet of QoS 2 is stored. *)
Definition store_incoming (socket : Z) (p : wire) (data : list byte) (pack : packet) (error : Z) : P Z :=
  match pack with
  | PPublish pb =>
      if (hdr_type p.1 =? PUBLISH) && (hdr_qos p.1 =? 2) then
        body ← load (fun _ => subz data 0 (zlen p.2));
        MQTTPersistence_put socket (p.1 :: MQTTPacket_encode (zlen p.2)) [body] (hdr_type p.1) (pb_msgId pb) 1
      else mret error
  | _ => mret error
  end.

Lemma store_incoming_quiet w c x p j pack error :
  ready w c x -> packet_ok pack ->
  quiets w (store_incoming (nh_socket (c_net x)) p (p.2 ++ j) pack error) /\
  stepping (store_incoming (nh_socket (c_net x)) p (p.2 ++ j) pack error).
Proof.
  intros R Hok. unfold store_incoming. split.
  - destruct pack as [| pb | | | ]; try apply quiets_ret. destruct (_ && _); [|apply quiets_ret].
    apply (quiets_load _ _ _ p.2).
    { unfold subz. rewrite bool_decide_true by (rewrite zlen_app; pose proof (zlen_nonneg j); pose proof (zlen_nonneg p.2); lia).
      unfold zlen. by rewrite Nat2Z.id, drop_0, take_app_length. }
    destruct Hok as (_ & _ & Hid). apply (quiets_put w c x); [done|done|by left].
  - pose proof F. pose proof (fun sock b0 bs t id scr => within_put _ F sock b0 bs t id scr). footprint.
Qed.

Lemma Factory_step w c x p rest :
  live w -> client_in w c -> w_cl w !! c = Some x -> 0 < nh_socket (c_net x) -> good p ->
  idle (n_buf (w_net w)) -> waiting (nh_socket (c_net x)) p rest (w_net w) ->
  exists rc pack w', MQTTPacket_Factory junk c w = Some ((rc, pack), w') /\ quiet w w' /\ net_safe (w_net w') /\
    (forall t, t <> nh_socket (c_net x) -> t <> 0 -> keeps_input t (w_net w) (w_net w')) /\
    received (nh_socket (c_net x)) p rest rc pack w'.
Proof.
  intros L Hc Hx Hs Hg Hi Hw. unfold MQTTPacket_Factory. mstep (client_eq w c x Hx). cbv zeta. set (s := nh_socket (c_net x)) in *.
  destruct (Factory_read_safe junk s p rest (w_net w)) as (rc & res & n1 & E1 & N1 & Hl & Hk & Hin); try done;
    [lia|apply Hg|apply L|].
  set (w1 := set_net n1 w). assert (E1' : onet (Reader.Factory_read junk s) w = Some ((rc, res), w1)) by (unfold onet, zoom; by rewrite E1).
  mstep E1'. pose proof (quiet_net w n1 : quiet w w1) as Q1.
  assert (Hin1 : forall t, t <> s -> t <> 0 -> keeps_input t (w_net w) n1) by (intros t Ht Ht0; split; [intros hs dat; by apply Hk|by apply Hin]).
  destruct res as [[[h len] data]|]; [|by exists rc, None, w1].
  destruct Hl as (-> & -> & -> & [j ->] & Hr & Hi1). destruct (good_build p j Hg) as (build & pack & Hb & Hp & Hok & Hrecv).
  rewrite (known_type _ _ Hb), Hb. erewrite bind_step; [|unfold load; by rewrite Hp].
  assert (R0 : ready w c x) by (split; [apply (i_wf _ _ _ _ _ (lv_inv _ L))|by apply live_at]).
  assert (R1 : ready w1 c x) by (destruct R0 as [[] []]; by split).
  destruct (store_incoming_quiet w1 c x p j pack TCPSOCKET_COMPLETE R1 Hok) as [(rc2 & w2 & E2 & Q2) Hst2].
  fold s in E2, Hst2. change (match pack with PPublish pb => _ | _ => _ end) with (store_incoming s p (p.2 ++ j) pack TCPSOCKET_COMPLETE).
  mstep E2. destruct (quiet_ready _ _ _ _ Q2 R1) as (x2 & R2 & _).
  destruct (quiets_stamp_received w2 c x2 (ready_client _ _ _ R2) (r_wf _ _ _ R2)) as ([] & w3 & E3 & Q3). mstep E3.
  assert (St : net_step n1 (w_net w3)).
  { etrans; [exact (Hst2 _ _ _ E2)|]. apply (stepping_run _ _ _ _ E3). pose proof F. unfold stamp_received. footprint. }
  exists rc2, (Some pack), w3. split; [done|]. split; [etrans; [exact Q1|by etrans]|].
  split; [by eapply net_step_safe|]. split; [|split_and!; try done; [by exists build, (p.2 ++ j)|by eapply net_step_rest|by eapply net_step_idle]].
  intros t Ht Ht0. destruct (Hin1 t Ht Ht0) as [H1 H2]. split; [|by rewrite (st_in _ _ St)].
  intros hs dat Hh. eapply same_input_kept; [by apply net_step_input|]. by apply H1.
Qed.
End factory.
End Incoming.
