(* ===== verification/Clock.v ===== *)
(** Time.  Every computation of the network loop is made of system calls, so the
    looks at the clock that are left before a moment do not become more while it
    runs; the loop of [MQTTClient_yield] ends because it looks at the clock each
    time around. *)
From S2P Require Import Prelude ListSpec Packet SocketBuffer Socket Reader Writer Wire World Persistence Send Store Session Protocol Footprint Client.

Module Clock.
Import Packet SocketBuffer Socket Reader Writer Wire World Persistence Send Store Session Protocol Footprint Client.

(** * The network *)

Section network.
Context {K : Type} `{CL : ClockLaws K}.

(** Not more looks at the clock are left than before. *)
Definition later (n n' : net K) : Prop := forall d, (clock_looks d (n_k n') <= clock_looks d (n_k n))%nat.

#[global] Instance later_preorder : PreOrder later.
Proof. split; [by intros n d|]. intros n1 n2 n3 H1 H2 d. specialize (H1 d). specialize (H2 d). lia. Qed.
Lemma later_same n n' : n_k n' = n_k n -> later n n'.
Proof. intros E d. by rewrite E. Qed.
Definition timed {A} (m : M (net K) A) : Prop := forall n a n', m n = Some (a, n') -> later n n'.

Lemma timed_bind {A B} (m : M (net K) A) (f : A -> M (net K) B) : timed m -> (forall a, timed (f a)) -> timed (m ≫= f).
Proof. intros Hm Hf n b n' (a & n1 & E1 & E2)%bind_Some. by etrans; [eapply Hm|eapply Hf]. Qed.
Lemma timed_still {A} (m : M (net K) A) : (forall n a n', m n = Some (a, n') -> n_k n' = n_k n) -> timed m.
Proof. intros Hm n a n' E. by eapply later_same, Hm. Qed.
Lemma timed_ret {A} (a : A) : timed (mret a).
Proof. apply timed_still. by intros n b n' [= _ <-]. Qed.
Lemma timed_undefined {A} : timed (undefined : M (net K) A).
Proof. done. Qed.
Lemma timed_gets {A} (f : net K -> A) : timed (gets f).
Proof. apply timed_still. by intros n b n' [= _ <-]. Qed.
Lemma timed_load {A} (f : net K -> option A) : timed (load f).
Proof. apply timed_still. unfold load. intros n b n' E. destruct (f n); [|done]. by injection E as _ <-. Qed.
Lemma timed_buf {A} (m : M sbuf A) : timed (buf m).
Proof. apply timed_still. unfold buf, zoom. intros n a n' E. destruct (m (n_buf n)) as [[b s]|]; [|done]. by injection E as _ <-. Qed.
Lemma timed_sockets {A} (m : M Sockets A) : timed (sockets m).
Proof. apply timed_still. unfold sockets, zoom. intros n a n' E. destruct (m (n_s n)) as [[b s]|]; [|done]. by injection E as _ <-. Qed.
Lemma timed_find_int get set v : timed (find_int get set v).
Proof. apply timed_sockets. Qed.
Lemma timed_remove_int get set v : timed (remove_int get set v).
Proof. apply timed_sockets. Qed.
Lemma timed_sys {A} (f : K -> A * K) : (forall d k, (clock_looks d (f k).2 <= clock_looks d k)%nat) -> timed (sys f).
Proof.
  intros Hf n a n'. unfold sys. pose proof (fun d => Hf d (n_k n)) as Hk. destruct (f (n_k n)). intros [= _ <-]. exact Hk.
Qed.
Lemma timed_recv s n : timed (sys (k_recv s n)).
Proof. apply timed_sys. intros d k. apply looks_recv. Qed.
Lemma timed_writev s bs : timed (sys (k_writev s bs)).
Proof. apply timed_sys. intros d k. apply looks_writev. Qed.
Lemma timed_select m rs ws t : timed (sys (k_select m rs ws t)).
Proof. apply timed_sys. intros d k. apply looks_select. Qed.
Lemma timed_shutdown s : timed (sys (k_shutdown s)).
Proof. apply timed_sys. intros d k. apply looks_shutdown. Qed.
Lemma timed_close s : timed (sys (k_close s)).
Proof. apply timed_sys. intros d k. apply looks_close. Qed.
Lemma timed_time : timed (sys k_time).
Proof. apply timed_sys. intros d k. apply looks_time. Qed.
Lemma timed_look : timed (sys k_gettimeofday).
Proof. apply timed_sys. intros d k. apply looks_gettimeofday. Qed.
End network.

Create HintDb timed.
#[export] Hint Resolve timed_ret timed_undefined timed_gets timed_load timed_buf timed_sockets timed_find_int timed_remove_int
  timed_recv timed_writev timed_select timed_shutdown timed_close timed_time timed_look : timed.

(** Down to the system calls. *)
Ltac timed :=
  repeat first [solve [eauto with timed] | apply timed_bind; [|intros ?] | progress unfold when | case_match | progress cbv zeta].

Section operations.
Context {K : Type} `{CL : ClockLaws K}.
Variable junk : socket_queue.

Lemma timed_noPending s : timed (Socket_noPendingWrites s).
Proof. unfold Socket_noPendingWrites. timed. Qed.
Lemma timed_Socket_writev s bs : timed (Socket_writev s bs).
Proof. unfold Socket_writev. timed. Qed.
#[local] Hint Resolve timed_noPending timed_Socket_writev : timed.
Lemma timed_putdatas s b0 bs fs : timed (Socket_putdatas s b0 bs fs).
Proof. unfold Socket_putdatas. timed. Qed.
Lemma timed_continueWrite s : timed (Socket_continueWrite s).
Proof. unfold Socket_continueWrite. timed. Qed.
Lemma timed_isReady s rs ws : timed (isReady s rs ws).
Proof. unfold isReady. timed. Qed.
#[local] Hint Resolve timed_isReady : timed.
Lemma timed_scan_ready fuel : timed (scan_ready fuel).
Proof. induction fuel as [|fuel IH]; cbn [scan_ready]; timed. Qed.
Lemma timed_Socket_close s : timed (Socket_close s).
Proof. unfold Socket_close, Socket_close_only. timed. Qed.

Lemma timed_getch s : timed (Socket_getch junk s).
Proof. unfold Socket_getch. timed. Qed.
#[local] Hint Resolve timed_getch : timed.
Lemma timed_decode s : forall fuel len mult value, timed (decode_loop (Socket_getch junk s) fuel len mult value).
Proof. induction fuel as [|fuel IH]; intros; simpl; [by intros ? ? ?|]. timed. Qed.
#[local] Hint Resolve timed_decode : timed.
Lemma timed_Factory s : timed (Factory_read junk s).
Proof. unfold Factory_read, MQTTPacket_decode, Socket_getdata. timed. Qed.
End operations.

(** * The client *)

Section client.
Context {K PS : Type} `{CL : ClockLaws K}.
Variable junk : socket_queue.
Variable uninit : Z.
Implicit Types (w : world K PS).
Abbreviation P := (M (world K PS)).
Abbreviation timely := (within (fun w w' : world K PS => later (w_net w) (w_net w'))).

Lemma clock_footprint : footprint (fun w w' : world K PS => later (w_net w) (w_net w')).
Proof.
  split.
  - by intros w.
  - intros w1 w2 w3 H1 H2. by etrans.
  - intros w w' E _. apply later_same. by rewrite E.
  - intros w t n. apply timed_time.
  - intros w s b n. apply timed_noPending.
  - intros w s b0 bs fs rc n. apply timed_putdatas.
  - intros w s t p r n. apply timed_buf.
Qed.
Let F := clock_footprint.

Lemma timely_onet {A} (m : M (net K) A) : timed m -> timely (onet m).
Proof. intros Hm. apply within_onet. intros w a n. apply Hm. Qed.

Lemma timely_persist c q : timely (MQTTPersistence_persistQueueEntry c q).
Proof. intros w r w' E. apply later_same. by rewrite (persist_net _ _ _ _ _ E). Qed.

Lemma timely_close s : timely (onet (Socket_close s)).
Proof. apply timely_onet, timed_Socket_close. Qed.

Lemma timely_nets {A} (m : M (net K) A) : timed m -> timely (nets w_net set_net m).
Proof. apply timely_onet. Qed.

Lemma timely_writeComplete s : timely (MQTTClient_writeComplete s : P unit).
Proof. pose proof F. pose proof (within_checkPending _ F). unfold MQTTClient_writeComplete. footprint. Qed.

Lemma timely_ready more tp : timely (Socket_getReadySocket w_net set_net (Some MQTTClient_writeComplete) more tp).
Proof.
  pose proof F. pose proof (@timely_nets). pose proof timely_writeComplete.
  assert (Hc : forall fuel pwset cp, timely (continueWrites_loop w_net set_net (Some MQTTClient_writeComplete) fuel pwset cp)).
  { induction fuel as [|fuel IH]; intros pwset cp; cbn [continueWrites_loop]; [footprint|]. destruct cp as [a|]; [|footprint].
    pose proof (fun s => timely_nets _ (timed_continueWrite s)).
    pose proof (fun A (m : M sbuf A) => timely_nets _ (timed_buf m)). pose proof (fun A (m : M Sockets A) => timely_nets _ (timed_sockets m)).
    pose proof (fun A (f : net K -> option A) => timely_nets _ (timed_load f)). footprint. }
  unfold Socket_getReadySocket, Socket_continueWrites. cbv zeta.
  assert (Hfin : timely (nets w_net set_net (s ← gets n_s;
      match cur_clientsds s with
      | None => mret 0
      | Some a =>
          c ← load (fun _ => LSpec.elem_content (clientsds s) a);
          nx ← load (fun _ => LSpec.next_element (clientsds s) (Some a));
          sockets (modify (set_cur_clientsds nx));;
          mret (c : icell).2
      end))) by (apply timely_nets; timed).
  pose proof (fun n => timely_nets _ (timed_scan_ready n)). pose proof (fun A (m : M Sockets A) => timely_nets _ (timed_sockets m)).
  pose proof (fun m rs ws t => timely_nets _ (timed_select m rs ws t)). footprint.
Qed.

Lemma timely_Factory c : timely (MQTTPacket_Factory junk c).
Proof.
  pose proof F. pose proof (fun s => timely_onet _ (timed_Factory junk s)). pose proof (fun s b0 bs t id scr => within_put _ F s b0 bs t id scr).
  unfold MQTTPacket_Factory. footprint.
Qed.

Lemma timely_dispatch sock c pk rc : timely (dispatch uninit sock c pk rc).
Proof.
  pose proof F. pose proof timely_persist as Hp. pose proof (fun p s => within_publishes uninit _ F Hp p s).
  pose proof (fun a s => within_pubrel uninit _ F Hp a s). pose proof (fun a s => within_puback _ F a s).
  pose proof (fun a s => within_pubrec _ F a s). pose proof (fun a s => within_pubcomp _ F a s). pose proof (fun s => within_pingresp _ F s).
  unfold dispatch, handle. footprint.
Qed.

Lemma timely_cycle timeout rc : timely (MQTTClient_cycle junk uninit timeout rc).
Proof.
  pose proof F. pose proof timely_Factory. pose proof timely_dispatch. pose proof timely_ready.
  pose proof (fun now => within_keepalive _ F timely_close now).
  pose proof (fun now d r => within_retry uninit _ F timely_close now d r).
  unfold MQTTClient_cycle, MQTTClient_retry. footprint.
Qed.

Lemma timely_yield fuel : timely (MQTTClient_yield junk uninit fuel).
Proof.
  pose proof F. pose proof timely_cycle. pose proof (fun c => within_disconnect_internal _ F timely_close c).
  pose proof (timely_onet _ timed_look).
  assert (Hl : forall n start elapsed rc, timely (yield_loop junk uninit n start elapsed rc)).
  { induction n as [|n IH]; intros; cbn [yield_loop]; [by intros ? ? ?|]. unfold elapsed_ulong, MQTTClient_elapsed. footprint. }
  unfold MQTTClient_yield, MQTTClient_start_clock, elapsed_ulong, MQTTClient_elapsed. footprint.
Qed.
End client.
End Clock.
