(* ===== verification/Cycle.v ===== *)
(** The network loop.  One call of [MQTTClient_cycle] takes at most one packet
    from one socket, whatever the network does and however many clients there
    are, and each client evolves by abstract transitions only: it receives the
    next packet that was sent to it, or it is hung up.  [MQTTClient_yield]
    repeats this, and leaves no input queue behind for a failed socket. *)
From stdpp Require Import gmultiset.
From S2P Require Import Prelude ListSpec Packet SocketBuffer Socket Reader Writer Wire World Persistence Send Store Session Protocol Memory Sending Steps Handlers Receiver Sender Closing Restore Client Footprint Live Pending Retry Dispatch Incoming.

Module Cycle.
Import Packet SocketBuffer Socket Writer Wire World Persistence Send Store Session Protocol Memory Sending Steps Handlers Receiver Sender Closing Restore Client Footprint Live Pending Retry Dispatch Incoming.

#[local] Arguments zlen : simpl never.

(** * The abstract client *)

(** A session, and the packets that will arrive when the client is online. *)
Inductive link := Off | On (ps : list wire) | Failed.
Abbreviation astate := (session * link)%type.

(** [k] packets at most are received; a connection may fail at any point, and a
    client with [clean] sessions loses its session when it is hung up. *)
Inductive evolves (clean : Z) : nat -> astate -> astate -> Prop :=
  | ev_stay k a : evolves clean k a a
  | ev_receive s p ps : evolves clean 1 (s, On (p :: ps)) (recv_wire p s, On ps)
  | ev_fail k s ps : evolves clean k (s, On ps) (s, Failed)
  | ev_hang_up k s l : l <> Off -> evolves clean k (s, l) (s_closed clean s, Off)
  | ev_trans j k a1 a2 a3 : evolves clean j a1 a2 -> evolves clean k a2 a3 -> evolves clean (j + k) a1 a3.

(** A client that is still online has received at most [k] packets, in the order
    in which they were sent. *)
Lemma evolves_online clean k a a' :
  evolves clean k a a' -> forall ps', a'.2 = On ps' ->
  exists ps, a.2 = On (ps ++ ps') /\ (length ps <= k)%nat /\ a'.1 = foldl (fun s p => recv_wire p s) a.1 ps.
Proof.
  induction 1 as [k a|s p ps|k s ps|k s l|j k a1 a2 a3 _ IH1 _ IH2]; intros ps'; simpl; try done.
  - intros E. exists []. split; [done|]. split; [simpl; lia|done].
  - intros [= <-]. exists [p]. split; [done|]. split; [simpl; lia|done].
  - intros E. destruct (IH2 _ E) as (k2 & E2 & Hk2 & Es2). destruct (IH1 _ E2) as (k1 & E1 & Hk1 & Es1).
    exists (k1 ++ k2). rewrite <- app_assoc, foldl_app, <- Es1. split; [done|]. split; [rewrite length_app; lia|done].
Qed.

Section cycle.
Context {K PS : Type} `{KL : KernelLaws K}.
Variable junk : socket_queue.
Hypothesis junk_header : length (q_fixed_header junk) = 5%nat.
Variable uninit : Z.
Implicit Types (w : world K PS) (x : Clients PS).
Abbreviation P := (M (world K PS)).
Abbreviation stepping := (within (fun w w' : world K PS => net_step (w_net w) (w_net w'))).
Let F : footprint (fun w w' : world K PS => net_step (w_net w) (w_net w')) := step_footprint.
Let G : footprint (fun w w' : world K PS => seqnos w' = seqnos w) := seqno_footprint.

(** * What is to come *)

Definition stream (s : Z) (ps : list wire) (n : net K) : Prop := exists tail,
  match ps with
  | [] => at_rest s tail n
  | p :: ps' => waiting s p (concat (Reader.packet_bytes <$> ps') ++ tail) n
  end.

Lemma stream_keeps s ps n n' : keeps_input s n n' -> stream s ps n -> stream s ps n'.
Proof.
  intros [Hk Hin] [tail Hs]. exists tail. destruct ps; [|by eapply waiting_move].
  destruct Hs as [H1 H2]. split; [by apply Hk|by rewrite Hin].
Qed.

Lemma rest_stream s ps tail n : at_rest s (concat (Reader.packet_bytes <$> ps) ++ tail) n -> stream s ps n.
Proof.
  intros Hr. exists tail. destruct ps as [|p ps]; [done|]. simpl in Hr. rewrite <- app_assoc in Hr. by apply at_rest_waiting.
Qed.

(** The abstract state of a client. *)
Definition view w (c : loc) (a : astate) : Prop :=
  session_of w c = Some a.1 /\ exists x, w_cl w !! c = Some x /\
  match a.2 with
  | Off => online x = false
  | On ps => online x = true /\ Forall good ps /\ stream (nh_socket (c_net x)) ps (w_net w)
  | Failed => online x = true
  end.
Definition views (A : loc -> astate) w : Prop := forall c, client_in w c -> view w c (A c).

(** Room for [k] more messages in the store of the delivery queue. *)
Definition rooms (k : nat) w : Prop := forall c x, client_in w c -> w_cl w !! c = Some x ->
  c_persistence x = None \/ 0 <= c_qentry_seqno x /\ c_qentry_seqno x + Z.of_nat k <= 999999.

Definition clean_of w (c : loc) : Z := match w_cl w !! c with Some x => cd_cleansession (c_data x) | None => 0 end.

(** How the clients evolve from one state to another. *)
Definition progress (k : nat) (A A' : loc -> astate) w w' : Prop :=
  LSpec.contents (w_clients w') = LSpec.contents (w_clients w) /\
  forall c, client_in w c -> clean_of w' c = clean_of w c /\ evolves (clean_of w c) k (A c) (A' c).

Lemma progress_trans j k A1 A2 A3 w1 w2 w3 :
  progress j A1 A2 w1 w2 -> progress k A2 A3 w2 w3 -> progress (j + k) A1 A3 w1 w3.
Proof.
  intros [H1 H2] [H3 H4]. split; [by rewrite H3|]. intros c Hc. destruct (H2 c Hc) as [C1 E1].
  destruct (H4 c) as [C2 E2]; [unfold client_in; by rewrite H1|]. split; [by rewrite C2|]. rewrite C1 in E2. by eapply ev_trans.
Qed.

Lemma same_view w w' c a : live w -> client_in w c -> same_client c w w' -> view w c a -> view w' c a /\ clean_of w' c = clean_of w c.
Proof.
  intros L Hc S (Hs & x & Hx & Hl). destruct (same_lookup _ _ _ _ S Hx) as (x' & Hx' & B).
  split; [|unfold clean_of; by rewrite Hx, Hx', (cb_data _ _ B)]. split; [by rewrite (sc_session _ _ _ S)|]. exists x'. split; [done|].
  rewrite (cbase_online _ _ B), (cb_socket _ _ B). destruct a.2 as [|ps|]; [done| |done]. destruct Hl as (Ho & Hg & Hst). split_and!; try done.
  destruct (lv_online _ L c x Hc Hx) as [Hso _]. rewrite Ho in Hso. symmetry in Hso. apply bool_decide_eq_true in Hso.
  eapply stream_keeps; [|exact Hst]. by apply S.
Qed.

(** Clients that have been hung up are off. *)
Definition hang_up w (A : loc -> astate) (c : loc) : astate :=
  match w_cl w !! c, session_of w c with
  | Some x, Some s => if online x then A c else (s, Off)
  | _, _ => A c
  end.

Lemma hang_up_failed w A c : (hang_up w A c).2 = Failed -> (A c).2 = Failed.
Proof. unfold hang_up. by repeat case_match. Qed.

Lemma turn_views A w w' :
  live w -> turn w w' -> views A w -> views (hang_up w' A) w' /\ progress 0 A (hang_up w' A) w w'.
Proof.
  intros L T V. cut (forall c, client_in w c ->
    view w' c (hang_up w' A c) /\ clean_of w' c = clean_of w c /\ evolves (clean_of w c) 0 (A c) (hang_up w' A c)).
  { intros HA. split; [|split; [apply T|intros c Hc; by apply HA]]. intros c. unfold client_in. rewrite (tn_clients _ _ T). intros Hc. by apply HA. }
  intros c Hc. unfold hang_up. destruct (tn_each _ _ T c Hc) as [S|(x & x' & Hx & Hx' & Ho & H1 & Hs & _)].
  - destruct (same_view _ _ _ _ L Hc S (V c Hc)) as [V' C']. pose proof V' as (Hs & x & Hx & Hl). rewrite Hx, Hs.
    destruct (online x) eqn:Ho; [split_and!; [done..|constructor]|].
    assert (E : ((A c).1, Off) = A c) by (destruct (A c) as [s [|ps|]]; simpl in *; [done|destruct Hl; congruence|congruence]).
    rewrite E. split_and!; [done..|constructor].
  - destruct (V c Hc) as (Hs0 & y & Hy & Hl). rewrite Hx in Hy. injection Hy as <-.
    unfold clean_of. rewrite Hx, Hx', (hg_data _ _ H1), Hs, Hs0. simpl. rewrite (hung_online _ _ H1).
    destruct (A c) as [s l]. simpl in *. assert (Hoff : l <> Off) by (intros ->; congruence).
    split; [|split; [done|by constructor]]. split; [by rewrite Hs, Hs0|]. exists x'. split; [done|by eapply hung_online].
Qed.

Lemma turn_rooms w w' k : turn w w' -> rooms k w -> rooms k w'.
Proof.
  intros T R c x' Hc Hx'. unfold client_in in Hc. rewrite (tn_clients _ _ T) in Hc.
  assert (Hx : exists x, w_cl w !! c = Some x /\ c_persistence x' = c_persistence x).
  { destruct (tn_each _ _ T c Hc) as [S|(x & y & Hx & Hy & _ & Hh & _)].
    - destruct (cconn_lookup _ _ _ _ (sc_conn _ _ _ S) Hx') as (x & Hx & B). exists x. split; [done|apply B].
    - rewrite Hx' in Hy. injection Hy as <-. exists x. split; [done|apply Hh]. }
  destruct Hx as (x & Hx & ->). pose proof (f_equal (fun m => m !! c) (tn_seqno _ _ T)) as E. unfold seqnos in E.
  rewrite !lookup_fmap, Hx, Hx' in E. simpl in E. injection E as ->. by apply (R c).
Qed.

(** * Dispatching *)

Lemma stepping_persist c q : stepping (MQTTPersistence_persistQueueEntry c q).
Proof. intros w r w' E. by rewrite (persist_net _ _ _ _ _ E). Qed.

Lemma stepping_dispatch sock c pk rc : stepping (dispatch uninit sock c pk rc).
Proof.
  pose proof F. pose proof stepping_persist. pose proof (fun p s => within_publishes uninit _ F stepping_persist p s).
  pose proof (fun a s => within_pubrel uninit _ F stepping_persist a s). pose proof (fun a s => within_puback _ F a s).
  pose proof (fun a s => within_pubrec _ F a s). pose proof (fun a s => within_pubcomp _ F a s). pose proof (fun s => within_pingresp _ F s).
  unfold dispatch, handle. footprint.
Qed.

Lemma growing_dispatch sock c pk rc : growing 1 (dispatch uninit sock c pk rc : P (Z * option packet)).
Proof.
  pose proof G. pose proof (fun a s => within_puback _ G a s). pose proof (fun a s => within_pubrec _ G a s).
  pose proof (fun a s => within_pubcomp _ G a s). pose proof (fun s => within_pingresp _ G s). unfold dispatch, handle. cbv zeta.
  destruct (_ =? PUBLISH); [destruct pk; try (apply growing_still, within_undefined; exact G); apply growing_last; [apply growing_publishes|intros; footprint]|].
  destruct (_ || _); [apply growing_still; footprint|]. destruct (_ =? PUBREC); [apply growing_still; footprint|].
  destruct (_ =? PUBREL); [|apply growing_still; footprint].
  destruct pk; try (apply growing_still, within_undefined; exact G). apply growing_last; [apply growing_pubrel|intros; footprint].
Qed.

(** * One packet *)

(** No input queue belongs to a failed socket, and no connection has failed. *)
Definition settled (A : loc -> astate) w : Prop :=
  idle (n_buf (w_net w)) /\ forall c, client_in w c -> (A c).2 <> Failed.

(** Only the connection of socket [s] may have failed, and the input queue may
    belong to it. *)
Definition failed (s : Z) (A : loc -> astate) w : Prop :=
  free_for (n_buf (w_net w)) s /\ 0 < s /\ exists c x, client_in w c /\ w_cl w !! c = Some x /\ nh_socket (c_net x) = s /\
    forall d, client_in w d -> (A d).2 = Failed -> d = c.

Definition put_state (c : loc) (a : astate) (A : loc -> astate) (d : loc) : astate := if decide (d = c) then a else A d.

(** Between two calls of the loop. *)
Record running (k : nat) (A : loc -> astate) w : Prop := {
  rn_live : live w; rn_views : views A w; rn_rooms : rooms k w }.

Lemma others_views A w w' c a :
  live w -> views A w -> (forall d, d <> c -> client_in w d -> same_client d w w') ->
  LSpec.contents (w_clients w') = LSpec.contents (w_clients w) ->
  view w' c a -> clean_of w' c = clean_of w c -> evolves (clean_of w c) 1 (A c) a ->
  views (put_state c a A) w' /\ progress 1 A (put_state c a A) w w'.
Proof.
  intros L V Hd Hc Vc Cc Ec.
  assert (HA : forall d, client_in w d -> view w' d (put_state c a A d) /\ clean_of w' d = clean_of w d /\
    evolves (clean_of w d) 1 (A d) (put_state c a A d)).
  { intros d Hin. unfold put_state. case_decide as E; [by subst|]. destruct (same_view w w' d (A d) L Hin (Hd d E Hin) (V d Hin)).
    split_and!; [done..|constructor]. }
  split; [|split; [done|intros d Hin; by apply HA]]. intros d. unfold client_in. rewrite Hc. intros Hin. by apply HA.
Qed.

Lemma quiet_others w w' s x c :
  live w -> client_in w c -> w_cl w !! c = Some x -> nh_socket (c_net x) = s -> 0 < s -> quiet w w' ->
  (forall t, t <> s -> t <> 0 -> keeps_input t (w_net w) (w_net w')) -> forall d, d <> c -> client_in w d -> same_client d w w'.
Proof.
  intros L Hc Hx Hs Hpos Q Hk d Hd Hin. split; [by apply links_client, shell_links, quiet_shell|by apply quiet_session|].
  intros y Hy Hy0. apply Hk; [|lia]. intros E. apply Hd. eapply (lv_unique _ L c d); [done..|lia|lia].
Qed.

Lemma same_links d w w' :
  links w w' -> session_of w' d = session_of w d -> net_step (w_net w) (w_net w') -> same_client d w w'.
Proof.
  intros Lk Hs St. split; [by apply links_client|done|]. intros x _ _. split; [|apply St].
  intros hs dat. apply same_input_kept, net_step_input, St.
Qed.

(** What the loop does with a socket that is ready. *)
Definition serve (sock : Z) (c : loc) : P (Z * option packet) :=
  r ← MQTTPacket_Factory junk c;
  let '(rc, pack) := (r : Z * option packet) in
  let rc := if rc =? TCPSOCKET_INTERRUPTED then 0 else rc in
  match pack with
  | None => mret (rc, None)
  | Some pack => dispatch uninit sock c pack rc
  end.

(** The outcome of serving, and of the whole cycle. *)
Definition cycled (k : nat) (A : loc -> astate) w (sock rc : Z) w' : Prop :=
  exists A', running k A' w' /\ progress 1 A A' w w' /\ (settled A' w' \/ rc = SOCKET_ERROR /\ failed sock A' w').

Lemma rooms_quiet k w w' : quiet w w' -> rooms k w -> rooms k w'.
Proof.
  intros Q R c x' Hc Hx'. unfold client_in, LSpec.contents in Hc. rewrite (q_clients _ _ Q) in Hc.
  destruct (quiet_client_inv _ _ _ _ Q Hx') as (x & Hx & C%cnorm_csim). rewrite (cs_per _ _ C), (cs_seqno _ _ C). by apply (R c).
Qed.

Lemma clean_links w w' c x : links w w' -> w_cl w !! c = Some x -> clean_of w' c = clean_of w c /\
  exists x', w_cl w' !! c = Some x' /\ cbase x x'.
Proof.
  intros Lk Hx. pose proof (links_client c _ _ Lk) as E. rewrite Hx in E. unfold clean_of. rewrite Hx.
  destruct (w_cl w' !! c) as [x'|]; [|done]. assert (B : cbase x x') by (apply cconn_cbase; exact (inj Some _ _ E)).
  split; [by rewrite (cb_data _ _ B)|by exists x'].
Qed.

(** The packet did not come, or not completely. *)
Lemma serve_nothing w w1 c x s p ps tail k A rc :
  running (S k) A w -> settled A w -> client_in w c -> w_cl w !! c = Some x -> 0 < nh_socket (c_net x) -> A c = (s, On (p :: ps)) ->
  quiet w w1 -> net_safe (w_net w1) -> (forall t, t <> nh_socket (c_net x) -> t <> 0 -> keeps_input t (w_net w) (w_net w1)) ->
  received (nh_socket (c_net x)) p (concat (Reader.packet_bytes <$> ps) ++ tail) rc None w1 ->
  cycled k A w (nh_socket (c_net x)) (if rc =? TCPSOCKET_INTERRUPTED then 0 else rc) w1.
Proof.
  intros [L V R] [Hi Hf] Hc Hx Hpos Ha Q N Hk Hr. pose proof (quiet_others _ _ _ _ _ L Hc Hx eq_refl Hpos Q Hk) as Hd.
  pose proof (shell_links _ _ (quiet_shell _ _ Q)) as Lk. destruct (clean_links _ _ _ _ Lk Hx) as (Cc & x1 & Hx1 & B).
  assert (L1 : live w1).
  { eapply live_links; [done|done|by apply (quiet_inv _ _ _ _ _ _ Q), L|done|rewrite (q_pending _ _ Q); apply L]. }
  assert (Ec : LSpec.contents (w_clients w1) = LSpec.contents (w_clients w)) by (unfold LSpec.contents; by rewrite (q_clients _ _ Q)).
  assert (R1 : rooms k w1).
  { intros d y Hin Hy. destruct (rooms_quiet _ _ _ Q R d y Hin Hy) as [?|[? ?]]; [by left|right; lia]. }
  pose proof (V c Hc) as (Hs & y & Hy & Hl). rewrite Hx in Hy. injection Hy as <-. rewrite Ha in Hs, Hl. simpl in Hs, Hl.
  destruct Hl as (Ho & Hg & _). destruct Hr as [(-> & Hw & Hi1)|(-> & Hfree)].
  - assert (Vc : view w1 c (A c)).
    { rewrite Ha. split; [by rewrite (quiet_session _ _ c Q)|]. exists x1. split; [done|]. simpl.
      rewrite (cbase_online _ _ B), (cb_socket _ _ B). split_and!; try done. by exists tail. }
    destruct (others_views A w w1 c (A c) L V Hd Ec Vc Cc) as [V1 P1]; [constructor|].
    exists (put_state c (A c) A). split; [done|]. split; [done|]. left. split; [done|]. intros d. unfold client_in. rewrite Ec.
    intros Hin. unfold put_state. case_decide; [by rewrite Ha|]. by apply Hf.
  - assert (Vc : view w1 c (s, Failed)).
    { split; [by rewrite (quiet_session _ _ c Q)|]. exists x1. split; [done|]. simpl. by rewrite (cbase_online _ _ B). }
    destruct (others_views A w w1 c (s, Failed) L V Hd Ec Vc Cc) as [V1 P1]; [rewrite Ha; constructor|].
    exists (put_state c (s, Failed) A). split; [done|]. split; [done|]. right. split; [done|]. split; [done|]. split; [done|].
    exists c, x1. split; [unfold client_in; by rewrite Ec|]. split; [done|]. split; [apply B|].
    intros d. unfold client_in. rewrite Ec. intros Hin. unfold put_state. case_decide; [done|]. intros E. by destruct (Hf d Hin).
Qed.

(** A whole packet came, and is handled. *)
Lemma serve_packet w w1 c x s p ps tail k A rc pk :
  running (S k) A w -> settled A w -> client_in w c -> w_cl w !! c = Some x -> 0 < nh_socket (c_net x) -> A c = (s, On (p :: ps)) ->
  quiet w w1 -> net_safe (w_net w1) -> (forall t, t <> nh_socket (c_net x) -> t <> 0 -> keeps_input t (w_net w) (w_net w1)) ->
  received (nh_socket (c_net x)) p (concat (Reader.packet_bytes <$> ps) ++ tail) rc (Some pk) w1 ->
  exists rc' pack w', dispatch uninit (nh_socket (c_net x)) c pk (if rc =? TCPSOCKET_INTERRUPTED then 0 else rc) w1 = Some ((rc', pack), w') /\
    cycled k A w (nh_socket (c_net x)) rc' w'.
Proof.
  intros [L V R] [Hi Hf] Hc Hx Hpos Ha Q N Hk ((build & data & Hb & Hp) & Hok & Hrecv & Hrest & Hi1).
  pose proof (quiet_others _ _ _ _ _ L Hc Hx eq_refl Hpos Q Hk) as Hd.
  pose proof (shell_links _ _ (quiet_shell _ _ Q)) as Lk1.
  assert (L1 : live w1).
  { eapply live_links; [done|done|by apply (quiet_inv _ _ _ _ _ _ Q), L|done|rewrite (q_pending _ _ Q); apply L]. }
  assert (Ec1 : LSpec.contents (w_clients w1) = LSpec.contents (w_clients w)) by (unfold LSpec.contents; by rewrite (q_clients _ _ Q)).
  assert (Hc1 : client_in w1 c) by (unfold client_in; by rewrite Ec1).
  destruct (quiet_csim _ _ _ _ Q Hx) as (x1 & Hx1 & Cs). destruct (lv_ms _ L1 c Hc1) as [m Hm].
  pose proof (V c Hc) as (Hs & y & Hy & Hl). rewrite Hx in Hy. injection Hy as <-. rewrite Ha in Hs, Hl. simpl in Hs, Hl.
  destruct Hl as (Ho & Hg & _). rewrite <- (quiet_session _ _ c Q) in Hs. pose proof (rooms_quiet _ _ _ Q R) as R1.
  set (rc0 := if rc =? TCPSOCKET_INTERRUPTED then 0 else rc).
  destruct (dispatch_step uninit w1 (nh_socket (c_net x)) c x1 s m pk p.1 data (zlen p.2) build rc0) as
    (rc' & pack & w' & E & I' & S & _ & _ & _ & _ & Lk2 & Pn2); try done.
  { apply L1. } { rewrite <- (cs_socket _ _ Cs). apply live_at; [done..|by rewrite (cs_socket _ _ Cs)]. }
  { destruct (R1 c x1 Hc1 Hx1) as [?|[? ?]]; [by left|right; lia]. }
  exists rc', pack, w'. split; [done|]. pose proof (stepping_dispatch _ _ _ _ _ _ _ E) as St. cbv beta in St.
  assert (L' : live w') by (eapply live_links; [done|done|done|by eapply net_step_safe|rewrite Pn2; apply L1]).
  assert (Ec2 : LSpec.contents (w_clients w') = LSpec.contents (w_clients w1)) by (unfold LSpec.contents; by rewrite (lk_clients _ _ Lk2)).
  assert (Lk : links w w') by (destruct Lk1, Lk2; split; congruence). destruct (clean_links _ _ _ _ Lk Hx) as (Cc & x' & Hx' & B).
  assert (Hd' : forall d, d <> c -> client_in w d -> same_client d w w').
  { intros d Hne Hin. eapply same_client_trans; [by apply Hd|]. apply same_links; [done| |done]. by rewrite (S d), decide_False. }
  assert (Hg' : good p /\ Forall good ps) by (by apply Forall_cons).
  assert (Vc : view w' c (recv_wire p s, On ps)).
  { split; [by rewrite (S c), decide_True, Hs by done; simpl; rewrite Hrecv|]. exists x'. split; [done|]. simpl.
    rewrite (cbase_online _ _ B), (cb_socket _ _ B). split; [done|]. split; [apply Hg'|]. eapply rest_stream, net_step_rest; [exact St|exact Hrest]. }
  destruct (others_views A w w' c (recv_wire p s, On ps) L V Hd' ltac:(by rewrite Ec2) Vc Cc) as [V' P']; [rewrite Ha; constructor|].
  exists (put_state c (recv_wire p s, On ps) A). split; [|split; [done|left; split; [by eapply net_step_idle|]]].
  - split; [done|done|]. intros d y' Hin Hy'. unfold client_in in Hin. rewrite Ec2 in Hin.
    pose proof (links_client d _ _ Lk2) as Ed. rewrite Hy' in Ed. destruct (w_cl w1 !! d) as [y|] eqn:Hy; [|done].
    assert (Bd : cbase y y') by (apply cconn_cbase; exact (inj Some _ _ Ed)). rewrite (cb_per _ _ Bd).
    destruct (R1 d y Hin Hy) as [?|[Hlo Hhi]]; [by left|right].
    pose proof (proj2 (growing_dispatch _ _ _ _) _ _ _ E d (c_qentry_seqno y)) as Hgrow.
    rewrite (seqno_lookup _ _ _ Hy), (seqno_lookup _ _ _ Hy') in Hgrow. lia.
  - intros d. unfold client_in. rewrite Ec2, Ec1. intros Hin. unfold put_state. case_decide; [done|]. by apply Hf.
Qed.

Lemma serve_step w c x s p ps k A :
  running (S k) A w -> settled A w -> client_in w c -> w_cl w !! c = Some x -> 0 < nh_socket (c_net x) -> A c = (s, On (p :: ps)) ->
  exists rc pack w', serve (nh_socket (c_net x)) c w = Some ((rc, pack), w') /\ cycled k A w (nh_socket (c_net x)) rc w'.
Proof.
  intros Rn Se Hc Hx Hpos Ha. pose proof (rn_views _ _ _ Rn c Hc) as (_ & y & Hy & Hl). rewrite Hx in Hy. injection Hy as <-.
  rewrite Ha in Hl. simpl in Hl. destruct Hl as (_ & [Hg _]%Forall_cons & tail & Hw).
  destruct (Factory_step junk junk_header w c x p _ (rn_live _ _ _ Rn) Hc Hx Hpos Hg (proj1 Se) Hw) as (rc & [pk|] & w1 & E & Q & N & Hk & Hr);
    unfold serve; mstep E.
  - by eapply serve_packet.
  - eexists _, None, w1. split; [reflexivity|]. by eapply serve_nothing.
Qed.

(** * The cycle *)

(** A turn ends the cycle. *)
Lemma cycled_turn k A w sock rc w1 w' :
  live w1 -> cycled k A w sock rc w1 -> turn w1 w' -> cycled k A w sock rc w'.
Proof.
  intros L1 (A1 & [_ V1 R1] & P1 & Hs) T. destruct (turn_views A1 w1 w' L1 T V1) as [V' P'].
  exists (hang_up w' A1). split; [split; [apply T|done|by eapply turn_rooms]|].
  split; [change 1%nat with (1 + 0)%nat; by eapply progress_trans|]. destruct Hs as [[Hi Hf]|[-> (Hfree & Hpos & c & x & Hc & Hx & Hs & Hf)]].
  - left. split; [by apply T|]. intros d. unfold client_in. rewrite (tn_clients _ _ T). intros Hd E%hang_up_failed. by destruct (Hf d Hd).
  - destruct (tn_each _ _ T c Hc) as [S|(y & x' & Hy & Hx' & Ho & Hh & Hss & Hre)].
    + right. split; [done|]. split; [by apply T|]. split; [done|]. destruct (same_lookup _ _ _ _ S Hx) as (x' & Hx' & B).
      exists c, x'. split; [by eapply turn_in|]. split; [done|]. split; [by rewrite (cb_socket _ _ B)|].
      intros d. unfold client_in. rewrite (tn_clients _ _ T). intros Hd E%hang_up_failed. by apply Hf.
    + left. rewrite Hx in Hy. injection Hy as <-. split; [apply Hre; by rewrite Hs|]. intros d. unfold client_in. rewrite (tn_clients _ _ T).
      intros Hd E. pose proof (Hf d Hd (hang_up_failed _ _ _ E)) as ->. unfold hang_up in E. rewrite Hx', Hss in E.
      destruct (V1 c Hc) as (Hs1 & _). rewrite Hs1 in E. simpl in E. by rewrite (hung_online _ _ Hh) in E.
Qed.

(** Turns before serving, and without serving. *)
Lemma turn_running k A w w' : running k A w -> turn w w' -> running k (hang_up w' A) w' /\ progress 0 A (hang_up w' A) w w'.
Proof.
  intros [L V R] T. destruct (turn_views A w w' L T V) as [V' P']. split; [|done]. split; [apply T|done|by eapply turn_rooms].
Qed.

Lemma turn_settled A w w' : turn w w' -> settled A w -> settled (hang_up w' A) w'.
Proof.
  intros T [Hi Hf]. split; [by apply T|]. intros d. unfold client_in. rewrite (tn_clients _ _ T). intros Hd E%hang_up_failed. by destruct (Hf d Hd).
Qed.

Lemma turn_cycled k A w sock rc w' : running (S k) A w -> settled A w -> turn w w' -> cycled k A w sock rc w'.
Proof.
  intros Rn Se T. destruct (turn_running _ _ _ _ Rn T) as [[L' V' R'] [H1 H2]]. exists (hang_up w' A). split; [split; [done|done|]|].
  - intros c x Hc Hx. destruct (R' c x Hc Hx) as [?|[? ?]]; [by left|right; lia].
  - split; [|left; by eapply turn_settled]. split; [done|]. intros c Hc. destruct (H2 c Hc) as [C E]. split; [done|].
    change 1%nat with (1 + 0)%nat. eapply ev_trans; [apply ev_stay|exact E].
Qed.

Lemma cycled_before k A A1 w w1 sock rc w' :
  progress 0 A A1 w w1 -> cycled k A1 w1 sock rc w' -> cycled k A w sock rc w'.
Proof. intros P0 (A' & Rn & P1 & Hs). exists A'. split; [done|]. split; [|done]. change 1%nat with (0 + 1)%nat. by eapply progress_trans. Qed.

(** The next socket that is ready; finished writes are completed meanwhile. *)
Lemma ready_turn more tp w :
  live w -> exists sock w', Socket_getReadySocket w_net set_net (Some MQTTClient_writeComplete) more tp w = Some (sock, w') /\ turn w w'.
Proof.
  intros L. set (len := length (items (clientsds (n_s (w_net w))))).
  destruct (getReadySocket_safe w_net set_net ltac:(done) ltac:(by intros ? ? []) (Some MQTTClient_writeComplete)
    (fun u => live u /\ turn w u /\ length (items (clientsds (n_s (w_net u)))) = len)) with (len := len) (more := more) (tp := tp) (w := w)
    as (sock & w' & E & _ & T & _).
  - intros u (Lu & _). apply Lu.
  - intros u n (Lu & Tu & El) M. pose proof (turn_net u n Lu M) as T. split; [apply T|]. split; [by eapply turn_trans|].
    simpl. by rewrite (mo_list _ _ M).
  - intros u (_ & _ & El). done.
  - intros f s u [= <-] (Lu & Tu & El). destruct (writeComplete_turn s u Lu) as (u' & E & T & Ew & Ed). exists u'. split; [done|].
    split; [split; [apply T|split; [by eapply turn_trans|by rewrite Ed]]|done].
  - split; [done|]. split; [by apply turn_refl|done].
  - by exists sock, w'.
Qed.

(** Every client that the loop may read from has a packet to come. *)
Definition supplied (k : nat) (A : loc -> astate) w : Prop :=
  forall c ps, client_in w c -> (A c).2 = On ps -> (k <= length ps)%nat.

Lemma cycle_step w k A timeout rc :
  running (S k) A w -> settled A w -> supplied 1 A w ->
  exists sock rc' pack w', MQTTClient_cycle junk uninit timeout rc w = Some ((sock, rc', pack), w') /\ cycled k A w sock rc' w'.
Proof.
  intros Rn Se Su. unfold MQTTClient_cycle.
  destruct (ready_turn false (Some (if 0 <? timeout then 1000 * timeout else 0)) w (rn_live _ _ _ Rn)) as (sock & w1 & E1 & T1). mstep E1.
  destruct (turn_running _ _ _ _ Rn T1) as [Rn1 P1]. pose proof (turn_settled _ _ _ T1 Se) as Se1.
  assert (Hend : forall (rc1 : Z) (pack1 : option packet) w2, cycled k A w sock rc1 w2 ->
    exists sock' rc' pack w', (MQTTClient_retry uninit;; mret (sock, rc1, pack1)) w2 = Some ((sock', rc', pack), w') /\ cycled k A w sock' rc' w').
  { intros rc1 pack1 w2 C. assert (L2 : live w2) by (destruct C as (A' & [] & _); done).
    destruct (MQTTClient_retry_turn uninit w2 L2) as (w3 & E3 & T3). mstep E3. exists sock, rc1, pack1, w3. split; [done|by eapply cycled_turn]. }
  destruct (Z.ltb_spec 0 sock) as [Hpos|Hpos].
  2: { erewrite bind_step by reflexivity. by apply Hend, turn_cycled. }
  destruct (find_handle_turn sock w1 (rn_live _ _ _ Rn1)) as (r & w2 & E2 & T2 & _ & Hr). rewrite bind_assoc. mstep E2.
  pose proof (turn_trans _ _ _ T1 T2) as T12. destruct (turn_running _ _ _ _ Rn T12) as [Rn2 P2]. pose proof (turn_settled _ _ _ T12 Se) as Se2.
  destruct r as [c|]; [|erewrite bind_step by reflexivity; by apply Hend, turn_cycled].
  destruct Hr as (Hc & x & Hx & Hs). rewrite bind_assoc. mstep (client_eq w2 c x Hx).
  destruct ((c_connect_state x =? 1) || (c_connect_state x =? 2)); [erewrite bind_step by reflexivity; by apply Hend, turn_cycled|].
  assert (Hc2 : client_in w2 c) by (exact (turn_in _ _ _ T2 Hc)). assert (Hc0 : client_in w c) by (unfold client_in in *; by rewrite (tn_clients _ _ T1) in Hc).
  assert (Hon : exists s p ps, hang_up w2 A c = (s, On (p :: ps))).
  { pose proof (rn_views _ _ _ Rn2 c Hc2) as (_ & y & Hy & Hl). rewrite Hx in Hy. injection Hy as <-.
    destruct (lv_online _ (rn_live _ _ _ Rn2) c x Hc2 Hx) as [Ho _]. rewrite bool_decide_true in Ho by lia.
    pose proof (proj2 Se2 c Hc2) as Hnf. destruct P2 as [_ P2]. destruct (P2 c Hc0) as [_ Ev].
    destruct (hang_up w2 A c) as [s [|ps|]]; simpl in *; [congruence| |done].
    destruct (evolves_online _ _ _ _ Ev ps eq_refl) as (ps0 & E0 & Hl0 & _). pose proof (Su c _ Hc0 E0) as Hsu.
    destruct ps0; [|simpl in Hl0; lia]. simpl in Hsu. destruct ps as [|p ps]; [simpl in Hsu; lia|]. by exists s, p, ps. }
  destruct Hon as (s & p & ps & Ha).
  destruct (serve_step w2 c x s p ps k (hang_up w2 A) Rn2 Se2 Hc2 Hx) as (rc3 & pack3 & w3 & E3 & C3); [by rewrite Hs|done|].
  rewrite Hs in E3, C3.
  match goal with |- context [(?m ≫= ?f) w2] => change m with (serve sock c) end. mstep E3. apply Hend. by eapply cycled_before.
Qed.
End cycle.
End Cycle.
