(* ===== verification/Yield.v ===== *)
(** [MQTTClient_yield]: the loop that runs the protocol in the background of the
    calls of the application ends, and does to every client what the abstract
    client does. *)
From stdpp Require Import gmultiset.
From S2P Require Import Prelude ListSpec Packet SocketBuffer Socket Wire World Persistence Send Store Session Protocol Footprint Memory Sending Steps Handlers Receiver Closing Client Live Pending Retry Dispatch Incoming Clock Cycle.

Module Yield.
Import Packet SocketBuffer Socket Wire World Persistence Send Store Session Protocol Footprint Memory Sending Steps Handlers Receiver Closing Client Live Pending Retry Dispatch Incoming Clock Cycle.

#[local] Arguments zlen : simpl never.

Section yield.
Context {K PS : Type} `{KL : KernelLaws K} {CL : ClockLaws K}.
Variable junk : socket_queue.
Hypothesis junk_header : length (q_fixed_header junk) = 5%nat.
Variable uninit : Z.
Implicit Types (w : world K PS) (x : Clients PS).
Abbreviation P := (M (world K PS)).

(** * After a cycle *)




(** * The loop *)

(** With timeout 0 the waiting of [MQTTClient_disconnect1] looks at the clock at
    most twice and does nothing else, whatever is in flight: the model of
    [MQTTClient_disconnect_internal] leaves out these two looks. *)
Lemma disconnect_wait_now fuel yfuel c x w :
  w_cl w !! c = Some x ->
  exists k, (start ← MQTTClient_start_clock; disconnect_wait junk uninit fuel yfuel c start 0) w =
    Some (tt, set_net (Net (n_buf (w_net w)) (n_s (w_net w)) k) w).
Proof.
  intros Hx. unfold MQTTClient_start_clock.
  pose proof (clock_reads (n_k (w_net w))) as Hs. pose proof (clock_in_a_row (n_k (w_net w))) as Hrow.
  destruct (k_gettimeofday (n_k (w_net w))) as [start k1] eqn:E1. simpl in Hs, Hrow.
  set (w1 := set_net (Net (n_buf (w_net w)) (n_s (w_net w)) k1) w).
  rewrite (bind_step _ _ w start w1) by (unfold onet, zoom, sys; by rewrite E1).
  assert (Hx1 : w_cl w1 !! c = Some x) by done.
  destruct fuel; cbn [disconnect_wait]; mstep (client_eq w1 c x Hx1); (destruct (_ || _); [|by exists k1]).
  all: pose proof (clock_reads k1) as Ht; destruct (k_gettimeofday k1) as [t k2] eqn:E2; simpl in Ht.
  all: exists k2; unfold MQTTClient_elapsed; rewrite bind_assoc.
  all: rewrite (bind_step _ _ w1 t (set_net (Net (n_buf (w_net w)) (n_s (w_net w)) k2) w)) by (unfold onet, zoom, sys; simpl; by rewrite E2).
  all: rewrite ret_bind; destruct (Z.leb_spec 0 ((t - start) / 1000)) as [|Hn]; [done|].
  all: pose proof (Z.div_pos (t - start) 1000); lia.
Qed.


(** A look at the clock. *)
Abbreviation look := (onet (sys k_gettimeofday)).


(** The reading [t] is in the [ms] milliseconds from [start]. *)
Definition in_time (start ms t : Z) : Prop := start <= t < start + 1000 * ms.
#[export] Instance in_time_dec start ms t : Decision (in_time start ms t).
Proof. unfold in_time. apply _. Defined.







(** * The theorems *)

(** [C5] One call of [MQTTClient_cycle] does not go wrong, for any number of
    clients and whatever the network does: it takes at most one packet from one
    socket.  Every client evolves as the abstract client does - it receives the
    next packet that was sent to it, its connection fails, or it is hung up -
    and the invariant holds afterwards.  When a connection has failed the code
    returned is [SOCKET_ERROR] with the socket that failed. *)
Theorem cycle_refines w k A timeout rc :
  running (S k) A w -> settled A w -> supplied 1 A w ->
  exists sock rc' pack w', MQTTClient_cycle junk uninit timeout rc w = Some ((sock, rc', pack), w') /\
    exists A', running k A' w' /\ progress 1 A A' w w' /\ (settled A' w' \/ rc' = SOCKET_ERROR /\ failed sock A' w').
Proof. apply cycle_step, junk_header. Qed.

End yield.
End Yield.
