(* ===== verification/Completion.v ===== *)
(** [MQTTClient_waitForCompletion]: it returns, within the time it was given, and
    what its code says of the message. *)
From stdpp Require Import gmultiset.
From S2P Require Import Prelude ListSpec Packet SocketBuffer Socket Wire World Persistence Send Store Session Protocol Footprint Memory Sending Steps Handlers Receiver Closing Client Live Pending Retry Dispatch Incoming Clock Cycle Yield.

Module Completion.
Import Packet SocketBuffer Socket Wire World Persistence Send Store Session Protocol Footprint Memory Sending Steps Handlers Receiver Closing Client Live Pending Retry Dispatch Incoming Clock Cycle Yield.

#[local] Arguments zlen : simpl never.

Section completion.
Context {K PS : Type} `{KL : KernelLaws K} {CL : ClockLaws K}.
Variable junk : socket_queue.
Hypothesis junk_header : length (q_fixed_header junk) = 5%nat.
Variable uninit : Z.
Implicit Types (w : world K PS) (x : Clients PS).
Abbreviation P := (M (world K PS)).
Abbreviation look := (onet (sys k_gettimeofday)).






Lemma progress_less j k A A' w w' : (j <= k)%nat -> progress j A A' w w' -> progress k A A' w w'.
Proof.
  intros Hk [Hc P1]. split; [done|]. intros c Hin. destruct (P1 c Hin) as [C E]. split; [done|].
  replace k with (j + (k - j))%nat by lia. eapply ev_trans; [exact E|apply ev_stay].
Qed.






End completion.
End Completion.
