(* ===== verification/Api.v ===== *)
(** The calls of the application: publishing, taking a received message, and the
    tokens of the messages in flight. *)
From stdpp Require Import gmultiset.
From S2P Require Import Prelude ListSpec Packet SocketBuffer Socket Wire World Persistence Send Store Session Protocol Footprint Memory Sending Steps Ids Handlers Receiver Sender Closing Restore Client.

Module Api.
Import Packet SocketBuffer Socket Wire World Persistence Send Store Session Protocol Footprint Memory Sending Steps Ids Handlers Receiver Sender Closing Restore Client.

#[local] Arguments zlen : simpl never.

Section api.
Context {K PS : Type} `{Kernel K}.
Variable junk : socket_queue.
Variable uninit : Z.
Implicit Types (w : world K PS) (x : Clients PS).
Abbreviation P := (M (world K PS)).

(** * What sending does to the network *)

(** A computation that changes the writing side of the network only. *)
Abbreviation writing := (within (fun w w' : world K PS => writes_only (w_net w) (w_net w'))).

Lemma writing_footprint : footprint (fun w w' : world K PS => writes_only (w_net w) (w_net w')).
Proof.
  split.
  - by intros w.
  - intros w1 w2 w3 A B. by etrans.
  - by intros w w' -> _.
  - intros w t n. apply writes_only_sys.
  - intros w s b n. apply writes_only_noPending.
  - intros w s b0 bs fs rc n. apply writes_only_putdatas.
  - intros w s t p r n. apply writes_only_updateWrite.
Qed.

(** The results of a write. *)
Definition write_code (rc : Z) : Prop := rc = TCPSOCKET_COMPLETE \/ rc = TCPSOCKET_INTERRUPTED \/ rc = SOCKET_ERROR.

Lemma putdatas_code sock buf0 bufs frees n rc n' : Socket_putdatas sock buf0 bufs frees n = Some (rc, n') -> write_code rc.
Proof.
  unfold Socket_putdatas, write_code. intros (np & n1 & _ & E)%bind_Some. destruct (negb np); [injection E as <- <-; auto|].
  destruct (4 <? zlen bufs); [done|]. apply bind_Some in E as ([rc1 bytes] & n2 & _ & E).
  destruct (Z.eqb_spec rc1 SOCKET_ERROR) as [->|]; simpl in E; [injection E as <- <-; auto|].
  destruct (bytes =? _); [injection E as <- <-; auto|]. apply bind_Some in E as ([] & n3 & _ & E).
  apply bind_Some in E as ([] & n4 & _ & E). injection E as <- <-. auto.
Qed.

Lemma startPublish_code heap c p qos retained w rc m w' :
  0 < qos -> MQTTProtocol_startPublish uninit heap c p qos retained None w = Some ((rc, m), w') -> write_code rc.
Proof.
  intros Hq. unfold MQTTProtocol_startPublish. destruct (Z.ltb_spec 0 qos); [|lia].
  intros (m1 & w1 & _ & E)%bind_Some. apply bind_Some in E as (v & w2 & _ & E). apply bind_Some in E as ([] & w3 & _ & E).
  apply bind_Some in E as (pub & w4 & _ & E). apply bind_Some in E as (rc1 & w5 & E1 & E). injection E as -> _ _.
  unfold MQTTProtocol_startPublishCommon in E1. apply bind_Some in E1 as (rc2 & w6 & E2 & E1).
  rewrite (proj2 (Z.eqb_neq qos 0)) in E1 by lia. simpl in E1. rewrite ret_bind in E1. injection E1 as -> _.
  unfold MQTTPacket_send_publish in E2. apply bind_Some in E2 as (t & w7 & _ & E2). apply bind_Some in E2 as (pl & w8 & _ & E2).
  apply bind_Some in E2 as (bs & w9 & _ & E2). unfold MQTTPacket_sends, putdatas, socket_transport in E2. apply bind_Some in E2 as (x & w10 & _ & E2).
  apply bind_Some in E2 as (u & w11 & _ & E2). apply bind_Some in E2 as (rc3 & w12 & E3 & E2).
  apply bind_Some in E2 as ([] & w13 & _ & E2). injection E2 as -> _. apply onet_net in E3 as (n & E3 & _). by eapply putdatas_code.
Qed.

(** * Taking a received message *)

(** The sequence numbers of the queue fit their keys, when there is a store. *)
Definition seqnos_ok w x : Prop :=
  c_persistence x <> None -> Forall (fun q => forall e, w_qes w !! q = Some e -> 0 <= qe_seqno e <= 999999) (LSpec.contents (c_messageQueue x)).

(** The code of a delivery. *)
Definition delivery_code (rc : Z) (d : delivery) : Z :=
  if zlen (c_str d.1.2) =? size_wrap d.2 then rc else MQTTCLIENT_TOPICNAME_TRUNCATED.

Lemma unpersist_eq w c x e :
  w_cl w !! c = Some x -> (c_persistence x <> None -> 0 <= qe_seqno e <= 999999) ->
  when (bool_decide (is_Some (c_persistence x))) (_ ← MQTTPersistence_unpersistQueueEntry c e; mret tt) w =
    Some (tt, set_ps (match c_persistence x with
                      | Some per => (premove per (c_phandle x) (PERSISTENCE_QUEUE_KEY +:+ pretty (qe_seqno e))%string (w_ps w)).2
                      | None => w_ps w end) w).
Proof.
  intros Hx Hseq. unfold when. case_bool_decide as Hp.
  2: { destruct (c_persistence x); [by destruct Hp|by destruct w]. }
  unfold MQTTPersistence_unpersistQueueEntry. rewrite bind_assoc. mstep (client_eq w c x Hx).
  destruct (c_persistence x) as [per|]; [|by destruct Hp]. specialize (Hseq ltac:(done)).
  rewrite int_wrap_id by (unfold in_int; lia). rewrite bind_assoc.
  rewrite (bind_step _ _ w (PERSISTENCE_QUEUE_KEY +:+ pretty (qe_seqno e))%string w).
  - unfold ops, mbind, M_bind. by destruct (premove per _ _ (w_ps w)).
  - unfold load. rewrite sprintf_key_Some; [done|]. destruct (pretty_length (qe_seqno e) 6 ltac:(lia) ltac:(lia)) as [Hl _].
    specialize (Hl ltac:(lia)). unfold MAX_KEY_LENGTH. change (String.length PERSISTENCE_QUEUE_KEY) with 2%nat. lia.
Qed.

Lemma deliverMessage_step w c x s d rest rc :
  winv w -> w_cl w !! c = Some x -> session_of w c = Some s -> s_queue s = d :: rest -> seqnos_ok w x ->
  exists w' x', MQTTClient_deliverMessage rc c w = Some ((delivery_code rc d, (d.1.2, d.2, d.1.1)), w') /\ winv w' /\
    steps c (s_dequeue 1) w w' /\ shell w w' /\ w_net w' = w_net w /\ w_cl w' !! c = Some x' /\ seqnos_ok w' x'.
Proof.
  intros I Hx Hs Hd Hseq. pose proof (wfs_queue _ (i_wf _ _ _ _ _ I) c x Hx) as Wq.
  assert (Hall : mapM (entry_view w) (LSpec.contents (c_messageQueue x)) = Some (s_queue s)).
  { unfold session_of in Hs. rewrite Hx in Hs. cbn [mbind option_bind] in Hs. apply option.bind_Some in Hs as (i & _ & Hs).
    apply option.bind_Some in Hs as (o & _ & Hs). by apply option.bind_Some in Hs as (q & Eq & [= <-]). }
  destruct (LSpec.contents (c_messageQueue x)) as [|q k] eqn:Hq; [rewrite Hd in Hall; done|].
  rewrite Hd in Hall. apply mapM_cons_Some in Hall as (d' & r' & Ed & _ & [= <- <-]).
  unfold entry_view in Ed. apply option.bind_Some in Ed as (e & He & [= <-]). unfold MQTTClient_deliverMessage.
  mstep (client_eq w c x Hx). rewrite (bind_step _ _ w q w) by (unfold load; by rewrite Hq).
  unfold entry. rewrite (bind_step _ _ w e w) by (unfold load; by rewrite He).
  assert (Hse : c_persistence x <> None -> 0 <= qe_seqno e <= 999999).
  { intros Hp. specialize (Hseq Hp). rewrite Hq in Hseq. apply Forall_cons in Hseq as [H1 _]. by apply H1. }
  pose proof (unpersist_eq w c x e Hx Hse) as Eu. set (w1 := set_ps _ w) in Eu. mstep Eu.
  pose proof (quiet_ps w _ : quiet w w1) as Q1. pose proof (quiet_inv _ _ _ _ _ _ Q1 I) as I1.
  destruct (unlink_loc (c_messageQueue x) q Wq) as (l & k1 & k2 & Ei & Wl & Hk & Hl); [rewrite Hq; left|].
  assert (Hkk : k1 = [] /\ k2 = k).
  { pose proof (queue_nodup w c x I Hx) as Hn. rewrite Hq in Hn, Hk. destruct k1 as [|y k1]; [by injection Hk|].
    injection Hk as <- Hk. exfalso. apply NoDup_cons in Hn as [Hn _]. apply Hn. rewrite Hk. set_solver. }
  destruct Hkk as [-> ->]. simpl in Hl.
  destruct (drop_entries w1 c x [q] k l I1) as (I2 & S2 & Sh2); [done|by rewrite Hq|done|done|].
  set (w2 := set_cl _ _) in I2, S2, Sh2. exists w2, (set_queue l x).
  assert (Er : remove_entry c q w1 = Some (tt, w2)).
  { unfold remove_entry. change (w_cl w1) with (w_cl w). rewrite Hx. cbn [mbind option_bind]. rewrite Ei.
    unfold free_entry. simpl. by rewrite He. }
  mstep Er. split; [|split; [exact I2|split; [by apply (steps_quiet_l _ _ _ w1)|split; [etrans; [apply quiet_shell, Q1|done]|split; [done|split]]]]].
  - do 3 f_equal. unfold delivery_code. simpl. by destruct (_ =? _).
  - apply lookup_insert_eq.
  - intros Hp. specialize (Hseq Hp). rewrite Hq in Hseq. apply Forall_cons in Hseq as [_ Hseq]. simpl. rewrite Hl.
    rewrite Forall_forall in Hseq |- *. intros q' Hq' e' He'. apply (Hseq q' Hq' e'). simpl in He'.
    apply lookup_delete_Some in He' as [_ He']. done.
Qed.

(** Taking [n] messages, one after the other. *)
Fixpoint deliver_all (n : nat) (c : loc) : P (list (Z * (list byte * Z * MQTTClient_message))) :=
  match n with
  | O => mret []
  | S n' => r ← MQTTClient_deliverMessage TCPSOCKET_COMPLETE c; rs ← deliver_all n' c; mret (r :: rs)
  end.

(** [C16] The application takes the received messages in the order in which they
    were delivered to the queue, each once and with its own topic, length and
    contents; the entries are freed and the rest of the state is as before.  A
    topic that holds a NUL is reported by the code. *)
Theorem deliver_in_order w c x s :
  winv w -> w_cl w !! c = Some x -> session_of w c = Some s -> seqnos_ok w x ->
  exists w', deliver_all (length (s_queue s)) c w =
      Some ((fun d : delivery => (delivery_code TCPSOCKET_COMPLETE d, (d.1.2, d.2, d.1.1))) <$> s_queue s, w') /\ winv w' /\
    session_of w' c = Some (Sess (s_in s) (s_out s) []) /\ shell w w' /\ w_net w' = w_net w.
Proof.
  destruct s as [i o q]. simpl. revert w x. induction q as [|d q IH]; intros w x I Hx Hs Hseq; [by exists w|].
  destruct (deliverMessage_step w c x _ d q TCPSOCKET_COMPLETE I Hx Hs eq_refl Hseq) as (w1 & x1 & E1 & I1 & S1 & Sh1 & N1 & Hx1 & Hseq1).
  assert (Hs1 : session_of w1 c = Some (Sess i o q)) by (by rewrite (S1 c), decide_True, Hs).
  destruct (IH w1 x1 I1 Hx1 Hs1 Hseq1) as (w' & E & I' & Hs' & Sh' & N'). exists w'. simpl. mstep E1. mstep E.
  split; [done|]. split; [done|]. split; [done|]. split; [by etrans|by rewrite N', N1].
Qed.

(** * The tokens of the messages in flight *)

Lemma token_loop_eq w ms al : mapM (msg_view w) ms = Some al -> token_loop ms w = Some (am_id <$> al, w).
Proof.
  revert al. induction ms as [|m ms IH]; intros al Hal; [by injection Hal as <-|].
  apply mapM_cons_Some in Hal as (a & al' & Ea & Hal & ->). simpl. unfold msg_view in Ea.
  apply option.bind_Some in Ea as (v & Hv & Ea). apply option.bind_Some in Ea as (p & _ & [= <-]).
  mstep (message_eq w m v Hv). mstep (IH al' Hal). done.
Qed.

(** The array of the tokens of messages, with its end mark. *)
Definition tokens (al : list amsg) : option (list Z) :=
  match al with [] => None | _ => Some ((am_id <$> al) ++ [-1]) end.

(** [C17] The tokens returned are the ids of the messages in flight, in the order
    of sending, followed by -1; nothing changes.  Without messages in flight
    there is no array. *)
Theorem pending_tokens w c x s :
  winv w -> w_cl w !! c = Some x -> session_of w c = Some s ->
  MQTTClient_getPendingDeliveryTokens (Some c) w =
    Some ((MQTTCLIENT_SUCCESS, tokens (s_out s)), w).
Proof.
  intros I Hx Hs. pose proof (session_side w c x s Outbound Hx Hs) as Hal. simpl in Hal.
  pose proof (wfs_out _ (i_wf _ _ _ _ _ I) c x Hx) as W. unfold MQTTClient_getPendingDeliveryTokens.
  mstep (client_eq w c x Hx). assert (Hlen : cnt (c_outboundMsgs x) = zlen (s_out s)).
  { rewrite (LSpec.wf_count _ W). pose proof Hal as Hal'. apply mapM_Some, Forall2_length in Hal'. unfold zlen.
    rewrite <- Hal'. unfold LSpec.contents. by rewrite length_fmap. }
  rewrite Hlen. destruct (s_out s) as [|a al] eqn:Eo; [done|].
  destruct (Z.ltb_spec 0 (zlen (a :: al))) as [|Hle]; [by mstep (token_loop_eq w _ _ Hal)|].
  unfold zlen in Hle. simpl in Hle. lia.
Qed.

(** * Publishing *)

(** Nothing is left to be written to the socket. *)
Definition no_pending w (sock : Z) : Prop := (LSpec.find_item (intcompare sock) (write_pending (n_s (w_net w)))).1 = None.

Lemma noPendingWrites_eq w sock :
  no_pending w sock -> exists w', onet (Socket_noPendingWrites sock) w = Some (true, w') /\ quiet w w' /\ w_cl w' = w_cl w /\
    w_ps w' = w_ps w /\ writes_only (w_net w) (w_net w').
Proof.
  unfold no_pending, onet, zoom, Socket_noPendingWrites, find_int, sockets, zoom, mbind, M_bind. intros Hn.
  destruct (LSpec.find_item _ _) as [r l]. simpl in Hn. subst r. eexists. split; [reflexivity|]. split; [apply quiet_net|done].
Qed.

(** The message that the call describes. *)
Definition call_publish (topicName : list byte) (msgid : Z) (payload : list byte) (payloadlen : Z) : Publish :=
  MkPublish (to_char uninit) (Some topicName) uninit msgid payload payloadlen.

(** The call, once a message can be sent: an id is assigned and the exchange is
    started. *)
Lemma unused_find w c x s id :
  winv w -> w_cl w !! c = Some x -> session_of w c = Some s -> id_used w x id = false -> find_id id (s_out s) = None.
Proof.
  intros I Hx Hs Hu. apply (find_view_none _ _ _ w c x s Outbound id I Hx Hs). apply Forall_forall. intros m Hm.
  unfold id_used in Hu. destruct (messageIDCompare w id m) eqn:E; [|done].
  rewrite <- not_true_iff_false, existsb_exists in Hu. destruct Hu. exists m. split; [by apply list_elem_of_In|done].
Qed.

(** The size of a PUBLISH. *)
Lemma publish_body_length topic id qos payload :
  zlen (publish_body topic id qos payload) = zlen topic + (if 0 <? qos then 4 else 2) + zlen payload.
Proof.
  unfold publish_body, utf_bytes. rewrite !zlen_app. destruct (0 <? qos); rewrite ?zlen_int_bytes; change (zlen []) with 0; lia.
Qed.

Lemma publish_start heap w c x s topicName payloadlen payload qos retained :
  winv w -> ready w c x -> session_of w c = Some s ->
  0 <= payloadlen <= zlen payload -> 1 <= qos <= 2 -> 0 <= c_msgID x <= MAX_MSG_ID ->
  (exists id, 1 <= id <= MAX_MSG_ID /\ id <> c_msgID x /\ id_used w x id = false) ->
  zlen (c_str topicName) < 65536 -> zlen (c_str topicName) + payloadlen + 4 < 128 ^ 4 ->
  exists id w1 rc m w2 bufs, 1 <= id <= MAX_MSG_ID /\ find_id id (s_out s) = None /\
    MQTTProtocol_assignMsgId c w = Some (id, w1) /\
    let p := call_publish topicName id payload payloadlen in
    let a := outbound_msg uninit heap p topicName qos retained in
    MQTTProtocol_startPublish uninit heap c p qos retained None w1 = Some ((rc, Some m), w2) /\
    winv w2 /\ session_of w2 c = Some (s_add a s) /\ apart c w w2 /\ write_code rc /\
    writes_only (w_net w) (w_net w2) /\ (m_msgid <$> w_msgs w2 !! m = Some id) /\
    (exists x2, ready w2 c x2 /\ w_cl w2 !! c = Some x2 /\ c_data x2 = c_data x /\ c_connected x2 = c_connected x /\ c_msgID x2 = id) /\
    w_ps w2 = put_record (c_persistence x) (c_phandle x) (PERSISTENCE_PUBLISH_SENT +:+ pretty id)%string bufs (w_ps w1) /\
    MQTTPersistence_restorePacket (concat bufs) (zlen (concat bufs)) =
      Some (Some (PPublish (MkPublish (publish_header 0 qos retained) (Some (c_str topicName)) (zlen (c_str topicName))
        id (take (Z.to_nat payloadlen) payload) payloadlen))).
Proof.
  intros I R Hs Hp Hq Hid Hfree Ht Hlen. pose proof (ready_client _ _ _ R) as Hx.
  destruct (assignMsgId_step w c x (i_wf _ _ _ _ _ I) Hx Hid) as [Ha _].
  destruct (Ha Hfree) as (k & wa & xa & Hrange & Hu & _ & Qa & Hxa & Ea). set (id := candidate (c_msgID x) k) in *. clear Ha.
  destruct (quiet_ready _ _ c x Qa R) as (xa' & Ra & Ca). assert (xa' = xa) as ->.
  { pose proof (ready_client _ _ _ Ra). congruence. }
  destruct (field_step (set_msgID id) _ _ _ _ wa c xa (quiet_inv _ _ _ _ _ _ Qa I) Hxa ltac:(by intros x0)) as (_ & I1 & S1 & A1).
  set (w1 := set_cl _ wa) in *. assert (R1 : ready w1 c (set_msgID id xa)).
  { split; [apply I1|]. simpl. apply (at_field (set_msgID id) wa _ c xa); [apply Ra|done]. }
  assert (Hs1 : session_of w1 c = Some s) by (etrans; [exact (S1 c)|by rewrite (quiet_session _ _ _ Qa)]).
  pose proof (unused_find w c x s id I Hx Hs Hu) as Hf. unfold MAX_MSG_ID in Hrange.
  set (p := call_publish topicName id payload payloadlen). assert (Hpl : zlen (publish_payload p) = payloadlen).
  { unfold publish_payload, zlen in *. rewrite length_take. simpl. lia. }
  destruct (startPublish_step uninit heap w1 c (set_msgID id xa) s p topicName qos retained)
    as (rc & m & w2 & bufs & E & I2 & S2 & Sh2 & Hm & P2 & Hrec); try done.
  { unfold MAX_MSG_ID. simpl. lia. }
  { rewrite publish_body_length, Hpl. destruct (0 <? qos); lia. }
  exists id, w1, rc, m, w2, bufs. split; [done|]. split; [done|]. split; [done|]. split; [exact E|]. split; [done|].
  split; [by rewrite (S2 c), decide_True, Hs1|].
  split; [etrans; [apply shell_apart, quiet_shell, Qa|etrans; [exact A1|apply shell_apart, Sh2]]|].
  split; [by eapply startPublish_code; [|exact E]; lia|].
  split; [etrans; [exact (within_assign _ writing_footprint _ _ _ _ Ea)|exact (within_startPublish _ _ writing_footprint _ _ _ _ _ _ _ _ _ E)]|]. split; [done|].
  split.
  - destruct (shell_ready _ _ _ _ Sh2 (i_wf _ _ _ _ _ I2) R1) as (x2 & R2 & F2). exists x2. split; [done|].
    split; [by apply ready_client|]. rewrite (cf_data _ _ F2), (cf_connected _ _ F2), (cf_msgID _ _ F2). simpl. by destruct Ca.
  - simpl in P2. rewrite (cs_per _ _ Ca), (cs_handle _ _ Ca) in P2. split; [exact P2|].
    unfold restores_to, sent_publish in Hrec. simpl in Hrec. by rewrite Hrec, Hpl.
Qed.

(** The call when it need not wait. *)
Lemma publish_call fuel yfuel heap w c x topicName payloadlen payload qos retained token id w0 w1 rc m w2 :
  w_cl w !! c = Some x -> c_connected x = true -> valid_utf8 topicName = Some true ->
  cnt (c_outboundMsgs x) < c_maxInflightMessages x ->
  onet (Socket_noPendingWrites (nh_socket (c_net x))) w = Some (true, w0) ->
  1 <= qos -> 1 <= id -> MQTTProtocol_assignMsgId c w0 = Some (id, w1) ->
  MQTTProtocol_startPublish uninit heap c (call_publish topicName id payload payloadlen) qos retained None w1 =
    Some ((rc, Some m), w2) ->
  m_msgid <$> w_msgs w2 !! m = Some id -> rc <> TCPSOCKET_INTERRUPTED ->
  MQTTClient_publish junk uninit (S fuel) yfuel heap (Some c) topicName payloadlen payload qos retained token w =
    if rc =? SOCKET_ERROR then
      (_ ← MQTTClient_disconnect_internal c; mret (MQTTCLIENT_SUCCESS, if token then Some id else None)) w2
    else Some ((rc, if token then Some id else None), w2).
Proof.
  intros Hx Hc Hv Hroom Hnp Hq Hid Ea Es Hm Hrc. unfold MQTTClient_publish. mstep (client_eq w c x Hx). rewrite Hc.
  cbn [negb]. rewrite (bind_step _ _ w true w) by (unfold load; by rewrite Hv). cbn [negb].
  assert (Hb : blocked_loop junk uninit (S fuel) yfuel c w = Some (true, w0)).
  { simpl. mstep (client_eq w c x Hx). rewrite (proj2 (Z.leb_gt _ _)) by lia. cbv iota.
    rewrite bind_assoc. mstep Hnp. done. }
  mstep Hb. cbn [negb]. destruct (Z.ltb_spec 0 qos); [|lia]. mstep Ea.
  rewrite (proj2 (Z.eqb_neq id 0)) by lia. cbn [andb]. unfold call_publish in Es. mstep Es. cbv beta iota.
  rewrite (proj2 (Z.eqb_neq rc _)) by done. rewrite ret_bind.
  assert (Ht : forall B (f : option Z -> P B), ((token0 ← (if token && true then
      msg ← load (fun _ => Some m); y ← message msg; mret (Some (m_msgid y)) else mret None); f token0) w2) =
      f (if token then Some id else None) w2).
  { intros B f. destruct token; cbn [andb]; [|by rewrite ret_bind]. destruct (w_msgs w2 !! m) as [v|] eqn:Em; [|done].
    injection Hm as Hm. rewrite bind_assoc. rewrite (bind_step _ _ w2 m w2) by done. rewrite bind_assoc.
    mstep (message_eq w2 m v Em). by rewrite ret_bind, Hm. }
  rewrite Ht. by destruct (rc =? SOCKET_ERROR).
Qed.
(** [C8] Publishing on a connected client, with room for a message in flight and
    nothing left to be written: the call picks an id that no message in flight
    has, keeps the message in the session and its packet - one that restores to
    the message - in the store before the network has taken it, and, unless the
    write is interrupted (the call then waits for the rest), returns success with
    that id as the token.  A failed write closes the connection: success is
    still returned, and the message stays for the next connection, unless the
    client asked for clean sessions. *)
Theorem publish_accepts fuel yfuel heap w c x s mc topicName payloadlen payload qos retained token :
  winv w -> ready w c x -> session_of w c = Some s -> w_ms w !! c = Some mc -> net_ok (w_net w) ->
  c_connected x = true -> valid_utf8 topicName = Some true ->
  cnt (c_outboundMsgs x) < c_maxInflightMessages x -> no_pending w (nh_socket (c_net x)) ->
  0 <= payloadlen <= zlen payload -> 1 <= qos <= 2 -> 0 <= c_msgID x <= MAX_MSG_ID ->
  (exists id, 1 <= id <= MAX_MSG_ID /\ id <> c_msgID x /\ id_used w x id = false) ->
  zlen (c_str topicName) < 65536 -> zlen (c_str topicName) + payloadlen + 4 < 128 ^ 4 ->
  exists id w0 w1 rc m w2 bufs, 1 <= id <= MAX_MSG_ID /\ find_id id (s_out s) = None /\
    onet (Socket_noPendingWrites (nh_socket (c_net x))) w = Some (true, w0) /\
    MQTTProtocol_assignMsgId c w0 = Some (id, w1) /\
    let p := call_publish topicName id payload payloadlen in
    let s' := s_add (outbound_msg uninit heap p topicName qos retained) s in
    MQTTProtocol_startPublish uninit heap c p qos retained None w1 = Some ((rc, Some m), w2) /\
    winv w2 /\ session_of w2 c = Some s' /\ write_code rc /\
    w_ps w2 = put_record (c_persistence x) (c_phandle x) (PERSISTENCE_PUBLISH_SENT +:+ pretty id)%string bufs (w_ps w1) /\
    MQTTPersistence_restorePacket (concat bufs) (zlen (concat bufs)) =
      Some (Some (PPublish (MkPublish (publish_header 0 qos retained) (Some (c_str topicName)) (zlen (c_str topicName))
        id (take (Z.to_nat payloadlen) payload) payloadlen))) /\
    (rc <> TCPSOCKET_INTERRUPTED -> exists w',
      MQTTClient_publish junk uninit (S fuel) yfuel heap (Some c) topicName payloadlen payload qos retained token w =
        Some ((MQTTCLIENT_SUCCESS, if token then Some id else None), w') /\ winv w' /\
      if rc =? SOCKET_ERROR then session_of w' c = Some (s_closed (cd_cleansession (c_data x)) s') else w' = w2).
Proof.
  intros I R Hs Hmc Hn Hcon Hv Hroom Hnp Hp Hq Hid Hfree Ht Hlen. pose proof (ready_client _ _ _ R) as Hx.
  destruct (noPendingWrites_eq w _ Hnp) as (w0 & E0 & Q0 & C0 & P0 & N0).
  destruct (quiet_ready _ _ _ _ Q0 R) as (x' & R0 & _). assert (x' = x) as ->.
  { pose proof (ready_client _ _ _ R0). congruence. }
  assert (Hs0 : session_of w0 c = Some s) by (by rewrite (quiet_session _ _ _ Q0)).
  assert (Hfree0 : exists id, 1 <= id <= MAX_MSG_ID /\ id <> c_msgID x /\ id_used w0 x id = false).
  { destruct Hfree as (id & ? & ? & Hu). exists id. split; [done|]. split; [done|]. 
    destruct (id_used_quiet _ _ c x id Q0 Hx) as (x0 & Hx0 & _ & Hu0). rewrite (ready_client _ _ _ R0) in Hx0. injection Hx0 as <-.
    by rewrite Hu0. }
  destruct (publish_start heap w0 c x s topicName payloadlen payload qos retained (quiet_inv _ _ _ _ _ _ Q0 I) R0 Hs0)
    as (id & w1 & rc & m & w2 & bufs & Hr & Hf & Ea & Es & I2 & S2 & A2 & Hrc & N2 & Hm & (x2 & R2 & Hx2 & D2 & Co2 & _) & P2 & Hrec);
    try done.
  exists id, w0, w1, rc, m, w2, bufs. do 10 (split; [done|]). intros Hni.
  rewrite (publish_call fuel yfuel heap w c x topicName payloadlen payload qos retained token id w0 w1 rc m w2); try done; [|lia..].
  destruct (Z.eqb_spec rc SOCKET_ERROR) as [->|Hne].
  - destruct (disconnect_internal_step w2 c x2 _ mc I2 Hx2 S2) as (w' & x' & E' & I' & _ & _ & S' & _).
    { by rewrite (ap_ms _ _ _ A2), (q_ms _ _ Q0). }
    { eapply writes_only_ok; [|exact Hn]. by etrans. }
    { intros _. apply R2. }
    { by rewrite Co2, Hcon. }
    exists w'. mstep E'. split; [done|]. split; [done|]. by rewrite (S' c), decide_True, S2, D2.
  - exists w2. destruct Hrc as [-> | [-> | ->]]; done.
Qed.
End api.
End Api.
