(* ===== verification/Recovery.v ===== *)
(** Restoring a session after a crash: from a store that holds the records of a
    session, [MQTTPersistence_restore] rebuilds the messages in flight in the
    order in which they were sent, and removes what belongs to no message. *)
From Stdlib Require Import Sorted Ascii.
From stdpp Require Import gmultiset sorting.
From S2P Require Import Prelude ListSpec Packet SocketBuffer Socket World Persistence Send Store Session Protocol Memory Sending Steps Handlers Receiver Sender Restore.

Module Recovery.
Import Packet SocketBuffer Socket World Persistence Send Store Session Protocol Memory Sending Steps Handlers Receiver Sender Restore.

#[local] Arguments zlen : simpl never.

(** * Keys as strings *)

(** No dash: the digits of a key. *)
Fixpoint no_dash (s : string) : bool :=
  match s with
  | EmptyString => true
  | String a s' => negb (bool_decide (a = "-"%char)) && no_dash s'
  end.

Lemma pretty_N_go_no_dash x : forall s, no_dash s = true -> no_dash (pretty_N_go x s) = true.
Proof.
  induction (N.lt_wf_0 x) as [x _ IH]. intros s Hs. destruct (decide (x = 0)%N) as [->|]; [by rewrite pretty_N_go_0|].
  rewrite pretty_N_go_step by lia. apply IH; [apply N.div_lt; lia|]. simpl. rewrite Hs.
  unfold pretty_N_char. by repeat case_match.
Qed.

Lemma pretty_no_dash n : 0 <= n -> no_dash (pretty n) = true.
Proof. intros Hn. destruct n as [|p|p]; [done| |lia]. by apply (pretty_N_go_no_dash (Npos p) ""). Qed.

(** One step of [strstr]. *)
Lemma prefix_cons a p b s : String.prefix (String a p) (String b s) = if ascii_dec a b then String.prefix p s else false.
Proof. done. Qed.
Lemma prefix_nil s : String.prefix "" s = true.
Proof. by destruct s. Qed.
Lemma index_cons p b s :
  String.index 0 p (String b s) = if String.prefix p (String b s) then Some 0%nat else S <$> String.index 0 p s.
Proof. cbn [String.index]. destruct (String.prefix p (String b s)); [done|]. by destruct (String.index 0 p s). Qed.

(** A two-letter stem ending in a dash does not occur in a string without one. *)
Lemma index_no_dash a s : no_dash s = true -> String.index 0 (String a "-") s = None.
Proof.
  induction s as [|b s IH]; [done|]. intros [_ Hs]%andb_true_iff. rewrite index_cons, IH, prefix_cons by done.
  destruct (ascii_dec a b) as [_|_]; [|done]. destruct s as [|d s]; [done|].
  apply andb_true_iff in Hs as [Hd _]. apply negb_true_iff, bool_decide_eq_false in Hd.
  rewrite prefix_cons. destruct (ascii_dec "-" d) as [<-|_]; done.
Qed.

Lemma contains_cons p b s : contains p (String b s) = String.prefix p (String b s) || contains p s.
Proof.
  unfold contains. rewrite index_cons. destruct (String.prefix p (String b s)); [by rewrite bool_decide_true|].
  apply bool_decide_ext. by rewrite fmap_is_Some.
Qed.
Lemma contains_no_dash a s : no_dash s = true -> contains (String a "-") s = false.
Proof. intros Hs. unfold contains. rewrite index_no_dash by done. by apply bool_decide_false; intros []. Qed.

Definition sent_key (id : Z) : string := PERSISTENCE_PUBLISH_SENT +:+ pretty id.
Definition received_key (id : Z) : string := PERSISTENCE_PUBLISH_RECEIVED +:+ pretty id.
Definition pubrel_key (id : Z) : string := PERSISTENCE_PUBREL +:+ pretty id.

(** How the code tells keys apart. *)
Lemma key_kinds id :
  0 <= id ->
  (contains PERSISTENCE_PUBLISH_RECEIVED (received_key id) = true) /\
  (contains PERSISTENCE_PUBLISH_RECEIVED (sent_key id) = false /\ contains PERSISTENCE_PUBLISH_SENT (sent_key id) = true) /\
  (contains PERSISTENCE_PUBLISH_RECEIVED (pubrel_key id) = false /\
   contains PERSISTENCE_PUBLISH_SENT (pubrel_key id) = false /\ contains PERSISTENCE_PUBREL (pubrel_key id) = true).
Proof.
  intros Hid. pose proof (pretty_no_dash id Hid) as Hd. unfold received_key, sent_key, pubrel_key.
  set (d := pretty id) in *. clearbody d.
  unfold PERSISTENCE_PUBLISH_RECEIVED, PERSISTENCE_PUBLISH_SENT, PERSISTENCE_PUBREL.
  assert (Ha : forall a s, String a s +:+ d = String a (s +:+ d)) by done. assert (Hn : "" +:+ d = d) by done.
  split_and!; rewrite ?Ha, Hn; rewrite !contains_cons, ?prefix_cons, ?contains_no_dash by done;
    cbn; by rewrite ?prefix_nil.
Qed.

#[export] Instance sent_key_inj : Inj (=) (=) sent_key.
Proof. intros i j [= E]. by apply (inj pretty). Qed.
#[export] Instance received_key_inj : Inj (=) (=) received_key.
Proof. intros i j [= E]. by apply (inj pretty). Qed.
#[export] Instance pubrel_key_inj : Inj (=) (=) pubrel_key.
Proof. intros i j [= E]. by apply (inj pretty). Qed.

(** * What a persistence implementation promises *)

(** The keys of messages. *)
Inductive message_key : string -> Prop :=
  | message_sent id : 0 <= id <= MAX_MSG_ID -> message_key (sent_key id)
  | message_received id : 0 <= id <= MAX_MSG_ID -> message_key (received_key id)
  | message_pubrel id : 0 <= id <= MAX_MSG_ID -> message_key (pubrel_key id).

(** The contract of [lib/MQTTClientPersistence.h] for an open store: a map from
    keys to records, as long as the store is in working order ([store_ok]). *)
Class StoreLaws {PS} (per : MQTTClient_persistence PS) (h : Z) := {
  records : PS -> gmap string (list byte);
  store_ok : PS -> Prop;
  store_get k s d : store_ok s -> records s !! k = Some d ->
    exists s', pget per h k s = ((0, d), s') /\ records s' = records s /\ store_ok s';
  store_contains k s : store_ok s -> message_key k ->
    exists rc s', pcontainskey per h k s = (rc, s') /\ records s' = records s /\ store_ok s' /\
    (rc = 0 <-> is_Some (records s !! k));
  store_remove k s : store_ok s -> is_Some (records s !! k) ->
    exists s', premove per h k s = (0, s') /\ records s' = delete k (records s) /\ store_ok s';
  store_keys s : store_ok s -> exists ks s', pkeys per h s = ((0, ks), s') /\ records s' = records s /\ store_ok s' /\
    NoDup ks /\ forall k, k ∈ ks <-> is_Some (records s !! k);
  store_put k bufs s : store_ok s -> message_key k ->
    exists s', pput per h k bufs s = (0, s') /\ records s' = <[k := concat bufs]> (records s) /\ store_ok s' }.

(** * Stores that hold a session *)

Section image.
Variable uninit : Z.
Implicit Types (R : gmap string (list byte)) (a : amsg).

Definition restored_msg (p : Publish) (topic : list byte) (next : Z) : amsg :=
  AMsg (pb_msgId p) (hdr_qos (pb_header p)) (hdr_retain (pb_header p)) next topic (pb_topiclen p) (publish_payload p)
       (pb_payloadlen p).

(** Under [k] is a PUBLISH packet with the contents of [a]. *)
Definition publish_record R (k : string) a : Prop :=
  exists d p topic, R !! k = Some d /\ MQTTPersistence_restorePacket d (zlen d) = Some (Some (PPublish p)) /\
    pb_topic p = Some topic /\ 0 <= pb_payloadlen p <= zlen (pb_payload p) /\ 0 <= pb_msgId p <= MAX_MSG_ID /\
    a = restored_msg p topic (am_next a).

(** What a sent message waits for: PUBCOMP when there is a record of its PUBREL. *)
Definition sent_next R a : Z :=
  if bool_decide (is_Some (R !! pubrel_key (am_id a))) then PUBCOMP
  else if am_qos a =? 2 then PUBREC else uninit.

Definition sent_record R a : Prop := publish_record R (sent_key (am_id a)) a /\ am_next a = sent_next R a.
Definition received_record R a : Prop := publish_record R (received_key (am_id a)) a /\ am_next a = PUBREL.

(** Command and queue records, which are restored elsewhere. *)
Definition other_key (k : string) : bool :=
  String.prefix PERSISTENCE_COMMAND_KEY k || String.prefix PERSISTENCE_QUEUE_KEY k.

Inductive key_kind R (outs ins : list amsg) : string -> Prop :=
  | KOther k : other_key k = true -> key_kind R outs ins k
  | KSent a : a ∈ outs -> key_kind R outs ins (sent_key (am_id a))
  | KReceived a : a ∈ ins -> key_kind R outs ins (received_key (am_id a))
  | KPubrel id d hd : 0 <= id <= MAX_MSG_ID -> R !! pubrel_key id = Some d ->
      MQTTPersistence_restorePacket d (zlen d) = Some (Some (PAck (MkAck hd id))) ->
      key_kind R outs ins (pubrel_key id).

(** The store holds the messages [outs] and [ins], and nothing else but PUBRELs,
    commands and queue entries. *)
Record image R (outs ins : list amsg) : Prop := {
  im_sent : Forall (sent_record R) outs;
  im_received : Forall (received_record R) ins;
  im_out_ids : NoDup (am_id <$> outs);
  im_in_ids : NoDup (am_id <$> ins);
  im_keys k : is_Some (R !! k) -> key_kind R outs ins k }.

(** The record of a PUBREL without the PUBLISH that it belongs to. *)
Definition orphan R (k : string) : Prop :=
  exists id, 0 <= id <= MAX_MSG_ID /\ k = pubrel_key id /\ R !! sent_key id = None.
End image.

Section recovery.
Context {K PS : Type} `{Kernel K} (per : MQTTClient_persistence PS) (h : Z) `{!StoreLaws per h} (uninit : Z).
Implicit Types (w : world K PS) (x : Clients PS).
Abbreviation P := (M (world K PS)).

(** * Messages that are not in a list yet *)

Lemma held_update f m v Em Ep Eq w :
  inv ({[+ m +]} ⊎ Em) Ep ∅ Eq w -> keeps_msg f -> w_msgs w !! m = Some v ->
  let w' := updated m (f v) w in
  inv ({[+ m +]} ⊎ Em) Ep ∅ Eq w' /\ (forall c, session_of w' c = session_of w c) /\ shell w w' /\
    msg_view w' m = am_with_next (m_nextMessageType (f v)) <$> msg_view w m.
Proof.
  intros I Kf Hv w'. split; [by apply updated_inv|]. split; [|split; [apply updated_shell|]].
  - intros c. unfold session_of. change (w_cl w') with (w_cl w). change (entry_view w') with (entry_view w).
    destruct (w_cl w !! c) as [x|] eqn:Hx; [|done]. cbn [mbind option_bind].
    assert (He : forall k, k ⊆ client_msgs x -> mapM (msg_view w') k = mapM (msg_view w) k).
    { intros k Hk. apply Forall_mapM_ext, Forall_forall. intros m' Hm'. unfold w'. rewrite updated_view by done.
      rewrite decide_False; [done|]. intros ->. by apply (held_not_listed _ _ _ _ w c x m I Hx), Hk. }
    by rewrite !He by (unfold client_msgs; set_solver).
  - unfold w'. rewrite updated_view by done. by rewrite decide_True.
Qed.

(** [MQTTProtocol_createMessage] on a restored packet. *)
Lemma create_restored p topic w :
  winv w -> pb_topic p = Some topic -> 0 <= pb_payloadlen p <= zlen (pb_payload p) -> 0 <= pb_msgId p <= MAX_MSG_ID ->
  exists m v w', MQTTProtocol_createMessage uninit true p None (hdr_qos (pb_header p)) (hdr_retain (pb_header p)) w = Some (m, w') /\
    inv {[+ m +]} ∅ ∅ ∅ w' /\ (forall c, session_of w' c = session_of w c) /\ shell w w' /\
    w_ps w' = w_ps w /\ w_cl w' = w_cl w /\ w_msgs w' !! m = Some v /\
    msg_view w' m = Some (restored_msg p topic (if hdr_qos (pb_header p) =? 2 then PUBREC else uninit)).
Proof.
  intros I Ht Hp Hid.
  destruct (create_step uninit true p topic (hdr_qos (pb_header p)) (hdr_retain (pb_header p)) _ _ _ w I Ht Hp Hid)
    as (m & v & pub & w1 & E1 & I1 & S1 & Sh1 & P1 & C1 & Hv1 & Hpub1 & Ha1 & _).
  rewrite (right_id_L ∅ (⊎)) in I1. by exists m, v, w1.
Qed.

Lemma msg_view_id w m v a : msg_view w m = Some a -> w_msgs w !! m = Some v -> am_id a = m_msgid v.
Proof. unfold msg_view. intros Ha Hv. rewrite Hv in Ha. simpl in Ha. destruct (w_pubs w !! _); by simplify_eq/=. Qed.

(** The ids of the messages of a list, as the ordered insertions see them. *)
Lemma keys_of_ids w l al :
  mapM (msg_view w) l = Some al -> keys_of (fun y => m_msgid <$> w_msgs w !! y) l = am_id <$> al.
Proof.
  intros Hal%view_ids. unfold keys_of. unfold ids in Hal. revert al Hal.
  induction l as [|m l IH]; intros [|a al] Hal; [done..|]. cbn [fmap list_fmap omap list_omap] in *.
  injection Hal as Hm Hal. rewrite Hm. f_equal. by apply IH.
Qed.

(** * The calls of the implementation *)

(** Calls that change nothing in the store. *)
Record looked w w' : Prop := {
  lk_quiet : quiet w w'; lk_cl : w_cl w' = w_cl w; lk_records : records (w_ps w') = records (w_ps w);
  lk_ok : store_ok (w_ps w') }.

Lemma looked_ps w s : records s = records (w_ps w) -> store_ok s -> looked w (set_ps s w).
Proof. intros E O. by split; [apply quiet_ps| | |]. Qed.

Lemma ops_get k w d :
  store_ok (w_ps w) -> records (w_ps w) !! k = Some d -> exists w', ops (pget per h k) w = Some ((0, d), w') /\ looked w w'.
Proof.
  intros O Hk. destruct (store_get k _ d O Hk) as (s & E & Er & O'). exists (set_ps s w). split; [|by apply looked_ps]. unfold ops. by rewrite E.
Qed.

Lemma ops_contains k w :
  store_ok (w_ps w) -> message_key k ->
  exists rc w', ops (pcontainskey per h k) w = Some (rc, w') /\ looked w w' /\
    (rc =? 0) = bool_decide (is_Some (records (w_ps w) !! k)).
Proof.
  intros O Hk. destruct (store_contains k (w_ps w) O Hk) as (rc & s & E & Er & O' & Hrc). exists rc, (set_ps s w).
  split; [unfold ops; by rewrite E|]. split; [by apply looked_ps|].
  destruct (Z.eqb_spec rc 0); symmetry; [apply bool_decide_true|apply bool_decide_false]; tauto.
Qed.

Lemma ops_remove k w :
  store_ok (w_ps w) -> is_Some (records (w_ps w) !! k) ->
  exists w', ops (premove per h k) w = Some (0, w') /\ quiet w w' /\ w_cl w' = w_cl w /\
    records (w_ps w') = delete k (records (w_ps w)) /\ store_ok (w_ps w').
Proof.
  intros O Hk. destruct (store_remove k _ O Hk) as (s & E & Er & O'). exists (set_ps s w). split; [unfold ops; by rewrite E|].
  by split; [apply quiet_ps|].
Qed.

Lemma looked_client w w' c x : looked w w' -> w_cl w !! c = Some x -> w_cl w' !! c = Some x.
Proof. intros L Hx. by rewrite (lk_cl _ _ L). Qed.

(** * One record *)

Lemma restore_received_step c x s p topic w :
  winv w -> w_cl w !! c = Some x -> session_of w c = Some s ->
  pb_topic p = Some topic -> 0 <= pb_payloadlen p <= zlen (pb_payload p) -> 0 <= pb_msgId p <= MAX_MSG_ID ->
  pb_msgId p ∉ am_id <$> s_in s ->
  exists w', restore_received uninit c (PPublish p) w = Some (tt, w') /\ winv w' /\ shell w w' /\ w_ps w' = w_ps w /\
    steps c (fun _ => s_with Inbound (s_in s ++ [restored_msg p topic PUBREL]) s) w w'.
Proof.
  intros I Hx Hs Ht Hp Hid Hni. unfold restore_received.
  destruct (create_restored p topic w I Ht Hp Hid) as (m & v & w1 & E1 & I1 & S1 & Sh1 & P1 & C1 & Hv1 & Ha1).
  mstep E1. rewrite <- (right_id_L ∅ (⊎) {[+ m +]}) in I1.
  destruct (held_update (set_nextMessageType PUBREL) m v _ _ _ w1 I1 (keeps_nextType _) Hv1) as (I2 & S2 & Sh2 & Ha2).
  mstep (upd_message_eq m (set_nextMessageType PUBREL) w1 v Hv1). set (v2 := set_nextMessageType PUBREL v) in *.
  set (w2 := updated m v2 w1) in *. assert (Hv2 : w_msgs w2 !! m = Some v2) by apply lookup_insert_eq.
  mstep (message_eq w2 m v2 Hv2). assert (Hx2 : w_cl w2 !! c = Some x) by (change (w_cl w1 !! c = Some x); by rewrite C1).
  assert (Hs2 : session_of w2 c = Some s) by (by rewrite S2, S1).
  pose proof (session_side w2 c x s Inbound Hx2 Hs2) as Hal. simpl in Hal.
  set (l' := LSpec.append m (m_len v2) (c_inboundMsgs x)).
  destruct (place_step Inbound c m (LSpec.contents (c_inboundMsgs x)) [] l' ∅ ∅ ∅ w2 x v2 (restored_msg p topic PUBREL) I2 Hx2 Hv2)
    as (I3 & S3 & Sh3); [by rewrite app_nil_r|apply LSpec.contents_append| | | |].
  { apply LSpec.append_wf, (wfs_in _ (i_wf _ _ _ _ _ I2) c x Hx2). }
  { rewrite Ha2, Ha1. done. }
  { rewrite app_nil_r, (view_ids _ _ _ Hal). by intros Hin%(list_elem_of_fmap_inj_2 Some). }
  set (w3 := set_cl _ w2) in I3, S3, Sh3. exists w3. unfold append_elem, upd_client. rewrite Hx2.
  split; [reflexivity|]. split; [exact I3|]. split; [by do 2 (etrans; [eassumption|])|]. split; [by rewrite <- P1|].
  intros c'. rewrite (S3 c'), !S2, !S1. case_decide; [|done]. rewrite Hs. simpl. unfold s_insert. simpl.
  assert (length (LSpec.contents (c_inboundMsgs x)) = length (s_in s)) as -> by (by eapply Forall2_length, mapM_Some).
  by rewrite firstn_all, drop_all.
Qed.
(** Placing a message by its id. *)
Lemma place_in_order c x s m v a w :
  inv {[+ m +]} ∅ ∅ ∅ w -> w_cl w !! c = Some x -> session_of w c = Some s -> w_msgs w !! m = Some v ->
  msg_view w m = Some a -> am_id a = m_msgid v -> am_id a ∉ am_id <$> s_out s -> Sorted Z.le (am_id <$> s_out s) ->
  exists l' w' out', MQTTPersistence_insertInOrder (w_msgs w) (c_outboundMsgs x) m (m_len v) = Some l' /\
    w' = set_cl (<[c := set_outbound l' x]> (w_cl w)) w /\ winv w' /\ shell w w' /\
    steps c (fun _ => s_with Outbound out' s) w w' /\ out' ≡ₚ a :: s_out s /\ Sorted Z.le (am_id <$> out').
Proof.
  intros I Hx Hs Hv Ha Eid Hni Hso. rewrite <- (right_id_L ∅ (⊎) {[+ m +]}) in I.
  set (key := fun y => m_msgid <$> w_msgs w !! y).
  pose proof (session_side w c x s Outbound Hx Hs) as Hal. simpl in Hal.
  destruct (insert_by_spec key (m_msgid v) m (m_len v) (c_outboundMsgs x)) as (xs & ys & l' & E & Wl & Ec & Ec' & Hso' & _).
  { exact (wfs_out _ (i_wf _ _ _ _ _ I) c x Hx). }
  { intros y Hy. destruct (client_msgs_alloc _ _ _ _ I c x y Hx) as [vy Evy]; [unfold client_msgs; set_solver|].
    unfold key. by rewrite Evy. }
  { unfold key. by rewrite Hv. }
  { unfold key. by rewrite (keys_of_ids _ _ _ Hal). }
  destruct (place_step Outbound c m xs ys l' ∅ ∅ ∅ w x v a I Hx Hv Ec Ec' Wl Ha) as (I' & S' & Sh').
  { rewrite <- Ec, (view_ids _ _ _ Hal). by intros Hin%(list_elem_of_fmap_inj_2 Some). }
  set (w' := set_cl _ w) in I', S', Sh'.
  set (out' := take (length xs) (s_out s) ++ a :: drop (length xs) (s_out s)).
  exists l', w', out'. split; [|split; [done|split; [exact I'|split; [exact Sh'|split; [|split]]]]].
  - unfold MQTTPersistence_insertInOrder. rewrite Hv. exact E.
  - intros c'. rewrite (S' c'). case_decide; [|done]. by rewrite Hs.
  - unfold out'. rewrite <- Permutation_middle. by rewrite take_drop.
  - assert (Hs' : session_of w' c = Some (s_with Outbound out' s)).
    { rewrite (S' c), decide_True, Hs by done. done. }
    assert (Hx' : w_cl w' !! c = Some (setl Outbound l' x)) by apply lookup_insert_eq.
    pose proof (session_side w' c _ _ Outbound Hx' Hs') as Hal'. simpl in Hal'.
    rewrite <- (keys_of_ids w' _ _ Hal'). exact Hso'.
Qed.

(** The phase of a held message whose PUBREL was sent ([rc = 0]). *)
Lemma sent_next_step rc m v a w :
  inv ({[+ m +]} ⊎ ∅) ∅ ∅ ∅ w -> w_msgs w !! m = Some v -> msg_view w m = Some a ->
  exists v' w', when (rc =? 0) (upd_message m (set_nextMessageType PUBCOMP)) w = Some (tt, w') /\
    inv ({[+ m +]} ⊎ ∅) ∅ ∅ ∅ w' /\ (forall c, session_of w' c = session_of w c) /\ shell w w' /\ w_ps w' = w_ps w /\
    w_cl w' = w_cl w /\ w_msgs w' !! m = Some v' /\ m_msgid v' = m_msgid v /\
    msg_view w' m = Some (if rc =? 0 then am_with_next PUBCOMP a else a).
Proof.
  intros I Hv Ha. destruct (rc =? 0); simpl; [|by exists v, w].
  rewrite (upd_message_eq m (set_nextMessageType PUBCOMP) w v Hv).
  destruct (held_update (set_nextMessageType PUBCOMP) m v _ _ _ w I (keeps_nextType _) Hv) as (I' & S' & Sh' & Ha').
  exists (set_nextMessageType PUBCOMP v). eexists. split; [reflexivity|]. split_and!; try done; [apply lookup_insert_eq|].
  by rewrite Ha', Ha.
Qed.

Lemma restore_sent_step c x s p topic w :
  winv w -> w_cl w !! c = Some x -> session_of w c = Some s ->
  pb_topic p = Some topic -> 0 <= pb_payloadlen p <= zlen (pb_payload p) -> 0 <= pb_msgId p <= MAX_MSG_ID ->
  pb_msgId p ∉ am_id <$> s_out s -> Sorted Z.le (am_id <$> s_out s) -> store_ok (w_ps w) ->
  let next := if bool_decide (is_Some (records (w_ps w) !! pubrel_key (pb_msgId p))) then PUBCOMP
              else if hdr_qos (pb_header p) =? 2 then PUBREC else uninit in
  exists w' out', restore_sent uninit per h c (PPublish p) w = Some (tt, w') /\ winv w' /\ shell w w' /\
    records (w_ps w') = records (w_ps w) /\ store_ok (w_ps w') /\ steps c (fun _ => s_with Outbound out' s) w w' /\
    out' ≡ₚ restored_msg p topic next :: s_out s /\ Sorted Z.le (am_id <$> out').
Proof.
  intros I Hx Hs Ht Hp Hid Hni Hso O next. unfold restore_sent.
  rewrite (bind_step _ _ w (pubrel_key (pb_msgId p)) w).
  2: { unfold load. by rewrite key_ok by (done || (vm_compute; lia)). }
  destruct (create_restored p topic w I Ht Hp Hid) as (m & v & w1 & E1 & I1 & S1 & Sh1 & P1 & C1 & Hv1 & Ha1).
  mstep E1. rewrite <- P1 in O. destruct (ops_contains (pubrel_key (pb_msgId p)) w1 O (message_pubrel _ Hid)) as (rc & w2 & E2 & L2 & Hrc). mstep E2.
  pose proof (quiet_inv _ _ _ _ _ _ (lk_quiet _ _ L2) I1) as I2. rewrite P1 in Hrc.
  assert (Hv2 : w_msgs w2 !! m = Some v) by (by rewrite (q_msgs _ _ (lk_quiet _ _ L2))).
  assert (Ha2 : msg_view w2 m = msg_view w1 m).
  { unfold msg_view. by rewrite (q_msgs _ _ (lk_quiet _ _ L2)), (q_pubs _ _ (lk_quiet _ _ L2)). }
  rewrite <- (right_id_L ∅ (⊎) {[+ m +]}) in I2.
  destruct (sent_next_step rc m v _ w2 I2 Hv2 (eq_trans Ha2 Ha1)) as (v3 & w3 & E3 & I3 & S3 & Sh3 & P3 & C3 & Hv3 & Id3 & Ha3).
  mstep E3.
  destruct (held_update (set_lastTouch 0) m v3 _ _ _ w3 I3 (keeps_lastTouch _) Hv3) as (I4 & S4 & Sh4 & Ha4).
  mstep (upd_message_eq m (set_lastTouch 0) w3 v3 Hv3). set (v4 := set_lastTouch 0 v3) in *.
  set (w4 := updated m v4 w3) in *. assert (Hv4 : w_msgs w4 !! m = Some v4) by apply lookup_insert_eq.
  mstep (message_eq w4 m v4 Hv4). rewrite (right_id_L ∅ (⊎)) in I4.
  assert (Hx4 : w_cl w4 !! c = Some x).
  { change (w_cl w3 !! c = Some x). by rewrite C3, (lk_cl _ _ L2), C1. }
  mstep (client_eq w4 c x Hx4).
  assert (Hs4 : forall c, session_of w4 c = session_of w c).
  { intros c'. by rewrite S4, S3, (quiet_session _ _ _ (lk_quiet _ _ L2)), S1. }
  assert (Hv4' : msg_view w4 m = Some (restored_msg p topic next)).
  { rewrite Ha4. unfold msg_view in Ha3 |- *. rewrite Hv3 in Ha3 |- *. simpl in Ha3 |- *.
    destruct (w_pubs w3 !! _); [|done]. simpl. unfold next. rewrite <- Hrc. destruct (rc =? 0); exact Ha3. }
  destruct (place_in_order c x s m v4 (restored_msg p topic next) w4 I4 Hx4) as (l' & w5 & out' & E5 & -> & I5 & Sh5 & S5 & Hp5 & Ho5);
    [by rewrite Hs4|done|exact Hv4'| |done..|].
  { by apply (msg_view_id _ _ _ _ Hv4'). }
  rewrite (bind_step _ _ w4 l' w4) by (unfold load; by rewrite E5). unfold upd_client. rewrite Hx4.
  eexists _, out'. split; [reflexivity|]. split; [exact I5|]. split; [|split; [|split; [|split; [|done]]]].
  - etrans; [exact Sh1|]. etrans; [apply quiet_shell, (lk_quiet _ _ L2)|]. etrans; [exact Sh3|]. by etrans.
  - change (records (w_ps w3) = records (w_ps w)). by rewrite P3, (lk_records _ _ L2), P1.
  - change (store_ok (w_ps w3)). rewrite P3. apply L2.
  - intros c'. rewrite (S5 c'), !Hs4. done.
Qed.
(** * The loop over the keys *)

(** The message of a list that a key belongs to. *)
Definition by_key (key : Z -> string) (l : list amsg) (k : string) : list amsg :=
  filter (fun a => key (am_id a) = k) l.

Lemma by_key_in (key : Z -> string) `{!Inj (=) (=) key} l a :
  NoDup (am_id <$> l) -> a ∈ l -> by_key key l (key (am_id a)) = [a].
Proof.
  induction l as [|b l IH]; [by intros _ ?%elem_of_nil|]. rewrite fmap_cons, NoDup_cons. intros [Hb Hl].
  unfold by_key in *. rewrite elem_of_cons. intros [->|Ha].
  - rewrite filter_cons_True by done. f_equal. clear IH Hl. induction l as [|d l IH]; [done|].
    rewrite fmap_cons, not_elem_of_cons in Hb. destruct Hb as [Hd Hb].
    rewrite filter_cons_False; [by apply IH|]. intros E%(inj key). congruence.
  - rewrite filter_cons_False; [by apply IH|]. intros E%(inj key). apply Hb. rewrite E. by apply list_elem_of_fmap_2.
Qed.

Lemma by_key_other (key : Z -> string) l k : (forall id, key id <> k) -> by_key key l k = [].
Proof. intros Hk. unfold by_key. induction l as [|b l IH]; [done|].
  rewrite filter_cons_False by apply Hk. exact IH.
Qed.

(** * Turning the list where the ids wrapped *)

(** Reordering an outbound list. *)
Lemma permute_step c x l' w s out' :
  winv w -> w_cl w !! c = Some x -> session_of w c = Some s -> LSpec.wf l' ->
  LSpec.contents l' ≡ₚ LSpec.contents (c_outboundMsgs x) -> mapM (msg_view w) (LSpec.contents l') = Some out' ->
  let w' := set_cl (<[c := set_outbound l' x]> (w_cl w)) w in
  winv w' /\ shell w w' /\ steps c (fun _ => s_with Outbound out' s) w w'.
Proof.
  intros I Hx Hs Wl Hp Hv w'. pose proof I as [[W1 W2 W3 W4 W5 W6 W7] J1 J2 J3 J4 J5 J6 J7 J8 [J9 J10]].
  split; [|split].
  - split; simpl; try done.
    + split; simpl; try done; apply (update_wf c w); try done; [exact (W5 c x Hx)|exact (W7 c x Hx)].
    + rewrite (collect_insert _ _ _ _ _ Hx). rewrite (collect_delete _ _ _ _ Hx) in J1.
      assert (E : lsd (client_msgs (set_outbound l' x)) = lsd (client_msgs x)) by (unfold client_msgs; simpl; by rewrite Hp).
      by rewrite E.
    + by rewrite (collect_same _ _ _ x).
    + intros c0 x0 [[-> <-]|[_ H0]]%lookup_insert_Some; [exact (J7 c0 x Hx)|exact (J7 c0 x0 H0)].
    + intros c0 x0 [[-> <-]|[_ H0]]%lookup_insert_Some; [|exact (J8 c0 x0 H0)].
      unfold ids. simpl. rewrite Hp. exact (J8 c0 x Hx).
    + split; [done|]. intros c0 Hc0. destruct (decide (c0 = c)) as [->|Hne]; [by rewrite lookup_insert_eq|].
      rewrite lookup_insert_ne by done. by apply J10.
  - apply (shell_cl w c x); [done|done].
  - intros c'. unfold session_of in *. change (msg_view w') with (msg_view w). change (entry_view w') with (entry_view w). simpl.
    case_decide as E; [subst c'|by rewrite lookup_insert_ne]. rewrite lookup_insert_eq, Hx in *.
    cbn [mbind option_bind] in *.
    apply option.bind_Some in Hs as (i & Ei & Hs). apply option.bind_Some in Hs as (o & Eo & Hs).
    apply option.bind_Some in Hs as (q & Eq' & [= <-]). simpl. rewrite Ei, Eo, Eq', Hv. done.
Qed.

(** The order of sending, from the order of the ids. *)
Definition wrapped (l : list amsg) : list amsg :=
  match wrap_point (am_id <$> l) with Some i => drop i l ++ take i l | None => l end.

Lemma wrapMsgID_step c x s w :
  winv w -> w_cl w !! c = Some x -> session_of w c = Some s ->
  exists w', MQTTPersistence_wrapMsgID c w = Some (tt, w') /\ winv w' /\ shell w w' /\ w_ps w' = w_ps w /\
    steps c (fun _ => s_with Outbound (wrapped (s_out s)) s) w w'.
Proof.
  intros I Hx Hs. pose proof (session_side w c x s Outbound Hx Hs) as Hal. simpl in Hal.
  assert (Hw : exists l', wrap_list (fun m => m_msgid <$> w_msgs w !! m) (c_outboundMsgs x) = Some l' /\ LSpec.wf l' /\
    LSpec.contents l' ≡ₚ LSpec.contents (c_outboundMsgs x) /\
    mapM (msg_view w) (LSpec.contents l') = Some (wrapped (s_out s))).
  { pose proof (wfs_out _ (i_wf _ _ _ _ _ I) c x Hx) as Wl. unfold wrap_list. rewrite (LSpec.wf_count _ Wl).
    assert (Ek : mapM (fun m => m_msgid <$> w_msgs w !! m) (LSpec.contents (c_outboundMsgs x)) = Some (am_id <$> s_out s)).
    { apply mapM_Some, Forall2_fmap_r. apply mapM_Some in Hal. eapply Forall2_impl; [exact Hal|]. intros m a Ha. simpl.
      unfold msg_view in Ha. destruct (w_msgs w !! m); [|done]. simpl in *. destruct (w_pubs w !! _); by simplify_eq/=. }
    rewrite Ek. cbn [mbind option_bind]. unfold wrapped.
    assert (Hlen : zlen (items (c_outboundMsgs x)) = zlen (s_out s)).
    { apply mapM_Some, Forall2_length in Hal. unfold zlen. rewrite <- Hal. unfold LSpec.contents. by rewrite length_fmap. }
    rewrite Hlen. destruct (Z.ltb_spec 0 (zlen (s_out s))) as [Hlt|Hle].
    - destruct (wrap_point _) as [i|]; [|by eauto]. eexists. split; [reflexivity|]. split; [by apply rotate_wf|].
      unfold rotate, LSpec.contents in *. simpl. rewrite fmap_app, fmap_drop, fmap_take. split.
      + rewrite Permutation_app_comm. by rewrite take_drop.
      + apply mapM_Some. apply mapM_Some in Hal. apply Forall2_app; [by apply Forall2_drop|by apply Forall2_take].
    - assert (Es : s_out s = []) by (unfold zlen in Hle; destruct (s_out s); simpl in *; [done|lia]).
      rewrite Es in Hal |- *. by exists (c_outboundMsgs x). }
  destruct Hw as (l' & E & Wl' & Hp & Hv).
  destruct (permute_step c x l' w s _ I Hx Hs Wl' Hp Hv) as (I' & Sh' & S').
  eexists. unfold MQTTPersistence_wrapMsgID. rewrite Hx. cbn [mbind option_bind]. rewrite E. by split_and!.
Qed.

Context (R0 : gmap string (list byte)) (outs ins : list amsg) (Im : image uninit R0 outs ins).

(** What the record of a key adds to a session. *)
Record adds (ks : list string) (s s' : session) : Prop := {
  add_in : s_in s' = s_in s ++ (ks ≫= by_key received_key ins);
  add_out : s_out s' ≡ₚ s_out s ++ (ks ≫= by_key sent_key outs);
  add_queue : s_queue s' = s_queue s;
  add_sorted : Sorted Z.le (am_id <$> s_out s) -> Sorted Z.le (am_id <$> s_out s') }.

(** The keys of a store, apart. *)
Lemma keys_apart id :
  other_key (sent_key id) = false /\ other_key (received_key id) = false /\ other_key (pubrel_key id) = false /\
  (forall i, sent_key i <> received_key id) /\ (forall i, sent_key i <> pubrel_key id) /\
  (forall i, received_key i <> sent_key id) /\ (forall i, received_key i <> pubrel_key id).
Proof. split_and!; try done; intros i; unfold sent_key, received_key, pubrel_key; simpl; congruence. Qed.

Lemma other_key_none k :
  other_key k = true -> (forall id, sent_key id <> k) /\ (forall id, received_key id <> k).
Proof.
  intros Hk. split; intros id <-; destruct (keys_apart id) as (H1 & H2 & _); congruence.
Qed.

Lemma adds_nothing k s : (forall id, sent_key id <> k) -> (forall id, received_key id <> k) -> adds [k] s s.
Proof.
  intros H1 H2. split; simpl; rewrite ?app_nil_r, ?by_key_other, ?app_nil_r by done; done.
Qed.

(** The reading of a record, by the kind of its key. *)
Lemma restore_key_eq c k w d w1 pack :
  other_key k = false -> ops (pget per h k) w = Some ((0, d), w1) ->
  MQTTPersistence_restorePacket d (zlen d) = Some (Some pack) ->
  restore_key uninit per h c k w =
    (if contains PERSISTENCE_PUBLISH_RECEIVED k then restore_received uninit c pack;; mret 0
     else if contains PERSISTENCE_PUBLISH_SENT k then restore_sent uninit per h c pack;; mret 0
     else if contains PERSISTENCE_PUBREL k then restore_pubrel per h k pack
     else mret 0) w1.
Proof.
  unfold other_key. rewrite orb_false_iff. intros [Hc Hq] E Ep. unfold restore_key. rewrite Hc, Hq. mstep E.
  change (negb (0 =? 0)) with false. cbv iota beta.
  by rewrite (bind_step _ _ w1 (Some pack) w1) by (unfold load; by rewrite Ep).
Qed.
Lemma not_orphan_sent id : ~ orphan R0 (sent_key id).
Proof. intros (i & _ & E & _). by destruct (keys_apart i) as (_ & _ & _ & _ & Hn & _); apply (Hn id). Qed.
Lemma not_orphan_received id : ~ orphan R0 (received_key id).
Proof. intros (i & _ & E & _). by destruct (keys_apart i) as (_ & _ & _ & _ & _ & _ & Hn); apply (Hn id). Qed.
Lemma orphan_pubrel id : orphan R0 (pubrel_key id) -> R0 !! sent_key id = None.
Proof. intros (i & _ & ->%(inj pubrel_key) & Hn). done. Qed.

(** Whether a key is orphaned is decidable: an id is determined by its key. *)
Lemma orphan_or_not R k : orphan R k \/ ~ orphan R k.
Proof.
  unfold orphan. destruct (decide (Exists (fun id => k = pubrel_key id /\ R !! sent_key id = None) (seqZ 0 65536))) as [He|He].
  - left. apply Exists_exists in He as (id & Hid%elem_of_seqZ & ? & ?). exists id. unfold MAX_MSG_ID. split; [lia|done].
  - right. intros (id & Hid & ? & ?). apply He, Exists_exists. exists id. unfold MAX_MSG_ID in Hid.
    split; [apply elem_of_seqZ; lia|done].
Qed.

(** The store still has every record that is not orphaned, and the next one. *)
Definition agrees (k : string) w : Prop :=
  store_ok (w_ps w) /\ is_Some (R0 !! k) /\ records (w_ps w) !! k = R0 !! k /\
  forall k', ~ orphan R0 k' -> records (w_ps w) !! k' = R0 !! k'.

Definition key_step c k s w : Prop :=
  exists w' s', restore_key uninit per h c k w = Some (0, w') /\ winv w' /\ shell w w' /\ steps c (fun _ => s') w w' /\
    adds [k] s s' /\ (orphan R0 k -> records (w_ps w') = delete k (records (w_ps w))) /\
    (~ orphan R0 k -> records (w_ps w') = records (w_ps w)) /\ store_ok (w_ps w').

Lemma key_step_other c k s w : winv w -> store_ok (w_ps w) -> session_of w c = Some s -> other_key k = true -> key_step c k s w.
Proof.
  intros I O Hs Hk. exists w, s. destruct (other_key_none k Hk) as [H1 H2]. split_and!; try done.
  - unfold restore_key, other_key in *. destruct (String.prefix PERSISTENCE_COMMAND_KEY k); [done|]. simpl in Hk. by rewrite Hk.
  - by apply (steps_eval c id _ s w w); [..|apply quiet_steps].
  - by apply adds_nothing.
  - intros (i & _ & -> & _). by destruct (keys_apart i) as (_ & _ & E & _); rewrite E in Hk.
Qed.

Lemma key_step_sent c x s a w :
  winv w -> w_cl w !! c = Some x -> session_of w c = Some s -> a ∈ outs -> agrees (sent_key (am_id a)) w ->
  am_id a ∉ am_id <$> s_out s -> Sorted Z.le (am_id <$> s_out s) -> key_step c (sent_key (am_id a)) s w.
Proof.
  intros I Hx Hs Ha (O & _ & Hk & Hag) Hni Hso. pose proof (im_sent _ _ _ _ Im) as Hall. rewrite Forall_forall in Hall.
  destruct (Hall a Ha) as [(d & p & topic & Hd & Ep & Ht & Hp & Hid & Ea) Hn].
  assert (Eid : pb_msgId p = am_id a) by (by rewrite Ea). assert (Eqos : hdr_qos (pb_header p) = am_qos a) by (by rewrite Ea).
  destruct (ops_get (sent_key (am_id a)) w d O) as (w1 & E1 & L1); [by rewrite Hk|].
  pose proof (quiet_session _ _ c (lk_quiet _ _ L1)) as Hs1. rewrite Hs in Hs1.
  destruct (restore_sent_step c x s p topic w1 (quiet_inv _ _ _ _ _ _ (lk_quiet _ _ L1) I) (looked_client _ _ _ _ L1 Hx) Hs1 Ht Hp Hid)
    as (w2 & out' & E2 & I2 & Sh2 & R2 & O2 & S2 & Hp2 & Hs2); [by rewrite Eid|done|by apply L1|].
  destruct (key_kinds (am_id a)) as (_ & [K1 K2] & _); [rewrite <- Eid; lia|].
  exists w2, (s_with Outbound out' s). rewrite (restore_key_eq c _ w d w1 _) by done. rewrite K1, K2, (bind_step _ _ _ _ _ E2).
  destruct (keys_apart (am_id a)) as (_ & _ & _ & _ & _ & Hr & _).
  split_and!; [done|done|etrans; [apply quiet_shell, (lk_quiet _ _ L1)|done]|by apply (steps_quiet_l _ _ _ w1); [apply L1|]| | | |].
  - split; simpl; rewrite ?app_nil_r; [|rewrite by_key_in by (apply _ || done || apply Im)|done|done].
    + by rewrite by_key_other, app_nil_r.
    + rewrite Hp2, Permutation_app_comm. simpl. f_equiv. rewrite Ea, Hn. f_equal. unfold sent_next.
      rewrite (lk_records _ _ L1), Hag, Eid, Eqos; [done|].
      intros Ho%orphan_pubrel. rewrite Eid in Ho. congruence.
  - intros []%not_orphan_sent.
  - intros _. by rewrite R2, (lk_records _ _ L1).
  - done.
Qed.
Lemma key_step_received c x s a w :
  winv w -> w_cl w !! c = Some x -> session_of w c = Some s -> a ∈ ins -> agrees (received_key (am_id a)) w ->
  am_id a ∉ am_id <$> s_in s -> key_step c (received_key (am_id a)) s w.
Proof.
  intros I Hx Hs Ha (O & _ & Hk & Hag) Hni. pose proof (im_received _ _ _ _ Im) as Hall. rewrite Forall_forall in Hall.
  destruct (Hall a Ha) as [(d & p & topic & Hd & Ep & Ht & Hp & Hid & Ea) Hn].
  assert (Eid : pb_msgId p = am_id a) by (by rewrite Ea).
  destruct (ops_get (received_key (am_id a)) w d O) as (w1 & E1 & L1); [by rewrite Hk|].
  pose proof (quiet_session _ _ c (lk_quiet _ _ L1)) as Hs1. rewrite Hs in Hs1.
  destruct (restore_received_step c x s p topic w1 (quiet_inv _ _ _ _ _ _ (lk_quiet _ _ L1) I) (looked_client _ _ _ _ L1 Hx) Hs1 Ht Hp Hid)
    as (w2 & E2 & I2 & Sh2 & P2 & S2); [by rewrite Eid|].
  destruct (key_kinds (am_id a)) as (K1 & _); [rewrite <- Eid; lia|].
  eexists w2, _. rewrite (restore_key_eq c _ w d w1 _) by (done || apply keys_apart). rewrite K1, (bind_step _ _ _ _ _ E2).
  destruct (keys_apart (am_id a)) as (_ & _ & _ & Hr & _).
  split_and!; [done|done|etrans; [apply quiet_shell, (lk_quiet _ _ L1)|done]|by apply (steps_quiet_l _ _ _ w1); [apply L1|]| | | |].
  - split; simpl; rewrite ?app_nil_r; [rewrite by_key_in by (apply _ || done || apply Im)| |done|done].
    + do 2 f_equal. by rewrite Ea, Hn.
    + by rewrite by_key_other, app_nil_r.
  - intros []%not_orphan_received.
  - intros _. by rewrite P2, (lk_records _ _ L1).
  - rewrite P2. apply L1.
Qed.

Lemma key_step_pubrel c s id d hd w :
  winv w -> session_of w c = Some s -> agrees (pubrel_key id) w -> 0 <= id <= MAX_MSG_ID ->
  R0 !! pubrel_key id = Some d -> MQTTPersistence_restorePacket d (zlen d) = Some (Some (PAck (MkAck hd id))) ->
  key_step c (pubrel_key id) s w.
Proof.
  intros I Hs (O & _ & Hk & Hag) Hid Hd Ep.
  destruct (ops_get (pubrel_key id) w d O) as (w1 & E1 & L1); [by rewrite Hk|].
  destruct (key_kinds id) as (_ & _ & K1 & K2 & K3); [lia|].
  unfold key_step. rewrite (restore_key_eq c _ w d w1 _) by (done || apply keys_apart). rewrite K1, K2, K3.
  unfold restore_pubrel. simpl ack_msgId.
  rewrite (bind_step _ _ w1 (sent_key id) w1) by (unfold load; by rewrite key_ok by (done || (vm_compute; lia))).
  destruct (ops_contains (sent_key id) w1 (lk_ok _ _ L1) (message_sent _ Hid)) as (rc & w2 & E2 & L2 & Hrc). mstep E2.
  rewrite (lk_records _ _ L1), Hag in Hrc by apply not_orphan_sent.
  assert (Q : quiet w w2) by (etrans; [apply L1|apply L2]).
  assert (Er : records (w_ps w2) = records (w_ps w)) by (by rewrite (lk_records _ _ L2), (lk_records _ _ L1)).
  assert (Hadd : adds [pubrel_key id] s s) by (apply adds_nothing; apply keys_apart).
  assert (St : forall w', quiet w w' -> winv w' /\ shell w w' /\ steps c (fun _ => s) w w').
  { intros w' Q'. split; [by apply (quiet_inv _ _ _ _ w)|]. split; [by apply quiet_shell|].
    by apply (steps_eval c (fun s => s) _ s); [..|apply quiet_steps]. }
  rewrite Hrc. case_bool_decide as Ho; simpl.
  - exists w2, s. destruct (St w2 Q) as (? & ? & ?). split_and!; try done.
    + intros Hn%orphan_pubrel. rewrite Hn in Ho. by destruct Ho.
    + apply L2.
  - destruct (ops_remove (pubrel_key id) w2 (lk_ok _ _ L2)) as (w3 & E3 & Q3 & _ & R3 & O3); [by rewrite Er, Hk, Hd|].
    exists w3, s. destruct (St w3 ltac:(by etrans)) as (? & ? & ?). split_and!; try done; [by rewrite R3, Er|].
    intros Hno. exfalso. apply Hno. exists id. split_and!; [lia|lia|done|]. by apply eq_None_not_Some.
Qed.

(** The keys left, with distinct messages that are not in the session. *)
Definition fresh_keys (ks : list string) (s : session) : Prop :=
  (forall a, a ∈ outs -> sent_key (am_id a) ∈ ks -> am_id a ∉ am_id <$> s_out s) /\
  (forall a, a ∈ ins -> received_key (am_id a) ∈ ks -> am_id a ∉ am_id <$> s_in s).

Lemma restore_key_step c x k s w :
  winv w -> w_cl w !! c = Some x -> session_of w c = Some s -> agrees k w -> fresh_keys [k] s ->
  Sorted Z.le (am_id <$> s_out s) -> key_step c k s w.
Proof.
  intros I Hx Hs Ha [F1 F2] Hso. destruct (im_keys _ _ _ _ Im k (proj1 (proj2 Ha))) as [k Hk|a Hin|a Hin|id d hd Hid Hd Ep].
  - apply key_step_other; [done|apply Ha|done..].
  - eapply key_step_sent; eauto. apply F1; [done|]. by apply list_elem_of_singleton.
  - eapply key_step_received; eauto. apply F2; [done|]. by apply list_elem_of_singleton.
  - by eapply key_step_pubrel.
Qed.
Lemma elem_of_by_key (key : Z -> string) l k a : a ∈ by_key key l k <-> a ∈ l /\ key (am_id a) = k.
Proof. unfold by_key. rewrite list_elem_of_filter. tauto. Qed.

(** The keys after the first one stay fresh. *)
Lemma fresh_keys_step k ks s s' :
  (k ∉ ks) -> fresh_keys (k :: ks) s -> adds [k] s s' -> fresh_keys ks s'.
Proof.
  intros Hk [F1 F2] A. split; intros a Ha Hin.
  - rewrite (add_out _ _ _ A), fmap_app, elem_of_app. simpl. rewrite app_nil_r. intros [Ho|Ho].
    + apply (F1 a Ha); [by right|done].
    + apply list_elem_of_fmap in Ho as (b & Eb & [_ Hb]%elem_of_by_key). rewrite Eb, Hb in Hin. done.
  - rewrite (add_in _ _ _ A), fmap_app, elem_of_app. simpl. rewrite app_nil_r. intros [Ho|Ho].
    + apply (F2 a Ha); [by right|done].
    + apply list_elem_of_fmap in Ho as (b & Eb & [_ Hb]%elem_of_by_key). rewrite Eb, Hb in Hin. done.
Qed.

Lemma adds_trans k ks s1 s2 s3 : adds [k] s1 s2 -> adds ks s2 s3 -> adds (k :: ks) s1 s3.
Proof.
  intros [A1 A2 A3 A4] [B1 B2 B3 B4]. split; [| |congruence|auto]; simpl in *; rewrite app_nil_r in *.
  - by rewrite B1, A1, app_assoc.
  - by rewrite B2, A2, app_assoc.
Qed.

(** What happens to the records. *)
Definition cleaned (ks : list string) w w' : Prop :=
  (forall k, k ∈ ks -> orphan R0 k -> records (w_ps w') !! k = None) /\
  (forall k, (k ∉ ks) \/ ~ orphan R0 k -> records (w_ps w') !! k = records (w_ps w) !! k).

Lemma restore_loop_steps c ks : forall x s w,
  winv w -> store_ok (w_ps w) -> w_cl w !! c = Some x -> session_of w c = Some s -> NoDup ks -> (forall k, k ∈ ks -> agrees k w) ->
  fresh_keys ks s -> Sorted Z.le (am_id <$> s_out s) ->
  exists w' s', restore_loop uninit per h c ks w = Some (0, w') /\ winv w' /\ shell w w' /\ steps c (fun _ => s') w w' /\
    adds ks s s' /\ cleaned ks w w' /\ store_ok (w_ps w').
Proof.
  induction ks as [|k ks IH]; intros x s w I O Hx Hs Hn Ha Hf Hso.
  { exists w, s. split_and!; try done.
    - by apply (steps_eval c id _ s w w); [..|apply quiet_steps].
    - split; simpl; rewrite ?app_nil_r; done.
    - split; [by intros k ?%elem_of_nil|done]. }
  apply NoDup_cons in Hn as [Hk Hn].
  destruct (restore_key_step c x k s w I Hx Hs (Ha k (list_elem_of_here _ _))) as (w1 & s1 & E1 & I1 & Sh1 & S1 & A1 & O1 & O2 & Ok1); [|done|].
  { destruct Hf as [F1 F2]. split; intros a Hin Hk'%list_elem_of_singleton; [apply F1|apply F2]; rewrite ?Hk'; by (done || left). }
  assert (Hs1 : session_of w1 c = Some s1) by (rewrite (S1 c), decide_True, Hs by done; done).
  destruct (shell_client _ _ _ _ Sh1 Hx) as (x1 & Hx1 & _).
  assert (Hrec : forall k', k' <> k \/ ~ orphan R0 k' -> records (w_ps w1) !! k' = records (w_ps w) !! k').
  { intros k' Hk'. destruct (orphan_or_not R0 k) as [Ho|Ho]; [rewrite O1 by done|by rewrite O2].
    rewrite lookup_delete_ne; [done|]. intros ->. tauto. }
  destruct (IH x1 s1 w1 I1 Ok1 Hx1 Hs1 Hn) as (w2 & s2 & E2 & I2 & Sh2 & S2 & A2 & [C1 C2] & Ok2).
  { intros k' Hk'. destruct (Ha k' ltac:(by right)) as (_ & H1 & H2 & H3). split_and!; [done|done| |].
    - rewrite Hrec, H2; [done|left; by intros ->].
    - intros k2 Hk2. rewrite Hrec by auto. auto. }
  { by apply (fresh_keys_step k ks s). }
  { by apply (add_sorted _ _ _ A1). }
  exists w2, s2. split_and!; [|done|by etrans| |by eapply adds_trans| |done].
  - simpl. mstep E1. done.
  - intros c'. rewrite (S2 c'). case_decide; [by rewrite Hs1, Hs|]. by rewrite (S1 c'), decide_False.
  - split.
    + intros k' [->|Hin]%elem_of_cons Ho; [|by apply C1]. rewrite C2 by auto. rewrite O1 by done. apply lookup_delete_eq.
    + intros k' [Hni|Ho]; [apply not_elem_of_cons in Hni as [? ?]|]; rewrite C2, Hrec; auto.
Qed.
(** The messages of all keys are the messages of the store. *)
Lemma by_key_all (key : Z -> string) `{!Inj (=) (=) key} l (ks : list string) :
  NoDup (am_id <$> l) -> NoDup ks -> (forall a, a ∈ l -> key (am_id a) ∈ ks) -> (ks ≫= by_key key l) ≡ₚ l.
Proof.
  intros Hl Hk Hall. apply NoDup_Permutation.
  - clear Hall. induction ks as [|k ks IH]; [constructor|]. apply NoDup_cons in Hk as [Hn Hk]. simpl.
    apply NoDup_app. split; [by apply NoDup_filter, (NoDup_fmap_1 am_id)|]. split; [|by apply IH].
    intros a [_ Ha]%elem_of_by_key Hin. apply Hn. apply list_elem_of_bind in Hin as (k' & [_ Ha']%elem_of_by_key & Hk').
    congruence.
  - by apply (NoDup_fmap_1 am_id).
  - intros a. rewrite list_elem_of_bind. setoid_rewrite elem_of_by_key. split; [by intros (k & [? _] & _)|].
    intros Ha. exists (key (am_id a)). auto.
Qed.

(** A list ordered by distinct ids is determined by its elements. *)
Lemma sorted_ids_unique (l1 l2 : list amsg) :
  NoDup (am_id <$> l1) -> l1 ≡ₚ l2 -> Sorted Z.le (am_id <$> l1) -> Sorted Z.le (am_id <$> l2) -> l1 = l2.
Proof.
  intros Hn Hp H1 H2. set (R := fun a b => am_id a <= am_id b).
  assert (Hs : forall l, Sorted Z.le (am_id <$> l) -> StronglySorted R l).
  { intros l Hl%Sorted_StronglySorted; [|intros ? ? ?; lia]. induction l as [|a l IH]; [constructor|].
    inversion Hl as [|? ? Hl' Ha]; subst. constructor; [by apply IH|]. by rewrite Forall_fmap in Ha. }
  apply (StronglySorted_unique_strong R); [|by apply Hs|by apply Hs|done].
  intros a b Ha Hb Hab Hba. unfold R in *. rewrite <- Hp in Hb.
  apply list_elem_of_lookup in Ha as [i Hi], Hb as [j Hj].
  assert (i = j) as ->; [|congruence]. apply (NoDup_lookup _ _ _ (am_id a) Hn); rewrite list_lookup_fmap.
  - by rewrite Hi.
  - rewrite Hj. simpl. f_equal. lia.
Qed.
End recovery.

Lemma restore_session_step {K PS} `{Kernel K} (per : MQTTClient_persistence PS) h `{!StoreLaws per h} uninit (w : world K PS) c x s outs ins :
  winv w -> w_cl w !! c = Some x -> c_persistence x = Some per -> c_phandle x = h ->
  session_of w c = Some s -> s_in s = [] -> s_out s = [] -> store_ok (w_ps w) ->
  image uninit (records (w_ps w)) outs ins -> Sorted Z.le (am_id <$> outs) ->
  exists w' ins', MQTTPersistence_restore uninit c w = Some (0, w') /\ winv w' /\ shell w w' /\ ins' ≡ₚ ins /\
    steps c (fun _ => Sess ins' (wrapped outs) (s_queue s)) w w' /\ store_ok (w_ps w') /\
    forall k, (orphan (records (w_ps w)) k -> records (w_ps w') !! k = None) /\
      (~ orphan (records (w_ps w)) k -> records (w_ps w') !! k = records (w_ps w) !! k).
Proof.
  intros I Hx Hper Hh Hs Hin Hout O Im Hso. unfold MQTTPersistence_restore. mstep (client_eq w c x Hx). rewrite Hper, Hh.
  destruct (store_keys (w_ps w) O) as (ks & ps & Ek & Er & O1 & Hnd & Hks). set (R := records (w_ps w)) in *.
  pose proof (quiet_ps w ps) as Q. set (w1 := set_ps ps w) in *. assert (Hs1 : session_of w1 c = Some s) by (by rewrite (quiet_session _ _ _ Q)).
  destruct (restore_loop_steps per h uninit R outs ins Im c ks x s w1) as (w2 & s2 & E2 & I2 & Sh2 & S2 & A2 & (C1 & C2) & O2).
  - by apply (quiet_inv _ _ _ _ w).
  - done.
  - done.
  - done.
  - done.
  - intros k Hk. split_and!; [done|by apply Hks|by rewrite <- Er|]. intros. by rewrite <- Er.
  - split; intros; [rewrite Hout|rewrite Hin]; apply not_elem_of_nil.
  - rewrite Hout. constructor.
  - assert (Hs2 : session_of w2 c = Some s2) by (rewrite (S2 c), decide_True, Hs1 by done; done).
    destruct (shell_client _ _ _ _ Sh2 Hx) as (x2 & Hx2 & _).
    destruct (wrapMsgID_step c x2 s2 w2 I2 Hx2 Hs2) as (w3 & E3 & I3 & Sh3 & P3 & S3).
    destruct A2 as [A1 A2 A3 A4]. rewrite Hin in A1. rewrite Hout in A2, A4. simpl in A1, A2.
    assert (Eo : outs = s_out s2).
    { apply sorted_ids_unique; [apply Im| |done|by apply A4]. rewrite A2. symmetry. apply by_key_all; [apply _|apply Im|done|].
      intros a Ha. apply Hks. pose proof (im_sent _ _ _ _ Im) as Hall. rewrite Forall_forall in Hall.
      destruct (Hall a Ha) as [(d & _ & _ & Hd & _) _]. by exists d. }
    exists w3, (s_in s2). split; [|split; [done|split; [|split; [|split; [|split]]]]].
    + rewrite bind_assoc. rewrite (bind_step _ _ w (0, ks) w1) by (unfold ops; by rewrite Ek). simpl. mstep E2. mstep E3. done.
    + etrans; [apply quiet_shell, Q|]. by etrans.
    + rewrite A1. apply by_key_all; [apply _|apply Im|done|]. intros a Ha. apply Hks.
      pose proof (im_received _ _ _ _ Im) as Hall. rewrite Forall_forall in Hall.
      destruct (Hall a Ha) as [(d & _ & _ & Hd & _) _]. by exists d.
    + intros c'. rewrite (S3 c'). case_decide; [rewrite Hs2, Hs; simpl; by rewrite Eo, <- A3; destruct s2|].
      by rewrite (S2 c'), decide_False, (quiet_session _ _ _ Q).
    + by rewrite P3.
    + rewrite P3. intros k. destruct (decide (k ∈ ks)) as [Hk|Hk].
      * split; intros Ho; [by apply C1|]. rewrite C2 by auto. simpl. by rewrite Er.
      * assert (En : R !! k = None) by (apply eq_None_not_Some; by rewrite <- Hks).
        rewrite C2 by auto. simpl. by rewrite Er.
Qed.
(** [C14] After a crash the session comes back: when the store holds the messages
    [outs] (listed by id) and [ins], possibly with PUBRELs, commands and queue
    entries, restoring an empty session gives exactly these messages - those
    being sent in the order of sending (the ids turned where they wrapped),
    released ones waiting for PUBCOMP, received ones for PUBREL - and removes
    from the store exactly the PUBRELs that belong to no message. *)
Theorem restore_session {K PS} `{Kernel K} (per : MQTTClient_persistence PS) h `{!StoreLaws per h} uninit (w : world K PS) c x s outs ins :
  winv w -> w_cl w !! c = Some x -> c_persistence x = Some per -> c_phandle x = h ->
  session_of w c = Some s -> s_in s = [] -> s_out s = [] -> store_ok (w_ps w) ->
  image uninit (records (w_ps w)) outs ins -> Sorted Z.le (am_id <$> outs) ->
  exists w' ins', MQTTPersistence_restore uninit c w = Some (0, w') /\ winv w' /\ shell w w' /\ ins' ≡ₚ ins /\
    steps c (fun _ => Sess ins' (wrapped outs) (s_queue s)) w w' /\ store_ok (w_ps w') /\
    forall k, (orphan (records (w_ps w)) k -> records (w_ps w') !! k = None) /\
      (~ orphan (records (w_ps w)) k -> records (w_ps w') !! k = records (w_ps w) !! k).
Proof. apply restore_session_step. Qed.

End Recovery.
