(* ===== verification/FileSystem.v ===== *)
(** The file system as [lib/MQTTPersistenceDefault.c] uses it: the calls that the
    code makes, what it relies on for one directory, and a file system in memory
    that behaves so. *)
From Stdlib Require Import Ascii String.
From S2P Require Import Prelude Socket.

Module FileSystem.
Import Socket.

#[local] Arguments zlen : simpl never.

Definition EEXIST : Z := 17.
Definition ENOENT : Z := 2.
Definition ENOTEMPTY : Z := 39.

(** * The calls *)

(** Paths are strings.  A stream of the C library is identified by its path; the
    code has at most one open.  Reading a directory gives the names that
    [readdir] returns between [opendir] and [closedir], in its order. *)
Class FileSystem (F : Type) := {
  fs_mkdir : string -> F -> sysret unit * F;
  fs_rmdir : string -> F -> sysret unit * F;
  fs_create : string -> F -> bool * F;                  (* fopen(path, wb) is not NULL *)
  fs_write : string -> list byte -> F -> Z * F;         (* fwrite: the number of bytes written *)
  fs_open : string -> F -> option Z * F;                (* fopen(path, rb), and the length that fseek and ftell find *)
  fs_read : string -> Z -> F -> list byte * F;          (* fread *)
  fs_close : string -> F -> F;                          (* fclose *)
  fs_unlink : string -> F -> sysret unit * F;
  fs_remove : string -> F -> bool * F;                  (* remove(path) == 0 *)
  fs_readdir : string -> F -> option (list string) * F; (* None: opendir failed *)
  fs_lstat : string -> F -> option bool * F             (* None: failed; whether it is a regular file *)
}.

(** * One directory *)

(** The path of a name in a directory. *)
Definition path_in (d n : string) : string := (d +:+ "/" +:+ n)%string.

Fixpoint no_slash (n : string) : bool :=
  match n with EmptyString => true | String a n' => negb (Ascii.eqb a "/") && no_slash n' end.

(** The tokens that [strtok_r] finds, separated by slashes and backslashes. *)
Fixpoint tokens (cur s : string) : list string :=
  match s with
  | EmptyString => if decide (cur = "")%string then [] else [cur]
  | String a s' =>
      if Ascii.eqb a "\" || Ascii.eqb a "/"
      then (if decide (cur = "")%string then [] else [cur]) ++ tokens "" s'
      else tokens (cur +:+ String a "")%string s'
  end.

(** The directories on the way to a path, from the top. *)
Fixpoint levels_from (p : string) (toks : list string) : list string :=
  p :: match toks with [] => [] | tok :: toks' => levels_from (path_in p tok) toks' end.
Definition levels (p : string) : list string :=
  match tokens "" p with [] => [] | tok :: toks => levels_from tok toks end.

(** A name for a file. *)
Definition file_name (n : string) : bool :=
  no_slash n && bool_decide (n <> "") && bool_decide (n <> ".") && bool_decide (n <> "..").

(** What the code relies on for the directory [d]: [dir_files] are its regular
    files, by name, and [dir_entries] the names that reading it gives.  [dir_ok]
    says that the directory is there and in order: its device has room, and it
    holds files only.  A file written holds the bytes written to it, in order, and
    a file read gives its contents. *)
Class DirLaws (F : Type) `{FileSystem F} (d : string) := {
  dir_files : F -> gmap string (list byte);
  dir_entries : F -> list string;
  dir_ok : F -> Prop;
  dir_entries_nodup s : dir_ok s -> NoDup (dir_entries s);
  dir_entries_files n s : dir_ok s -> is_Some (dir_files s !! n) -> n ∈ dir_entries s;
  fs_create_ok n s : dir_ok s -> file_name n = true ->
    exists s', fs_create (path_in d n) s = (true, s') /\ dir_ok s' /\ dir_files s' = <[n := []]> (dir_files s);
  fs_write_ok n c bs s : dir_ok s -> dir_files s !! n = Some c ->
    exists s', fs_write (path_in d n) bs s = (zlen bs, s') /\ dir_ok s' /\ dir_files s' = <[n := c ++ bs]> (dir_files s);
  fs_open_ok n c s : dir_ok s -> dir_files s !! n = Some c ->
    exists s', fs_open (path_in d n) s = (Some (zlen c), s') /\ dir_ok s' /\ dir_files s' = dir_files s;
  fs_read_ok n c s : dir_ok s -> dir_files s !! n = Some c ->
    exists s', fs_read (path_in d n) (zlen c) s = (c, s') /\ dir_ok s' /\ dir_files s' = dir_files s;
  fs_close_ok n s : dir_ok s -> dir_ok (fs_close (path_in d n) s) /\ dir_files (fs_close (path_in d n) s) = dir_files s;
  fs_unlink_ok n s : dir_ok s -> is_Some (dir_files s !! n) ->
    exists s', fs_unlink (path_in d n) s = (SysOk tt, s') /\ dir_ok s' /\ dir_files s' = delete n (dir_files s);
  fs_unlink_absent n s : dir_ok s -> file_name n = true -> dir_files s !! n = None ->
    exists s', fs_unlink (path_in d n) s = (SysErr ENOENT, s') /\ dir_ok s' /\ dir_files s' = dir_files s;
  fs_mkdir_ok p s : dir_ok s -> p ∈ levels d ->
    exists r s', fs_mkdir p s = (r, s') /\ (r = SysOk tt \/ r = SysErr EEXIST) /\ dir_ok s' /\ dir_files s' = dir_files s;
  fs_readdir_ok s : dir_ok s ->
    exists s', fs_readdir d s = (Some (dir_entries s), s') /\ dir_ok s' /\ dir_files s' = dir_files s /\
      dir_entries s' = dir_entries s;
  fs_lstat_ok n s : dir_ok s -> n ∈ dir_entries s ->
    exists s', fs_lstat (path_in d n) s = (Some (bool_decide (is_Some (dir_files s !! n))), s') /\ dir_ok s' /\
      dir_files s' = dir_files s /\ dir_entries s' = dir_entries s
}.

(** * A file system in memory *)

(** Directories, each with its files.  A path is taken apart at its last slash;
    a path without one is in the working directory. *)
Abbreviation memfs := (gmap string (gmap string (list byte))).

Fixpoint split_path (p : string) : string * string :=
  match p with
  | EmptyString => (".", "")
  | String a p' =>
      if no_slash p' then if Ascii.eqb a "/" then ("", p') else (".", p)
      else let '(d, n) := split_path p' in (String a d, n)
  end%string.

Definition mem_file (p : string) (s : memfs) : option (list byte) :=
  let '(d, n) := split_path p in m ← s !! d; m !! n.
(** Changing the directory that a path is in. *)
Definition mem_update (p : string) (f : string -> gmap string (list byte) -> gmap string (list byte)) (s : memfs) : memfs :=
  let '(d, n) := split_path p in
  match s !! d with Some m => <[d := f n m]> s | None => s end.

#[export] Instance memfs_files : FileSystem memfs := {|
  fs_mkdir p s := match s !! p with Some _ => (SysErr EEXIST, s) | None => (SysOk tt, <[p := ∅]> s) end;
  fs_rmdir p s :=
    match s !! p with
    | None => (SysErr ENOENT, s)
    | Some m => if decide (m = ∅) then (SysOk tt, delete p s) else (SysErr ENOTEMPTY, s)
    end;
  fs_create p s :=
    match s !! (split_path p).1 with Some _ => (true, mem_update p (fun n => <[n := []]>) s) | None => (false, s) end;
  fs_write p bs s :=
    match mem_file p s with Some c => (zlen bs, mem_update p (fun n => <[n := c ++ bs]>) s) | None => (0, s) end;
  fs_open p s := (zlen <$> mem_file p s, s);
  fs_read p n s := (match mem_file p s with Some c => take (Z.to_nat n) c | None => [] end, s);
  fs_close _ s := s;
  fs_unlink p s :=
    match mem_file p s with Some _ => (SysOk tt, mem_update p delete s) | None => (SysErr ENOENT, s) end;
  fs_remove p s := match mem_file p s with Some _ => (true, mem_update p delete s) | None => (false, s) end;
  fs_readdir p s := ((fun m => "."%string :: ".."%string :: filter (fun n => n <> "." /\ n <> "..")%string (map_to_list m).*1) <$> s !! p, s);
  fs_lstat p s :=
    (if decide (is_Some (s !! p) \/ is_Some (s !! (split_path p).1)) then Some (bool_decide (is_Some (mem_file p s))) else None, s)
|}.

Lemma no_slash_path d n : no_slash (path_in d n) = false.
Proof. unfold path_in. induction d as [|a d IH]; simpl; [done|]. fold (path_in d n) in *. by rewrite IH, andb_false_r. Qed.

Lemma split_path_in d n : no_slash n = true -> split_path (path_in d n) = (d, n).
Proof.
  intros Hn. induction d as [|a d IH].
  - change (path_in "" n) with (String "/" n). cbn [split_path]. by rewrite Hn.
  - change (path_in (String a d) n) with (String a (path_in d n)). cbn [split_path]. by rewrite no_slash_path, IH.
Qed.

Lemma file_name_no_slash n : file_name n = true -> no_slash n = true.
Proof. unfold file_name. rewrite !andb_true_iff. tauto. Qed.

Definition mem_ok (d : string) (s : memfs) : Prop := exists m, s !! d = Some m /\ map_Forall (fun n _ => file_name n = true) m.

Section memfs.
Variable d : string.
Implicit Types (s : memfs).

Lemma mem_file_in n s : no_slash n = true -> mem_file (path_in d n) s = default ∅ (s !! d) !! n.
Proof. intros Hn. unfold mem_file. rewrite split_path_in by done. by destruct (s !! d). Qed.

Lemma mem_names n s : mem_ok d s -> is_Some (default ∅ (s !! d) !! n) -> file_name n = true.
Proof. intros (m & -> & Hm) [c Hc]. by eapply Hm. Qed.

Lemma mem_update_in n f s :
  mem_ok d s -> no_slash n = true -> (forall m, map_Forall (fun n _ => file_name n = true) m -> map_Forall (fun n _ => file_name n = true) (f n m)) ->
  mem_ok d (mem_update (path_in d n) f s) /\ default ∅ (mem_update (path_in d n) f s !! d) = f n (default ∅ (s !! d)).
Proof.
  intros (m & Hm & Hf) Hn Hk. unfold mem_update. rewrite split_path_in, Hm by done. cbv iota beta. rewrite lookup_insert_eq.
  split; [|done]. exists (f n m). rewrite lookup_insert_eq. split; [done|by apply Hk].
Qed.

#[export, refine] Instance memfs_laws : DirLaws memfs d := {|
  dir_files s := default ∅ (s !! d);
  dir_entries s := "."%string :: ".."%string :: filter (fun n => n <> "." /\ n <> "..")%string (map_to_list (default ∅ (s !! d))).*1;
  dir_ok := mem_ok d
|}.
Proof.
  - intros s _. rewrite !NoDup_cons, !not_elem_of_cons, !list_elem_of_filter. split_and!; try tauto; try done.
    apply NoDup_filter, NoDup_fst_map_to_list.
  - intros n s O Hn. pose proof (mem_names n s O Hn) as Hf. unfold file_name in Hf. rewrite !andb_true_iff in Hf.
    destruct Hf as [[_ H2%bool_decide_eq_true] H3%bool_decide_eq_true]. right. right. apply list_elem_of_filter. split; [done|].
    destruct Hn as [c Hc]. apply list_elem_of_fmap. exists (n, c). split; [done|]. by apply elem_of_map_to_list.
  - intros n s O Hn. pose proof (file_name_no_slash _ Hn) as Hs. simpl. rewrite split_path_in by done. simpl.
    destruct (mem_update_in n (fun n => <[n:=[]]>) s O Hs) as [O' E]; [intros m Hm; by apply map_Forall_insert_2|].
    pose proof O as (m & Hm & _). rewrite Hm in E |- *. eauto.
  - intros n c bs s O Hc. pose proof (mem_names n s O (ex_intro _ c Hc)) as Hn. pose proof (file_name_no_slash _ Hn) as Hs.
    simpl. rewrite mem_file_in, Hc by done.
    destruct (mem_update_in n (fun n => <[n:=c ++ bs]>) s O Hs) as [O' E]; [intros m Hm; by apply map_Forall_insert_2|]. eauto.
  - intros n c s O Hc. pose proof (file_name_no_slash _ (mem_names n s O (ex_intro _ c Hc))) as Hs.
    exists s. simpl. by rewrite mem_file_in, Hc.
  - intros n c s O Hc. pose proof (file_name_no_slash _ (mem_names n s O (ex_intro _ c Hc))) as Hs.
    exists s. simpl. rewrite mem_file_in, Hc by done. split; [|done]. f_equal. unfold zlen. by rewrite Nat2Z.id, firstn_all.
  - done.
  - intros n s O Hn. pose proof (file_name_no_slash _ (mem_names n s O Hn)) as Hs. simpl. rewrite mem_file_in by done.
    destruct (mem_update_in n delete s O Hs) as [O' E]; [intros m Hm; by apply map_Forall_delete|].
    destruct Hn as [c ->]. eauto.
  - intros n s O Hf Hn. simpl. rewrite mem_file_in, Hn by by apply file_name_no_slash. eauto.
  - intros p s O _. simpl. destruct (s !! p) as [m|] eqn:Hp; [exists (SysErr EEXIST), s; auto|].
    exists (SysOk tt), (<[p := ∅]> s). split; [done|]. split; [by left|]. destruct O as (m & Hm & Hf). assert (p <> d) by congruence.
    unfold mem_ok. rewrite lookup_insert_ne by done. split; [by exists m|done].
  - intros s O. exists s. pose proof O as (m & Hm & _). simpl. by rewrite Hm.
  - intros n s O Hn. exists s. split; [|done]. pose proof O as (m & Hm & Hf). simpl. rewrite Hm in Hn |- *. simpl in *.
    assert (Hs : no_slash n = true).
    { apply elem_of_cons in Hn as [->|Hn]; [done|]. apply elem_of_cons in Hn as [->|Hn]; [done|].
      apply list_elem_of_filter in Hn as [_ ([n' c] & -> & Hn)%list_elem_of_fmap].
      apply elem_of_map_to_list in Hn. eapply file_name_no_slash, Hf, Hn. }
    rewrite mem_file_in, Hm, split_path_in by done. simpl. rewrite decide_True; [done|]. right. by exists m.
Defined.
End memfs.
End FileSystem.
