(* ===== verification/FileStore.v ===== *)
(** Model of [lib/MQTTPersistenceDefault.c]: the persistence implementation that
    keeps each record in a file of the client's directory, and the proof that it
    keeps what it is given: in a directory that holds records only, it implements
    the map from keys to records that the restoration of sessions relies on.

    [clientDir] is [None] for a null handle.  The Windows variants are not
    modelled. *)
From Stdlib Require Import Ascii String.
From S2P Require Import Prelude ListSpec Packet SocketBuffer Socket World Persistence Recovery FileSystem.

Module FileStore.
Import Packet SocketBuffer Socket World Persistence Recovery FileSystem.

#[local] Arguments zlen : simpl never.

Definition MESSAGE_FILENAME_EXTENSION : string := ".msg".

(** [ptraux = strstr(filekey, MESSAGE_FILENAME_EXTENSION); if (ptraux != NULL)
    *ptraux = 0]. *)
Definition cut_extension (name : string) : string :=
  match String.index 0 MESSAGE_FILENAME_EXTENSION name with
  | Some i => String.substring 0 i name
  | None => name
  end.

(** The file of a key, by its name and by its path. *)
Definition record_file (key : string) : string := (key +:+ MESSAGE_FILENAME_EXTENSION)%string.
Definition message_path (clientDir key : string) : string := path_in clientDir (record_file key).

(** The loop that replaces the colons of the server's address. *)
Fixpoint replace_colons (s : string) : string :=
  match s with
  | EmptyString => EmptyString
  | String a s' => String (if Ascii.eqb a ":" then "-"%char else a) (replace_colons s')
  end.

(** A C string without its NUL. *)
Definition to_string (l : list byte) : string := foldr (fun b s => String (ascii_of_N (Z.to_N b)) s) EmptyString l.

Definition client_dir (dataDir clientID serverURI : string) : string :=
  (dataDir +:+ "/" +:+ clientID +:+ "-" +:+ replace_colons serverURI)%string.

Section code.
Context {F : Type} `{FileSystem F}.
(** Whether the uninitialised [stat_info] looks like that of a regular file. *)
Variable uninit_reg : bool.
Abbreviation P := (M F).

Definition call {A} (f : F -> A * F) : P A := fun s => Some (f s).

Definition pstmkdir (pPathname : string) : P Z :=
  r ← call (fs_mkdir pPathname);
  mret (match r with
        | SysOk _ => 0
        | SysErr errno => if negb (errno =? EEXIST) then MQTTCLIENT_PERSISTENCE_ERROR else 0
        end).

(** The loop over the levels of the path; [sprintf] appends to its own argument. *)
Fixpoint mkdir_loop (rc : Z) (pCrtDirName : string) (toks : list string) : P Z :=
  match toks with
  | [] => mret rc
  | pToken :: toks' =>
      if rc =? 0 then
        let dir := path_in pCrtDirName pToken in
        rc ← pstmkdir dir;
        mkdir_loop rc dir toks'
      else mret rc
  end.

(** The code and [*handle], the name of the directory. *)
Definition pstopen (clientID serverURI dataDir : string) : P (Z * string) :=
  let clientDir := client_dir dataDir clientID serverURI in
  match tokens "" clientDir with
  | [] => undefined
  | pToken :: toks =>
      rc ← pstmkdir pToken;
      rc ← mkdir_loop rc pToken toks;
      mret (rc, clientDir)
  end.

Definition pstremove (clientDir : option string) (key : string) : P Z :=
  match clientDir with
  | None => mret MQTTCLIENT_PERSISTENCE_ERROR
  | Some clientDir =>
      r ← call (fs_unlink (message_path clientDir key));
      mret (match r with
            | SysOk _ => 0
            | SysErr errno => if negb (errno =? ENOENT) then MQTTCLIENT_PERSISTENCE_ERROR else 0
            end)
  end.

(** [bytesTotal] and [bytesWritten] after the loop over the buffers. *)
Fixpoint write_buffers (file : string) (buffers : list (list byte)) (bytesTotal bytesWritten : Z) : P (Z * Z) :=
  match buffers with
  | [] => mret (bytesTotal, bytesWritten)
  | b :: buffers' =>
      n ← call (fs_write file b);
      write_buffers file buffers' (bytesTotal + zlen b) (bytesWritten + n)
  end.

Definition pstput (clientDir : option string) (key : string) (buffers : list (list byte)) : P Z :=
  match clientDir with
  | None => mret MQTTCLIENT_PERSISTENCE_ERROR
  | Some dir =>
      let file := message_path dir key in
      fp ← call (fs_create file);
      r ← (if fp : bool then
             r ← write_buffers file buffers 0 0;
             modify (fs_close file);;
             mret (0, r)
           else mret (MQTTCLIENT_PERSISTENCE_ERROR, (0, 0)));
      let '(rc, (bytesTotal, bytesWritten)) := (r : Z * (Z * Z)) in
      if negb (bytesWritten =? bytesTotal) then
        _ ← pstremove clientDir key;
        mret MQTTCLIENT_PERSISTENCE_ERROR
      else mret rc
  end.

(** The code and the [*buflen] bytes of [*buffer]. *)
Definition pstget (clientDir : option string) (key : string) : P (Z * list byte) :=
  match clientDir with
  | None => mret (MQTTCLIENT_PERSISTENCE_ERROR, [])
  | Some clientDir =>
      let file := message_path clientDir key in
      fp ← call (fs_open file);
      match fp with
      | None => mret (MQTTCLIENT_PERSISTENCE_ERROR, [])
      | Some fileLen =>
          buf ← call (fs_read file fileLen);
          modify (fs_close file);;
          mret (if negb (zlen buf =? fileLen) then MQTTCLIENT_PERSISTENCE_ERROR else 0, buf)
      end
  end.

Definition pstclose (clientDir : option string) : P Z :=
  match clientDir with
  | None => mret MQTTCLIENT_PERSISTENCE_ERROR
  | Some clientDir =>
      r ← call (fs_rmdir clientDir);
      mret (match r with
            | SysOk _ => 0
            | SysErr errno =>
                if negb (errno =? ENOENT) && negb (errno =? ENOTEMPTY) then MQTTCLIENT_PERSISTENCE_ERROR else 0
            end)
  end.

(** [stat_info] keeps its contents when [lstat] fails. *)
Fixpoint containskey_loop (dirname key : string) (reg : bool) (names : list string) : P Z :=
  match names with
  | [] => mret MQTTCLIENT_PERSISTENCE_ERROR
  | d_name :: names' =>
      st ← call (fs_lstat (path_in dirname d_name));
      let reg := default reg st in
      if reg && bool_decide (cut_extension d_name = key) then mret 0
      else containskey_loop dirname key reg names'
  end.

Definition containskeyUnix (dirname key : string) : P Z :=
  dp ← call (fs_readdir dirname);
  match dp with
  | None => mret MQTTCLIENT_PERSISTENCE_ERROR
  | Some names => containskey_loop dirname key uninit_reg names
  end.

Definition pstcontainskey (clientDir : option string) (key : string) : P Z :=
  match clientDir with
  | None => mret MQTTCLIENT_PERSISTENCE_ERROR
  | Some clientDir => containskeyUnix clientDir key
  end.

(** [lstat] and [remove] are given the bare names. *)
Fixpoint clear_loop (reg : bool) (names : list string) : P Z :=
  match names with
  | [] => mret 0
  | d_name :: names' =>
      st ← call (fs_lstat d_name);
      let reg := default reg st in
      if reg then
        ok ← call (fs_remove d_name);
        if ok : bool then clear_loop reg names' else mret MQTTCLIENT_PERSISTENCE_ERROR
      else clear_loop reg names'
  end.

Definition clearUnix (dirname : string) : P Z :=
  dp ← call (fs_readdir dirname);
  match dp with
  | None => mret MQTTCLIENT_PERSISTENCE_ERROR
  | Some names => clear_loop uninit_reg names
  end.

Definition pstclear (clientDir : option string) : P Z :=
  match clientDir with
  | None => mret MQTTCLIENT_PERSISTENCE_ERROR
  | Some clientDir => clearUnix clientDir
  end.

(** The regular files among the names. *)
Fixpoint regular_names (dirname : string) (names : list string) : P (list string) :=
  match names with
  | [] => mret []
  | d_name :: names' =>
      st ← call (fs_lstat (path_in dirname d_name));
      l ← regular_names dirname names';
      mret (if default false st then d_name :: l else l)
  end.

(** The directory is read twice, to count the keys and to copy them.  With a
    different number of files the second time, the array of keys would overflow
    or keep uninitialised pointers: undefined. *)
Definition keysUnix (dirname : string) : P (Z * list string) :=
  dp ← call (fs_readdir dirname);
  match dp with
  | None => mret (MQTTCLIENT_PERSISTENCE_ERROR, [])
  | Some names =>
      counted ← regular_names dirname names;
      if negb (zlen counted =? 0) then
        dp ← call (fs_readdir dirname);
        match dp with
        | None => mret (MQTTCLIENT_PERSISTENCE_ERROR, [])
        | Some names =>
            copied ← regular_names dirname names;
            if zlen copied =? zlen counted then mret (0, cut_extension <$> copied) else undefined
        end
      else mret (0, [])
  end.

Definition pstkeys (clientDir : option string) : P (Z * list string) :=
  match clientDir with
  | None => mret (MQTTCLIENT_PERSISTENCE_ERROR, [])
  | Some clientDir => keysUnix clientDir
  end.

(** * The implementation of the persistence interface *)

(** The file system, and the directory names that handles point to. *)
Record filestore := MkFileStore { st_files : F; st_handles : gmap loc string }.

(** The name that a handle points to; null and dangling handles have none. *)
Definition handle_dir (handle : Z) (s : filestore) : option string :=
  match handle with Zpos p => st_handles s !! p | _ => None end.

(** A call on the file system; where it is undefined the result is arbitrary. *)
Definition on_files {A} (a : A) (m : P A) (s : filestore) : A * filestore :=
  match m (st_files s) with
  | Some (r, f) => (r, MkFileStore f (st_handles s))
  | None => (a, s)
  end.

(** The function pointers that [MQTTPersistence_create] sets for
    [MQTTCLIENT_PERSISTENCE_DEFAULT]; [context] is the base directory. *)
Definition default_persistence (context : string) : MQTTClient_persistence filestore := {|
  popen clientID serverURI s :=
    let '((rc, dir), s) := on_files (MQTTCLIENT_PERSISTENCE_ERROR, EmptyString) (pstopen (to_string clientID) (to_string serverURI) context) s in
    let p := fresh (dom (st_handles s)) in
    ((rc, Zpos p), MkFileStore (st_files s) (<[p := dir]> (st_handles s)));
  pclose handle s :=
    let '(rc, s') := on_files MQTTCLIENT_PERSISTENCE_ERROR (pstclose (handle_dir handle s)) s in
    (rc, MkFileStore (st_files s') (match handle with Zpos p => delete p (st_handles s') | _ => st_handles s' end));
  pput handle key buffers s := on_files MQTTCLIENT_PERSISTENCE_ERROR (pstput (handle_dir handle s) key buffers) s;
  pget handle key s := on_files (MQTTCLIENT_PERSISTENCE_ERROR, []) (pstget (handle_dir handle s) key) s;
  premove handle key s := on_files MQTTCLIENT_PERSISTENCE_ERROR (pstremove (handle_dir handle s) key) s;
  pkeys handle s := on_files (MQTTCLIENT_PERSISTENCE_ERROR, []) (pstkeys (handle_dir handle s)) s;
  pclear handle s := on_files MQTTCLIENT_PERSISTENCE_ERROR (pstclear (handle_dir handle s)) s;
  pcontainskey handle key s := on_files MQTTCLIENT_PERSISTENCE_ERROR (pstcontainskey (handle_dir handle s) key) s |}.
End code.
Arguments filestore : clear implicits.
Arguments MkFileStore {F}.

(** * Keys and file names *)

(** Keys whose file name can be turned back into the key. *)
Definition record_name (k : string) : bool :=
  file_name (record_file k) && bool_decide (cut_extension (record_file k) = k).

Lemma record_name_file k : record_name k = true -> file_name (record_file k) = true.
Proof. unfold record_name. rewrite andb_true_iff. tauto. Qed.
Lemma record_name_cut k : record_name k = true -> cut_extension (record_file k) = k.
Proof. unfold record_name. rewrite andb_true_iff, bool_decide_eq_true. tauto. Qed.

(** Names without dots and slashes are such. *)
Fixpoint plain_name (s : string) : bool :=
  match s with
  | EmptyString => true
  | String a s' => negb (Ascii.eqb a ".") && negb (Ascii.eqb a "/") && plain_name s'
  end.

Lemma plain_index s : plain_name s = true -> String.index 0 ".msg" (s +:+ ".msg") = Some (String.length s).
Proof.
  induction s as [|a s IH]; intros Hs; [done|]. cbn [plain_name] in Hs. rewrite !andb_true_iff in Hs. destruct Hs as [[Ha _] Hs].
  change (String a s +:+ ".msg")%string with (String a (s +:+ ".msg")). cbn [String.index String.prefix String.length].
  destruct (ascii_dec "." a) as [<-|_]; [done|]. by rewrite IH.
Qed.

Lemma substring_app s s' : String.substring 0 (String.length s) (s +:+ s') = s.
Proof. induction s as [|a s IH]; [by destruct s'|]. change (String a s +:+ s')%string with (String a (s +:+ s')). simpl. by rewrite IH. Qed.

Lemma plain_no_slash s s' : plain_name s = true -> no_slash s' = true -> no_slash (s +:+ s') = true.
Proof.
  intros Hs Hs'. induction s as [|a s IH]; [done|]. cbn [plain_name] in Hs. rewrite !andb_true_iff in Hs. destruct Hs as [[_ Ha] Hs].
  change (String a s +:+ s')%string with (String a (s +:+ s')). cbn [no_slash]. by rewrite Ha, IH.
Qed.

Lemma plain_record_name s : plain_name s = true -> record_name s = true.
Proof.
  intros Hs. unfold record_name, record_file, MESSAGE_FILENAME_EXTENSION. apply andb_true_iff. split.
  - unfold file_name. rewrite plain_no_slash by done. rewrite !andb_true_iff, !bool_decide_eq_true.
    destruct s as [|a [|b s]]; split_and!; try done; intros E; apply (f_equal String.length) in E; rewrite string_length_app in E; simpl in E; lia.
  - unfold cut_extension, MESSAGE_FILENAME_EXTENSION. rewrite plain_index by done. rewrite substring_app. by apply bool_decide_true.
Qed.

Lemma plain_app s s' : plain_name (s +:+ s') = plain_name s && plain_name s'.
Proof.
  induction s as [|a s IH]; [done|]. change (String a s +:+ s')%string with (String a (s +:+ s')). simpl.
  by rewrite IH, andb_assoc.
Qed.

Lemma plain_pretty_go n : forall s, plain_name s = true -> plain_name (pretty_N_go n s) = true.
Proof.
  induction (N.lt_wf_0 n) as [n _ IH]. intros s Hs. destruct (decide (n = 0)%N) as [->|Hn]; [done|].
  rewrite pretty_N_go_step by lia. apply IH; [apply N.div_lt; lia|]. cbn [plain_name]. rewrite Hs, andb_true_r.
  unfold pretty_N_char. by repeat case_match.
Qed.

Lemma plain_pretty id : 0 <= id -> plain_name (pretty id) = true.
Proof.
  intros Hid. destruct id as [|p|p]; [done| |lia]. change (pretty (Z.pos p)) with (pretty (N.pos p)). unfold pretty, pretty_N.
  case_decide; [done|]. by apply plain_pretty_go.
Qed.

(** The keys of messages are such. *)
Lemma message_key_name k : message_key k -> record_name k = true.
Proof. intros [id Hid|id Hid|id Hid]; apply plain_record_name; unfold sent_key, received_key, pubrel_key; rewrite plain_app, plain_pretty by lia; done. Qed.

(** The records of a directory that holds records only. *)
Definition names_ok (m : gmap string (list byte)) : Prop :=
  map_Forall (fun n _ => exists k, record_name k = true /\ n = record_file k) m.
Definition file_records (m : gmap string (list byte)) : gmap string (list byte) :=
  list_to_map (prod_map cut_extension id <$> map_to_list m).

Lemma file_records_lookup m k c :
  names_ok m -> file_records m !! k = Some c <-> record_name k = true /\ m !! record_file k = Some c.
Proof.
  intros Hm. assert (Hc : forall n c, m !! n = Some c -> record_name (cut_extension n) = true /\ n = record_file (cut_extension n)).
  { intros n c' Hn. destruct (Hm n c' Hn) as (k' & Hk & ->). by rewrite record_name_cut. }
  unfold file_records. rewrite <- elem_of_list_to_map.
  - rewrite list_elem_of_fmap. split.
    + intros ([n c'] & [= -> ->] & Hn%elem_of_map_to_list). destruct (Hc _ _ Hn) as [Hk E]. split; [done|]. by rewrite <- E.
    + intros [Hk Hn]. exists (record_file k, c). rewrite elem_of_map_to_list. split; [|done]. simpl. by rewrite record_name_cut.
  - rewrite <- list_fmap_compose. change (fst ∘ prod_map cut_extension id) with (cut_extension ∘ @fst string (list byte)).
    rewrite list_fmap_compose. apply NoDup_fmap_2_strong; [|apply NoDup_fst_map_to_list].
    intros n1 n2 ([? c1] & -> & H1%elem_of_map_to_list)%list_elem_of_fmap ([? c2] & -> & H2%elem_of_map_to_list)%list_elem_of_fmap E.
    simpl in E. destruct (Hc _ _ H1) as [_ E1], (Hc _ _ H2) as [_ E2]. simpl. by rewrite E1, E2, E.
Qed.

(** * The operations on a directory of records *)

Section directory.
Context {F : Type} `{FileSystem F} (d : string) `{!DirLaws F d} (uninit_reg : bool).
Implicit Types (f : F) (k n : string).

Lemma call_step {A} (g : F -> A * F) f a f' : g f = (a, f') -> call g f = Some (a, f').
Proof. unfold call. by intros ->. Qed.

Lemma write_buffers_spec n bufs : forall c t f,
  dir_ok f -> dir_files f !! n = Some c ->
  exists t' f', write_buffers (path_in d n) bufs t t f = Some ((t', t'), f') /\ dir_ok f' /\
    dir_files f' = <[n := c ++ concat bufs]> (dir_files f).
Proof.
  induction bufs as [|b bufs IH]; intros c t f O Hc.
  - exists t, f. simpl. rewrite app_nil_r, insert_id by done. done.
  - destruct (fs_write_ok n c b f O Hc) as (f1 & E1 & O1 & H1). cbn [write_buffers].
    mstep (call_step _ _ _ _ E1).
    destruct (IH (c ++ b) (t + zlen b) f1 O1) as (t' & f' & E & O' & H'); [rewrite H1; apply lookup_insert_eq|].
    exists t', f'. do 2 (split; [done|]). rewrite H', H1, insert_insert_eq, <- app_assoc. done.
Qed.

Lemma pstput_spec k bufs f :
  dir_ok f -> file_name (record_file k) = true ->
  exists f', pstput (Some d) k bufs f = Some (0, f') /\ dir_ok f' /\ dir_files f' = <[record_file k := concat bufs]> (dir_files f).
Proof.
  intros O Hk. unfold pstput, message_path. destruct (fs_create_ok (record_file k) f O Hk) as (f1 & E1 & O1 & H1).
  mstep (call_step _ _ _ _ E1). rewrite bind_assoc.
  destruct (write_buffers_spec (record_file k) bufs [] 0 f1 O1) as (t & f2 & E2 & O2 & H2); [rewrite H1; apply lookup_insert_eq|].
  mstep E2. rewrite (bind_assoc (modify _)). rewrite (bind_step _ _ f2 tt (fs_close (path_in d (record_file k)) f2)) by done.
  rewrite ret_bind. cbv iota. rewrite Z.eqb_refl. cbn [negb].
  destruct (fs_close_ok (record_file k) f2 O2) as [O3 H3]. eexists. split; [reflexivity|]. split; [done|].
  by rewrite H3, H2, H1, insert_insert_eq.
Qed.

Lemma pstget_spec k c f :
  dir_ok f -> dir_files f !! record_file k = Some c ->
  exists f', pstget (Some d) k f = Some ((0, c), f') /\ dir_ok f' /\ dir_files f' = dir_files f.
Proof.
  intros O Hc. unfold pstget, message_path. destruct (fs_open_ok _ c f O Hc) as (f1 & E1 & O1 & H1).
  mstep (call_step _ _ _ _ E1). rewrite <- H1 in Hc.
  destruct (fs_read_ok _ c f1 O1 Hc) as (f2 & E2 & O2 & H2). mstep (call_step _ _ _ _ E2).
  rewrite (bind_step _ _ f2 tt (fs_close (path_in d (record_file k)) f2)) by done. rewrite Z.eqb_refl. cbn [negb].
  destruct (fs_close_ok (record_file k) f2 O2) as [O3 H3]. eexists. split; [reflexivity|]. split; [done|]. congruence.
Qed.

Lemma pstremove_spec k f :
  dir_ok f -> is_Some (dir_files f !! record_file k) ->
  exists f', pstremove (Some d) k f = Some (0, f') /\ dir_ok f' /\ dir_files f' = delete (record_file k) (dir_files f).
Proof.
  intros O Hk. unfold pstremove, message_path. destruct (fs_unlink_ok _ f O Hk) as (f1 & E1 & O1 & H1).
  mstep (call_step _ _ _ _ E1). by exists f1.
Qed.

(** States that look the same. *)
Definition same_dir f f' : Prop := dir_ok f' /\ dir_files f' = dir_files f /\ dir_entries f' = dir_entries f.

Lemma lstat_step n f :
  dir_ok f -> n ∈ dir_entries f ->
  exists f', call (fs_lstat (path_in d n)) f = Some (Some (bool_decide (is_Some (dir_files f !! n))), f') /\ same_dir f f'.
Proof. intros O Hn. destruct (fs_lstat_ok n f O Hn) as (f' & E & S). exists f'. by rewrite (call_step _ _ _ _ E). Qed.

Lemma readdir_step f : dir_ok f -> exists f', call (fs_readdir d) f = Some (Some (dir_entries f), f') /\ same_dir f f'.
Proof. intros O. destruct (fs_readdir_ok f O) as (f' & E & S). exists f'. by rewrite (call_step _ _ _ _ E). Qed.

Lemma same_dir_trans f f1 f2 : same_dir f f1 -> same_dir f1 f2 -> same_dir f f2.
Proof. intros (O1 & F1 & E1) (O2 & F2 & E2). split; [done|]. by rewrite F2, F1, E2, E1. Qed.

Lemma containskey_spec k names : forall reg f,
  dir_ok f -> names ⊆ dir_entries f ->
  exists rc f', containskey_loop d k reg names f = Some (rc, f') /\ same_dir f f' /\
    (rc = 0 <-> exists n, n ∈ names /\ is_Some (dir_files f !! n) /\ cut_extension n = k).
Proof.
  induction names as [|n names IH]; intros reg f O Hn.
  - exists MQTTCLIENT_PERSISTENCE_ERROR, f. do 2 (split; [done|]). split; [done|]. by intros (? & ?%elem_of_nil & _).
  - cbn [containskey_loop]. destruct (lstat_step n f O) as (f1 & E1 & S1); [apply Hn; by left|]. mstep E1. change (default reg (Some ?b)) with b.
    destruct (bool_decide (is_Some (dir_files f !! n)) && bool_decide (cut_extension n = k)) eqn:Ht.
    + apply andb_true_iff in Ht as [H1%bool_decide_eq_true H2%bool_decide_eq_true]. exists 0, f1. do 2 (split; [done|]).
      split; [|done]. intros _. exists n. split; [by left|done].
    + pose proof S1 as (O1 & F1 & N1). destruct (IH (bool_decide (is_Some (dir_files f !! n))) f1 O1) as (rc & f' & E & S & Hr).
      { rewrite N1. intros n' Hn'. apply Hn. by right. }
      exists rc, f'. split; [exact E|]. split; [by eapply same_dir_trans|]. rewrite Hr, F1. split.
      * intros (n' & Hn' & Hp). exists n'. split; [by right|done].
      * intros (n' & [->|Hn']%elem_of_cons & Hp & Hc); [|by exists n'].
        apply andb_false_iff in Ht as [Ht%bool_decide_eq_false|Ht%bool_decide_eq_false]; done.
Qed.

(** The files among the names, and the keys of the directory. *)
Definition regular f (names : list string) : list string := filter (fun n => is_Some (dir_files f !! n)) names.
Definition dir_keys f : list string := cut_extension <$> regular f (dir_entries f).

Lemma regular_same f f' names : dir_files f' = dir_files f -> regular f' names = regular f names.
Proof. intros E. unfold regular. by rewrite E. Qed.

Lemma regular_names_spec names : forall f,
  dir_ok f -> names ⊆ dir_entries f ->
  exists f', regular_names d names f = Some (regular f names, f') /\ same_dir f f'.
Proof.
  induction names as [|n names IH]; intros f O Hn; [by exists f|]. cbn [regular_names].
  destruct (lstat_step n f O) as (f1 & E1 & S1); [apply Hn; by left|]. mstep E1. pose proof S1 as (O1 & F1 & N1).
  destruct (IH f1 O1) as (f' & E & S); [rewrite N1; intros n' Hn'; apply Hn; by right|]. mstep E.
  exists f'. split; [|by eapply same_dir_trans]. rewrite (regular_same _ _ _ F1). change (default false (Some ?b)) with b.
  unfold regular. rewrite filter_cons.
  case_bool_decide; case_decide; try done.
Qed.

Lemma keysUnix_spec f : dir_ok f -> exists f', keysUnix d f = Some ((0, dir_keys f), f') /\ same_dir f f'.
Proof.
  intros O. unfold keysUnix, dir_keys. destruct (readdir_step f O) as (f1 & E1 & S1). mstep E1. pose proof S1 as (O1 & F1 & N1).
  destruct (regular_names_spec (dir_entries f) f1 O1) as (f2 & E2 & S2); [by rewrite N1|]. mstep E2.
  pose proof (same_dir_trans _ _ _ S1 S2) as S12. rewrite (regular_same _ _ _ F1).
  destruct (regular f (dir_entries f)) as [|n l] eqn:El; [by exists f2|].
  assert (zlen (n :: l) =? 0 = false) as -> by (rewrite Z.eqb_neq; unfold zlen; simpl; lia). cbn [negb].
  pose proof S12 as (O2 & F2 & N2). destruct (readdir_step f2 O2) as (f3 & E3 & S3). mstep E3. pose proof S3 as (O3 & F3 & N3).
  destruct (regular_names_spec (dir_entries f2) f3 O3) as (f4 & E4 & S4); [by rewrite N3|]. mstep E4.
  rewrite (regular_same _ _ _ F3), (regular_same _ _ _ F2), N2, El, Z.eqb_refl. exists f4. split; [done|]. eapply same_dir_trans; [exact S12|]. by eapply same_dir_trans.
Qed.

(** Removing a key that is not there changes nothing. *)
Lemma pstremove_absent k f :
  dir_ok f -> file_name (record_file k) = true -> dir_files f !! record_file k = None ->
  exists f', pstremove (Some d) k f = Some (0, f') /\ dir_ok f' /\ dir_files f' = dir_files f.
Proof.
  intros O Hk Hn. unfold pstremove, message_path. destruct (fs_unlink_absent _ f O Hk Hn) as (f1 & E1 & O1 & H1).
  mstep (call_step _ _ _ _ E1). by exists f1.
Qed.

(** * Opening *)

Lemma pstmkdir_spec p f :
  dir_ok f -> p ∈ levels d -> exists f', pstmkdir p f = Some (0, f') /\ dir_ok f' /\ dir_files f' = dir_files f.
Proof.
  intros O Hp. unfold pstmkdir. destruct (fs_mkdir_ok p f O Hp) as (r & f1 & E1 & Hr & O1 & H1).
  mstep (call_step _ _ _ _ E1). exists f1. by destruct Hr as [->| ->].
Qed.

Lemma mkdir_loop_spec toks : forall p f,
  dir_ok f -> (forall q, q ∈ levels_from p toks -> q ∈ levels d) ->
  exists f', mkdir_loop 0 p toks f = Some (0, f') /\ dir_ok f' /\ dir_files f' = dir_files f.
Proof.
  induction toks as [|tok toks IH]; intros p f O Hl; [by exists f|]. cbn [mkdir_loop]. rewrite Z.eqb_refl.
  destruct (pstmkdir_spec (path_in p tok) f O) as (f1 & E1 & O1 & H1); [apply Hl; right; destruct toks; by left|]. mstep E1.
  destruct (IH (path_in p tok) f1 O1) as (f2 & E2 & O2 & H2); [intros q Hq; apply Hl; by right|].
  exists f2. split; [done|]. split; [done|]. by rewrite H2, H1.
Qed.

Lemma pstopen_spec clientID serverURI dataDir f :
  dir_ok f -> client_dir dataDir clientID serverURI = d -> levels d <> [] ->
  exists f', pstopen clientID serverURI dataDir f = Some ((0, d), f') /\ dir_ok f' /\ dir_files f' = dir_files f.
Proof.
  intros O Hd Hl. unfold pstopen. rewrite Hd. assert (Hlev : levels d = levels d) by done. unfold levels in Hl, Hlev at 2.
  destruct (tokens "" d) as [|tok toks]; [done|].
  destruct (pstmkdir_spec tok f O) as (f1 & E1 & O1 & H1); [rewrite Hlev; destruct toks; by left|]. mstep E1.
  destruct (mkdir_loop_spec toks tok f1 O1) as (f2 & E2 & O2 & H2); [by rewrite Hlev|]. mstep E2.
  exists f2. split; [done|]. split; [done|]. by rewrite H2, H1.
Qed.

(** * Clearing *)

(** The working directory is another one: a bare name is not in [d]. *)
Definition elsewhere : Prop := forall n f, dir_ok f -> no_slash n = true ->
  dir_ok (fs_lstat n f).2 /\ dir_files (fs_lstat n f).2 = dir_files f /\
  dir_ok (fs_remove n f).2 /\ dir_files (fs_remove n f).2 = dir_files f.

Lemma clear_loop_keeps names : elsewhere -> forall reg f,
  dir_ok f -> Forall (fun n => no_slash n = true) names ->
  exists rc f', clear_loop reg names f = Some (rc, f') /\ dir_ok f' /\ dir_files f' = dir_files f.
Proof.
  intros El. induction names as [|n names IH]; intros reg f O Hn; [by exists 0, f|]. apply Forall_cons in Hn as [Hn Hns].
  cbn [clear_loop]. destruct (fs_lstat n f) as [st f1] eqn:E1. mstep (call_step _ _ _ _ E1).
  destruct (El n f O Hn) as (O1 & H1 & _). rewrite E1 in O1, H1. simpl in O1, H1.
  destruct (default reg st).
  - destruct (fs_remove n f1) as [ok f2] eqn:E2. mstep (call_step _ _ _ _ E2). destruct (El n f1 O1 Hn) as (_ & _ & O2 & H2).
    rewrite E2 in O2, H2. simpl in O2, H2. destruct ok.
    + destruct (IH true f2 O2 Hns) as (rc & f' & E & O' & H'). exists rc, f'. do 2 (split; [done|]). by rewrite H', H2, H1.
    + exists MQTTCLIENT_PERSISTENCE_ERROR, f2. do 2 (split; [done|]). by rewrite H2, H1.
  - destruct (IH false f1 O1 Hns) as (rc & f' & E & O' & H'). exists rc, f'. do 2 (split; [done|]). by rewrite H', H1.
Qed.
End directory.

(** * The contract *)

Section contract.
Context {F : Type} `{FileSystem F} (d : string) `{!DirLaws F d} (uninit_reg : bool) (context : string).
Implicit Types (s : filestore F).

(** The handle [p] is that of the directory, which holds records only. *)
Definition in_order (p : loc) s : Prop :=
  st_handles s !! p = Some d /\ dir_ok (st_files s) /\ names_ok (dir_files (st_files s)).
Definition store_records s : gmap string (list byte) := file_records (dir_files (st_files s)).

Abbreviation per := (default_persistence uninit_reg context).

Lemma records_insert m k c :
  names_ok m -> record_name k = true -> file_records (<[record_file k := c]> m) = <[k := c]> (file_records m).
Proof.
  intros Hm Hk. assert (Hm' : names_ok (<[record_file k := c]> m)) by (apply map_Forall_insert_2; [by exists k|done]).
  apply map_eq. intros k'. apply option_eq. intros c'. rewrite file_records_lookup by done.
  destruct (decide (k = k')) as [<-|Hne]; [rewrite !lookup_insert_eq; naive_solver|].
  rewrite (lookup_insert_ne (file_records m)) by done. rewrite file_records_lookup by done. split; intros [Hk' Hc]; (split; [done|]).
  - rewrite lookup_insert_ne in Hc; [done|]. intros E. apply Hne. by rewrite <- (record_name_cut k), E, record_name_cut.
  - rewrite lookup_insert_ne; [done|]. intros E. apply Hne. by rewrite <- (record_name_cut k), E, record_name_cut.
Qed.

Lemma records_delete m k :
  names_ok m -> record_name k = true -> file_records (delete (record_file k) m) = delete k (file_records m).
Proof.
  intros Hm Hk. assert (Hm' : names_ok (delete (record_file k) m)) by by apply map_Forall_delete.
  apply map_eq. intros k'. apply option_eq. intros c'. rewrite file_records_lookup by done.
  destruct (decide (k = k')) as [<-|Hne]; [rewrite !lookup_delete_eq; naive_solver|].
  rewrite (lookup_delete_ne (file_records m)) by done. rewrite file_records_lookup by done. split; intros [Hk' Hc]; (split; [done|]).
  - rewrite lookup_delete_ne in Hc; [done|]. intros E. apply Hne. by rewrite <- (record_name_cut k), E, record_name_cut.
  - rewrite lookup_delete_ne; [done|]. intros E. apply Hne. by rewrite <- (record_name_cut k), E, record_name_cut.
Qed.

Lemma on_files_step {A} (a : A) (m : M F A) s r f :
  m (st_files s) = Some (r, f) -> on_files a m s = (r, MkFileStore f (st_handles s)).
Proof. unfold on_files. by intros ->. Qed.

Lemma pstput_step p k bufs s : in_order p s -> record_name k = true ->
  exists s', pput per (Zpos p) k bufs s = (0, s') /\ store_records s' = <[k := concat bufs]> (store_records s) /\ in_order p s'.
Proof.
  intros (Hp & O & Hn) Hk. simpl. rewrite Hp.
  destruct (pstput_spec d k bufs _ O (record_name_file _ Hk)) as (f & E & O' & H'). rewrite (on_files_step _ _ _ _ _ E).
  eexists. split; [reflexivity|]. unfold store_records, in_order. simpl. rewrite H'. split; [by apply records_insert|].
  do 2 (split; [done|]). apply map_Forall_insert_2; [by exists k|done].
Qed.

Lemma get_step p k c s : in_order p s -> store_records s !! k = Some c ->
  exists s', pget per (Zpos p) k s = ((0, c), s') /\ store_records s' = store_records s /\ in_order p s'.
Proof.
  intros (Hp & O & Hn) Hk. apply file_records_lookup in Hk as [_ Hk]; [|done]. simpl. rewrite Hp.
  destruct (pstget_spec d k c _ O Hk) as (f & E & O' & H'). rewrite (on_files_step _ _ _ _ _ E).
  eexists. split; [reflexivity|]. unfold store_records, in_order. simpl. by rewrite H'.
Qed.

Lemma remove_step p k s : in_order p s -> record_name k = true ->
  exists s', premove per (Zpos p) k s = (0, s') /\ store_records s' = delete k (store_records s) /\ in_order p s'.
Proof.
  intros (Hp & O & Hn) Hk. simpl. rewrite Hp. destruct (dir_files (st_files s) !! record_file k) as [c|] eqn:Hc.
  - destruct (pstremove_spec d k _ O (ex_intro _ c Hc)) as (f & E & O' & H'). rewrite (on_files_step _ _ _ _ _ E).
    eexists. split; [reflexivity|]. unfold store_records, in_order. simpl. rewrite H'. split; [by apply records_delete|].
    do 2 (split; [done|]). by apply map_Forall_delete.
  - destruct (pstremove_absent d k _ O (record_name_file _ Hk) Hc) as (f & E & O' & H'). rewrite (on_files_step _ _ _ _ _ E).
    eexists. split; [reflexivity|]. unfold store_records, in_order. simpl. rewrite H'. split; [|done].
    rewrite delete_id; [done|]. apply eq_None_not_Some. intros [c' Hc']. apply file_records_lookup in Hc' as [_ Hc']; [|done]. congruence.
Qed.

Lemma contains_step p k s : in_order p s -> record_name k = true ->
  exists rc s', pcontainskey per (Zpos p) k s = (rc, s') /\ store_records s' = store_records s /\ in_order p s' /\
    (rc = 0 <-> is_Some (store_records s !! k)).
Proof.
  intros (Hp & O & Hn) Hk. simpl. rewrite Hp. unfold pstcontainskey, containskeyUnix.
  destruct (readdir_step d _ O) as (f1 & E1 & O1 & H1 & N1).
  destruct (containskey_spec d k (dir_entries (st_files s)) uninit_reg f1 O1) as (rc & f2 & E2 & (O2 & H2 & _) & Hr); [by rewrite N1|].
  exists rc. eexists. split; [apply on_files_step; mstep E1; exact E2|]. unfold store_records, in_order. simpl.
  rewrite H2, H1. do 2 (split; [done|]). rewrite Hr, H1. split.
  - intros (n & _ & [c Hc] & Hcut). exists c. apply file_records_lookup; [done|]. destruct (Hn n c Hc) as (k' & Hk' & ->).
    rewrite record_name_cut in Hcut by done. by subst.
  - intros [c [_ Hc]%file_records_lookup]; [|done]. exists (record_file k). rewrite record_name_cut by done.
    split; [|by eauto]. eapply dir_entries_files; eauto.
Qed.

Lemma keys_step p s : in_order p s ->
  exists ks s', pkeys per (Zpos p) s = ((0, ks), s') /\ store_records s' = store_records s /\ in_order p s' /\
    NoDup ks /\ forall k, k ∈ ks <-> is_Some (store_records s !! k).
Proof.
  intros (Hp & O & Hn). simpl. rewrite Hp. destruct (keysUnix_spec d _ O) as (f & E & O' & H' & N').
  assert (Hcut : forall n, is_Some (dir_files (st_files s) !! n) -> record_name (cut_extension n) = true /\ n = record_file (cut_extension n)).
  { intros n [c Hc]. destruct (Hn n c Hc) as (k & Hk & ->). by rewrite record_name_cut. }
  exists (dir_keys d (st_files s)). eexists. split; [by apply on_files_step|]. unfold store_records, in_order. simpl.
  rewrite H'. do 2 (split; [done|]). unfold dir_keys, regular. split.
  - apply NoDup_fmap_2_strong; [|by apply NoDup_filter, dir_entries_nodup].
    intros n1 n2 [H1 _]%list_elem_of_filter [H2 _]%list_elem_of_filter E12.
    destruct (Hcut _ H1) as [_ ->], (Hcut _ H2) as [_ ->]. by rewrite E12.
  - intros k. rewrite list_elem_of_fmap. split.
    + intros (n & -> & [[c Hc] _]%list_elem_of_filter). destruct (Hcut n (ex_intro _ c Hc)) as [Hk E1]. exists c.
      apply file_records_lookup; [done|]. by rewrite <- E1.
    + intros [c [Hk Hc]%file_records_lookup]; [|done]. exists (record_file k). rewrite record_name_cut by done. split; [done|].
      apply list_elem_of_filter. split; [by exists c|]. eapply dir_entries_files; eauto.
Qed.

(** The contract that the restoration of sessions relies on. *)
#[export, refine] Instance default_store_laws p : StoreLaws per (Zpos p) := {|
  records := store_records; store_ok := in_order p |}.
Proof.
  - intros k s c O Hk. by apply get_step.
  - intros k s O Hk. apply contains_step; [done|by apply message_key_name].
  - intros k s O [c Hc]. apply remove_step; [done|]. by apply file_records_lookup in Hc as [? _]; [|apply O].
  - intros s O. by apply keys_step.
  - intros k bufs s O Hk. apply pstput_step; [done|by apply message_key_name].
Defined.

(** [C39] The default persistence implements the map from keys to records: in a
    directory that holds records only, [pput] stores the concatenation of the
    buffers under the key and [pget] gives it back, [premove] removes it (also
    when it is not there), [pcontainskey] tells whether it is there, [pkeys]
    lists each key once; all report success and leave the directory in order. *)
Theorem default_persistence_refines p s k :
  in_order p s -> record_name k = true ->
  (forall bufs, exists s' s'', pput per (Zpos p) k bufs s = (0, s') /\ store_records s' = <[k := concat bufs]> (store_records s) /\
     in_order p s' /\ pget per (Zpos p) k s' = ((0, concat bufs), s'') /\ store_records s'' = store_records s' /\ in_order p s'') /\
  (exists s', premove per (Zpos p) k s = (0, s') /\ store_records s' = delete k (store_records s) /\ in_order p s') /\
  (exists rc s', pcontainskey per (Zpos p) k s = (rc, s') /\ store_records s' = store_records s /\ in_order p s' /\
     (rc = 0 <-> is_Some (store_records s !! k))) /\
  (exists ks s', pkeys per (Zpos p) s = ((0, ks), s') /\ store_records s' = store_records s /\ in_order p s' /\
     NoDup ks /\ forall k', k' ∈ ks <-> is_Some (store_records s !! k')).
Proof.
  intros O Hk. split; [|split; [by apply remove_step|split; [by apply contains_step|by apply keys_step]]].
  intros bufs. destruct (pstput_step p k bufs s O Hk) as (s' & E & R & O').
  destruct (get_step p k (concat bufs) s' O') as (s'' & E' & R' & O''); [by rewrite R, lookup_insert_eq|]. by exists s', s''.
Qed.

(** [pstclear] does not clear: it looks at and removes the names of the
    records in the working directory of the process instead of the directory of
    the store, so that, unless these are the same, it keeps every record, whatever
    it reports. *)
Theorem pstclear_keeps_records p s :
  in_order p s -> elsewhere d -> Forall (fun n => no_slash n = true) (dir_entries (st_files s)) ->
  exists rc s', pclear per (Zpos p) s = (rc, s') /\ store_records s' = store_records s /\ in_order p s'.
Proof.
  intros (Hp & O & Hn) El Hs. simpl. rewrite Hp. unfold pstclear, clearUnix.
  destruct (readdir_step d _ O) as (f1 & E1 & O1 & H1 & N1).
  destruct (clear_loop_keeps d (dir_entries (st_files s)) El uninit_reg f1 O1 Hs) as (rc & f2 & E2 & O2 & H2).
  exists rc. eexists. split; [apply on_files_step; mstep E1; exact E2|]. unfold store_records, in_order. simpl. by rewrite H2, H1.
Qed.
End contract.
End FileStore.

(** A directory in memory: the theorems are applied to it. *)
Module FileScenario.
Import Packet SocketBuffer Socket World Persistence Recovery FileSystem FileStore.

(** The base directory [p], client [c1] and server [h:1]. *)
Definition fx_dir : string := "p/c1-h-1".
Definition fx_store (m : gmap string (list byte)) : filestore memfs :=
  MkFileStore {[ fx_dir := m; "." := {[ "s-7.msg" := [1; 2] ]} ]}%string {[ 1%positive := fx_dir ]}.
Abbreviation fx_per := (default_persistence true "p").

Lemma fx_dir_of : client_dir "p" (to_string [99; 49]) (to_string [104; 58; 49]) = fx_dir.
Proof. reflexivity. Qed.

Lemma fx_in_order m : names_ok m -> map_Forall (fun n _ => file_name n = true) m -> in_order fx_dir 1 (fx_store m).
Proof.
  intros Hn Hf. split; [reflexivity|]. unfold fx_store. cbn [st_files]. simpl. rewrite lookup_insert_eq. split; [|done]. exists m.
  by rewrite lookup_insert_eq.
Qed.

Lemma fx_names k c : record_name k = true -> let m : gmap string (list byte) := {[ record_file k := c ]} in
  names_ok m /\ map_Forall (fun n _ => file_name n = true) m.
Proof.
  intros Hk m. split; apply map_Forall_singleton; [by exists k|by apply record_name_file].
Qed.

Lemma fx_one : in_order fx_dir 1 (fx_store {[ "s-7.msg" := [50] ]}%string).
Proof. apply fx_in_order; apply (fx_names "s-7" [50]); reflexivity. Qed.

Example default_persistence_refines_witness :
  let s := fx_store {[ "s-7.msg" := [50] ]}%string in
  exists s' s'', pput fx_per 1 "s-9" [[50; 1]; [7]] s = (0, s') /\
    store_records fx_dir s' = <[ "s-9"%string := [50; 1; 7] ]> (store_records fx_dir s) /\
    in_order fx_dir 1 s' /\ pget fx_per 1 "s-9" s' = ((0, [50; 1; 7]), s'') /\
    store_records fx_dir s'' = store_records fx_dir s' /\ in_order fx_dir 1 s''.
Proof.
  destruct (default_persistence_refines fx_dir true "p" 1 (fx_store {[ "s-7.msg" := [50] ]}%string) "s-9") as [D _];
    [exact fx_one|reflexivity|]. exact (D [[50; 1]; [7]]).
Defined.

Lemma fx_elsewhere : elsewhere (F := memfs) fx_dir.
Proof.
  intros n f O Hn. assert (Hd : (split_path n).1 = "."%string).
  { destruct n as [|a n]; [done|]. cbn [no_slash] in Hn. apply andb_true_iff in Hn as [Ha Hn]. cbn [split_path].
    rewrite Hn. by destruct (Ascii.eqb a _). }
  do 2 (split; [done|]). simpl. destruct (mem_file n f) as [c|] eqn:Hc; [|done]. cbn [snd]. unfold mem_file in Hc. unfold mem_update.
  destruct (split_path n) as [d' n']. simpl in Hd. subst d'. destruct (f !! "."%string) as [m'|]; [|done].
  unfold mem_ok. by rewrite !lookup_insert_ne by done.
Qed.

Example pstclear_keeps_records_witness :
  let s := fx_store {[ "s-7.msg" := [50] ]}%string in
  exists rc s', pclear fx_per 1 s = (rc, s') /\ store_records fx_dir s' = store_records fx_dir s /\ in_order fx_dir 1 s'.
Proof.
  intros s. apply (pstclear_keeps_records fx_dir true "p" 1 s fx_one fx_elsewhere).
  apply (bool_decide_unpack _). vm_compute. exact I.
Defined.

(** The file of the same name in the working directory is removed instead. *)
Example fx_cleared :
  let s := fx_store {[ "s-7.msg" := [50] ]}%string in
  (fun r => (r.1, st_files r.2)) (pclear fx_per 1 s) = (0, <["."%string := ∅]> (st_files s)).
Proof. vm_compute. reflexivity. Qed.

End FileScenario.
