(* ===== verification/Durability.v ===== *)
(** The persistent store mirrors the messages being sent: every operation of the
    sender keeps the store an image of the session, so that a crash at any moment
    between two operations loses no message. *)
From Stdlib Require Import Sorted.
From stdpp Require Import gmultiset sorting.
From S2P Require Import Prelude ListSpec Packet SocketBuffer Socket World Persistence Send Store Session Protocol Memory Sending Steps Handlers Receiver Sender Restore Recovery.

Module Durability.
Import Packet SocketBuffer Socket World Persistence Send Store Session Protocol Memory Sending Steps Handlers Receiver Sender Restore Recovery.

#[local] Arguments zlen : simpl never.

(** * The relation between the store and the session *)

(** The length of the topic is not used for messages being sent (and not set by
    [MQTTClient_publish]). *)
Definition plain (a : amsg) : amsg :=
  AMsg (am_id a) (am_qos a) (am_retain a) (am_next a) (am_topic a) 0 (am_payload a) (am_payloadlen a).

(** The store [R] is an image of the session, and holds no PUBREL but those of
    released messages. *)
Definition mirror (uninit : Z) (R : gmap string (list byte)) (s : session) : Prop :=
  exists outs, plain <$> outs = plain <$> s_out s /\ image uninit R outs (s_in s) /\
    forall id, is_Some (R !! pubrel_key id) -> exists a, a ∈ outs /\ am_id a = id /\ am_qos a = 2.

Section mirror.
Variable uninit : Z.
Implicit Types (R : gmap string (list byte)) (a : amsg) (outs ins : list amsg).

Lemma without_plain id (l : list amsg) : without id (plain <$> l) = plain <$> without id l.
Proof.
  induction l as [|a l IH]; [done|]. unfold without in *. rewrite fmap_cons. destruct (decide (am_id a = id)).
  - rewrite !filter_cons_False by (simpl; auto). exact IH.
  - rewrite !filter_cons_True by done. by rewrite IH.
Qed.
Lemma retag_plain id n (l : list amsg) : retag id n (plain <$> l) = plain <$> retag id n l.
Proof. unfold retag. rewrite <- !list_fmap_compose. apply list_fmap_ext. intros _ a _. simpl. by destruct (_ =? _). Qed.
Lemma ids_plain (l : list amsg) : am_id <$> (plain <$> l) = am_id <$> l.
Proof. by rewrite <- list_fmap_compose. Qed.
Lemma find_id_plain id (l : list amsg) : find_id id (plain <$> l) = plain <$> find_id id l.
Proof.
  unfold find_id. rewrite list_find_fmap. by destruct (list_find _ l) as [[]|].
Qed.
Lemma find_id_elem id (l : list amsg) a : find_id id l = Some a -> a ∈ l /\ am_id a = id.
Proof.
  unfold find_id. destruct (list_find _ l) as [[i b]|] eqn:E; [|done]. intros [= <-].
  apply list_find_Some in E as (Hi & Hb & _). split; [by eapply list_elem_of_lookup_2|done].
Qed.

(** The message with an id, on both sides. *)
Lemma find_both id outs (l : list amsg) b :
  plain <$> outs = plain <$> l -> find_id id l = Some b -> exists a, find_id id outs = Some a /\ plain a = plain b.
Proof.
  intros E Hb. pose proof (find_id_plain id l) as Hp. rewrite <- E, find_id_plain, Hb in Hp.
  destruct (find_id id outs) as [a|]; [|done]. exists a. split; [done|]. exact (inj Some _ _ Hp).
Qed.

Lemma NoDup_ids_unique (l : list amsg) a b : NoDup (am_id <$> l) -> a ∈ l -> b ∈ l -> am_id a = am_id b -> a = b.
Proof.
  intros Hn [i Hi]%list_elem_of_lookup [j Hj]%list_elem_of_lookup E.
  assert (i = j) as ->; [|congruence]. apply (NoDup_lookup _ _ _ (am_id a) Hn); rewrite list_lookup_fmap; [by rewrite Hi|].
  rewrite Hj. simpl. by rewrite E.
Qed.

(** * The store side of each operation *)

Lemma publish_record_other R k k' d a : k' <> k -> publish_record R k a -> publish_record (<[k' := d]> R) k a.
Proof. intros Hne (d' & p & topic & Hd & Hr). exists d', p, topic. by rewrite lookup_insert_ne. Qed.

Lemma publish_record_delete R k k' a : k' <> k -> publish_record R k a -> publish_record (delete k' R) k a.
Proof. intros Hne (d' & p & topic & Hd & Hr). exists d', p, topic. by rewrite lookup_delete_ne. Qed.

Lemma key_kind_mono R R' outs outs' ins k :
  (forall id, R' !! pubrel_key id = R !! pubrel_key id) -> (forall a, a ∈ outs -> k = sent_key (am_id a) -> a ∈ outs') ->
  key_kind R outs ins k -> key_kind R' outs' ins k.
Proof.
  intros HR Ho Hk. revert Ho. destruct Hk as [k Hk|a Ha|a Ha|id d hd Hid Hd Hp]; intros Ho.
  - by apply KOther.
  - by apply KSent, Ho.
  - by apply KReceived.
  - apply (KPubrel _ _ _ _ d hd); [done|by rewrite HR|done].
Qed.
Lemma pubrel_sent_ne i j : pubrel_key i <> sent_key j.
Proof. intros E. by destruct (keys_apart i) as (_ & _ & _ & _ & Hn & _); apply (Hn j). Qed.
Lemma received_sent_ne i j : received_key i <> sent_key j.
Proof. by destruct (keys_apart j) as (_ & _ & _ & _ & _ & Hn & _). Qed.
Lemma pubrel_received_ne i j : pubrel_key i <> received_key j.
Proof. intros E. by destruct (keys_apart i) as (_ & _ & _ & _ & _ & _ & Hn); apply (Hn j). Qed.

(** A new message with its record. *)
Lemma mirror_add R s a d p topic :
  mirror uninit R s -> find_id (am_id a) (s_out s) = None ->
  MQTTPersistence_restorePacket d (zlen d) = Some (Some (PPublish p)) -> pb_topic p = Some topic ->
  0 <= pb_payloadlen p <= zlen (pb_payload p) -> 0 <= pb_msgId p <= MAX_MSG_ID -> am_id a = pb_msgId p ->
  plain a = plain (restored_msg p topic (am_next a)) -> am_next a = (if am_qos a =? 2 then PUBREC else uninit) ->
  mirror uninit (<[sent_key (am_id a) := d]> R) (s_add a s).
Proof.
  intros (outs & Eo & Im & Hrel) Hf Hd Ht Hp Hid Eid Ea Hn.
  assert (Hfo : forall b, b ∈ outs -> am_id b <> am_id a).
  { intros b Hb E. pose proof (find_id_plain (am_id a) outs) as Ep. rewrite Eo, find_id_plain, Hf in Ep.
    destruct (list_find_elem_of (fun a0 => am_id a0 = am_id a) outs b Hb E) as [[i b'] Ef].
    unfold find_id in Ep. by rewrite Ef in Ep. }
  set (a' := restored_msg p topic (am_next a)) in *. assert (Ea' : am_id a' = am_id a) by done.
  assert (Eq' : am_qos a' = am_qos a) by exact (f_equal am_qos (eq_sym Ea)).
  assert (Hnr : R !! pubrel_key (am_id a) = None).
  { apply eq_None_not_Some. intros (b & Hb & E & _)%Hrel. by apply (Hfo b). }
  exists (outs ++ [a']). split; [|split].
  - simpl. rewrite !fmap_app, Eo. simpl. by rewrite Ea.
  - destruct Im as [I1 I2 I3 I4 I5]. split.
    + apply Forall_app. split; [|constructor; [|constructor]].
      * rewrite Forall_forall in I1 |- *. intros b Hb. destruct (I1 b Hb) as [Hr Hs]. split.
        -- apply publish_record_other; [|done]. intros E%(inj sent_key). by apply (Hfo b).
        -- rewrite Hs. unfold sent_next. by rewrite lookup_insert_ne by apply not_eq_sym, pubrel_sent_ne.
      * split.
        -- exists d, p, topic. rewrite Ea', lookup_insert_eq. by do 5 (split; [done|]).
        -- unfold sent_next. rewrite Ea', lookup_insert_ne by apply not_eq_sym, pubrel_sent_ne.
           rewrite Hnr, bool_decide_false by (by intros []). by rewrite Eq'.
    + eapply Forall_impl; [exact I2|]. intros b [Hr Hs]. split; [|done].
      apply publish_record_other; [|done]. apply not_eq_sym, received_sent_ne.
    + rewrite fmap_app. apply NoDup_app. split; [done|]. split; [|apply NoDup_singleton].
      intros i (b & -> & Hb)%list_elem_of_fmap E. apply list_elem_of_singleton in E. apply (Hfo b Hb). by rewrite E.
    + done.
    + intros k Hk. destruct (decide (k = sent_key (am_id a))) as [->|Hne].
      * rewrite <- Ea'. apply KSent. set_solver.
      * rewrite lookup_insert_ne in Hk by done. eapply key_kind_mono; [| |exact (I5 k Hk)].
        -- intros id. by rewrite lookup_insert_ne by apply not_eq_sym, pubrel_sent_ne.
        -- intros b Hb _. set_solver.
  - intros id Hk. rewrite lookup_insert_ne in Hk by apply not_eq_sym, pubrel_sent_ne.
    destruct (Hrel id Hk) as (b & Hb & ? & ?). exists b. split; [set_solver|done].
Qed.
(** The end of an exchange: its records go. *)
Lemma mirror_drop R R' s id :
  mirror uninit R s -> R' !! sent_key id = None -> R' !! pubrel_key id = None ->
  (forall k, k <> sent_key id -> k <> pubrel_key id -> R' !! k = R !! k) ->
  mirror uninit R' (s_drop Outbound id s).
Proof.
  intros (outs & Eo & [I1 I2 I3 I4 I5] & Hrel) Hs Hp HR. exists (without id outs).
  assert (Hin : forall b, b ∈ without id outs <-> am_id b <> id /\ b ∈ outs) by (intros b; unfold without; by rewrite list_elem_of_filter).
  assert (Hsub : forall k, is_Some (R' !! k) -> k <> sent_key id /\ k <> pubrel_key id /\ R' !! k = R !! k).
  { intros k [d Hk]. assert (k <> sent_key id) by congruence. assert (k <> pubrel_key id) by congruence. auto. }
  assert (Hrec : forall k a, k <> sent_key id -> k <> pubrel_key id -> publish_record R k a -> publish_record R' k a).
  { intros k a H1 H2 (d & p & topic & Hd & Hr). exists d, p, topic. by rewrite HR. }
  split; [|split; [split|]].
  - rewrite <- without_plain, Eo, without_plain. done.
  - rewrite Forall_forall in I1 |- *. intros b [Hne Hb]%Hin. destruct (I1 b Hb) as [Hr Hn].
    assert (sent_key (am_id b) <> sent_key id) by (by intros E%(inj sent_key)).
    split; [apply Hrec; [done|apply not_eq_sym, pubrel_sent_ne|done]|]. rewrite Hn. unfold sent_next. rewrite HR; [done|apply pubrel_sent_ne|].
    by intros E%(inj pubrel_key).
  - eapply Forall_impl; [exact I2|]. intros b [Hr Hn]. split; [|done].
    apply Hrec; [apply received_sent_ne|apply not_eq_sym, pubrel_received_ne|done].
  - eapply sublist_NoDup; [exact I3|]. apply fmap_sublist, sublist_filter.
  - done.
  - intros k Hk. destruct (Hsub k Hk) as (H1 & H2 & E). rewrite E in Hk. destruct (I5 k Hk) as [k Hok|a Ha|a Ha|i d hd Hi Hd Hr].
    + by apply KOther.
    + apply KSent, Hin. split; [|done]. intros E'. apply H1. by rewrite E'.
    + by apply KReceived.
    + apply (KPubrel _ _ _ i d hd); [done| |done]. by rewrite HR.
  - intros i Hk. destruct (Hsub _ Hk) as (_ & Hne & E). rewrite E in Hk. destruct (Hrel i Hk) as (a & Ha & Hid & Hq).
    exists a. split; [|done]. apply Hin. split; [|done]. intros E'. apply Hne. by rewrite <- E', Hid.
Qed.

(** A release: the record of the PUBREL is there, and the message waits for
    PUBCOMP. *)
Lemma mirror_release R s a d hd :
  mirror uninit R s -> find_id (am_id a) (s_out s) = Some a -> am_qos a = 2 -> 0 <= am_id a <= MAX_MSG_ID ->
  MQTTPersistence_restorePacket d (zlen d) = Some (Some (PAck (MkAck hd (am_id a)))) ->
  mirror uninit (<[pubrel_key (am_id a) := d]> R) (s_retag Outbound (am_id a) PUBCOMP s).
Proof.
  intros (outs & Eo & [I1 I2 I3 I4 I5] & Hrel) Hf Hq Hid Hd. set (id := am_id a) in *.
  exists (retag id PUBCOMP outs).
  destruct (find_both id outs (s_out s) a Eo Hf) as (a0 & Hf0 & Ea0). apply find_id_elem in Hf0 as [Hin0 Hid0].
  assert (Hrec : forall k b, k <> pubrel_key id -> publish_record R k b -> publish_record (<[pubrel_key id := d]> R) k b).
  { intros k b Hk Hr. by apply publish_record_other. }
  assert (Hin : forall b, b ∈ outs -> (if am_id b =? id then am_with_next PUBCOMP b else b) ∈ retag id PUBCOMP outs).
  { intros b Hb. by apply (list_elem_of_fmap_2 (fun b0 => if am_id b0 =? id then am_with_next PUBCOMP b0 else b0)). }
  assert (Hids : am_id <$> retag id PUBCOMP outs = am_id <$> outs).
  { unfold retag. rewrite <- list_fmap_compose. apply list_fmap_ext. intros _ b _. simpl. by destruct (_ =? _). }
  split; [|split; [split|]].
  - rewrite <- retag_plain, Eo, retag_plain. done.
  - apply Forall_fmap. rewrite Forall_forall in I1 |- *. intros b Hb. destruct (I1 b Hb) as [Hr Hn]. simpl.
    destruct (Z.eqb_spec (am_id b) id) as [E|E].
    + split; simpl.
      * destruct (Hrec _ _ (not_eq_sym (pubrel_sent_ne id (am_id b))) Hr) as (d' & p & topic & H1 & H2 & H3 & H4 & H5 & H6).
        exists d', p, topic. do 5 (split; [done|]). rewrite H6. reflexivity.
      * unfold sent_next. simpl. rewrite E, lookup_insert_eq. by rewrite bool_decide_true.
    + split; [apply Hrec; [apply not_eq_sym, pubrel_sent_ne|done]|]. rewrite Hn. unfold sent_next.
      rewrite lookup_insert_ne; [done|]. by intros ?%(inj pubrel_key).
  - eapply Forall_impl; [exact I2|]. intros b [Hr Hn]. split; [|done]. apply Hrec; [apply not_eq_sym, pubrel_received_ne|done].
  - by rewrite Hids.
  - done.
  - intros k Hk. destruct (decide (k = pubrel_key id)) as [->|Hne].
    + apply (KPubrel _ _ _ id d hd); [done|apply lookup_insert_eq|done].
    + rewrite lookup_insert_ne in Hk by done. destruct (I5 k Hk) as [k Hok|b Hb|b Hb|i d' hd' Hi Hd' Hr].
      * by apply KOther.
      * assert (am_id b = am_id (if am_id b =? id then am_with_next PUBCOMP b else b)) as -> by (by destruct (_ =? _)).
        by apply KSent, Hin.
      * by apply KReceived.
      * apply (KPubrel _ _ _ i d' hd'); [done| |done]. by rewrite lookup_insert_ne.
  - intros i Hk. destruct (decide (i = id)) as [->|Hne].
    + exists (if am_id a0 =? id then am_with_next PUBCOMP a0 else a0). split; [by apply Hin|].
      pose proof (f_equal am_qos Ea0) as Eq0. simpl in Eq0. destruct (_ =? _); simpl; by rewrite ?Eq0.
    + rewrite lookup_insert_ne in Hk by (by intros ?%(inj pubrel_key)). destruct (Hrel i Hk) as (b & Hb & Eb & Hqb).
      exists (if am_id b =? id then am_with_next PUBCOMP b else b). split; [by apply Hin|]. by destruct (_ =? _).
Qed.

(** The message with an id, in the store. *)
Lemma mirror_find R s id a :
  mirror uninit R s -> find_id id (s_out s) = Some a ->
  is_Some (R !! sent_key id) /\ 0 <= id <= MAX_MSG_ID /\ am_id a = id /\
  (am_qos a = 1 -> R !! pubrel_key id = None) /\ (am_qos a = 2 -> am_next a = PUBCOMP -> is_Some (R !! pubrel_key id)).
Proof.
  intros (outs & Eo & Im & Hrel) Hf. destruct (find_both id outs (s_out s) a Eo Hf) as (b & Hb & Eb).
  apply find_id_elem in Hb as [Hin Eid]. pose proof (im_sent _ _ _ _ Im) as Hall. rewrite Forall_forall in Hall.
  destruct (Hall b Hin) as [(d & p & topic & Hd & _ & _ & _ & Hr & Ebr) Hn]. rewrite Eid in Hd.
  assert (Hp : pb_msgId p = id) by (by rewrite <- Eid, Ebr).
  pose proof (f_equal am_id Eb) as E1. pose proof (f_equal am_qos Eb) as E2. pose proof (f_equal am_next Eb) as E3. simpl in E1, E2, E3.
  split; [by exists d|]. split; [lia|]. split; [congruence|]. split.
  - intros Hq. apply eq_None_not_Some. intros (b' & Hb' & Eid' & Hq')%Hrel.
    rewrite (NoDup_ids_unique outs b b' (im_out_ids _ _ _ _ Im)) in E2; [lia|done|done|congruence].
  - intros Hq Hc. unfold sent_next in Hn. rewrite Eid in Hn. case_bool_decide as Hs; [done|].
    rewrite E2, Hq in Hn. simpl in Hn. unfold PUBREC, PUBCOMP in *. congruence.
Qed.

Lemma image_perm R outs outs' ins : outs ≡ₚ outs' -> image uninit R outs ins -> image uninit R outs' ins.
Proof.
  intros Hp [I1 I2 I3 I4 I5]. split; [by rewrite <- Hp|done|by rewrite <- Hp|done|].
  intros k Hk. eapply key_kind_mono; [done| |exact (I5 k Hk)]. intros a Ha _. by rewrite <- Hp.
Qed.
End mirror.

Lemma wrapped_perm (l : list amsg) : wrapped l ≡ₚ l.
Proof.
  unfold wrapped. destruct (wrap_point _) as [i|]; [|done]. rewrite Permutation_app_comm. by rewrite take_drop.
Qed.

Definition id_le (a b : amsg) : Prop := am_id a <= am_id b.
#[export] Instance id_le_dec : RelDecision id_le.
Proof. intros a b. unfold id_le. apply _. Defined.
#[export] Instance id_le_total : Total id_le.
Proof. intros a b. unfold id_le. lia. Qed.

Lemma Sorted_ids (l : list amsg) : Sorted id_le l -> Sorted Z.le (am_id <$> l).
Proof. induction 1 as [|a l _ IH Hd]; [constructor|]. constructor; [done|]. destruct Hd; constructor. done. Qed.

(** * The operations of the sender *)

Inductive sevent : Type :=
  | EPublish (heap : bool) (p : Publish) (topic : list byte) (qos retained : Z)
  | EPuback (a : Ack)
  | EPubrec (a : Ack)
  | EPubcomp (a : Ack).

Definition sent_step (uninit : Z) (e : sevent) (s : session) : session :=
  match e with
  | EPublish heap p topic qos retained => s_add (outbound_msg uninit heap p topic qos retained) s
  | EPuback a => recv_puback (ack_msgId a) s
  | EPubrec a => recv_pubrec (ack_msgId a) s
  | EPubcomp a => recv_pubcomp (ack_msgId a) s
  end.

(** A publish has an unused id and fits into a packet; an acknowledgement is any. *)
Definition legal (s : session) (e : sevent) : Prop :=
  match e with
  | EPublish heap p topic qos retained =>
      pb_topic p = Some topic /\ c_str topic = topic /\ 0 <= pb_payloadlen p <= zlen (pb_payload p) /\ 1 <= qos <= 2 /\
      0 <= retained <= 1 /\ 0 <= pb_msgId p <= MAX_MSG_ID /\ find_id (pb_msgId p) (s_out s) = None /\
      zlen topic < 65536 /\ zlen (publish_body topic (pb_msgId p) qos (publish_payload p)) < 128 ^ 4
  | EPuback a | EPubrec a | EPubcomp a => 0 <= ack_msgId a <= MAX_MSG_ID
  end.

Fixpoint legal_all (uninit : Z) (es : list sevent) (s : session) : Prop :=
  match es with
  | [] => True
  | e :: es' => legal s e /\ legal_all uninit es' (sent_step uninit e s)
  end.
Definition sent_steps (uninit : Z) (es : list sevent) (s : session) : session := foldl (fun s e => sent_step uninit e s) s es.

Lemma hdr_retain_publish dup qos retained : hdr_retain (publish_header dup qos retained) = retained mod 2.
Proof. unfold hdr_retain, publish_header, set_retain. by rewrite get_set_bits by lia. Qed.

Section sender.
Context {K PS : Type} `{Kernel K} (per : MQTTClient_persistence PS) (h : Z) `{!StoreLaws per h} (uninit : Z).
Implicit Types (w : world K PS) (x : Clients PS).
Abbreviation P := (M (world K PS)).

(** The operation of the code that an event stands for. *)
Definition send_event (sock : Z) (c : loc) (e : sevent) : P unit :=
  match e with
  | EPublish heap p _ qos retained => _ ← MQTTProtocol_startPublish uninit heap c p qos retained None; mret tt
  | EPuback a => _ ← MQTTProtocol_handlePubacks a sock; mret tt
  | EPubrec a => _ ← MQTTProtocol_handlePubrecs a sock; mret tt
  | EPubcomp a => _ ← MQTTProtocol_handlePubcomps a sock; mret tt
  end.
Fixpoint send_events (sock : Z) (c : loc) (es : list sevent) : P unit :=
  match es with
  | [] => mret tt
  | e :: es' => send_event sock c e;; send_events sock c es'
  end.

Lemma forget_one k s :
  store_ok s -> is_Some (records s !! k) ->
  records (forget (Some per) h [k] s) = delete k (records s) /\ store_ok (forget (Some per) h [k] s).
Proof. intros O Hk. destruct (store_remove k s O Hk) as (s' & E & Er & O'). simpl. by rewrite E. Qed.

Lemma put_one k bufs s :
  store_ok s -> message_key k ->
  records (put_record (Some per) h k bufs s) = <[k := concat bufs]> (records s) /\ store_ok (put_record (Some per) h k bufs s).
Proof. intros O Hk. unfold put_record. destruct (store_put k bufs s O Hk) as (s' & E & Er & O'). by rewrite E. Qed.

(** The store is in order, and an image of the session. *)
Definition mirrored w s : Prop := store_ok (w_ps w) /\ mirror uninit (records (w_ps w)) s.

(** The record of a PUBLISH gives back the message. *)
Lemma outbound_restored heap p topic qos retained :
  c_str topic = topic -> 0 <= pb_payloadlen p <= zlen (pb_payload p) -> 1 <= qos <= 2 -> 0 <= retained <= 1 ->
  let a := outbound_msg uninit heap p topic qos retained in
  plain a = plain (restored_msg (MkPublish (publish_header 0 qos retained) (Some topic) (zlen topic) (pb_msgId p)
                                  (publish_payload p) (zlen (publish_payload p))) topic (am_next a)).
Proof.
  intros Ht Hp Hq Hr. assert (Hl : zlen (publish_payload p) = pb_payloadlen p).
  { unfold publish_payload, zlen in *. rewrite length_take. lia. }
  unfold plain, restored_msg, outbound_msg. simpl. rewrite hdr_qos_publish, hdr_retain_publish, Hl, !Z.mod_small by lia.
  f_equal; [by destruct heap|]. unfold publish_payload. simpl. rewrite take_take. f_equal. unfold zlen in Hp. lia.
Qed.

Lemma in_phase_find phase id l : in_phase phase id l = true -> exists a, find_id id l = Some a /\ phase a = true.
Proof. unfold in_phase. destruct (find_id id l) as [a|]; [|done]. by exists a. Qed.

(** An ignored acknowledgement and a completed exchange. *)
Lemma event_puback w sock c x s a :
  winv w -> at_socket w sock c x -> session_of w c = Some s -> c_persistence x = Some per -> c_phandle x = h ->
  mirrored w s -> legal s (EPuback a) ->
  exists w', send_event sock c (EPuback a) w = Some (tt, w') /\ winv w' /\ steps c (recv_puback (ack_msgId a)) w w' /\
    shell w w' /\ mirrored w' (recv_puback (ack_msgId a) s).
Proof.
  intros I A Hs Hper Hh [O Hm] Hl. destruct (handlePubacks_step w sock c x s a I A Hs Hl) as (rc & w' & E & I' & S & Sh & _ & P').
  exists w'. simpl. mstep E. do 4 (split; [done|]). rewrite Hper, Hh in P'. unfold recv_puback.
  destruct (in_phase qos1 (ack_msgId a) (s_out s)) eqn:Ph; [|by split; rewrite P'].
  apply in_phase_find in Ph as (b & Hb & Hq%Z.eqb_eq). destruct (mirror_find _ _ _ _ _ Hm Hb) as (Hk & _ & _ & Hn & _).
  destruct (forget_one (sent_key (ack_msgId a)) (w_ps w) O Hk) as [Er Or]. fold (sent_key (ack_msgId a)) in P'. rewrite <- P' in Er, Or. split; [exact Or|]. rewrite Er.
  eapply mirror_drop; [exact Hm|apply lookup_delete_eq| |].
  - rewrite lookup_delete_ne by apply not_eq_sym, pubrel_sent_ne. by apply Hn.
  - intros k Hk1 _. by rewrite lookup_delete_ne.
Qed.

Lemma event_pubcomp w sock c x s a :
  winv w -> at_socket w sock c x -> session_of w c = Some s -> c_persistence x = Some per -> c_phandle x = h ->
  mirrored w s -> legal s (EPubcomp a) ->
  exists w', send_event sock c (EPubcomp a) w = Some (tt, w') /\ winv w' /\ steps c (recv_pubcomp (ack_msgId a)) w w' /\
    shell w w' /\ mirrored w' (recv_pubcomp (ack_msgId a) s).
Proof.
  intros I A Hs Hper Hh [O Hm] Hl.
  destruct (handlePubcomps_step w sock c x s a I A Hs Hl) as (rc & w' & E & I' & S & Sh & _ & P' & _).
  exists w'. simpl. mstep E. do 4 (split; [done|]). rewrite Hper, Hh in P'. unfold recv_pubcomp.
  destruct (in_phase (expects PUBCOMP) (ack_msgId a) (s_out s)) eqn:Ph; [|by split; rewrite P'].
  apply in_phase_find in Ph as (b & Hb & [Hq%Z.eqb_eq Hc%Z.eqb_eq]%andb_true_iff).
  destruct (mirror_find _ _ _ _ _ Hm Hb) as (Hk & _ & _ & _ & Hn). specialize (Hn Hq Hc).
  change (forget (Some per) h [?k1; ?k2] ?s) with (forget (Some per) h [k2] (forget (Some per) h [k1] s)) in P'.
  fold (sent_key (ack_msgId a)) (pubrel_key (ack_msgId a)) in P'.
  destruct (forget_one (sent_key (ack_msgId a)) (w_ps w) O Hk) as [Er1 Or1].
  destruct (forget_one (pubrel_key (ack_msgId a)) _ Or1) as [Er2 Or2]; [rewrite Er1; by rewrite lookup_delete_ne by apply not_eq_sym, pubrel_sent_ne|].
  rewrite Er1 in Er2. rewrite <- P' in Er2, Or2. split; [exact Or2|]. rewrite Er2.
  eapply mirror_drop; [exact Hm| |apply lookup_delete_eq|].
  - rewrite lookup_delete_ne by apply pubrel_sent_ne. apply lookup_delete_eq.
  - intros k Hk1 Hk2. by rewrite !lookup_delete_ne.
Qed.

Lemma event_pubrec w sock c x s a :
  winv w -> at_socket w sock c x -> session_of w c = Some s -> c_persistence x = Some per -> c_phandle x = h ->
  mirrored w s -> legal s (EPubrec a) ->
  exists w', send_event sock c (EPubrec a) w = Some (tt, w') /\ winv w' /\ steps c (recv_pubrec (ack_msgId a)) w w' /\
    shell w w' /\ mirrored w' (recv_pubrec (ack_msgId a) s).
Proof.
  intros I A Hs Hper Hh [O Hm] Hl. destruct (handlePubrecs_step w sock c x s a I A Hs Hl) as (rc & w' & E & I' & S & Sh & P').
  exists w'. simpl. mstep E. do 4 (split; [done|]). unfold recv_pubrec.
  destruct (in_phase (expects PUBREC) (ack_msgId a) (s_out s)) eqn:Ph; [|by destruct P' as [_ P']; split; rewrite P'].
  apply in_phase_find in Ph as (b & Hb & [Hq%Z.eqb_eq _]%andb_true_iff). destruct (mirror_find _ _ _ _ _ Hm Hb) as (_ & Hr & Eid & _).
  destruct P' as (w1 & w2 & rc2 & Q1 & N1 & P1 & E2 & Pw).
  destruct (quiet_at_socket _ _ _ _ _ Q1 A) as (x1 & A1 & C1).
  assert (R1 : ready w1 c x1) by (split; [apply (q_wf _ _ Q1), I|by rewrite (as_socket _ _ _ _ A1)]).
  destruct (pubrel_persists w1 c x1 (ack_msgId a) 0 R1 Hr) as (rc3 & w3 & E3 & _ & P3).
  rewrite E3 in E2. injection E2 as -> <-. rewrite <- Pw, P1, (cs_per _ _ C1), (cs_handle _ _ C1), Hper, Hh in P3.
  fold (pubrel_key (ack_msgId a)) in P3.
  edestruct (put_one (pubrel_key (ack_msgId a))) as [Er Or]; [exact O|apply message_pubrel; unfold MAX_MSG_ID in *; lia|].
  rewrite <- P3 in Er, Or. split; [exact Or|]. rewrite Er.
  rewrite <- Eid in Hb |- *. eapply mirror_release; [exact Hm|exact Hb|done|lia|].
  apply (pubrel_record_restores (am_id b) 0). unfold MAX_MSG_ID in Hr. lia.
Qed.

Lemma event_publish w sock c x s heap p topic qos retained :
  winv w -> at_socket w sock c x -> session_of w c = Some s -> c_persistence x = Some per -> c_phandle x = h ->
  mirrored w s -> let e := EPublish heap p topic qos retained in legal s e ->
  exists w', send_event sock c e w = Some (tt, w') /\ winv w' /\ steps c (sent_step uninit e) w w' /\
    shell w w' /\ mirrored w' (sent_step uninit e s).
Proof.
  intros I A Hs Hper Hh [O Hm] e (Ht & Hc & Hp & Hq & Hret & Hid & Hf & Htl & Hbl).
  assert (R : ready w c x) by (split; [apply I|by rewrite (as_socket _ _ _ _ A)]).
  destruct (startPublish_step uninit heap w c x s p topic qos retained I R Hs Ht Hp Hq Hid Hf)
    as (rc & m & w' & bufs & E & I' & S & Sh & _ & P' & Hrec); [by rewrite Hc|by rewrite Hc|].
  exists w'. simpl. mstep E. do 4 (split; [done|]). rewrite Hper, Hh in P'. unfold restores_to, sent_publish in Hrec. rewrite Hc in Hrec.
  fold (sent_key (pb_msgId p)) in P'.
  edestruct (put_one (sent_key (pb_msgId p))) as [Er Or]; [exact O|apply message_sent; unfold MAX_MSG_ID in *; lia|].
  rewrite <- P' in Er, Or. split; [exact Or|]. rewrite Er.
  assert (Hl : zlen (publish_payload p) = pb_payloadlen p).
  { unfold publish_payload, zlen in *. rewrite length_take. lia. }
  eapply (mirror_add uninit _ s (outbound_msg uninit heap p topic qos retained)); [exact Hm|done|exact Hrec|done| |done|done| |done].
  - simpl. rewrite Hl. lia.
  - by apply outbound_restored.
Qed.

Lemma event_step w sock c x s e :
  winv w -> at_socket w sock c x -> session_of w c = Some s -> c_persistence x = Some per -> c_phandle x = h ->
  mirrored w s -> legal s e ->
  exists w', send_event sock c e w = Some (tt, w') /\ winv w' /\ steps c (sent_step uninit e) w w' /\
    shell w w' /\ mirrored w' (sent_step uninit e s).
Proof.
  destruct e; intros; [by eapply event_publish|by eapply event_puback|by eapply event_pubrec|by eapply event_pubcomp].
Qed.

Lemma events_step sock c es : forall w x s,
  winv w -> at_socket w sock c x -> session_of w c = Some s -> c_persistence x = Some per -> c_phandle x = h ->
  mirrored w s -> legal_all uninit es s ->
  exists w', send_events sock c es w = Some (tt, w') /\ winv w' /\ session_of w' c = Some (sent_steps uninit es s) /\
    mirrored w' (sent_steps uninit es s).
Proof.
  induction es as [|e es IH]; intros w x s I A Hs Hper Hh Hm Hl; [by exists w|]. destruct Hl as [Hl Hes].
  destruct (event_step w sock c x s e I A Hs Hper Hh Hm Hl) as (w1 & E1 & I1 & S1 & Sh1 & M1).
  destruct (shell_at _ _ _ _ _ Sh1 A) as (x1 & A1 & F1).
  assert (Hs1 : session_of w1 c = Some (sent_step uninit e s)) by (by rewrite (S1 c), decide_True, Hs).
  destruct (IH w1 x1 _ I1 A1 Hs1) as (w' & E & I' & Hs' & M'); [by rewrite (cf_per _ _ F1)|by rewrite (cf_handle _ _ F1)|done|done|].
  exists w'. simpl. mstep E1. by do 3 (split; [done|]).
Qed.
End sender.

(** [C3] No message is lost in a crash.  Start from a session that the persistent
    store mirrors (such as an empty one) and let the client publish messages of
    QoS 1 and 2 and receive acknowledgements, legal or not, in any order: no
    operation goes wrong, and whenever the process is then replaced by another
    one with an empty session on the same store, restoring gives the session
    that was lost - the same messages with the same ids, contents and phases,
    the received ones included. *)
Theorem sender_durable {K PS} `{Kernel K} (per : MQTTClient_persistence PS) h `{!StoreLaws per h} uninit
    (w : world K PS) sock c x s es :
  winv w -> at_socket w sock c x -> session_of w c = Some s -> c_persistence x = Some per -> c_phandle x = h ->
  store_ok (w_ps w) -> mirror uninit (records (w_ps w)) s -> legal_all uninit es s ->
  exists w1, send_events uninit sock c es w = Some (tt, w1) /\ winv w1 /\ store_ok (w_ps w1) /\
    session_of w1 c = Some (sent_steps uninit es s) /\
    forall (w2 : world K PS) c2 x2 s2,
      winv w2 -> w_cl w2 !! c2 = Some x2 -> c_persistence x2 = Some per -> c_phandle x2 = h ->
      session_of w2 c2 = Some s2 -> s_in s2 = [] -> s_out s2 = [] -> store_ok (w_ps w2) -> records (w_ps w2) = records (w_ps w1) ->
      exists w3 s3, MQTTPersistence_restore uninit c2 w2 = Some (0, w3) /\ winv w3 /\ session_of w3 c2 = Some s3 /\
        plain <$> s_out s3 ≡ₚ plain <$> s_out (sent_steps uninit es s) /\ s_in s3 ≡ₚ s_in (sent_steps uninit es s).
Proof.
  intros I A Hs Hper Hh O Hm Hl.
  destruct (events_step per h uninit sock c es w x s I A Hs Hper Hh (conj O Hm) Hl) as (w1 & E & I1 & Hs1 & O1 & M1).
  exists w1. do 4 (split; [done|]). intros w2 c2 x2 s2 I2 Hx2 Hp2 Hh2 Hs2 Hin Hout O2 Hrec.
  destruct M1 as (outs & Eo & Im & _). set (sorted := merge_sort id_le outs).
  assert (Hp : sorted ≡ₚ outs) by apply merge_sort_Permutation.
  destruct (restore_session_step per h uninit w2 c2 x2 s2 sorted (s_in (sent_steps uninit es s)))
    as (w3 & ins' & E3 & I3 & _ & Pin & S3 & _ & _); try done.
  - rewrite Hrec. by eapply image_perm.
  - apply Sorted_ids, Sorted_merge_sort, _.
  - exists w3, (Sess ins' (wrapped sorted) (s_queue s2)). do 2 (split; [done|]). split; [by rewrite (S3 c2), decide_True, Hs2|].
    simpl. split; [|done]. rewrite <- Eo. by rewrite wrapped_perm, Hp.
Qed.
End Durability.
