(* ===== verification/ExactlyOnce.v ===== *)
(** Sequences of packets: whatever PUBLISH and PUBREL packets arrive for a client,
    with duplicates and in any order, each QoS 2 message reaches the application
    exactly once per exchange. *)
From stdpp Require Import gmultiset.
From S2P Require Import Prelude ListSpec Packet SocketBuffer Socket World Persistence Send Store Session Protocol Footprint Memory Sending Steps Handlers Receiver.

Module ExactlyOnce.
Import Packet SocketBuffer Socket World Persistence Send Store Session Protocol Footprint Memory Sending Steps Handlers Receiver.

#[local] Arguments zlen : simpl never.

(** The packets of the receiver's side. *)
Inductive inpacket := IPublish (p : Publish) | IPubrel (a : Ack).

(** Packets as [MQTTPacket_Factory] makes them. *)
Definition in_ok (e : inpacket) : Prop :=
  match e with
  | IPublish p => is_Some (pb_topic p) /\ 0 <= pb_payloadlen p <= zlen (pb_payload p) /\ 0 <= pb_msgId p <= MAX_MSG_ID
  | IPubrel a => 0 <= ack_msgId a <= MAX_MSG_ID
  end.

Definition recv_in (e : inpacket) : session -> session :=
  match e with IPublish p => recv_publish p | IPubrel a => recv_pubrel (ack_msgId a) end.

(** What the exchanges with an id deliver: a PUBLISH replaces what is stored for
    the id, a PUBREL delivers it once. *)
Fixpoint deliveries (id : Z) (stored : option amsg) (es : list inpacket) : list delivery :=
  match es with
  | [] => []
  | IPublish p :: es' =>
      if (hdr_qos (pb_header p) =? 2) && (pb_msgId p =? id) then deliveries id (Some (inbound_msg p)) es'
      else deliveries id stored es'
  | IPubrel a :: es' =>
      if ack_msgId a =? id then option_list (released <$> stored) ++ deliveries id None es'
      else deliveries id stored es'
  end.

(** The QoS 2 deliveries of an id. *)
Definition qos2_with (id : Z) (e : delivery) : Prop := mm_qos e.1.1 = 2 /\ mm_msgid e.1.1 = id.
#[export] Instance qos2_with_dec id e : Decision (qos2_with id e).
Proof. unfold qos2_with. apply _. Defined.

(** Every stored message waits for PUBREL. *)
Definition inbound_ok (s : session) : Prop := Forall (fun a => expects PUBREL a = true) (s_in s).

(** * Searches after the changes *)

Lemma find_id_cons id a l : find_id id (a :: l) = if am_id a =? id then Some a else find_id id l.
Proof.
  unfold find_id. simpl. destruct (Z.eqb_spec (am_id a) id).
  - by rewrite decide_True.
  - rewrite decide_False by done. by destruct (list_find _ l) as [[]|].
Qed.

Lemma find_id_without id id' l : find_id id (without id' l) = if id =? id' then None else find_id id l.
Proof.
  induction l as [|a l IH]; [by destruct (_ =? _)|]. unfold without in *.
  destruct (decide (am_id a = id')) as [Ea|Ea].
  - rewrite filter_cons_False by (by intros []). rewrite IH, find_id_cons.
    destruct (Z.eqb_spec id id'); [done|]. destruct (Z.eqb_spec (am_id a) id); congruence.
  - rewrite filter_cons_True by done. rewrite !find_id_cons, IH.
    destruct (Z.eqb_spec (am_id a) id), (Z.eqb_spec id id'); congruence.
Qed.

Lemma find_id_app id l k : find_id id (l ++ k) = match find_id id l with Some a => Some a | None => find_id id k end.
Proof.
  induction l as [|a l IH]; [done|]. simpl. rewrite !find_id_cons, IH. by destruct (_ =? _).
Qed.

Lemma find_id_put id a l : find_id id (put_msg a l) = if am_id a =? id then Some a else find_id id l.
Proof.
  unfold put_msg. destruct (find_id (am_id a) l) as [b|] eqn:E.
  - revert b E. induction l as [|c l IH]; intros b; [done|]. rewrite fmap_cons, !find_id_cons.
    destruct (Z.eqb_spec (am_id c) (am_id a)) as [Ec|Ec].
    + intros _. rewrite Ec. destruct (Z.eqb_spec (am_id a) id) as [|Hid]; [done|].
      clear IH. induction l as [|d l IH]; [done|]. rewrite fmap_cons, !find_id_cons, IH.
      destruct (Z.eqb_spec (am_id d) (am_id a)); [|done]. destruct (Z.eqb_spec (am_id a) id), (Z.eqb_spec (am_id d) id); congruence.
    + intros Hb. rewrite (IH b Hb). destruct (Z.eqb_spec (am_id c) id), (Z.eqb_spec (am_id a) id); congruence.
  - rewrite find_id_app, find_id_cons. destruct (Z.eqb_spec (am_id a) id) as [<-|]; [by rewrite E|].
    by destruct (find_id id l).
Qed.

Lemma put_msg_ok a l :
  expects PUBREL a = true -> Forall (fun b => expects PUBREL b = true) l -> Forall (fun b => expects PUBREL b = true) (put_msg a l).
Proof.
  intros Ha Hl. unfold put_msg. destruct (find_id _ l).
  - apply Forall_fmap. eapply Forall_impl; [exact Hl|]. intros b Hb. simpl. by destruct (_ =? _).
  - apply Forall_app. by repeat constructor.
Qed.

Lemma find_id_In id l a : find_id id l = Some a -> a ∈ l /\ am_id a = id.
Proof.
  unfold find_id. destruct (list_find _ l) as [[i b]|] eqn:E; [|done]. intros [= <-].
  apply list_find_Some in E as (Hi & Hb & _). split; [by eapply list_elem_of_lookup_2|done].
Qed.

(** * The abstract receiver delivers exactly once *)

Lemma recv_in_step e s :
  inbound_ok s ->
  inbound_ok (recv_in e s) /\ exists new, s_queue (recv_in e s) = s_queue s ++ new /\
    forall id es, filter (qos2_with id) new ++ deliveries id (find_id id (s_in (recv_in e s))) es =
      deliveries id (find_id id (s_in s)) (e :: es).
Proof.
  intros Hok. destruct e as [p|a]; simpl.
  - unfold recv_publish. destruct (Z.eqb_spec (hdr_qos (pb_header p)) 2) as [E2|E2].
    + rewrite E2. simpl. split; [by apply put_msg_ok|]. exists []. split; [by rewrite app_nil_r|].
      intros id es. simpl. rewrite find_id_put. simpl. by destruct (_ =? _).
    + destruct ((hdr_qos (pb_header p) =? 0) || (hdr_qos (pb_header p) =? 1)) eqn:E; simpl.
      * split; [done|]. eexists [_]. split; [done|]. intros id es. rewrite filter_cons_False; [done|].
        unfold qos2_with. simpl. tauto.
      * split; [done|]. exists []. split; [by rewrite app_nil_r|done].
  - unfold recv_pubrel. destruct (find_id (ack_msgId a) (s_in s)) as [b|] eqn:E.
    + apply find_id_In in E as Hb. destruct Hb as [Hin Hid]. unfold inbound_ok in Hok.
      rewrite Forall_forall in Hok. rewrite (Hok b Hin). simpl. split.
      * unfold inbound_ok. simpl. apply Forall_forall. intros c [_ Hc]%list_elem_of_filter. by apply Hok.
      * exists [released b]. split; [done|]. intros id es. rewrite find_id_without.
        destruct (Z.eqb_spec (ack_msgId a) id) as [Ea|Ea].
        -- rewrite Ea, Z.eqb_refl. rewrite <- Ea, E. rewrite filter_cons_True; [done|]. unfold qos2_with. simpl. done.
        -- rewrite (proj2 (Z.eqb_neq id _)) by congruence. rewrite filter_cons_False; [done|].
           unfold qos2_with. simpl. intros [_ ?]. congruence.
    + split; [done|]. exists []. split; [by rewrite app_nil_r|]. intros id es. simpl.
      destruct (Z.eqb_spec (ack_msgId a) id) as [<-|]; [|done]. by rewrite E.
Qed.

Section code.
Context {K PS : Type} `{Kernel K}.
Variable uninit : Z.
Implicit Types (w : world K PS) (x : Clients PS).
Abbreviation P := (M (world K PS)).

(** The handlers, one packet after the other. *)
Definition handle_in (sock : Z) (e : inpacket) : P Z :=
  match e with
  | IPublish p => MQTTProtocol_handlePublishes uninit p sock
  | IPubrel a => MQTTProtocol_handlePubrels uninit a sock
  end.
Fixpoint receive_all (sock : Z) (es : list inpacket) : P unit :=
  match es with
  | [] => mret tt
  | e :: es' => _ ← handle_in sock e; receive_all sock es'
  end.

(** Room for [k] more entries of the delivery queue in the persistent store, whose
    keys have six digits.  A client without persistence has it always. *)
Definition room_for (k : nat) x : Prop :=
  c_persistence x = None \/ 0 <= c_qentry_seqno x /\ c_qentry_seqno x + Z.of_nat k <= 999999.

Lemma room_for_queue k x : room_for (S k) x -> queue_room x.
Proof. intros [?|?]; [by left|right; lia]. Qed.

(** One packet takes at most one sequence number. *)
Lemma growing_in sock e : growing 1 (handle_in sock e).
Proof. destruct e; [apply growing_publishes|apply growing_pubrel]. Qed.

Lemma room_step sock e w rc w' c x x' k :
  handle_in sock e w = Some (rc, w') -> w_cl w !! c = Some x -> w_cl w' !! c = Some x' -> cframe x x' ->
  room_for (S k) x -> room_for k x'.
Proof.
  intros E Hx Hx' F [Hper|[Hlo Hhi]]; [left; by rewrite (cf_per _ _ F)|right].
  pose proof (proj2 (growing_in sock e) _ _ _ E c (c_qentry_seqno x)) as G.
  rewrite (seqno_lookup _ _ _ Hx), (seqno_lookup _ _ _ Hx') in G. lia.
Qed.

Lemma handle_in_refines w sock c x s e :
  winv w -> at_socket w sock c x -> session_of w c = Some s -> in_ok e -> queue_room x ->
  exists rc w', handle_in sock e w = Some (rc, w') /\ winv w' /\ steps c (recv_in e) w w' /\ shell w w'.
Proof.
  intros I A Hs He Hroom. destruct e as [p|a]; simpl in He |- *.
  - destruct He as ([topic Ht] & Hp & Hid).
    destruct (handlePublishes_step uninit w sock c x s p topic) as (rc & w' & ? & ? & ? & ? & _); try done.
    by exists rc, w'.
  - destruct (handlePubrels_step uninit w sock c x s a) as (rc & w' & ? & ? & ? & ? & _); try done.
    by exists rc, w'.
Qed.

(** [C1] The handlers run on any sequence of PUBLISH and PUBREL packets without
    going wrong, and each QoS 2 message is delivered exactly once: for every id,
    the QoS 2 messages with that id that were added to the application's queue
    are, in order, one for each PUBREL that ends an exchange - the content last
    published under the id - however many duplicates of PUBLISH and PUBREL
    arrive and whatever happens to other ids in between.  The client may have
    persistence or not; a persistent client needs sequence numbers of six digits
    for the records of its queue, one for each packet at most. *)
Theorem exactly_once w sock c x s es :
  winv w -> at_socket w sock c x -> session_of w c = Some s -> inbound_ok s ->
  room_for (length es) x -> Forall in_ok es ->
  exists w' s' new, receive_all sock es w = Some (tt, w') /\ winv w' /\ session_of w' c = Some s' /\
    s_queue s' = s_queue s ++ new /\
    forall id, filter (qos2_with id) new = deliveries id (find_id id (s_in s)) es.
Proof.
  intros I A Hs Hok Hroom Hes. revert w x s I A Hs Hok Hroom. induction Hes as [|e es He _ IH]; intros w x s I A Hs Hok Hroom.
  - exists w, s, []. split_and!; [done..|by rewrite app_nil_r|done].
  - destruct (handle_in_refines w sock c x s e I A Hs He (room_for_queue _ _ Hroom)) as (rc & w1 & E1 & I1 & S1 & Sh1).
    destruct (shell_at _ _ _ _ _ Sh1 A) as (x1 & A1 & F1).
    destruct (recv_in_step e s Hok) as (Hok1 & new1 & Q1 & D1).
    assert (Hs1 : session_of w1 c = Some (recv_in e s)) by (rewrite (S1 c), decide_True, Hs by done; done).
    destruct (IH w1 x1 (recv_in e s) I1 A1 Hs1 Hok1) as (w' & s' & new & E & I' & Hs' & Q' & D'); [exact (room_step _ _ _ _ _ c _ _ _ E1 (as_client _ _ _ _ A) (as_client _ _ _ _ A1) F1 Hroom)|].
    exists w', s', (new1 ++ new). simpl. mstep E1. split_and!; [done..| |].
    + by rewrite Q', Q1, app_assoc.
    + intros id. by rewrite filter_app, D', D1.
Qed.
End code.
End ExactlyOnce.
