(* ===== verification/Scenario.v ===== *)
(** A concrete state: two clients with messages in flight, a persistent store and
    the scripted kernel.  The invariant is decidable, so that it is checked here
    by evaluation; the theorems about the protocol are applied to this state. *)
From stdpp Require Import gmultiset.
From S2P Require Import Prelude ListSpec Packet SocketBuffer Socket Wire World Persistence Send Store Session Protocol Memory Sending Steps Ids Handlers Receiver Sender Closing Restore Client Dispatch Api Recovery Durability ExactlyOnce.

Module Scenario.
Import Packet SocketBuffer Socket Wire World Persistence Send Store Session Protocol Memory Sending Steps Ids Handlers Receiver
  Sender Closing Restore Client Dispatch Api Recovery Durability ExactlyOnce.

(** * The invariant is decidable *)

Lemma wf_iff {A} (l : clist A) :
  (NoDup (LSpec.addrs l) /\ Forall (fun a => a ∈ LSpec.addrs l) (option_list (cur l)) /\ cnt l = zlen (items l)) <->
  LSpec.wf l.
Proof.
  split.
  - intros (H1 & H2 & H3). split; [done| |done]. intros a Ea. rewrite Ea in H2. by inversion H2.
  - intros [H1 H2 H3]. split_and!; [done| |done]. destruct (cur l) as [a|]; [|constructor].
    repeat constructor. by apply H2.
Qed.

#[export] Instance wf_dec {A} (l : clist A) : Decision (LSpec.wf l).
Proof.
  destruct (decide (NoDup (LSpec.addrs l) /\ Forall (fun a => a ∈ LSpec.addrs l) (option_list (cur l)) /\
    cnt l = zlen (items l))) as [H|H]; [left|right]; by rewrite <- wf_iff.
Defined.

Section decidable.
Context {K PS : Type}.
Implicit Types (w : world K PS).

(** The invariant as one decidable proposition. *)
Definition checked w : Prop :=
  (LSpec.wf (w_clients w) /\ LSpec.wf (w_handles w) /\ LSpec.wf (w_publications w) /\ LSpec.wf (w_pending w) /\
   map_Forall (fun _ x => LSpec.wf (c_inboundMsgs x) /\ LSpec.wf (c_outboundMsgs x) /\ LSpec.wf (c_messageQueue x)) (w_cl w)) /\
  collect (fun _ x => client_msgs x) (w_cl w) = keys (w_msgs w) /\
  collect (fun _ m => [m_publish m]) (w_msgs w)
    ⊎ lsd ((fun y => pwr_p y.2) <$> LSpec.contents (w_pending w)) = keys (w_pubs w) /\
  lsd (LSpec.contents (w_publications w)) = keys (w_pubs w) /\
  collect (fun _ x => LSpec.contents (c_messageQueue x)) (w_cl w) = keys (w_qes w) /\
  map_Forall (fun _ p => p_refcount p = 1 /\ p_payloadlen p = zlen (p_payload p)) (w_pubs w) /\
  map_Forall (fun _ m => 0 <= m_msgid m <= MAX_MSG_ID) (w_msgs w) /\
  map_Forall (fun _ x => NoDup (ids w (LSpec.contents (c_inboundMsgs x))) /\
                         NoDup (ids w (LSpec.contents (c_outboundMsgs x)))) (w_cl w) /\
  NoDup (LSpec.contents (w_clients w)) /\ Forall (fun c => is_Some (w_cl w !! c)) (LSpec.contents (w_clients w)).

#[export] Instance checked_dec w : Decision (checked w).
Proof. unfold checked. apply _. Defined.

Lemma checked_winv w : checked w -> winv w.
Proof.
  intros ((W1 & W2 & W3 & W4 & W5) & J1 & J2 & J3 & J4 & J5 & J6 & J7 & J8 & J9).
  split; rewrite ?(right_id_L ∅ (⊎)); try done.
  - split; try done; intros c x Hx; by destruct (W5 c x Hx) as (? & ? & ?).
  - intros c x Hx. by destruct (J7 c x Hx).
  - intros c x Hx. by destruct (J7 c x Hx).
  - split; [done|]. by apply Forall_forall.
Qed.

Definition found w (sock : Z) (c : loc) : Prop :=
  c ∈ LSpec.contents (w_clients w) /\
  (fun x => nh_socket (c_net x)) <$> w_cl w !! c = Some sock /\
  Forall (fun c' => clientSocketCompare w sock c' = true -> c' = c) (LSpec.contents (w_clients w)).

#[export] Instance found_dec w sock c : Decision (found w sock c).
Proof. unfold found. apply _. Defined.

Lemma found_at w sock c x : found w sock c -> w_cl w !! c = Some x -> at_socket w sock c x.
Proof.
  intros (H1 & H2 & H3) Hx. rewrite Hx in H2. simpl in H2. injection H2 as H2. rewrite Forall_forall in H3. by split.
Qed.
End decidable.

(** * The state *)

(** A store that keeps its records in a map. *)
Definition mem_store : MQTTClient_persistence (gmap string (list byte)) := {|
  popen _ _ s := ((0, 1), s);
  pclose _ s := (0, s);
  pput _ k bufs s := (0, <[k := concat bufs]> s);
  pget _ k s := (match s !! k with Some d => (0, d) | None => (-2, []) end, s);
  premove _ k s := (0, delete k s);
  pkeys _ s := ((0, (map_to_list s).*1), s);
  pclear _ s := (0, ∅);
  pcontainskey _ k s := (if s !! k is Some _ then 0 else -2, s) |}.

Definition ex_list (l : list loc) : clist loc := foldl (fun l m => LSpec.append m 40 l) LSpec.empty l.

Definition ex_clients (persistent : bool) : gmap loc (Clients (gmap string (list byte))) :=
  let per := if persistent then Some mem_store else None in
  {[ 1%positive := MkClient (ConnectData [99; 49] None None 0 60 None) true true false 0 (MkNet 5 100 100) 9 20 10
       (ex_list [14%positive]) (ex_list [11%positive; 12%positive; 13%positive]) LSpec.empty 0 1 per;
     2%positive := MkClient (ConnectData [99; 50] None None 1 0 None) true true false 0 (MkNet 6 100 100) 4 20 10
       LSpec.empty (ex_list [15%positive]) LSpec.empty 0 2 None ]}.

(** Client 1 sends a QoS 1 message (id 7) and two QoS 2 messages (ids 8 and 9, the
    latter released) and receives a QoS 2 message (id 3); client 2 sends a QoS 1
    message with id 7 too. *)
Definition ex_world (persistent : bool) : world skernel (gmap string (list byte)) :=
  let msg q id p n := MkMsg q 0 id p 100 n 48 in
  let pub t := MkPub [116; t] 2 [1; 2; t] 3 1 in
  MkWorld (Net (SBuf {[ 1%positive := SQ 0 0 0 [] 0 0 [] ]} 1%positive LSpec.empty ∅ LSpec.empty)
             (MkSockets LSpec.empty None LSpec.empty LSpec.empty ∅ ∅ 0 ∅ ∅)
             (SKernel ∅ ∅ [50; 50; 50; 50; 50; 50; 50; 50] 130))
    (if persistent then {[ "s-7"%string := [0]; "s-8"%string := [0]; "s-9"%string := [0]; "sc-9"%string := [0];
                           "r-3"%string := [0] ]} else ∅)
    (ex_list [1%positive; 2%positive]) (ex_clients persistent) (ex_list [1%positive; 2%positive])
    {[ 1%positive := MkHandle true true true [104]; 2%positive := MkHandle true true true [104] ]}
    {[ 11%positive := msg 1 7 21%positive 0; 12%positive := msg 2 8 22%positive PUBREC;
       13%positive := msg 2 9 23%positive PUBCOMP; 14%positive := msg 2 3 24%positive PUBREL;
       15%positive := msg 1 7 25%positive 0 ]}
    {[ 21%positive := pub 1; 22%positive := pub 2; 23%positive := pub 3; 24%positive := pub 4; 25%positive := pub 5 ]}
    ∅ (ex_list [21%positive; 22%positive; 23%positive; 24%positive; 25%positive]) LSpec.empty 0 0 0 [] true.

Lemma ex_winv b : winv (ex_world b).
Proof. apply checked_winv, (bool_decide_unpack _). destruct b; vm_compute; exact I. Qed.

Definition ex_client (b : bool) : Clients (gmap string (list byte)) :=
  match ex_clients b !! 1%positive with Some x => x | None => MkClient (ConnectData [] None None 0 0 None) false false
    false 0 (MkNet 0 0 0) 0 0 0 LSpec.empty LSpec.empty LSpec.empty 0 0 None end.

Lemma ex_at b : at_socket (ex_world b) 5 1%positive (ex_client b).
Proof.
  apply found_at.
  - apply (bool_decide_unpack _). destruct b; vm_compute; exact I.
  - by destruct b.
Qed.

Definition ex_session : session :=
  Sess [AMsg 3 2 0 PUBREL [116; 4] 2 [1; 2; 4] 3]
       [AMsg 7 1 0 0 [116; 1] 2 [1; 2; 1] 3; AMsg 8 2 0 PUBREC [116; 2] 2 [1; 2; 2] 3;
        AMsg 9 2 0 PUBCOMP [116; 3] 2 [1; 2; 3] 3] [].

Lemma ex_session_of b : session_of (ex_world b) 1%positive = Some ex_session.
Proof. by destruct b. Qed.

(** * The handlers on this state *)

Example handlePubacks_refines_witness :
  winv (ex_world true) /\
  outcome 1%positive (recv_puback 7) (ex_world true) (MQTTProtocol_handlePubacks (MkAck 64 7) 5 (ex_world true)) (fun w' =>
    w_net w' = w_net (ex_world true) /\
    w_ps w' = if in_phase qos1 7 (s_out ex_session)
              then forget (Some mem_store) 1 [(PERSISTENCE_PUBLISH_SENT +:+ pretty 7)%string] (w_ps (ex_world true))
              else w_ps (ex_world true)).
Proof.
  split; [apply ex_winv|].
  apply (handlePubacks_refines (ex_world true) 5 1%positive (ex_client true) ex_session (MkAck 64 7));
    [apply ex_winv|apply ex_at|apply ex_session_of|unfold MAX_MSG_ID; simpl; lia].
Defined.


Example handlePubcomps_refines_witness :
  in_phase (expects PUBCOMP) 9 (s_out ex_session) = true /\
  outcome 1%positive (recv_pubcomp 9) (ex_world true) (MQTTProtocol_handlePubcomps (MkAck 112 9) 5 (ex_world true))
    (fun w' => w_net w' = w_net (ex_world true) /\
       w_ps w' = forget (Some mem_store) 1 ["s-9"%string; "sc-9"%string] (w_ps (ex_world true)) /\
       w_msgs_sent w' = 1).
Proof.
  split; [reflexivity|].
  apply (handlePubcomps_refines (ex_world true) 5 1%positive (ex_client true) ex_session (MkAck 112 9));
    [apply ex_winv|apply ex_at|apply ex_session_of|unfold MAX_MSG_ID; simpl; lia].
Defined.

Example handlePubrecs_refines_witness :
  in_phase (expects PUBREC) 8 (s_out ex_session) = true /\
  outcome 1%positive (recv_pubrec 8) (ex_world true) (MQTTProtocol_handlePubrecs (MkAck 80 8) 5 (ex_world true))
    (fun w' => exists w1 w2 rc, quiet (ex_world true) w1 /\ w_net w1 = w_net (ex_world true) /\
       w_ps w1 = w_ps (ex_world true) /\ MQTTPacket_send_pubrel 8 0 1%positive w1 = Some (rc, w2) /\
       w_ps w' = w_ps w2).
Proof.
  split; [reflexivity|].
  apply (handlePubrecs_refines (ex_world true) 5 1%positive (ex_client true) ex_session (MkAck 80 8));
    [apply ex_winv|apply ex_at|apply ex_session_of|unfold MAX_MSG_ID; simpl; lia].
Defined.

(** A QoS 2 PUBLISH with the id of a message that is stored already. *)
Definition ex_publish (header id : Z) (t : byte) : Publish := MkPublish header (Some [116; t]) 2 id [9; 9; t; 0; 0] 3.

Example handlePublishes_refines_witness :
  hdr_qos 60 = 2 /\
  outcome 1%positive (recv_publish (ex_publish 60 3 7)) (ex_world true)
    (MQTTProtocol_handlePublishes 77 (ex_publish 60 3 7) 5 (ex_world true))
    (sends_ack (MQTTPacket_send_pubrec 3 1%positive) (ex_world true)).
Proof.
  split; [reflexivity|].
  apply (handlePublishes_refines 77 (ex_world true) 5 1%positive (ex_client true) ex_session (ex_publish 60 3 7) [116; 7]);
    [apply ex_winv|apply ex_at|apply ex_session_of|reflexivity|vm_compute; split; discriminate|
     vm_compute; split; discriminate|right; vm_compute; split; [discriminate|reflexivity]].
Defined.

Example handlePubrels_refines_witness :
  in_phase (expects PUBREL) 3 (s_in ex_session) = true /\
  outcome 1%positive (recv_pubrel 3) (ex_world true) (MQTTProtocol_handlePubrels 77 (MkAck 98 3) 5 (ex_world true))
    (fun w' => sends_ack (MQTTPacket_send_pubcomp 3 1%positive) (ex_world true) w' /\ w_msgs_received w' = 1 /\
       w_ps w' = released_store (ex_client true) 3 (s_in ex_session) (w_ps (ex_world true))).
Proof.
  split; [reflexivity|].
  apply (handlePubrels_refines 77 (ex_world true) 5 1%positive (ex_client true) ex_session (MkAck 98 3));
    [apply ex_winv|apply ex_at|apply ex_session_of|vm_compute; split; discriminate|
     right; vm_compute; split; [discriminate|reflexivity]].
Defined.

(** Id 4 is published twice and released twice, around the release of id 3. *)
Definition ex_packets : list inpacket :=
  [IPublish (ex_publish 52 4 8); IPublish (ex_publish 60 4 8); IPubrel (MkAck 98 3); IPubrel (MkAck 98 4);
   IPubrel (MkAck 106 4)].

Example exactly_once_witness :
  deliveries 4 None ex_packets = [released (inbound_msg (ex_publish 52 4 8))] /\
  exists w' s' new, receive_all 77 5 ex_packets (ex_world true) = Some (tt, w') /\ winv w' /\
    session_of w' 1%positive = Some s' /\ s_queue s' = s_queue ex_session ++ new /\
    forall id, filter (qos2_with id) new = deliveries id (find_id id (s_in ex_session)) ex_packets.
Proof.
  split; [reflexivity|].
  apply (exactly_once 77 (ex_world true) 5 1%positive (ex_client true) ex_session ex_packets);
    [apply ex_winv|apply ex_at|apply ex_session_of|repeat constructor|right; vm_compute; split; discriminate|].
  repeat constructor; simpl; try (by eexists); vm_compute; discriminate.
Defined.

(** Client 1 last used id 9; client 2 last used 4. *)
Example assignMsgId_spec_witness :
  id_used (ex_world true) (ex_client true) 10 = false /\
  exists k w1 x1, 1 <= candidate 9 k <= MAX_MSG_ID /\ id_used (ex_world true) (ex_client true) (candidate 9 k) = false /\
    (forall i, 1 <= i < k -> id_used (ex_world true) (ex_client true) (candidate 9 i) = true) /\
    quiet (ex_world true) w1 /\ w_cl w1 !! 1%positive = Some x1 /\
    MQTTProtocol_assignMsgId 1%positive (ex_world true) =
      Some (candidate 9 k, set_cl (<[1%positive := set_msgID (candidate 9 k) x1]> (w_cl w1)) w1).
Proof.
  split; [reflexivity|].
  apply (assignMsgId_spec (ex_world true) 1%positive (ex_client true));
    [apply ex_winv|reflexivity|vm_compute; split; discriminate|].
  exists 10. split; [vm_compute; split; discriminate|]. split; [vm_compute; discriminate|reflexivity].
Defined.

(** Publishing with QoS 2 and id 10. *)
Definition ex_new : Publish := MkPublish 0 (Some [97; 47; 98]) 3 10 [5; 6; 7] 3.

Example startPublish_stores_witness :
  find_id 10 (s_out ex_session) = None /\
  exists m w1 buf0 bufs frees,
    (winv w1 /\ steps 1%positive (s_add (outbound_msg 77 false ex_new [97; 47; 98] 2 1)) (ex_world true) w1 /\
     shell (ex_world true) w1 /\
     w_ps w1 = put_record (Some mem_store) 1 "s-10" (buf0 :: bufs) (w_ps (ex_world true)) /\
     restores_to (buf0 :: bufs) (MkPublish (publish_header 0 2 1) (Some [97; 47; 98]) 3 10 [5; 6; 7] 3)) /\
    (forall T : Transport skernel _, MQTTProtocol_startPublish 77 false 1%positive ex_new 2 1 None (ex_world true) =
       (rc ← putdatas 5 buf0 bufs frees;
        when (rc =? TCPSOCKET_COMPLETE) (stamp_sent 1%positive);;
        mret (rc, Some m)) w1) /\
    exists rc w', MQTTProtocol_startPublish 77 false 1%positive ex_new 2 1 None (ex_world true) = Some ((rc, Some m), w') /\
      winv w' /\ steps 1%positive (s_add (outbound_msg 77 false ex_new [97; 47; 98] 2 1)) (ex_world true) w' /\
      shell (ex_world true) w' /\ w_ps w' = w_ps w1.
Proof.
  split; [reflexivity|].
  apply (startPublish_stores 77 false (ex_world true) 1%positive (ex_client true) ex_session ex_new [97; 47; 98] 2 1);
    [apply ex_winv|split; [apply ex_winv|apply ex_at]|apply ex_session_of|reflexivity|vm_compute; split; discriminate|
     lia|vm_compute; split; discriminate|reflexivity|reflexivity|reflexivity].
Defined.

(** * Crash and recovery *)

#[export] Instance mem_store_laws h : StoreLaws mem_store h.
Proof.
  refine {| records := fun s => s; store_ok := fun _ => True |}.
  - intros k s d _ Hd. exists s. simpl. by rewrite Hd.
  - intros k s _ _. simpl. destruct (s !! k) as [d|] eqn:E.
    + exists 0, s. do 3 (split; [done|]). split; [by exists d|done].
    + exists (-2), s. do 3 (split; [done|]). split; [done|by intros []].
  - intros k s _ _. by exists (delete k s).
  - intros s _. exists (map_to_list s).*1, s. do 3 (split; [done|]). split; [apply NoDup_fst_map_to_list|].
    intros k. rewrite list_elem_of_fmap. split.
    + intros ([k' d] & -> & Hk%elem_of_map_to_list). by exists d.
    + intros [d Hd]. exists (k, d). split; [done|]. by apply elem_of_map_to_list.
  - intros k bufs s _ _. by exists (<[k := concat bufs]> s).
Defined.

(** A client without messages, on a store. *)
Definition ex_fresh (R : gmap string (list byte)) : world skernel (gmap string (list byte)) :=
  MkWorld (w_net (ex_world true)) R (ex_list [1%positive])
    {[ 1%positive := MkClient (ConnectData [99; 49] None None 0 60 None) true true false 0 (MkNet 5 100 100) 9 20 10
       LSpec.empty LSpec.empty LSpec.empty 0 1 (Some mem_store) ]}
    (ex_list [1%positive]) {[ 1%positive := MkHandle true true true [104] ]} ∅ ∅ ∅ LSpec.empty LSpec.empty 0 0 0 [] true.

Definition ex_fresh_client : Clients (gmap string (list byte)) :=
  MkClient (ConnectData [99; 49] None None 0 60 None) true true false 0 (MkNet 5 100 100) 9 20 10
    LSpec.empty LSpec.empty LSpec.empty 0 1 (Some mem_store).

(** A QoS 1 message, two QoS 2 messages, the second released, a received message,
    a PUBREL that belongs to no message, and a command. *)
Definition ex_records : gmap string (list byte) :=
  {[ "s-10" := [51; 8; 0; 3; 97; 47; 98; 0; 10; 5]; "s-11" := [52; 7; 0; 3; 97; 47; 98; 0; 11];
     "s-7" := [52; 7; 0; 3; 97; 47; 98; 0; 7]; "sc-7" := [98; 2; 0; 7]; "sc-8" := [98; 2; 0; 8];
     "r-3" := [52; 8; 0; 3; 97; 47; 98; 0; 3; 6]; "c-1" := [1] ]}%string.
Definition ex_outs : list amsg :=
  [AMsg 7 2 0 PUBCOMP [97; 47; 98] 3 [] 0; AMsg 10 1 1 77 [97; 47; 98] 3 [5] 1; AMsg 11 2 0 PUBREC [97; 47; 98] 3 [] 0].
Definition ex_ins : list amsg := [AMsg 3 2 0 PUBREL [97; 47; 98] 3 [6] 1].

#[export] Instance amsg_eq_dec : EqDecision amsg.
Proof. solve_decision. Defined.

(** Records are checked by evaluation. *)
Definition record_at (R : gmap string (list byte)) (k : string) : option amsg :=
  d ← R !! k;
  match MQTTPersistence_restorePacket d (zlen d) with
  | Some (Some (PPublish p)) =>
      topic ← pb_topic p;
      if bool_decide (0 <= pb_payloadlen p <= zlen (pb_payload p) /\ 0 <= pb_msgId p <= MAX_MSG_ID)
      then Some (restored_msg p topic 0) else None
  | _ => None
  end.

Lemma record_at_sound R k a : record_at R k = Some (am_with_next 0 a) -> publish_record R k a.
Proof.
  unfold record_at, publish_record. intros (d & Hd & E)%option.bind_Some.
  destruct (MQTTPersistence_restorePacket d (zlen d)) as [[[|p| | |]|]|] eqn:Ep; try done.
  apply option.bind_Some in E as (topic & Ht & E). case_bool_decide as Hp; [|done]. injection E as E. destruct Hp as [Hp Hid].
  exists d, p, topic. split; [done|]. split; [exact Ep|]. split; [done|]. split; [done|]. split; [done|].
  destruct a. unfold am_with_next, restored_msg in *. simpl in *. congruence.
Qed.

Definition records_checked (R : gmap string (list byte)) (key : Z -> string) (next : amsg -> Z) (l : list amsg) : bool :=
  forallb (fun a => bool_decide (record_at R (key (am_id a)) = Some (am_with_next 0 a)) && (am_next a =? next a)) l.

Lemma records_checked_sound R key next l :
  records_checked R key next l = true -> Forall (fun a => publish_record R (key (am_id a)) a /\ am_next a = next a) l.
Proof.
  intros Hl. apply Forall_forall. intros a Ha. apply list_elem_of_In in Ha. unfold records_checked in Hl. rewrite forallb_forall in Hl.
  apply Hl in Ha as [Hr%bool_decide_eq_true Hn%Z.eqb_eq]%andb_true_iff. split; [by apply record_at_sound|done].
Qed.

Lemma ex_image : image 77 ex_records ex_outs ex_ins.
Proof.
  split.
  - apply (records_checked_sound _ sent_key (sent_next 77 ex_records)). by vm_compute.
  - apply (records_checked_sound _ received_key (fun _ => PUBREL)). by vm_compute.
  - apply (bool_decide_unpack _). by vm_compute.
  - apply (bool_decide_unpack _). by vm_compute.
  - intros k [d Hk]. unfold ex_records in Hk.
    repeat (apply lookup_insert_Some in Hk as [[<- <-]|[_ Hk]]); [..|apply lookup_singleton_Some in Hk as [<- <-]].
    + apply (KSent _ _ _ (AMsg 10 1 1 77 [97; 47; 98] 3 [5] 1)). unfold ex_outs. set_solver.
    + apply (KSent _ _ _ (AMsg 11 2 0 PUBREC [97; 47; 98] 3 [] 0)). unfold ex_outs. set_solver.
    + apply (KSent _ _ _ (AMsg 7 2 0 PUBCOMP [97; 47; 98] 3 [] 0)). unfold ex_outs. set_solver.
    + apply (KPubrel _ _ _ 7 [98; 2; 0; 7] 98); [unfold MAX_MSG_ID; lia|reflexivity|reflexivity].
    + apply (KPubrel _ _ _ 8 [98; 2; 0; 8] 98); [unfold MAX_MSG_ID; lia|reflexivity|reflexivity].
    + apply (KReceived _ _ _ (AMsg 3 2 0 PUBREL [97; 47; 98] 3 [6] 1)). unfold ex_ins. set_solver.
    + by apply KOther.
Qed.

Lemma ex_fresh_winv R : winv (ex_fresh R).
Proof. apply checked_winv, (bool_decide_unpack _). vm_compute. exact I. Qed.

Lemma ex_fresh_at R : at_socket (ex_fresh R) 5 1%positive ex_fresh_client.
Proof. apply found_at; [|done]. apply (bool_decide_unpack _). vm_compute. exact I. Qed.

Example restore_session_witness :
  image 77 ex_records ex_outs ex_ins /\
  exists w' ins', MQTTPersistence_restore 77 1%positive (ex_fresh ex_records) = Some (0, w') /\ winv w' /\
    shell (ex_fresh ex_records) w' /\ ins' ≡ₚ ex_ins /\
    steps 1%positive (fun _ => Sess ins' (wrapped ex_outs) []) (ex_fresh ex_records) w' /\
    forall k, (orphan ex_records k -> w_ps w' !! k = None) /\ (~ orphan ex_records k -> w_ps w' !! k = ex_records !! k).
Proof.
  split; [apply ex_image|].
  destruct (restore_session mem_store 1 77 (ex_fresh ex_records) 1%positive ex_fresh_client (Sess [] [] []) ex_outs ex_ins)
    as (w' & ins' & E & Iw & Sh & Hp & St & _ & Hk);
    [apply ex_fresh_winv|reflexivity|reflexivity|reflexivity|reflexivity|reflexivity|reflexivity|exact I|apply ex_image| |].
  - repeat constructor; vm_compute; discriminate.
  - exists w', ins'. do 5 (split; [assumption|]). exact Hk.
Defined.

(** A QoS 2 message that is released while a QoS 1 message comes and goes. *)
Definition ex_events : list sevent :=
  [EPublish false ex_new [97; 47; 98] 2 1; EPuback (MkAck 64 10); EPubrec (MkAck 80 10);
   EPublish false (MkPublish 0 (Some [97]) 1 11 [5] 1) [97] 1 0; EPuback (MkAck 64 11); EPubcomp (MkAck 112 3)].

Lemma empty_mirror : mirror 77 ∅ (Sess [] [] []).
Proof.
  exists []. split; [done|]. split; [|by intros id []].
  split; [apply Forall_nil; done|apply Forall_nil; done|apply NoDup_nil_2|apply NoDup_nil_2|by intros k []].
Qed.

Example sender_durable_witness :
  sent_steps 77 ex_events (Sess [] [] []) = Sess [] [AMsg 10 2 1 PUBCOMP [97; 47; 98] 3 [5; 6; 7] 3] [] /\
  exists w1, send_events 77 5 1%positive ex_events (ex_fresh ∅) = Some (tt, w1) /\ winv w1 /\
    session_of w1 1%positive = Some (sent_steps 77 ex_events (Sess [] [] [])) /\
    forall (w2 : world skernel (gmap string (list byte))) c2 x2 s2,
      winv w2 -> w_cl w2 !! c2 = Some x2 -> c_persistence x2 = Some mem_store -> c_phandle x2 = 1 ->
      session_of w2 c2 = Some s2 -> s_in s2 = [] -> s_out s2 = [] -> w_ps w2 = w_ps w1 ->
      exists w3 s3, MQTTPersistence_restore 77 c2 w2 = Some (0, w3) /\ winv w3 /\ session_of w3 c2 = Some s3 /\
        plain <$> s_out s3 ≡ₚ plain <$> s_out (sent_steps 77 ex_events (Sess [] [] [])) /\
        s_in s3 ≡ₚ s_in (sent_steps 77 ex_events (Sess [] [] [])).
Proof.
  split; [reflexivity|].
  destruct (sender_durable mem_store 1 77 (ex_fresh ∅) 5 1%positive ex_fresh_client (Sess [] [] []) ex_events)
    as (w1 & E & Iw & _ & Hs & Hrest);
    [apply ex_fresh_winv|apply ex_fresh_at|reflexivity|reflexivity|reflexivity|exact I|apply empty_mirror| |].
  - simpl. repeat split; try reflexivity; vm_compute; discriminate.
  - exists w1. do 3 (split; [assumption|]). intros w2 c2 x2 s2 I2 Hx Hp Hh Hs2 Hin Hout E2.
    exact (Hrest w2 c2 x2 s2 I2 Hx Hp Hh Hs2 Hin Hout I E2).
Defined.
(** * The calls of the application *)

Example dispatch_refines_witness :
  MQTTPacket_ack 64 [0; 7] 2 = Some (Some (PAck (MkAck 64 7))) /\
  dispatched 1%positive true (PAck (MkAck 64 7)) 0 (ex_world true)
    (dispatch 77 5 1%positive (PAck (MkAck 64 7)) 0 (ex_world true)).
Proof.
  split; [reflexivity|].
  assert (D := dispatch_refines 77 (ex_world true) 5 1%positive (ex_client true) ex_session (MkHandle true true true [104])
    (PAck (MkAck 64 7)) 64 [0; 7] 2 MQTTPacket_ack 0). apply D;
    [apply ex_winv|apply ex_at|apply ex_session_of|reflexivity|right; vm_compute; split; [discriminate|reflexivity]|
     reflexivity|reflexivity|vm_compute; split; discriminate].
Defined.

Lemma net_ok_iff (n : net skernel) :
  Forall (fun a => a ∈ LSpec.addrs (clientsds (n_s n))) (option_list (cur_clientsds (n_s n))) /\
  (LSpec.wf (clientsds (n_s n)) /\ LSpec.wf (queues (n_buf n))) /\
  is_Some (sq (n_buf n) !! def_queue (n_buf n)) /\ def_queue (n_buf n) ∉ LSpec.contents (queues (n_buf n)) -> net_ok n.
Proof.
  intros (H1 & H2 & H3 & H4). split; try done. intros a Ha. rewrite Ha in H1. by inversion H1.
Qed.

Lemma ex_world_net_ok : net_ok (w_net (ex_world true)).
Proof. apply net_ok_iff, (bool_decide_unpack _). vm_compute. exact I. Qed.

Example disconnect_internal_spec_witness :
  exists w' x', MQTTClient_disconnect_internal 1%positive (ex_world true) = Some (MQTTCLIENT_SUCCESS, w') /\ winv w' /\
    w_cl w' !! 1%positive = Some x' /\ closed (ex_client true) x' /\ steps 1%positive (s_closed 0) (ex_world true) w' /\
    apart 1%positive (ex_world true) w' /\ w_events w' = [ConnectionLost 1%positive] /\ w_ps w' = w_ps (ex_world true).
Proof.
  destruct (disconnect_internal_spec (ex_world true) 1%positive (ex_client true) ex_session (MkHandle true true true [104]))
    as (w' & x' & D);
    [apply ex_winv|reflexivity|apply ex_session_of|reflexivity|apply ex_world_net_ok|intros _; apply ex_at|reflexivity|].
  exists w', x'. exact D.
Defined.

(** Two QoS 0 messages and a released QoS 2 message have arrived. *)
Definition ex_queued : world skernel (gmap string (list byte)) :=
  match (_ ← MQTTProtocol_handlePublishes 77 (ex_publish 48 0 7) 5; _ ← MQTTProtocol_handlePubrels 77 (MkAck 98 3) 5;
         MQTTProtocol_handlePublishes 77 (ex_publish 48 0 8) 5) (ex_world true) with
  | Some (_, w') => w'
  | None => ex_world true
  end.

Definition ex_queued_client : Clients (gmap string (list byte)) :=
  match w_cl ex_queued !! 1%positive with Some x => x | None => ex_client true end.

Definition ex_queued_session : session :=
  Sess [] (s_out ex_session) [(MkMessage 3 [9; 9; 7] 0 0 0 0, [116; 7], 2); (MkMessage 3 [1; 2; 4] 2 0 0 3, [116; 4], 2);
    (MkMessage 3 [9; 9; 8] 0 0 0 0, [116; 8], 2)].

Lemma ex_queued_session_of : session_of ex_queued 1%positive = Some ex_queued_session.
Proof. vm_compute. reflexivity. Qed.

Lemma ex_queued_at : w_cl ex_queued !! 1%positive = Some ex_queued_client.
Proof. vm_compute. reflexivity. Qed.

Lemma ex_queued_seqnos : seqnos_ok ex_queued ex_queued_client.
Proof.
  intros _. apply Forall_forall. intros q _ e. apply (map_Forall_lookup_1 (fun _ e => 0 <= qe_seqno e <= 999999)).
  apply (bool_decide_unpack _). vm_compute. exact I.
Qed.

Lemma ex_queued_winv : winv ex_queued.
Proof. apply checked_winv, (bool_decide_unpack _). vm_compute. exact I. Qed.

Example deliver_in_order_witness :
  exists w', deliver_all 3 1%positive ex_queued =
      Some ([(0, ([116; 7], 2, MkMessage 3 [9; 9; 7] 0 0 0 0)); (0, ([116; 4], 2, MkMessage 3 [1; 2; 4] 2 0 0 3));
             (0, ([116; 8], 2, MkMessage 3 [9; 9; 8] 0 0 0 0))], w') /\
    winv w' /\ session_of w' 1%positive = Some (Sess [] (s_out ex_session) []) /\ shell ex_queued w' /\ w_net w' = w_net ex_queued.
Proof.
  destruct (deliver_in_order ex_queued 1%positive ex_queued_client ex_queued_session ex_queued_winv ex_queued_at
    ex_queued_session_of ex_queued_seqnos) as (w' & E & D).
  exists w'. split; [exact E|exact D].
Defined.

Example pending_tokens_witness :
  MQTTClient_getPendingDeliveryTokens (Some 1%positive) (ex_world true) =
    Some ((MQTTCLIENT_SUCCESS, Some [7; 8; 9; -1]), ex_world true).
Proof.
  assert (D := pending_tokens (ex_world true) 1%positive (ex_client true) ex_session).
  rewrite D; [reflexivity|apply ex_winv|reflexivity|apply ex_session_of].
Defined.

(** A call that publishes. *)
Definition ex_publish_call (w : world skernel (gmap string (list byte))) :=
  MQTTClient_publish (SQ 0 0 0 [] 0 0 []) 77 1 1 false (Some 1%positive) [97; 47; 98; 0] 3 [5; 6; 7] 2 0 true w.

Example publish_accepts_witness :
  exists (id : Z) (w0 w1 : world skernel (gmap string (list byte))) (rc : Z) (m : loc) (w2 : world skernel (gmap string (list byte)))
    (bufs : list (list byte)),
    onet (Socket_noPendingWrites 5) (ex_world true) = Some (true, w0) /\
    MQTTProtocol_assignMsgId 1%positive w0 = Some (id, w1) /\
    MQTTProtocol_startPublish 77 false 1%positive (call_publish 77 [97; 47; 98; 0] id [5; 6; 7] 3) 2 0 None w1 =
      Some ((rc, Some m), w2) /\
    w_ps w2 = put_record (Some mem_store) 1 (PERSISTENCE_PUBLISH_SENT +:+ pretty id)%string bufs (w_ps w1) /\
    (rc <> TCPSOCKET_INTERRUPTED -> exists w', ex_publish_call (ex_world true) = Some ((MQTTCLIENT_SUCCESS, Some id), w') /\ winv w').
Proof.
  destruct (publish_accepts (SQ 0 0 0 [] 0 0 []) 77 0 1 false (ex_world true) 1%positive (ex_client true) ex_session
    (MkHandle true true true [104]) [97; 47; 98; 0] 3 [5; 6; 7] 2 0 true)
    as (id & w0 & w1 & rc & m & w2 & bufs & _ & _ & E0 & E1 & E2 & _ & _ & _ & E3 & _ & E4).
  - apply ex_winv.
  - split; [apply ex_winv|apply ex_at].
  - apply ex_session_of.
  - reflexivity.
  - apply ex_world_net_ok.
  - by vm_compute.
  - by vm_compute.
  - by vm_compute.
  - by vm_compute.
  - vm_compute. split; discriminate.
  - lia.
  - vm_compute. split; discriminate.
  - exists 20. split; [vm_compute; split; discriminate|]. split; [discriminate|reflexivity].
  - by vm_compute.
  - by vm_compute.
  - exists id, w0, w1, rc, m, w2, bufs. split; [exact E0|]. split; [exact E1|]. split; [exact E2|]. split; [exact E3|].
    intros Hrc. destruct (E4 Hrc) as (w' & E & I' & _). exists w'. split; [exact E|exact I'].
Defined.
End Scenario.
