(* ===== verification/LoopScenario.v ===== *)
(** A running library: one client that is connected, with a packet on its way, and
    one that is not.  The theorems about the network loop are applied to it. *)
From stdpp Require Import gmultiset.
From S2P Require Import Prelude ListSpec Packet SocketBuffer Socket Reader Writer Wire World Persistence Store Session Protocol Memory Closing Client Live Dispatch Incoming Cycle Yield Completion Scenario.

Module LoopScenario.
Import Packet SocketBuffer Socket Reader Writer Wire World Persistence Store Session Protocol Memory Closing Client Live Dispatch Incoming Cycle Yield Completion Scenario.

(** A PUBLISH of QoS 1 with topic "a" and message id 7. *)
Definition lp_packet : wire := (50, [0; 1; 97; 0; 7; 9; 9]).

Definition lp_net : net skernel :=
  Net (n_buf (Reader.ex_net [] []))
      (MkSockets (LSpec.append (1%positive, 5) 4 LSpec.empty) None LSpec.empty LSpec.empty ∅ {[5]} 6 ∅ ∅)
      (SKernel {[5 := Reader.packet_bytes lp_packet]} ∅ (replicate 20 50) 100).

Definition lp_clients : gmap loc (Clients (gmap string (list byte))) :=
  {[ 1%positive := MkClient (ConnectData [99; 49] None None 0 60 None) true true false 0 (MkNet 5 100 100) 9 20 10
       LSpec.empty LSpec.empty LSpec.empty 0 1 (Some mem_store);
     2%positive := MkClient (ConnectData [99; 50] None None 1 0 None) false false false 0 (MkNet 0 0 0) 4 20 10
       LSpec.empty LSpec.empty LSpec.empty 0 2 None ]}.

Definition lp_world : world skernel (gmap string (list byte)) :=
  MkWorld lp_net ∅ (ex_list [1%positive; 2%positive]) lp_clients (ex_list [1%positive; 2%positive])
    {[ 1%positive := MkHandle true true true [104]; 2%positive := MkHandle true true true [104] ]}
    ∅ ∅ ∅ LSpec.empty LSpec.empty 0 0 100 [] true.

Lemma lp_net_safe : net_safe lp_net.
Proof.
  split.
  - done.
  - apply (bool_decide_unpack _). vm_compute. exact I.
  - apply (bool_decide_unpack _). vm_compute. exact I.
  - destruct (Reader.ex_net_boundary [] []) as [Hwf _]. exact Hwf.
  - split; simpl; try apply LSpec.wf_empty; try apply NoDup_nil_2; intros ? Hin; by apply elem_of_nil in Hin.
Qed.

Lemma lp_client c x :
  client_in lp_world c -> w_cl lp_world !! c = Some x ->
  c = 1%positive /\ x = MkClient (ConnectData [99; 49] None None 0 60 None) true true false 0 (MkNet 5 100 100) 9 20 10
       LSpec.empty LSpec.empty LSpec.empty 0 1 (Some mem_store) \/
  c = 2%positive /\ x = MkClient (ConnectData [99; 50] None None 1 0 None) false false false 0 (MkNet 0 0 0) 4 20 10
       LSpec.empty LSpec.empty LSpec.empty 0 2 None.
Proof.
  intros Hc Hx. unfold client_in in Hc. simpl in Hc. unfold LSpec.contents in Hc. simpl in Hc.
  apply elem_of_cons in Hc as [->|Hc]; [left; split; [done|]; by injection Hx|].
  apply list_elem_of_singleton in Hc as ->. right. split; [done|]. by injection Hx.
Qed.

Lemma lp_live : live lp_world.
Proof.
  split.
  - apply checked_winv, (bool_decide_unpack _). vm_compute. exact I.
  - apply lp_net_safe.
  - apply NoDup_nil_2.
  - done.
  - intros c Hc. unfold client_in in Hc. unfold LSpec.contents in Hc. simpl in Hc.
    apply elem_of_cons in Hc as [->|Hc]; [by eexists|]. apply list_elem_of_singleton in Hc as ->. by eexists.
  - intros c x Hc Hx. by destruct (lp_client c x Hc Hx) as [[-> ->]|[-> ->]].
  - intros c c' x x' Hc Hc' Hx Hx'. destruct (lp_client c x Hc Hx) as [[-> ->]|[-> ->]], (lp_client c' x' Hc' Hx') as [[-> ->]|[-> ->]]; done.
Qed.

Definition lp_states (c : loc) : session * link := (Sess [] [] [], if decide (c = 1%positive) then On [lp_packet] else Off).

Lemma lp_running : running 1 lp_states lp_world.
Proof.
  split; [apply lp_live| |].
  - intros c Hc. destruct (live_client _ _ lp_live Hc) as (x & s & m & Hx & _ & _).
    destruct (lp_client c x Hc Hx) as [[-> ->]|[-> ->]]; (split; [done|]); eexists; (split; [exact Hx|]); [|done]. simpl.
    split; [done|]. split.
    + apply Forall_singleton. split; [unfold Reader.packet_ok; vm_compute; done|]. eexists. split; [reflexivity|]. simpl.
      split; [by eexists|]. vm_compute. split_and!; discriminate.
    + apply (rest_stream 5 [lp_packet] []). split; [|done]. apply kept_none. intros q v [Hq _]. by apply elem_of_nil in Hq.
  - intros c x Hc Hx. destruct (lp_client c x Hc Hx) as [[-> ->]|[-> ->]]; [right; simpl; lia|by left].
Qed.

Lemma lp_settled : settled lp_states lp_world.
Proof. split; [by eexists|]. intros c _. unfold lp_states. simpl. by case_decide. Qed.

Lemma lp_supplied : supplied 1 lp_states lp_world.
Proof. intros c ps _. unfold lp_states. simpl. case_decide; [|done]. intros [= <-]. simpl. lia. Qed.

(** The packet is received, acknowledged and kept for the application. *)
Example lp_yield :
  (fun r => session_of r.2 1%positive) <$> MQTTClient_yield Reader.ex_junk 77 1 lp_world =
  Some (Some (Sess [] [] [(MkMessage 2 [9; 9] 1 0 0 7, [97], 1)])).
Proof. vm_compute. reflexivity. Qed.

Example cycle_refines_witness :
  exists sock rc' pack w', MQTTClient_cycle Reader.ex_junk 77 100 0 lp_world = Some ((sock, rc', pack), w') /\
    exists A', running 0 A' w' /\ progress 1 lp_states A' lp_world w' /\ (settled A' w' \/ rc' = SOCKET_ERROR /\ failed sock A' w').
Proof. apply cycle_refines; [reflexivity|apply lp_running|apply lp_settled|apply lp_supplied]. Defined.




(** The same client with a clean session, whose peer resets the connection after
    taking a PUBLISH. *)
Definition lp_reset : world skernel (gmap string (list byte)) :=
  MkWorld
    (Net (n_buf lp_net) (n_s lp_net) (SKernel ∅ ∅ [50; -104] 100))
    ∅ (w_handles lp_world)
    (<[1%positive := MkClient (ConnectData [99; 49] None None 1 60 None) true true false 0 (MkNet 5 100 100) 9 20 10
       LSpec.empty LSpec.empty LSpec.empty 0 1 (Some mem_store)]> lp_clients)
    (ex_list [1%positive; 2%positive])
    {[ 1%positive := MkHandle true true true [104]; 2%positive := MkHandle true true true [104] ]} ∅ ∅ ∅ LSpec.empty LSpec.empty 0 0 100 [] true.

(** The message is published; waiting for its completion meets the reset
    connection, closes the client and with its clean session drops the message,
    and then reports success: nothing is in flight. *)
Example lp_dropped :
  (fun r => (r.1, session_of r.2 1%positive)) <$>
    (r ← MQTTClient_publish Reader.ex_junk 77 1 1 true (Some 1%positive) [97; 0] 2 [8; 8] 1 0 true;
     rc ← MQTTClient_waitForCompletion Reader.ex_junk 77 5 1 (Some 1%positive) 10 5000;
     mret (r, rc)) lp_reset =
  Some ((MQTTCLIENT_SUCCESS, Some 10), MQTTCLIENT_SUCCESS, Some (Sess [] [] [])).
Proof. vm_compute. reflexivity. Qed.
End LoopScenario.
